(* ===== verification/_CoqProject ===== *)
-Q . S2P
Prelude.v
Words.v
Doubles.v
Mt19937.v
Packet.v
Crc32.v
Wire.v
Fips180.v
Sha256.v
Filename.v
Transfer.v
PriorityQueue.v
SenderWindow.v
ReceiverWindow.v
FileIO.v
Disk.v
Net.v
Text.v
Ownership.v
Monad.v
ReceiverSession.v
Offline.v
Health.v
Footprint.v
Delivery.v
Answers.v
Scenarios.v
Receiver.v
Server.v
ServerSpec.v
ServerRule.v
ServerFiles.v
ServerFds.v
Sender.v
SenderLoss.v
SenderSpec.v
DelayProxy.v
EndToEnd.v
ServerDelivery.v
ServerCrowd.v
ServerAnswers.v
DelayProxySpec.v
Cli.v
SenderTerm.v
Link.v
Lossy.v
Simnet.v
Simserver.v
Simlink.v
Simrelay.v
