(* ===== verification/Prelude.v ===== *)
(** * SwiftLink: a verified model of a reliable file transfer over UDP

    SwiftLink sends files over UDP with Selective Repeat: the sender cuts a file
    into numbered chunks and keeps a window of unacknowledged ones in flight, the
    receiver stores each chunk at its own offset, acknowledges it, and publishes
    the file once the SHA-256 of what is on disk matches the digest of the FIN
    packet.  A server multiplexes many receiving sessions over one socket.

    ** The program's parts and the files that model them

    - Prelude.v: tactics, hint databases, list lemmas.  Words.v: machine words as
      [Z] with explicit wrap-around, bytes, big-endian encodings, rings.
      Doubles.v: the [double]s, as the binary64 numbers of SpecFloat.  Mt19937.v:
      [std::mt19937_64], bit for bit, and the uniform doubles drawn from it.
    - Packet.v: packet types, headers, decode results and status codes
      (include/swiftlink/protocol/packet.hpp, status.hpp and their .cpp files).
      Enums are inductive types with their raw values; records are structs.
    - Crc32.v: src/protocol/crc32.cpp, table and all.
    - Wire.v: src/protocol/serializer.cpp; buffers are byte lists updated in
      place, offsets as in the source.
    - Sha256.v: src/crypto/sha256.cpp, the streaming hasher with its 64-byte
      buffer.  Fips180.v: SHA-256 as the standard states it, written apart from the
      code and with its constants computed as roots of primes, to compare with.
    - Filename.v: src/transfer/filename.cpp.
    - Transfer.v: include/swiftlink/transfer/transfer.hpp (chunk counts, errors,
      counters, elapsed seconds and throughput).
    - PriorityQueue.v: the [std::priority_queue] interface as a class with laws;
      the clients are proved against the laws, and a sorted list meets them.
    - SenderWindow.v and ReceiverWindow.v: the two classes of
      src/transfer/window.cpp, with the abstract windows they refine.
    - FileIO.v: src/io/file.cpp over a class of system calls ([Posix]) whose laws
      ([PosixLaws]) say what POSIX documents of them; Disk.v: an in-memory file
      system that meets the laws, with scripted short, interrupted and failing
      transfers.
    - ReceiverSession.v: src/transfer/receiver_session.cpp, every handler and the
      destructor, over the file interface.
    - Delivery.v: the session driven by the packets of an honest sender over a
      network that loses, repeats and reorders.
    - Net.v: src/net/udp_socket.cpp over a class of socket calls and a clock
      ([Network], [NetworkLaws]), with addresses as text.  Ownership.v: the
      owning wrappers of a descriptor (include/swiftlink/io/unique_fd.hpp and the
      moves of [File] and [UdpSocket]).
    - Monad.v: system calls, local objects and early returns as a monad, with
      triples.  Sender.v: src/transfer/sender.cpp in it, from [LossSimulator] and
      [send_packet] to [send_file]; the counters and the simulator are the local
      objects.  SenderLoss.v: its simulated loss, as a network that loses.  SenderSpec.v: what it
      sends and what its success means.  SenderTerm.v: it comes to an end.
    - Receiver.v: [receive_file] of src/transfer/receiver.cpp over the session and
      the socket, with its theorems; Offline.v: file operations leave the network
      alone.
    - EndToEnd.v: [send_file] on one system, [receive_file] on another, and a
      network between them that loses, repeats, reorders and corrupts.
    - Server.v: src/server/epoll_server.cpp: the event loop, the session table (a
      [std::map]), admission, eviction, the sweep.  ServerSpec.v: its theorems, over
      the tables the loop can reach.
    - Footprint.v: the changes one packet makes to the file system, whatever the
      session.  ServerRule.v: a proof rule that lifts what is shown of one session
      to the whole run of the server.  On top of both, ServerFiles.v: what the server
      can do to the file system; ServerFds.v: which descriptors it holds;
      ServerDelivery.v: a transfer to the server while other peers use it too;
      ServerCrowd.v: many transfers to it at once.
    - Health.v: systems whose calls succeed, up to signals and short transfers.  On
      them, Answers.v says what a session answers an honest sender, and ServerAnswers.v
      what the server does, datagram by datagram.  Link.v: a sender's system and a
      server's, one behind the other's socket calls, on a line that loses what a list
      of fates says.  Lossy.v: a transfer over it completes.
    - Text.v: [std::from_chars] for integers and for doubles.  Cli.v: option parsing and [main] of
      src/client/client_main.cpp (Module [Client]) and src/server/server_main.cpp
      (Module [Daemon]), down to [send_file] and [run].
    - DelayProxy.v: tools/delay_proxy.cpp, its random decisions, its queue, its loop
      and its command line.  DelayProxySpec.v: its theorems.
    - Scenarios.v, Simnet.v, Simserver.v, Simlink.v, Simrelay.v: evaluated runs of
      the session, of both ends of a transfer on a scripted network, of the server, of
      a line that loses and of the proxy: the witnesses of the claims, and behaviours that differ from what the
      comments say.

    Handlers are functions from the packet, the object's record and the state of
    the file system to the new ones and the reply, in the order of the source's
    statements; early returns are the branches of the conditionals.

    ** What the theorems show

    - Encoding: decoding inverts encoding, accepted datagrams are exactly the
      encodings, each rejection is the first violated check, and bursts of up to
      32 bits of corruption never get through, wherever in a byte they begin, as
      long as they do not straddle an edge of the checksum field; the CRC is
      polynomial division, the hasher is FIPS 180-4 however the input is cut.
    - Windows: ring, heap and generation counters implement a set of
      unacknowledged packets with armed deadlines; the receiver's ring implements
      the set of stored chunks; nothing slides past an unacknowledged or missing
      packet, and no chunk is stored twice.
    - Files and sessions: positional reads and writes are exact under short and
      interrupted calls; a session touches only its two names and its one file,
      publishes only what was verified, delivers exactly the sender's file,
      completes once every chunk is acknowledged on a file system that does not
      fail, stays inert once settled and leaves nothing behind when abandoned; a
      failed [receive_file] changes no directory entry but its temporary one, except
      when only the reply to a FIN it had honoured could not be sent.
    - Sender and sockets: [send_file] sends nothing but the packets of its file,
      field by field, to its destination, succeeds only after every chunk and both control
      packets were acknowledged, and returns whatever happens, provided receives take
      time; with simulated loss it is the sender without it on a network that loses
      what probability and seed say; timeouts never mean "for ever", descriptors are closed exactly once.
    - Both ends: when [receive_file] succeeds, the file under the sanitised name is
      the sender's; when [send_file] succeeds, it is there.  The network of these
      theorems ([carried]) may do anything short of forging a packet.
    - Server: the table stays within its bounds, sessions do not disturb each other,
      the counters add up, the sweep retires exactly what it should,
      retransmitted FINs are answered and change two counters and a time, nothing outside the output directory is
      touched and no descriptor leaks, whatever peers do together; and the success of
      each of many senders, with ids and names of their own, means that its file is
      there, as long as the other peers keep away from its session id and its two names.
    - Progress: a line that loses fewer datagrams, requests and replies together,
      than a chunk has transmissions does not stop a transfer: [send_file] returns, it
      returns success, and the file has arrived.  This is shown for systems in good
      health, a line that holds a window's replies back for less than a timeout in
      all, and a server window no narrower than the sender's; the server there
      takes each datagram as it comes, in one turn of [drain], and never sweeps.
    - Proxy: what it sends in a direction came from the other side, with at most one
      bit flipped, so that each direction is one of those networks; it keeps the order
      unless asked not to, and its statistics are true.
    - Command lines: what the client accepts has values in stated ranges (wider than
      its messages say: a timeout that wraps negative and a loss of NaN pass) and, for
      files and names that fit the protocol, meets the hypotheses of the theorems on
      the sender; a session id is found, and a printed seed reads back as itself.

    ** Bounds and fuel

    Loops that are not structural take fuel, and a theorem about each shows that
    the fuel given in the definition never runs out: the heap loops take the
    number of entries, [slide] and [advance] the width of the window, the file
    loops the bytes left plus the interruptions the system still has in store
    ([interruptions], part of the interface), the hash loop the number of blocks,
    the sender's [fill] the capacity of the window, the client's [draw_session] 312
    draws, the length of the generator's state, the proxy's [release_due] the
    length of its queue.  The loops that wait for the network run as long as it
    keeps them going: [send_file], [receive_file], [serve], [drain] and [relay] take
    their fuel and say when they are still running, and their theorems cover that
    too; for [send_file] [turns_enough] is fuel that suffices.
    Sequence numbers and generation counters are kept at their widths; the
    theorems on the sender window assume fewer than 2^32 calls, those on the
    receiver window that the distinct chunk numbers and the capacity together stay
    below 2^32, and [ReceiverWindow.classify_wraps] shows why.  Conversions between
    units of time wrap at the 64 bits of [std::chrono]; readings of the clock are
    unbounded, and so are sums with them, except the proxy's release times.

    ** What is not modelled

    Printing, and errno beyond the results of the calls the code inspects.  Where
    the C++ standard leaves an algorithm to the library, the uniform doubles are
    those of libstdc++ and the uniform integers of the proxy's corruption are a
    parameter.  Tests, benchmarks and scripts are left out.  The theorem on progress
    has one sender, and a line that loses but neither repeats nor reorders. *)

From stdpp Require Export prelude strings list gmap.
From Stdlib Require Export ZArith Lia.
From Stdlib Require Strings.Byte Strings.String.

(** The C++ [std::byte], and the [char] of a [std::string]. *)
Abbreviation byte := Corelib.Init.Byte.byte.

Declare Scope swl_scope.
Delimit Scope swl_scope with swl.

(** The hint database of the lemmas that automate the common side conditions
    (ranges of machine words, lengths of encodings). *)
#[export] Set Warnings "-clear-no-such-hyp".
Create HintDb swl discriminated.
#[export] Hint Constants Opaque : swl.
Create Rewrite HintDb swl_len.

(** ** Tactics *)

(** Turn the boolean tests of the code into the propositions they decide. *)
Ltac bool_to_prop :=
  repeat match goal with
  | H : (_ && _)%bool = true |- _ => apply andb_true_iff in H; destruct H
  | H : (_ || _)%bool = false |- _ => apply orb_false_iff in H; destruct H
  | H : (_ && _)%bool = false |- _ => apply andb_false_iff in H
  | H : (_ || _)%bool = true |- _ => apply orb_true_iff in H
  | H : negb _ = true |- _ => apply negb_true_iff in H
  | H : negb _ = false |- _ => apply negb_false_iff in H
  | H : (_ <? _)%Z = true |- _ => apply Z.ltb_lt in H
  | H : (_ <? _)%Z = false |- _ => apply Z.ltb_ge in H
  | H : (_ <=? _)%Z = true |- _ => apply Z.leb_le in H
  | H : (_ <=? _)%Z = false |- _ => apply Z.leb_gt in H
  | H : (_ =? _)%Z = true |- _ => apply Z.eqb_eq in H
  | H : (_ =? _)%Z = false |- _ => apply Z.eqb_neq in H
  | H : (_ <? _)%nat = true |- _ => apply Nat.ltb_lt in H
  | H : (_ <? _)%nat = false |- _ => apply Nat.ltb_ge in H
  | H : (_ <=? _)%nat = true |- _ => apply Nat.leb_le in H
  | H : (_ <=? _)%nat = false |- _ => apply Nat.leb_gt in H
  | H : (_ =? _)%nat = true |- _ => apply Nat.eqb_eq in H
  | H : (_ =? _)%nat = false |- _ => apply Nat.eqb_neq in H
  | H : bool_decide _ = true |- _ => apply bool_decide_eq_true in H
  | H : bool_decide _ = false |- _ => apply bool_decide_eq_false in H
  end.

(** Split on the next guard of a definition, in the goal or in a hypothesis,
    keeping what the guard decided. *)
Ltac split_guard :=
  match goal with
  | |- context [if ?b then _ else _] =>
      let E := fresh "E" in destruct b eqn:E; bool_to_prop
  | H : context [if ?b then _ else _] |- _ =>
      let E := fresh "E" in destruct b eqn:E; bool_to_prop
  end.
Ltac split_guards := repeat (split_guard; simplify_eq/=; try done; try lia).

(** Open a definition given as an equation: [inv_guards H] splits every
    conditional inside [H] and closes the branches that cannot happen. *)
Ltac inv_guards H :=
  repeat (match type of H with
          | context [if ?b then _ else _] =>
              let E := fresh "E" in destruct b eqn:E; bool_to_prop
          | context [match ?x with _ => _ end] =>
              let E := fresh "E" in destruct x eqn:E
          end; simplify_eq/=; try done; try lia).

(** ** Lists *)

Section Lists.
Context {A : Type}.
Implicit Types (l k : list A).

(** [slice i n l] is the C++ span [{l.data() + i, n}]. *)
Definition slice (i n : nat) (l : list A) : list A := take n (drop i l).

Lemma length_slice i n l :
  (i + n <= length l)%nat -> length (slice i n l) = n.
Proof. intros. unfold slice. rewrite length_take, length_drop. lia. Qed.

Lemma slice_app_l i n l k :
  (i + n <= length l)%nat -> slice i n (l ++ k) = slice i n l.
Proof.
  intros. unfold slice. rewrite drop_app_le by lia.
  apply take_app_le. rewrite length_drop. lia.
Qed.

Lemma slice_all l : slice 0 (length l) l = l.
Proof. unfold slice. rewrite drop_0. apply firstn_all. Qed.

Lemma lookup_slice i n l j :
  (j < n)%nat -> slice i n l !! j = l !! (i + j)%nat.
Proof. intros. unfold slice. rewrite lookup_take_lt by lia. apply lookup_drop. Qed.

(** Memory copy: [splice buf i data] is [memcpy(buf + i, data, size)] for a
    destination that is long enough. *)
Definition splice (buf : list A) (i : nat) (data : list A) : list A :=
  take i buf ++ data ++ drop (i + length data) buf.

Lemma length_splice buf i data :
  (i + length data <= length buf)%nat -> length (splice buf i data) = length buf.
Proof.
  intros. unfold splice. rewrite !length_app, length_take, length_drop. lia.
Qed.

Lemma take_splice buf i data :
  (i <= length buf)%nat -> take (i + length data) (splice buf i data) = take i buf ++ data.
Proof.
  intros. unfold splice. rewrite app_assoc.
  apply take_app_length'. rewrite length_app, length_take. lia.
Qed.

Lemma Forall_splice (P : A -> Prop) buf i data :
  Forall P buf -> Forall P data -> Forall P (splice buf i data).
Proof.
  intros. unfold splice. apply Forall_app; split; [by apply Forall_take|].
  apply Forall_app; split; [done|by apply Forall_drop].
Qed.

Lemma take_drop_slice i n l :
  take i l ++ slice i n l ++ drop (i + n) l = l.
Proof.
  unfold slice. rewrite <- drop_drop. by rewrite !take_drop.
Qed.

Lemma imap_same (f : nat -> A -> A) l :
  (forall i x, l !! i = Some x -> f i x = x) -> imap f l = l.
Proof.
  revert f. induction l as [|x l IH]; intros f Hf; [done|]. simpl. f_equal.
  - by apply (Hf 0%nat x).
  - apply IH. intros i y Hi. by apply (Hf (S i)).
Qed.

Lemma imap_replicate (f : nat -> A -> A) l y :
  (forall i x, l !! i = Some x -> f i x = y) -> imap f l = replicate (length l) y.
Proof.
  revert f. induction l as [|x l IH]; intros f Hf; [done|]. simpl. f_equal.
  - by apply (Hf 0%nat x).
  - apply IH. intros i z Hi. by apply (Hf (S i) z).
Qed.

(** Sums, pointwise. *)
Lemma sum_list_with_le (f g : A -> nat) l :
  (forall x, x ∈ l -> (f x <= g x)%nat) -> (sum_list_with f l <= sum_list_with g l)%nat.
Proof.
  induction l as [|x l IH]; intros Hl; [done|]. simpl. pose proof (Hl x ltac:(by left)).
  specialize (IH (fun y Hy => Hl y ltac:(by right))). lia.
Qed.

Lemma sum_list_with_lt (a : A) (f g : A -> nat) l :
  a ∈ l -> (f a < g a)%nat -> (forall x, x ∈ l -> (f x <= g x)%nat) -> (sum_list_with f l < sum_list_with g l)%nat.
Proof.
  intros Ha Hlt. induction l as [|x l IH]; intros Hl; [by apply elem_of_nil in Ha|]. simpl.
  pose proof (Hl x ltac:(by left)) as Hx. pose proof (sum_list_with_le f g l (fun y Hy => Hl y ltac:(by right))) as Hle.
  apply elem_of_cons in Ha as [<-|Ha]; [lia|]. specialize (IH Ha (fun y Hy => Hl y ltac:(by right))). lia.
Qed.

Lemma sum_list_with_const (g : A -> nat) m l : (forall x, x ∈ l -> g x = m) -> sum_list_with g l = (length l * m)%nat.
Proof.
  induction l as [|x l IH]; intros Hl; [done|]. simpl. rewrite (Hl x ltac:(by left)), IH; [done|].
  intros y Hy. apply Hl. by right.
Qed.
End Lists.
#[export] Hint Rewrite @length_app @length_take @length_drop @length_replicate
  @length_insert @length_cons @length_nil : swl_len.

Ltac len := autorewrite with swl_len; try lia; simpl; try lia.
