(* ===== verification/Words.v ===== *)
(** * Machine words and bytes

    Fixed-width unsigned integers are [Z] with their wrap-around written out;
    [std::byte] and the characters of [std::string] are [byte].  [be_bytes] and
    [be_value] are the reference big-endian encoding that the hand-written
    readers and writers of src/src/protocol/serializer.cpp and
    src/src/crypto/sha256.cpp are proved equal to. *)

From S2P Require Import Prelude.

Open Scope Z_scope.

(** ** Unsigned integers of a given width *)

Definition wrap (w z : Z) : Z := z mod 2 ^ w.
Abbreviation u8 := (wrap 8).
Abbreviation u16 := (wrap 16).
Abbreviation u32 := (wrap 32).
Abbreviation u64 := (wrap 64).

Definition fits (w z : Z) : Prop := 0 <= z < 2 ^ w.
#[export] Instance fits_dec w z : Decision (fits w z).
Proof. unfold fits. apply _. Defined.

(** [static_cast<std::int64_t>] of an unsigned 64-bit value: the two's
    complement reading, as used for [off_t] and [std::ptrdiff_t]. *)
Definition s64 (z : Z) : Z := let v := u64 z in if v <? 2 ^ 63 then v else v - 2 ^ 64.

Lemma wrap_fits w z : 0 <= w -> fits w (wrap w z).
Proof. intros. apply Z.mod_pos_bound. lia. Qed.

Lemma wrap_small w z : fits w z -> wrap w z = z.
Proof. apply Z.mod_small. Qed.

Lemma wrap_wrap w z : 0 <= w -> wrap w (wrap w z) = wrap w z.
Proof. intros. by apply wrap_small, wrap_fits. Qed.

Lemma wrap_add_l w a b : wrap w (wrap w a + b) = wrap w (a + b).
Proof. apply Zplus_mod_idemp_l. Qed.

Lemma wrap_add_r w a b : wrap w (a + wrap w b) = wrap w (a + b).
Proof. apply Zplus_mod_idemp_r. Qed.

Lemma fits_le w v z : 0 <= w <= v -> fits w z -> fits v z.
Proof. intros ? []. pose proof (Z.pow_le_mono_r 2 w v). unfold fits. lia. Qed.

Lemma s64_small z : 0 <= z < 2 ^ 63 -> s64 z = z.
Proof.
  intros. unfold s64. rewrite wrap_small by (unfold fits; lia).
  destruct (Z.ltb_spec z (2 ^ 63)); lia.
Qed.

(** The range of a signed 64-bit value. *)
Lemma s64_range z : - 2 ^ 63 <= s64 z < 2 ^ 63.
Proof.
  unfold s64, wrap. pose proof (Z.mod_pos_bound z (2 ^ 64) ltac:(lia)).
  destruct (Z.ltb_spec (z mod 2 ^ 64) (2 ^ 63)); lia.
Qed.

Lemma s64_fits z : - 2 ^ 63 <= z < 2 ^ 63 -> s64 z = z.
Proof.
  intros. destruct (decide (0 <= z)); [apply s64_small; lia|]. unfold s64, wrap.
  assert (z mod 2 ^ 64 = z + 2 ^ 64) as ->.
  { symmetry. apply (Z.mod_unique_pos _ _ (-1)); lia. }
  destruct (Z.ltb_spec (z + 2 ^ 64) (2 ^ 63)); lia.
Qed.

(** A cast to [off_t] that is not negative did not change the value. *)
Lemma s64_nonneg z : 0 <= z < 2 ^ 64 -> 0 <= s64 z -> s64 z = z /\ z < 2 ^ 63.
Proof.
  intros. unfold s64 in *. rewrite wrap_small in * by (unfold fits; lia).
  destruct (Z.ltb_spec z (2 ^ 63)); lia.
Qed.

#[export] Hint Resolve wrap_fits : swl.

(** ** Bits *)

Lemma land_ones_wrap w z : 0 <= w -> Z.land z (Z.ones w) = wrap w z.
Proof. intros. by rewrite Z.land_ones. Qed.

Lemma land_0xFF z : Z.land z 0xFF = z mod 256.
Proof. apply (Z.land_ones z 8). lia. Qed.

Lemma testbit_above w z i : 0 <= w -> fits w z -> w <= i -> Z.testbit z i = false.
Proof.
  intros Hw [H0 Hz] Hi. destruct (decide (z = 0)) as [->|]; [apply Z.bits_0|].
  apply Z.bits_above_log2; [lia|].
  apply Z.lt_le_trans with w; [|done]. apply Z.log2_lt_pow2; lia.
Qed.

Lemma fits_testbit w z :
  0 <= w -> 0 <= z -> (forall i, w <= i -> Z.testbit z i = false) -> fits w z.
Proof.
  intros Hw Hz H. split; [done|].
  destruct (decide (z = 0)) as [->|]; [lia|]. apply Z.log2_lt_pow2; [lia|].
  destruct (Z.lt_ge_cases (Z.log2 z) w) as [|Hge]; [done|].
  specialize (H _ Hge). rewrite Z.bit_log2 in H by lia. done.
Qed.

Lemma lxor_fits w a b : 0 <= w -> fits w a -> fits w b -> fits w (Z.lxor a b).
Proof.
  intros Hw Ha Hb. apply fits_testbit; [done| |].
  - apply Z.lxor_nonneg. unfold fits in *. lia.
  - intros i Hi. by rewrite Z.lxor_spec, !(testbit_above w).
Qed.

Lemma lor_fits w a b : 0 <= w -> fits w a -> fits w b -> fits w (Z.lor a b).
Proof.
  intros Hw Ha Hb. apply fits_testbit; [done| |].
  - apply Z.lor_nonneg. unfold fits in *. lia.
  - intros i Hi. by rewrite Z.lor_spec, !(testbit_above w).
Qed.

Lemma shiftr_fits w n a : 0 <= n <= w -> fits w a -> fits (w - n) (Z.shiftr a n).
Proof.
  intros Hn [Ha0 Ha]. rewrite Z.shiftr_div_pow2 by lia. split.
  - apply Z.div_pos; lia.
  - apply Z.div_lt_upper_bound; [lia|]. by rewrite <- Z.pow_add_r, Zplus_minus by lia.
Qed.

(** Two disjoint bit ranges: or-ing is adding. *)
Lemma lor_shiftl_add a b n :
  0 <= n -> fits n b -> Z.lor (Z.shiftl a n) b = a * 2 ^ n + b.
Proof.
  intros Hn Hb. rewrite <- Z.add_lor_land, Z.shiftl_mul_pow2 by done.
  enough (Z.land (a * 2 ^ n) b = 0) by lia.
  apply Z.bits_inj'. intros i Hi. rewrite Z.land_spec, Z.bits_0.
  destruct (Z.lt_ge_cases i n).
  - by rewrite Z.mul_pow2_bits_low.
  - by rewrite (testbit_above n b) by done; rewrite andb_false_r.
Qed.

Lemma lor_mul a b n : 0 <= n -> fits n b -> Z.lor (a * 2 ^ n) b = a * 2 ^ n + b.
Proof. intros. rewrite <- lor_shiftl_add by done. by rewrite Z.shiftl_mul_pow2. Qed.

#[export] Hint Resolve lxor_fits lor_fits : swl.

(** ** Bytes *)

Definition Z_of_byte (b : byte) : Z := Z.of_N (Strings.Byte.to_N b).

(** [static_cast<std::byte>]: the low eight bits. *)
Definition byte_of_Z (z : Z) : byte :=
  default Byte.x00 (Strings.Byte.of_N (Z.to_N (z mod 256))).

Lemma Z_of_byte_fits b : fits 8 (Z_of_byte b).
Proof. destruct b; by vm_compute. Qed.

Lemma byte_of_Z_of_byte b : byte_of_Z (Z_of_byte b) = b.
Proof. by destruct b. Qed.

Lemma Z_of_byte_of_Z z : Z_of_byte (byte_of_Z z) = z mod 256.
Proof.
  unfold byte_of_Z. pose proof (Z.mod_pos_bound z 256 ltac:(lia)) as Hb.
  destruct (Strings.Byte.of_N _) as [b|] eqn:E; simpl.
  - apply Strings.Byte.to_of_N in E. unfold Z_of_byte. rewrite E. lia.
  - apply Strings.Byte.of_N_None_iff in E. lia.
Qed.

Lemma Z_of_byte_inj a b : Z_of_byte a = Z_of_byte b -> a = b.
Proof. intros H. by rewrite <- (byte_of_Z_of_byte a), H, byte_of_Z_of_byte. Qed.

Lemma byte_of_Z_mod z : byte_of_Z (z mod 256) = byte_of_Z z.
Proof. unfold byte_of_Z. by rewrite Z.mod_mod by lia. Qed.

#[export] Instance byte_eq_dec : EqDecision byte := Strings.Byte.byte_eq_dec.
#[export] Program Instance byte_countable : Countable byte :=
  {| encode b := encode (Strings.Byte.to_N b);
     decode p := n ← decode p; Strings.Byte.of_N n |}.
Next Obligation. intros b. simpl. rewrite decode_encode. simpl. apply Strings.Byte.of_to_N. Qed.

#[export] Hint Resolve Z_of_byte_fits : swl.

(** A string literal of the source as the bytes it stands for. *)
Definition str (s : String.string) : list byte := String.list_byte_of_string s.
Arguments str s%_string.

(** ** Big-endian encoding, the reference *)

(** The [n] low bytes of [v], most significant first. *)
Fixpoint be_bytes (n : nat) (v : Z) : list byte :=
  match n with
  | O => []
  | S n => byte_of_Z (Z.shiftr v (8 * Z.of_nat n)) :: be_bytes n v
  end.

(** The number a byte string spells in base 256. *)
Definition be_value (l : list byte) : Z :=
  foldl (fun acc b => acc * 256 + Z_of_byte b) 0 l.

Lemma length_be_bytes n v : length (be_bytes n v) = n.
Proof. induction n; simpl; congruence. Qed.

Lemma be_value_app l k : be_value (l ++ k) = be_value l * 256 ^ Z.of_nat (length k) + be_value k.
Proof.
  unfold be_value. rewrite foldl_app.
  generalize (foldl (λ acc b, acc * 256 + Z_of_byte b) 0 l) as a.
  assert (forall a, foldl (λ acc b, acc * 256 + Z_of_byte b) a k =
    a * 256 ^ Z.of_nat (length k) + foldl (λ acc b, acc * 256 + Z_of_byte b) 0 k) as H; [|auto].
  induction k as [|b k IH] using rev_ind; intros a; simpl; [lia|].
  rewrite !foldl_snoc, (IH a), length_app, Nat2Z.inj_add, Z.pow_add_r by lia. simpl. lia.
Qed.

Lemma be_value_fits l : fits (8 * Z.of_nat (length l)) (be_value l).
Proof.
  induction l as [|b l IH]; [by vm_compute|].
  change (b :: l) with ([b] ++ l). rewrite be_value_app.
  replace (be_value [b]) with (Z_of_byte b) by done.
  destruct (Z_of_byte_fits b). destruct IH.
  rewrite length_app. simpl (length [b]). rewrite Nat2Z.inj_add.
  replace (256 ^ Z.of_nat (length l)) with (2 ^ (8 * Z.of_nat (length l))) by (by rewrite Z.pow_mul_r by lia).
  rewrite Z.mul_add_distr_l. split; [nia|]. rewrite Z.pow_add_r by lia. nia.
Qed.

Lemma be_bytes_wrap n v : be_bytes n (wrap (8 * Z.of_nat n) v) = be_bytes n v.
Proof.
  assert (forall m, (n <= m)%nat -> be_bytes n (wrap (8 * Z.of_nat m) v) = be_bytes n v) as H; [|by apply H].
  induction n as [|n IH]; intros m Hm; [done|]. simpl. rewrite IH by lia. f_equal.
  apply Z_of_byte_inj. rewrite !Z_of_byte_of_Z. rewrite <- !land_0xFF.
  apply Z.bits_inj'. intros i Hi. rewrite !Z.land_spec, !Z.shiftr_spec by lia.
  unfold wrap. destruct (Z.lt_ge_cases i 8).
  - by rewrite Z.mod_pow2_bits_low by lia.
  - by rewrite (testbit_above 8 0xFF), !andb_false_r by done.
Qed.

Lemma be_value_be_bytes n v : be_value (be_bytes n v) = wrap (8 * Z.of_nat n) v.
Proof.
  induction n as [|n IH]; simpl be_bytes; [by unfold wrap; rewrite Z.mod_1_r|].
  change (?x :: ?l) with ([x] ++ l). rewrite be_value_app, IH, length_be_bytes.
  replace (be_value [_]) with (Z_of_byte (byte_of_Z (Z.shiftr v (8 * Z.of_nat n)))) by done.
  rewrite Z_of_byte_of_Z, Z.shiftr_div_pow2 by lia. unfold wrap.
  replace (8 * Z.of_nat (S n)) with (8 * Z.of_nat n + 8) by lia.
  replace (256 ^ Z.of_nat n) with (2 ^ (8 * Z.of_nat n)) by (by rewrite Z.pow_mul_r by lia).
  rewrite Z.pow_add_r, (Z.rem_mul_r v) by lia. change (2 ^ 8) with 256. lia.
Qed.

Lemma be_bytes_be_value l : be_bytes (length l) (be_value l) = l.
Proof.
  induction l as [|b l IH]; [done|]. simpl length. simpl be_bytes.
  change (b :: l) with ([b] ++ l) at 1 2. rewrite be_value_app.
  replace (be_value [b]) with (Z_of_byte b) by done.
  pose proof (be_value_fits l) as Hl.
  replace (256 ^ Z.of_nat (length l)) with (2 ^ (8 * Z.of_nat (length l)))
    by (by rewrite Z.pow_mul_r by lia).
  f_equal.
  - rewrite Z.shiftr_div_pow2, Z.div_add_l by lia.
    rewrite (Z.div_small (be_value l)), Z.add_0_r by apply Hl. apply byte_of_Z_of_byte.
  - rewrite <- (be_bytes_wrap (length l)). unfold wrap.
    rewrite Z.add_comm, Z_mod_plus_full. fold (wrap (8 * Z.of_nat (length l)) (be_value l)).
    by rewrite wrap_small.
Qed.

Lemma be_value_inj l k : length l = length k -> be_value l = be_value k -> l = k.
Proof.
  intros Hl H. by rewrite <- (be_bytes_be_value l), Hl, H, be_bytes_be_value.
Qed.

(** ** Rings: vectors indexed by a sequence number modulo their size *)

Lemma mod_inj x y c : 0 < c -> Z.abs (x - y) < c -> x mod c = y mod c -> x = y.
Proof.
  intros Hc Hd Hm. pose proof (Z.div_mod x c ltac:(lia)). pose proof (Z.div_mod y c ltac:(lia)).
  rewrite Hm in *. destruct (Z.lt_trichotomy (x / c) (y / c)) as [|[|]]; nia.
Qed.

Lemma nth_ring {A} (l : list A) c s s' x d :
  0 < c -> length l = Z.to_nat c ->
  nth (Z.to_nat (s' mod c)) (<[Z.to_nat (s mod c) := x]> l) d =
  if decide (s mod c = s' mod c) then x else nth (Z.to_nat (s' mod c)) l d.
Proof.
  intros Hc Hl. rewrite !nth_lookup.
  pose proof (Z.mod_pos_bound s c Hc). pose proof (Z.mod_pos_bound s' c Hc).
  case_decide as Hs.
  - rewrite Hs, list_lookup_insert_eq; [done|lia].
  - rewrite list_lookup_insert_ne; [done|lia].
Qed.
