(* ===== verification/Doubles.v ===== *)
(** * Doubles

    The [double]s of the program are the binary64 numbers of the Standard Library's
    SpecFloat, so that the comparisons, quotients and roundings of the source are
    computed as the machine does. *)

From Stdlib Require Import Floats.SpecFloat.
From S2P Require Import Prelude.
Open Scope Z_scope.

Abbreviation Double := spec_float.
Definition dzero : Double := S754_zero false.
(** The double nearest to an integer. *)
Definition dint (z : Z) : Double := binary_normalize 53 1024 z 0 false.
Definition dadd : Double -> Double -> Double := SFadd 53 1024.
Definition dsub : Double -> Double -> Double := SFsub 53 1024.
Definition dmul : Double -> Double -> Double := SFmul 53 1024.
Definition ddiv : Double -> Double -> Double := SFdiv 53 1024.

(** [x < 0.0 || x > 1.0], which is false of a NaN. *)
Definition outside_unit (x : Double) : bool := SFltb x dzero || SFltb (dint 1) x.

(** [duration<double>(d).count()] of a duration in nanoseconds: converted, then
    divided. *)
Definition seconds (nanoseconds : Z) : Double := ddiv (dint nanoseconds) (dint (10 ^ 9)).

Example seconds_of_a_quarter : seconds 250000000 = ddiv (dint 1) (dint 4).
Proof. by vm_compute. Qed.
