(* ===== verification/Mt19937.v ===== *)
(** * Random numbers

    [std::mt19937_64], the Mersenne twister the C++ standard fixes to the last bit
    ([rand.eng.mers]), and [std::uniform_real_distribution<double>] over it, whose
    algorithm the standard leaves to the library: here that of libstdc++, one word
    of the generator to a value. *)

From Stdlib Require Import Floats.SpecFloat.
From S2P Require Import Prelude Words Doubles.
Open Scope Z_scope.

(** The last 312 words, oldest first. *)
Record Mt19937 := { words : list Z }.

Definition mt_n : nat := 312.
Definition mt_m : nat := 156.
Definition mt_a : Z := 0xB5026F5AA96619E9.
Definition mt_f : Z := 6364136223846793005.

(** The word after [x] in the sequence a seed starts, the [i]-th. *)
Definition mt_spread (x i : Z) : Z := u64 (mt_f * Z.lxor x (Z.shiftr x 62) + i).

Fixpoint mt_fill (count : nat) (x i : Z) : list Z :=
  match count with
  | O => []
  | S count => x :: mt_fill count (mt_spread x i) (i + 1)
  end.

(** [std::mt19937_64 rng(seed)] *)
Definition mt_seed (seed : Z) : Mt19937 := {| words := mt_fill mt_n (u64 seed) 1 |}.

(** The upper 33 bits of one word and the lower 31 of the next, twisted into a
    third. *)
Definition mt_twist (x0 x1 xm : Z) : Z :=
  let y := Z.lor (Z.land x0 0xFFFFFFFF80000000) (Z.land x1 0x7FFFFFFF) in
  Z.lxor (Z.lxor xm (Z.shiftr y 1)) (if Z.odd y then mt_a else 0).

Definition mt_temper (z : Z) : Z :=
  let z := Z.lxor z (Z.land (Z.shiftr z 29) 0x5555555555555555) in
  let z := Z.lxor z (Z.land (Z.shiftl z 17) 0x71D67FFFEDA60000) in
  let z := Z.lxor z (Z.land (Z.shiftl z 37) 0xFFF7EEE000000000) in
  Z.lxor z (Z.shiftr z 43).

(** [rng()] *)
Definition mt_next (g : Mt19937) : Mt19937 * Z :=
  let x := mt_twist (nth 0 (words g) 0) (nth 1 (words g) 0) (nth mt_m (words g) 0) in
  ({| words := tail (words g) ++ [x] |}, mt_temper x).

(** [std::uniform_real_distribution<double>{0.0, 1.0}(rng)]: a word over 2^64, or
    the double below 1 if that rounds to 1. *)
Definition uniform_real (g : Mt19937) : Mt19937 * Double :=
  let '(g, v) := mt_next g in
  let x := ddiv (dint v) (dint (2 ^ 64)) in
  (g, if SFleb (dint 1) x then S754_finite false 9007199254740991 (-53) else x).

#[global] Arguments mt_seed : simpl never.
#[global] Arguments mt_next : simpl never.
#[global] Arguments uniform_real : simpl never.

(** ** The standard's own test *)

Fixpoint mt_discard (n : nat) (g : Mt19937) : Mt19937 :=
  match n with
  | O => g
  | S n => mt_discard n (mt_next g).1
  end.

(** The 10000th value of a default-constructed [mt19937_64], from
    [rand.predef]. *)
Example mt_required_value : (mt_next (mt_discard (Z.to_nat 9999) (mt_seed 5489))).2 = 9981545732273789042.
Proof. by vm_compute. Qed.

(** ** Words stay words *)

Lemma fits_land_mask a b : fits 64 b -> fits 64 (Z.land a b).
Proof.
  intros Hb. apply fits_testbit; [lia|apply Z.land_nonneg; right; apply Hb|]. intros i Hi.
  rewrite Z.land_spec, (testbit_above 64 b) by done. apply andb_false_r.
Qed.

Lemma fits_shiftr a n : 0 <= n -> fits 64 a -> fits 64 (Z.shiftr a n).
Proof.
  intros Hn [Ha Ha']. rewrite Z.shiftr_div_pow2 by done. unfold fits. pose proof (Z.pow_pos_nonneg 2 n).
  split; [apply Z.div_pos; lia|]. apply Z.div_lt_upper_bound; nia.
Qed.

(** A generator whose words are words. *)
Definition mt_wf (g : Mt19937) : Prop := Forall (fits 64) (words g).

Lemma mt_word g i : mt_wf g -> fits 64 (nth i (words g) 0).
Proof.
  intros Hg. destruct (decide (i < length (words g))%nat) as [Hi|Hi]; [|rewrite nth_overflow by lia; done].
  rewrite nth_lookup. destruct (lookup_lt_is_Some_2 _ _ Hi) as [x Hx]. rewrite Hx. simpl.
  by eapply Forall_lookup_1.
Qed.

Lemma mt_seed_wf seed : mt_wf (mt_seed seed).
Proof.
  unfold mt_wf, mt_seed. cbn [words]. generalize mt_n. assert (forall n x i, fits 64 x -> Forall (fits 64) (mt_fill n x i)) as Hfill; [|intros n; apply Hfill, wrap_fits; lia].
  induction n as [|n IH]; intros x i Hx; simpl; constructor; [done|]. apply IH, wrap_fits. lia.
Qed.

Lemma mt_next_wf g : mt_wf g -> mt_wf (mt_next g).1 /\ fits 64 (mt_next g).2.
Proof.
  intros Hg. unfold mt_next. set (x := mt_twist _ _ _).
  assert (fits 64 x) as Hx.
  { unfold x, mt_twist. repeat apply lxor_fits; try lia; [by apply mt_word| |by destruct (Z.odd _)].
    apply fits_shiftr; [lia|]. apply lor_fits; [lia|by apply fits_land_mask..]. }
  clearbody x. split; cbn [fst snd].
  - apply Forall_app. split; [|by apply Forall_singleton]. unfold mt_wf in Hg. by destruct (words g); [|inversion Hg].
  - unfold mt_temper. assert (forall a b, fits 64 a -> fits 64 b -> fits 64 (Z.lxor a b)) as Hl by (intros; apply lxor_fits; [lia|done..]).
    cbv zeta. apply Hl; [|apply fits_shiftr; [lia|]]; repeat (apply Hl; [|by apply fits_land_mask]); done.
Qed.

(** ** A seeded generator does not get stuck at zero

    Tempering and twisting are injective at zero, so 312 zeros in a row would have
    to come from a state that holds zeros, and a seeded state has no two zeros side
    by side. *)

Lemma mt_discard_succ k g : mt_discard (S k) g = (mt_next (mt_discard k g)).1.
Proof. revert g. induction k as [|k IH]; intros g; [done|]. apply (IH (mt_next g).1). Qed.

Lemma mt_next_length g : length (words g) = mt_n -> length (words (mt_next g).1) = mt_n.
Proof. unfold mt_next. cbn [fst words]. intros Hg. rewrite length_app, length_tl, Hg. done. Qed.

Lemma mt_discard_keeps k g : mt_wf g -> length (words g) = mt_n ->
  mt_wf (mt_discard k g) /\ length (words (mt_discard k g)) = mt_n.
Proof.
  intros Hg Hl. induction k as [|k [IHw IHl]]; [done|]. rewrite mt_discard_succ.
  by split; [apply mt_next_wf|apply mt_next_length].
Qed.

(** The newest word is the one just twisted, and every other one moves up a place. *)
Lemma mt_next_last g : length (words g) = mt_n ->
  nth 311 (words (mt_next g).1) 0 = mt_twist (nth 0 (words g) 0) (nth 1 (words g) 0) (nth mt_m (words g) 0).
Proof.
  intros Hl. unfold mt_next. cbn [fst words]. rewrite app_nth2; rewrite length_tl, Hl; [done|unfold mt_n; lia].
Qed.

Lemma mt_next_shift g i : length (words g) = mt_n -> (i < 311)%nat ->
  nth i (words (mt_next g).1) 0 = nth (S i) (words g) 0.
Proof.
  intros Hl Hi. unfold mt_next. cbn [fst words]. rewrite app_nth1 by (rewrite length_tl, Hl; unfold mt_n; lia).
  by destruct (words g); [destruct i|].
Qed.

Lemma mt_discard_shift k i g : mt_wf g -> length (words g) = mt_n -> (i + k <= 311)%nat ->
  forall j, nth i (words (mt_discard (k + j) g)) 0 = nth (i + k) (words (mt_discard j g)) 0.
Proof.
  intros Hg Hl. revert i. induction k as [|k IH]; intros i Hi j; [by rewrite Nat.add_0_r|].
  change (S k + j)%nat with (S (k + j)). rewrite mt_discard_succ, mt_next_shift by (lia || by apply mt_discard_keeps).
  rewrite IH by lia. f_equal. lia.
Qed.

Lemma lxor_shiftr_zero z n m : 0 < n -> 0 <= z -> Z.lxor z (Z.land (Z.shiftr z n) m) = 0 -> z = 0.
Proof.
  intros Hn Hz Hx. apply Z.lxor_eq in Hx. destruct (decide (z = 0)) as [->|Hne]; [done|exfalso].
  assert (Z.testbit z (Z.log2 z) = true) as Hb by (apply Z.bit_log2; lia).
  rewrite Hx, Z.land_spec, Z.shiftr_spec in Hb by apply Z.log2_nonneg. apply andb_true_iff in Hb as [Hb _].
  rewrite <- Hx in Hb. pose proof (Z.log2_nonneg z). rewrite Z.bits_above_log2 in Hb by lia. done.
Qed.

Lemma lxor_shiftl_zero z n m : 0 < n -> 0 <= z -> Z.lxor z (Z.land (Z.shiftl z n) m) = 0 -> z = 0.
Proof.
  intros Hn Hz Hx. apply Z.lxor_eq in Hx. apply Z.bits_inj'. intros i Hi. rewrite Z.bits_0.
  induction i as [i IH] using (well_founded_induction (Z.lt_wf 0)).
  rewrite Hx, Z.land_spec, Z.shiftl_spec by done. destruct (decide (0 <= i - n)); [rewrite IH by lia; done|].
  by rewrite Z.testbit_neg_r by lia.
Qed.

Lemma mt_temper_zero z : fits 64 z -> mt_temper z = 0 -> z = 0.
Proof.
  intros Hz. unfold mt_temper. cbv zeta. intros H.
  assert (forall a b, fits 64 a -> fits 64 b -> 0 <= Z.lxor a (Z.land (Z.shiftr a 29) b) /\ fits 64 (Z.lxor a (Z.land (Z.shiftr a 29) b))) as H1.
  { intros a b Ha Hb. assert (fits 64 (Z.lxor a (Z.land (Z.shiftr a 29) b))) as Hf; [|by split; [apply Hf|]].
    apply lxor_fits; [lia|done|by apply fits_land_mask]. }
  assert (forall a n b, fits 64 a -> fits 64 b -> 0 <= Z.lxor a (Z.land (Z.shiftl a n) b) /\ fits 64 (Z.lxor a (Z.land (Z.shiftl a n) b))) as H2.
  { intros a n b Ha Hb. assert (fits 64 (Z.lxor a (Z.land (Z.shiftl a n) b))) as Hf; [|by split; [apply Hf|]].
    apply lxor_fits; [lia|done|by apply fits_land_mask]. }
  destruct (H1 z 0x5555555555555555 Hz ltac:(done)) as [Hp1 Hf1]. set (z1 := Z.lxor z _) in *.
  destruct (H2 z1 17 0x71D67FFFEDA60000 Hf1 ltac:(done)) as [Hp2 Hf2]. set (z2 := Z.lxor z1 _) in *.
  destruct (H2 z2 37 0xFFF7EEE000000000 Hf2 ltac:(done)) as [Hp3 Hf3]. set (z3 := Z.lxor z2 _) in *.
  assert (z3 = 0) as E3. { apply (lxor_shiftr_zero _ 43 (-1)); [lia|done|]. by rewrite Z.land_m1_r. }
  assert (z2 = 0) as E2 by (by eapply lxor_shiftl_zero; [..|exact E3]; [lia|]).
  assert (z1 = 0) as E1 by (by eapply lxor_shiftl_zero; [..|exact E2]; [lia|]).
  eapply lxor_shiftr_zero; [..|exact E1]; [lia|apply Hz].
Qed.

(** A twist of zero: nothing in the upper bits of one word or the lower of the next. *)
Lemma mt_twist_zero x0 x1 : fits 64 x0 -> fits 64 x1 -> mt_twist x0 x1 0 = 0 ->
  Z.land x0 0xFFFFFFFF80000000 = 0 /\ Z.land x1 0x7FFFFFFF = 0.
Proof.
  intros H0 H1. unfold mt_twist. cbv zeta. set (y := Z.lor _ _). intros H. rewrite Z.lxor_0_l in H.
  assert (fits 64 y) as Hy by (apply lor_fits; [lia|by apply fits_land_mask..]).
  enough (y = 0) as Hy0 by (by apply Z.lor_eq_0_iff).
  apply Z.lxor_eq in H. rewrite Z.shiftr_div_pow2 in H by lia. change (2 ^ 1) with 2 in H. destruct Hy as [Hy Hy'].
  pose proof (Z.div_mod y 2 ltac:(lia)) as Hd. pose proof (Z.mod_pos_bound y 2 ltac:(lia)).
  destruct (Z.odd y) eqn:Ho.
  - exfalso. assert (y / 2 < 2 ^ 63) as Hlt by (apply Z.div_lt_upper_bound; lia). clearbody y. rewrite H in Hlt. by vm_compute in Hlt.
  - rewrite Zmod_odd, Ho in Hd. lia.
Qed.

Lemma split_zero x : fits 64 x -> Z.land x 0xFFFFFFFF80000000 = 0 -> Z.land x 0x7FFFFFFF = 0 -> x = 0.
Proof.
  intros Hx Hu Hl. change 0xFFFFFFFF80000000 with (Z.lxor (Z.ones 64) (Z.ones 31)) in Hu. change 0x7FFFFFFF with (Z.ones 31) in Hl.
  apply Z.bits_inj'. intros i Hi. rewrite Z.bits_0. destruct (decide (i < 64)) as [Hi64|]; [|apply (testbit_above 64); [lia|done|lia]].
  apply (f_equal (fun z => Z.testbit z i)) in Hu, Hl. rewrite Z.land_spec, Z.lxor_spec, Z.bits_0 in Hu. rewrite Z.land_spec, Z.bits_0 in Hl.
  rewrite !Z.testbit_ones_nonneg in Hu by lia. rewrite Z.testbit_ones_nonneg in Hl by lia.
  destruct (Z.testbit x i); [|done]. replace (i <? 64) with true in Hu by (symmetry; by apply Z.ltb_lt). by destruct (i <? 31).
Qed.

Lemma mt_fill_next i : forall n x j, (S i < n)%nat ->
  nth (S i) (mt_fill n x j) 0 = mt_spread (nth i (mt_fill n x j) 0) (j + Z.of_nat i).
Proof.
  induction i as [|i IH]; intros [|[|n]] x j Hi; try lia.
  - simpl. by rewrite Z.add_0_r.
  - change (mt_fill (S (S n)) x j) with (x :: mt_fill (S n) (mt_spread x j) (j + 1)).
    cbn [nth]. rewrite IH by lia. f_equal. lia.
Qed.

Lemma mt_seed_length seed : length (words (mt_seed seed)) = mt_n.
Proof.
  unfold mt_seed. cbn [words]. generalize (u64 seed) 1. induction mt_n as [|n IH]; intros x j; [done|]. simpl. by rewrite IH.
Qed.

(** One of the first 312 outputs of a seeded generator is not zero. *)
Lemma mt_seed_draws seed : exists k, (k < 312)%nat /\ (mt_next (mt_discard k (mt_seed seed))).2 <> 0.
Proof.
  destruct (decide (Exists (fun k => (mt_next (mt_discard k (mt_seed seed))).2 <> 0) (seq 0 312))) as [He|He].
  { apply Exists_exists in He as (k & Hk & Hn). exists k. apply elem_of_seq in Hk. split; [lia|done]. }
  exfalso. pose proof (mt_seed_wf seed) as Hw. pose proof (mt_seed_length seed) as Hl. remember (mt_seed seed) as g eqn:Hg.
  assert (forall k, (k < 312)%nat -> nth 311 (words (mt_discard (S k) g)) 0 = 0) as Hzero.
  { intros k Hk. destruct (mt_discard_keeps k g Hw Hl) as [Hwk Hlk]. rewrite mt_discard_succ.
    apply mt_temper_zero; [by apply mt_word, mt_next_wf|]. rewrite mt_next_last by done.
    destruct (decide ((mt_next (mt_discard k g)).2 = 0)) as [Hz|Hz]; [exact Hz|].
    destruct He. apply Exists_exists. exists k. split; [apply elem_of_seq; lia|done]. }
  assert (forall k, (309 <= k < 312)%nat ->
    Z.land (nth 0 (words (mt_discard k g)) 0) 0xFFFFFFFF80000000 = 0 /\ Z.land (nth 1 (words (mt_discard k g)) 0) 0x7FFFFFFF = 0) as Hy.
  { intros k Hk. destruct (mt_discard_keeps k g Hw Hl) as [Hwk Hlk]. apply mt_twist_zero; [by apply mt_word..|].
    pose proof (Hzero k ltac:(lia)) as Hz. rewrite mt_discard_succ, mt_next_last in Hz by done.
    replace (nth mt_m (words (mt_discard k g)) 0) with 0 in Hz; [done|].
    replace k with (155 + S (k - 156))%nat by lia. rewrite mt_discard_shift by (done || unfold mt_m; lia). symmetry. apply Hzero. lia. }
  destruct (Hy 309%nat ltac:(lia)) as [_ H310l], (Hy 310%nat ltac:(lia)) as [H310u H311l], (Hy 311%nat ltac:(lia)) as [H311u _].
  assert (forall k i, (i + k <= 311)%nat -> nth i (words (mt_discard k g)) 0 = nth (i + k) (words g) 0) as Hs.
  { intros k i Hi. pose proof (mt_discard_shift k i g Hw Hl Hi 0) as H. by rewrite Nat.add_0_r in H. }
  rewrite !Hs in * by lia. cbn [Nat.add] in *.
  assert (nth 310 (words g) 0 = 0) as E310 by (by apply split_zero; [apply mt_word|..]).
  assert (nth 311 (words g) 0 = 0) as E311 by (by apply split_zero; [apply mt_word|..]).
  subst g. unfold mt_seed in E310, E311. cbn [words] in E310, E311.
  pose proof (mt_fill_next 310 mt_n (u64 seed) 1 ltac:(unfold mt_n; lia)) as Hn.
  clear - E310 E311 Hn. generalize dependent (mt_fill mt_n (u64 seed) 1). intros l E310 E311 Hn.
  rewrite E310, E311 in Hn. by vm_compute in Hn.
Qed.
