(* ===== verification/Packet.v ===== *)
(** * Packets, decode results and status codes

    src/include/swiftlink/protocol/packet.hpp, src/src/protocol/packet.cpp,
    src/include/swiftlink/protocol/status.hpp and src/src/protocol/status.cpp.
    A scoped enum with a fixed underlying type can hold any value of that type,
    so each enum comes with its underlying value ([_raw]) and the partial cast
    back ([_of_raw]); the [to_string] functions are defined on the raw value, as
    their [switch] with a fall-through return is. *)

From S2P Require Import Prelude Words.
Open Scope Z_scope.

(** ** Status codes *)
Module Status.
Inductive StatusCode :=
| kOk | kUnsupportedVersion | kInvalidFilename | kFileOpenFailed
| kIntegrityCheckFailed | kSizeMismatch | kUnknownSession | kInternalError
| kServerBusy.
#[export] Instance StatusCode_eq_dec : EqDecision StatusCode.
Proof. solve_decision. Defined.

Definition StatusCode_raw (c : StatusCode) : Z :=
  match c with
  | kOk => 0 | kUnsupportedVersion => 1 | kInvalidFilename => 2
  | kFileOpenFailed => 3 | kIntegrityCheckFailed => 4 | kSizeMismatch => 5
  | kUnknownSession => 6 | kInternalError => 7 | kServerBusy => 8
  end.

Definition StatusCode_of_raw (raw : Z) : option StatusCode :=
  match raw with
  | 0 => Some kOk | 1 => Some kUnsupportedVersion | 2 => Some kInvalidFilename
  | 3 => Some kFileOpenFailed | 4 => Some kIntegrityCheckFailed
  | 5 => Some kSizeMismatch | 6 => Some kUnknownSession
  | 7 => Some kInternalError | 8 => Some kServerBusy
  | _ => None
  end.

Definition is_valid_status_code (raw : Z) : bool :=
  match StatusCode_of_raw raw with Some _ => true | None => false end.

Definition status_to_string (raw : Z) : String.string :=
  match StatusCode_of_raw raw with
  | Some kOk => "ok"
  | Some kUnsupportedVersion => "unsupported protocol version"
  | Some kInvalidFilename => "filename rejected"
  | Some kFileOpenFailed => "could not open the output file"
  | Some kIntegrityCheckFailed =>
      "SHA-256 of the received file did not match the sender's"
  | Some kSizeMismatch => "received byte count disagrees with the declared size"
  | Some kUnknownSession => "no such session"
  | Some kInternalError => "internal error"
  | Some kServerBusy => "server is at its session limit"
  | None => "unknown status"
  end.

Lemma StatusCode_of_raw_raw c : StatusCode_of_raw (StatusCode_raw c) = Some c.
Proof. by destruct c. Qed.

Lemma StatusCode_raw_fits c : fits 8 (StatusCode_raw c).
Proof. by destruct c. Qed.
End Status.

(** ** Packets *)
Module Packet.
Definition kMagic : Z := 0x53574C4B.
Definition kVersion : Z := 1.
Definition kHeaderWireSize : nat := 40.
Definition kMaxPayloadSize : Z := 65535.

Inductive PacketType :=
| kStart | kStartAck | kData | kAck | kFin | kFinAck | kError.
#[export] Instance PacketType_eq_dec : EqDecision PacketType.
Proof. solve_decision. Defined.

Definition PacketType_raw (t : PacketType) : Z :=
  match t with
  | kStart => 1 | kStartAck => 2 | kData => 3 | kAck => 4
  | kFin => 5 | kFinAck => 6 | kError => 7
  end.

Definition PacketType_of_raw (raw : Z) : option PacketType :=
  match raw with
  | 1 => Some kStart | 2 => Some kStartAck | 3 => Some kData | 4 => Some kAck
  | 5 => Some kFin | 6 => Some kFinAck | 7 => Some kError
  | _ => None
  end.

Definition is_valid_packet_type (raw : Z) : bool :=
  match PacketType_of_raw raw with Some _ => true | None => false end.

Definition packet_type_to_string (raw : Z) : String.string :=
  match PacketType_of_raw raw with
  | Some kStart => "START" | Some kStartAck => "START_ACK"
  | Some kData => "DATA" | Some kAck => "ACK"
  | Some kFin => "FIN" | Some kFinAck => "FIN_ACK"
  | Some kError => "ERROR"
  | None => "UNKNOWN"
  end.

Record PacketHeader := {
  magic : Z;
  version : Z;
  packet_type : PacketType;
  header_length : Z;
  session_id : Z;
  sequence_number : Z;
  acknowledgement_number : Z;
  byte_offset : Z;
  payload_length : Z;
  flags : Z;
  checksum : Z
}.

(** [PacketHeader{}]: the default member initialisers. *)
Definition default_header : PacketHeader := {|
  magic := kMagic; version := kVersion; packet_type := kData;
  header_length := u16 (Z.of_nat kHeaderWireSize);
  session_id := 0; sequence_number := 0; acknowledgement_number := 0;
  byte_offset := 0; payload_length := 0; flags := 0; checksum := 0
|}.

(** A default header with the fields every sender of this program sets. *)
Definition make_header (t : PacketType) (sid seq ack off : Z) : PacketHeader := {|
  magic := kMagic; version := kVersion; packet_type := t;
  header_length := u16 (Z.of_nat kHeaderWireSize);
  session_id := sid; sequence_number := seq; acknowledgement_number := ack;
  byte_offset := off; payload_length := 0; flags := 0; checksum := 0
|}.

(** The fields are values of their C++ types. *)
Record header_wf (h : PacketHeader) : Prop := {
  wf_magic : fits 32 (magic h);
  wf_version : fits 8 (version h);
  wf_header_length : fits 16 (header_length h);
  wf_session_id : fits 64 (session_id h);
  wf_sequence_number : fits 32 (sequence_number h);
  wf_acknowledgement_number : fits 32 (acknowledgement_number h);
  wf_byte_offset : fits 64 (byte_offset h);
  wf_payload_length : fits 16 (payload_length h);
  wf_flags : fits 16 (flags h);
  wf_checksum : fits 32 (checksum h)
}.

Record Packet := { header : PacketHeader; payload : list byte }.
Definition default_packet : Packet := {| header := default_header; payload := [] |}.

Inductive DecodeError :=
| kNone | kBufferTooSmall | kBadMagic | kUnsupportedVersion | kBadHeaderLength
| kUnknownPacketType | kPayloadLengthMismatch | kChecksumMismatch.
#[export] Instance DecodeError_eq_dec : EqDecision DecodeError.
Proof. solve_decision. Defined.

Definition DecodeError_of_raw (raw : Z) : option DecodeError :=
  match raw with
  | 0 => Some kNone | 1 => Some kBufferTooSmall | 2 => Some kBadMagic
  | 3 => Some kUnsupportedVersion | 4 => Some kBadHeaderLength
  | 5 => Some kUnknownPacketType | 6 => Some kPayloadLengthMismatch
  | 7 => Some kChecksumMismatch
  | _ => None
  end.

Definition decode_error_to_string (raw : Z) : String.string :=
  match DecodeError_of_raw raw with
  | Some kNone => "ok"
  | Some kBufferTooSmall => "buffer smaller than a packet header"
  | Some kBadMagic => "magic number mismatch (not a SwiftLink packet)"
  | Some kUnsupportedVersion => "unsupported protocol version"
  | Some kBadHeaderLength => "declared header_length does not match the wire format"
  | Some kUnknownPacketType => "unknown packet type"
  | Some kPayloadLengthMismatch =>
      "declared payload_length disagrees with the bytes received"
  | Some kChecksumMismatch => "CRC32 mismatch (packet corrupted in transit)"
  | None => "unknown error"
  end.

(** [class DecodeResult]: a packet and an error, [kNone] meaning success. *)
Record DecodeResult := { packet_ : Packet; error_ : DecodeError }.
Definition success (p : Packet) : DecodeResult := {| packet_ := p; error_ := kNone |}.
Definition failure (e : DecodeError) : DecodeResult :=
  {| packet_ := default_packet; error_ := e |}.
Definition ok (r : DecodeResult) : bool := bool_decide (error_ r = kNone).
Definition value (r : DecodeResult) : Packet := packet_ r.

Lemma PacketType_of_raw_raw t : PacketType_of_raw (PacketType_raw t) = Some t.
Proof. by destruct t. Qed.

Lemma PacketType_raw_fits t : fits 8 (PacketType_raw t).
Proof. by destruct t. Qed.

Lemma PacketType_of_raw_Some raw t :
  PacketType_of_raw raw = Some t -> raw = PacketType_raw t.
Proof.
  unfold PacketType_of_raw. intros H.
  repeat match type of H with
  | context [match ?x with _ => _ end] => destruct x; try done
  end; by simplify_eq.
Qed.

Lemma make_header_wf t sid seq ack off :
  fits 64 sid -> fits 32 seq -> fits 32 ack -> fits 64 off ->
  header_wf (make_header t sid seq ack off).
Proof. intros. by split. Qed.
End Packet.
#[export] Hint Resolve Status.StatusCode_raw_fits Packet.PacketType_raw_fits : swl.
