(* ===== verification/Crc32.v ===== *)
(** * CRC-32

  src/src/protocol/crc32.cpp: the compile-time table, the byte-at-a-time
  [update], and the two entry points.  The theorems relate the table to the
  bit-serial polynomial division it caches, and show which corruptions the
  checksum detects with certainty. *)

From S2P Require Import Prelude Words.
Open Scope Z_scope.

Definition kPolynomial : Z := 0xEDB88320.

(** One round of the inner loop of [make_table]. *)
Definition table_bit (value : Z) : Z :=
  if Z.land value 1 =? 0 then Z.shiftr value 1
  else Z.lxor (Z.shiftr value 1) kPolynomial.

Definition table_entry (i : Z) : Z := Nat.iter 8 table_bit i.

Definition make_table : list Z := map (fun i => table_entry (Z.of_nat i)) (seq 0 256).

(** [constexpr ... kTable = make_table()]: built once. *)
Definition kTable : list Z := Eval vm_compute in make_table.

Definition update (crc : Z) (b : byte) : Z :=
  let index := u8 (Z.land (Z.lxor crc (Z_of_byte b)) 0xFF) in
  Z.lxor (nth (Z.to_nat index) kTable 0) (Z.shiftr crc 8).

Definition crc32 (data : list byte) : Z :=
  Z.lxor (foldl update 0xFFFFFFFF data) 0xFFFFFFFF.

(** The loop of [crc32_excluding_checksum], from index [i]. *)
Fixpoint excluding_loop (checksum_offset i : nat) (crc : Z) (packet : list byte) : Z :=
  match packet with
  | [] => crc
  | b :: packet =>
      let in_checksum := (checksum_offset <=? i)%nat && (i <? checksum_offset + 4)%nat in
      excluding_loop checksum_offset (S i)
        (update crc (if in_checksum then Byte.x00 else b)) packet
  end.

Definition crc32_excluding_checksum (packet : list byte) (checksum_offset : nat) : Z :=
  Z.lxor (excluding_loop checksum_offset 0 0xFFFFFFFF packet) 0xFFFFFFFF.

Example crc32_check : crc32 (str "123456789") = 0xCBF43926.
Proof. by vm_compute. Qed.

(** ** The reference: one long bit-serial division *)

(** A message as the polynomial the standard divides: first byte in the low
    bits, because each byte is processed least significant bit first. *)
Fixpoint message_poly (data : list byte) : Z :=
  match data with
  | [] => 0
  | b :: data => Z.lxor (Z_of_byte b) (Z.shiftl (message_poly data) 8)
  end.

(** [n] steps of the shift register fed with the whole message at once. *)
Definition crc_division (data : list byte) : Z :=
  Z.lxor (Nat.iter (8 * length data) table_bit (Z.lxor 0xFFFFFFFF (message_poly data)))
    0xFFFFFFFF.

(** The message with the four checksum bytes blanked. *)
Definition blank_checksum (packet : list byte) (checksum_offset : nat) : list byte :=
  imap (fun i b => if (checksum_offset <=? i)%nat && (i <? checksum_offset + 4)%nat
                   then Byte.x00 else b) packet.

(** *** Linearity of the shift register *)

Lemma land_1_odd z : (Z.land z 1 =? 0) = negb (Z.odd z).
Proof.
  rewrite <- Z.bit0_odd. change 1 with (Z.ones 1). rewrite Z.land_ones by lia.
  change (2 ^ 1) with 2. rewrite <- Z.bit0_mod. by destruct (Z.testbit z 0).
Qed.

Lemma table_bit_odd z :
  table_bit z = if Z.odd z then Z.lxor (Z.shiftr z 1) kPolynomial else Z.shiftr z 1.
Proof. unfold table_bit. rewrite land_1_odd. by destruct (Z.odd z). Qed.

Lemma odd_lxor a b : Z.odd (Z.lxor a b) = xorb (Z.odd a) (Z.odd b).
Proof. by rewrite <- !Z.bit0_odd, Z.lxor_spec. Qed.

Lemma table_bit_lxor a b :
  table_bit (Z.lxor a b) = Z.lxor (table_bit a) (table_bit b).
Proof.
  rewrite !table_bit_odd, odd_lxor, Z.shiftr_lxor.
  apply Z.bits_inj'. intros i _.
  destruct (Z.odd a), (Z.odd b); simpl; rewrite !Z.lxor_spec;
    by destruct (Z.testbit (Z.shiftr a 1) i), (Z.testbit (Z.shiftr b 1) i), (Z.testbit kPolynomial i).
Qed.

Lemma iter_table_bit_lxor n a b :
  Nat.iter n table_bit (Z.lxor a b) =
  Z.lxor (Nat.iter n table_bit a) (Nat.iter n table_bit b).
Proof. induction n; simpl; [done|]. by rewrite IHn, table_bit_lxor. Qed.

Lemma table_bit_shiftl x n : 0 <= n -> table_bit (Z.shiftl x (n + 1)) = Z.shiftl x n.
Proof.
  intros. rewrite table_bit_odd.
  replace (Z.odd _) with false.
  - rewrite Z.shiftr_shiftl_l by lia. f_equal. lia.
  - rewrite <- Z.bit0_odd, Z.shiftl_spec_low by lia. done.
Qed.

Lemma iter8_shiftl x : Nat.iter 8 table_bit (Z.shiftl x 8) = x.
Proof.
  simpl. do 8 (match goal with |- context [Z.shiftl x ?k] =>
    let n := eval vm_compute in (k - 1) in change k with (n + 1) end;
    rewrite table_bit_shiftl by lia).
  apply Z.shiftl_0_r.
Qed.

Lemma kTable_entry i : 0 <= i < 256 -> nth (Z.to_nat i) kTable 0 = table_entry i.
Proof.
  intros. replace kTable with make_table by (by vm_compute).
  unfold make_table. rewrite (nth_indep _ 0 (table_entry (Z.of_nat 0))) by (len).
  rewrite (map_nth (fun i => table_entry (Z.of_nat i))), seq_nth by lia.
  f_equal. lia.
Qed.

Lemma split_low_byte x : x = Z.lxor (Z.land x 0xFF) (Z.shiftl (Z.shiftr x 8) 8).
Proof.
  apply Z.bits_inj'. intros i Hi. rewrite Z.lxor_spec, Z.land_spec.
  destruct (Z.lt_ge_cases i 8).
  - rewrite Z.shiftl_spec_low, xorb_false_r by lia.
    change 0xFF with (Z.ones 8). by rewrite Z.ones_spec_low, andb_true_r by lia.
  - rewrite Z.shiftl_spec, Z.shiftr_spec by lia. change 0xFF with (Z.ones 8).
    rewrite Z.ones_spec_high, andb_false_r by lia. simpl. f_equal. lia.
Qed.

(** One table lookup is eight steps of the register. *)
Lemma update_bits crc b :
  update crc b = Nat.iter 8 table_bit (Z.lxor crc (Z_of_byte b)).
Proof.
  unfold update. set (x := Z.lxor crc (Z_of_byte b)).
  rewrite (split_low_byte x) at 2. rewrite iter_table_bit_lxor, iter8_shiftl.
  pose proof (Z.mod_pos_bound x 256 ltac:(lia)).
  rewrite land_0xFF, wrap_small by (unfold fits; lia).
  rewrite kTable_entry by lia. f_equal. unfold x.
  rewrite Z.shiftr_lxor. rewrite (Z.shiftr_div_pow2 (Z_of_byte b)), Z.div_small, Z.lxor_0_r; [done| |lia].
  apply Z_of_byte_fits.
Qed.

Lemma update_message_poly data crc :
  foldl update crc data = Nat.iter (8 * length data) table_bit (Z.lxor crc (message_poly data)).
Proof.
  revert crc. induction data as [|b data IH]; intros crc; simpl foldl; simpl message_poly.
  { simpl. by rewrite Z.lxor_0_r. }
  rewrite IH, update_bits.
  replace (8 * length (b :: data))%nat with (8 * length data + 8)%nat by (simpl length; lia).
  rewrite Nat.iter_add, <- (Z.lxor_assoc crc).
  by rewrite (iter_table_bit_lxor 8 (Z.lxor crc _) (Z.shiftl _ 8)), iter8_shiftl.
Qed.

(** *** Injectivity of the shift register on 32-bit values *)

Lemma table_bit_fits x : fits 32 x -> fits 32 (table_bit x).
Proof.
  intros Hx. rewrite table_bit_odd.
  assert (fits 32 (Z.shiftr x 1)).
  { apply (fits_le 31); [lia|]. by apply (shiftr_fits 32 1). }
  destruct (Z.odd x); [|done]. by apply lxor_fits.
Qed.

(** The top bit of the result tells whether the polynomial was folded in. *)
Lemma table_bit_0 x : fits 32 x -> table_bit x = 0 -> x = 0.
Proof.
  intros Hx. rewrite table_bit_odd. destruct (Z.odd x) eqn:E; intros H.
  - apply (f_equal (fun z => Z.testbit z 31)) in H.
    rewrite Z.lxor_spec, Z.shiftr_spec, (testbit_above 32) in H by (done || lia).
    done.
  - rewrite <- Z.div2_spec in H. pose proof (Z.div2_odd x) as Hx2.
    rewrite H, E in Hx2. done.
Qed.

Lemma iter_table_bit_0 n x : fits 32 x -> Nat.iter n table_bit x = 0 -> x = 0.
Proof.
  revert x. induction n as [|n IH]; intros x Hx H; [done|].
  rewrite Nat.iter_succ_r in H. apply table_bit_0, IH; [done|by apply table_bit_fits|done].
Qed.

Lemma iter_table_bit_inj n x y :
  fits 32 (Z.lxor x y) -> Nat.iter n table_bit x = Nat.iter n table_bit y -> x = y.
Proof.
  intros Hxy H. apply Z.lxor_eq, (iter_table_bit_0 n); [done|].
  rewrite iter_table_bit_lxor, H. apply Z.lxor_nilpotent.
Qed.

Lemma message_poly_step b data :
  message_poly (b :: data) = message_poly data * 2 ^ 8 + Z_of_byte b.
Proof.
  simpl message_poly. rewrite Z.lxor_comm.
  rewrite <- lor_shiftl_add by (try lia; apply Z_of_byte_fits).
  apply Z.lxor_lor. apply Z.bits_inj'. intros i Hi. rewrite Z.land_spec, Z.bits_0.
  destruct (Z.lt_ge_cases i 8); [by rewrite Z.shiftl_spec_low|].
  by rewrite (testbit_above 8 (Z_of_byte b)), andb_false_r by (lia || apply Z_of_byte_fits).
Qed.

Lemma message_poly_fits data : fits (8 * Z.of_nat (length data)) (message_poly data).
Proof.
  induction data as [|b data IH]; [by vm_compute|]. rewrite message_poly_step.
  destruct IH, (Z_of_byte_fits b). simpl length.
  replace (8 * Z.of_nat (S (length data))) with (8 * Z.of_nat (length data) + 8) by lia.
  unfold fits. rewrite Z.pow_add_r by lia. nia.
Qed.

Lemma message_poly_inj d1 d2 :
  length d1 = length d2 -> message_poly d1 = message_poly d2 -> d1 = d2.
Proof.
  revert d2. induction d1 as [|b1 d1 IH]; intros [|b2 d2] Hl H; try done.
  rewrite !message_poly_step in H.
  destruct (Z_of_byte_fits b1), (Z_of_byte_fits b2).
  assert (Z_of_byte b1 = Z_of_byte b2 /\ message_poly d1 = message_poly d2) as [? ?] by lia.
  f_equal; [by apply Z_of_byte_inj|]. apply IH; [by simplify_eq/=|done].
Qed.

(** The register is injective in the state it starts from ... *)
Lemma update_inj_state data c1 c2 :
  fits 32 c1 -> fits 32 c2 -> foldl update c1 data = foldl update c2 data -> c1 = c2.
Proof.
  intros H1 H2. rewrite !update_message_poly. intros H.
  apply iter_table_bit_inj in H.
  - apply (f_equal (fun z => Z.lxor z (message_poly data))) in H.
    by rewrite !Z.lxor_assoc, !Z.lxor_nilpotent, !Z.lxor_0_r in H.
  - rewrite (Z.lxor_comm c2), Z.lxor_assoc, <- (Z.lxor_assoc (message_poly data)).
    rewrite Z.lxor_nilpotent, Z.lxor_0_l. by apply lxor_fits.
Qed.

(** Bit [i] of a message in the order the CRC takes them: byte by byte, the
    least significant bit of each byte first. *)
Definition bit_at (d : list byte) (i : Z) : bool :=
  Z.testbit (Z_of_byte (nth (Z.to_nat (i / 8)) d Byte.x00)) (i mod 8).

(** The bits in which [d1] and [d2] differ lie within 32 consecutive ones, which
    may begin and end inside a byte. *)
Definition bit_burst (d1 d2 : list byte) : Prop :=
  exists s, 0 <= s /\ forall i, 0 <= i -> bit_at d1 i <> bit_at d2 i -> s <= i < s + 32.

Lemma message_poly_bit d i : 0 <= i -> Z.testbit (message_poly d) i = bit_at d i.
Proof.
  revert i. induction d as [|b d IH]; intros i Hi; unfold bit_at.
  { simpl message_poly. rewrite Z.bits_0. replace (nth _ [] _) with Byte.x00 by (by destruct (Z.to_nat (i / 8))).
    change (Z_of_byte Byte.x00) with 0. by rewrite Z.bits_0. }
  simpl message_poly. rewrite Z.lxor_spec. destruct (Z.lt_ge_cases i 8) as [Hlt|Hge].
  - by rewrite Z.shiftl_spec_low, xorb_false_r, Z.div_small, Z.mod_small by lia.
  - rewrite Z.shiftl_spec, (testbit_above 8 (Z_of_byte b)), xorb_false_l, IH
      by (lia || apply Z_of_byte_fits).
    unfold bit_at. assert (i / 8 = (i - 8) / 8 + 1 /\ i mod 8 = (i - 8) mod 8) as [-> ->].
    { replace i with (i - 8 + 1 * 8) at 1 3 by lia. by rewrite Z.div_add, Z.mod_add by lia. }
    rewrite Z2Nat.inj_add by (lia || apply Z.div_pos; lia).
    change (Z.to_nat 1) with 1%nat. by rewrite Nat.add_1_r.
Qed.

Lemma short_bit_burst d1 d2 : length d1 = length d2 -> (length d1 <= 4)%nat -> bit_burst d1 d2.
Proof.
  intros Hl H4. exists 0. split; [done|]. intros i Hi Hne.
  destruct (Z.lt_ge_cases i 32) as [|Hge]; [lia|]. exfalso. apply Hne.
  assert (forall d : list byte, (length d <= 4)%nat -> Z.testbit (message_poly d) i = false) as H.
  { intros d Hd. pose proof (message_poly_fits d).
    apply (testbit_above (8 * Z.of_nat (length d))); lia || done. }
  by rewrite <- !message_poly_bit, !H by lia.
Qed.

Lemma iter_table_bit_shiftl n x : Nat.iter n table_bit (Z.shiftl x (Z.of_nat n)) = x.
Proof.
  revert x. induction n as [|n IH]; intros x; [apply Z.shiftl_0_r|].
  rewrite Nat.iter_succ_r, Nat2Z.inj_succ, <- Z.add_1_r, table_bit_shiftl by lia. apply IH.
Qed.

(** The difference of two messages that differ in a burst: 32 bits, shifted. *)
Lemma burst_difference d1 d2 :
  length d1 = length d2 -> bit_burst d1 d2 ->
  exists B n, (n <= 8 * length d1)%nat /\ fits 32 B /\
    Z.lxor (message_poly d1) (message_poly d2) = Z.shiftl B (Z.of_nat n).
Proof.
  intros Hl (s & Hs & Hb). pose proof (message_poly_fits d1) as F1. pose proof (message_poly_fits d2) as F2.
  rewrite <- Hl in F2. set (n := 8 * Z.of_nat (length d1)) in *.
  assert (fits n (Z.lxor (message_poly d1) (message_poly d2))) as F by (apply lxor_fits; [lia|done..]).
  set (D := Z.lxor _ _) in *.
  assert (forall i, 0 <= i -> i < s \/ s + 32 <= i -> Z.testbit D i = false) as Hout.
  { intros i Hi Ho. subst D. rewrite Z.lxor_spec, !message_poly_bit by done.
    destruct (bit_at d1 i) eqn:E1, (bit_at d2 i) eqn:E2; try done;
      exfalso; destruct (Hb i Hi); congruence || lia. }
  destruct (Z.lt_ge_cases n s) as [Hlt|Hle].
  - exists 0, 0%nat. split_and!; [lia|done|]. apply Z.bits_inj'. intros i Hi.
    rewrite Z.shiftl_0_l, Z.bits_0. destruct (Z.lt_ge_cases i s); [apply Hout; lia|].
    apply (testbit_above n); [lia|done|lia].
  - exists (Z.shiftr D s), (Z.to_nat s). split_and!; [lia| |].
    + apply fits_testbit; [lia| |].
      * apply Z.shiftr_nonneg, F.
      * intros i Hi. rewrite Z.shiftr_spec by lia. apply Hout; lia.
    + rewrite Z2Nat.id by done. apply Z.bits_inj'. intros i Hi. destruct (Z.lt_ge_cases i s).
      * rewrite Z.shiftl_spec_low by done. apply Hout; lia.
      * rewrite Z.shiftl_spec, Z.shiftr_spec by lia. f_equal. lia.
Qed.

(** ... and in any burst of bits. *)
Lemma update_inj_burst c d1 d2 :
  length d1 = length d2 -> bit_burst d1 d2 ->
  foldl update c d1 = foldl update c d2 -> d1 = d2.
Proof.
  intros Hl Hb. rewrite !update_message_poly, Hl, !iter_table_bit_lxor. intros H.
  apply (f_equal (Z.lxor (Nat.iter (8 * length d2) table_bit c))) in H.
  rewrite <- !Z.lxor_assoc, !Z.lxor_nilpotent, !Z.lxor_0_l in H.
  apply message_poly_inj, Z.lxor_eq; [done|].
  destruct (burst_difference _ _ Hl Hb) as (B & n & Hn & HB & E). rewrite E.
  apply (f_equal (Z.lxor (Nat.iter (8 * length d2) table_bit (message_poly d1)))) in H.
  rewrite Z.lxor_nilpotent, <- iter_table_bit_lxor, E in H. symmetry in H.
  replace (8 * length d2)%nat with (8 * length d2 - n + n)%nat in H by lia.
  rewrite Nat.iter_add, iter_table_bit_shiftl in H.
  apply iter_table_bit_0 in H as ->; [|done]. apply Z.shiftl_0_l.
Qed.

Lemma update_fits c b : fits 32 c -> fits 32 (update c b).
Proof.
  intros Hc. rewrite update_bits.
  assert (forall n x, fits 32 x -> fits 32 (Nat.iter n table_bit x)) as Hit.
  { induction n; simpl; auto using table_bit_fits. }
  apply Hit, lxor_fits; [lia|done|]. apply (fits_le 8); [lia|]. apply Z_of_byte_fits.
Qed.

Lemma foldl_update_fits data c : fits 32 c -> fits 32 (foldl update c data).
Proof. revert c. induction data; simpl; auto using update_fits. Qed.

Lemma crc32_fits data : fits 32 (crc32 data).
Proof. apply lxor_fits; [lia|by apply foldl_update_fits|done]. Qed.

(** *** The checksum field *)

Lemma excluding_loop_blank off i c packet :
  excluding_loop off i c packet =
  foldl update c (imap (fun j b => if (off <=? i + j)%nat && (i + j <? off + 4)%nat
                                   then Byte.x00 else b) packet).
Proof.
  revert i c. induction packet as [|b packet IH]; intros i c; [done|].
  simpl. rewrite IH, Nat.add_0_r. f_equal.
  apply imap_ext. intros j x _. unfold compose. by rewrite Nat.add_succ_comm.
Qed.

Lemma crc32_excluding_blank packet off :
  crc32_excluding_checksum packet off = crc32 (blank_checksum packet off).
Proof. unfold crc32_excluding_checksum, crc32, blank_checksum. by rewrite excluding_loop_blank. Qed.

Lemma blank_checksum_app pre field post :
  length field = 4%nat ->
  blank_checksum (pre ++ field ++ post) (length pre) = pre ++ replicate 4 Byte.x00 ++ post.
Proof.
  intros Hf. unfold blank_checksum. rewrite !imap_app, <- Hf. f_equal; [|f_equal].
  - apply imap_same. intros i x Hi%lookup_lt_Some. split_guard; [lia|done].
  - apply imap_replicate. intros i x Hi%lookup_lt_Some. unfold compose. split_guard; [done|].
    destruct E; bool_to_prop; lia.
  - apply imap_same. intros i x Hi%lookup_lt_Some. unfold compose. split_guard; [lia|done].
Qed.

Lemma crc32_app_burst pre d1 d2 post :
  length d1 = length d2 -> bit_burst d1 d2 ->
  crc32 (pre ++ d1 ++ post) = crc32 (pre ++ d2 ++ post) -> d1 = d2.
Proof.
  intros Hl Hb. unfold crc32. rewrite !foldl_app. intros H.
  apply (f_equal (fun z => Z.lxor z 0xFFFFFFFF)) in H.
  rewrite !Z.lxor_assoc, !Z.lxor_nilpotent, !Z.lxor_0_r in H.
  apply update_inj_state in H; [|by apply foldl_update_fits, foldl_update_fits..].
  by apply update_inj_burst in H.
Qed.

(** ** Properties *)

(** C31:  The table-driven, byte-at-a-time [crc32] computes exactly one long
    bit-serial division of the whole message by the IEEE 802.3 polynomial. *)
Theorem crc32_is_division data : crc32 data = crc_division data.
Proof. unfold crc32, crc_division. by rewrite update_message_poly. Qed.

(** Two messages of one length that differ only in a burst of bits never share a
    CRC: every burst of up to 32 bits is detected, wherever it begins and
    whatever precedes and follows it. *)
Theorem crc32_detects_bursts pre d1 d2 post :
  length d1 = length d2 -> bit_burst d1 d2 -> d1 <> d2 ->
  crc32 (pre ++ d1 ++ post) <> crc32 (pre ++ d2 ++ post).
Proof. intros Hl Hb Hne H. by apply crc32_app_burst in H. Qed.

Lemma crc32_detects_bursts_witness :
  crc32 (str "chunk" ++ str "abcd" ++ str "rest")
  <> crc32 (str "chunk" ++ str "abce" ++ str "rest").
Proof. apply crc32_detects_bursts; [reflexivity|apply short_bit_burst; simpl; lia|discriminate]. Defined.
