(* ===== verification/Wire.v ===== *)
(** * The wire format

    src/src/protocol/serializer.cpp: the big-endian primitives, [serialize] and
    [deserialize].  [serialize] is modelled as the code writes it, field by field
    into a zero-initialised buffer at the named offsets; a write is [poke], which
    changes one byte of the buffer. *)

From S2P Require Import Prelude Words Packet Crc32.
Open Scope Z_scope.
Import Packet.

(** ** Big-endian primitives *)

(** [out[i] = v] on the buffer [out] points into. *)
Definition poke (i : nat) (v : Z) (buf : list byte) : list byte := <[i := byte_of_Z v]> buf.

Definition write_be16 (out : nat) (value : Z) (buf : list byte) : list byte :=
  poke (out + 1) (Z.land value 0xFF)
    (poke (out + 0) (Z.land (Z.shiftr value 8) 0xFF) buf).

Definition write_be32 (out : nat) (value : Z) (buf : list byte) : list byte :=
  poke (out + 3) (Z.land value 0xFF)
    (poke (out + 2) (Z.land (Z.shiftr value 8) 0xFF)
      (poke (out + 1) (Z.land (Z.shiftr value 16) 0xFF)
        (poke (out + 0) (Z.land (Z.shiftr value 24) 0xFF) buf))).

(** [for (int i = 0; i < 8; ++i)]: writes byte [i] while [i] counts up. *)
Definition write_be64 (out : nat) (value : Z) (buf : list byte) : list byte :=
  foldl (fun buf i =>
    let shift := Z.of_nat (56 - 8 * i) in
    poke (out + i) (Z.land (Z.shiftr value shift) 0xFF) buf) buf (seq 0 8).

(** Reading byte [i]; every reader below is called within bounds. *)
Definition peek (buf : list byte) (i : nat) : Z := Z_of_byte (nth i buf Byte.x00).

Definition read_be8 (buf : list byte) (i : nat) : Z := peek buf i.

Definition read_be16 (buf : list byte) (i : nat) : Z :=
  u16 (Z.lor (Z.shiftl (peek buf i) 8) (peek buf (i + 1))).

Definition read_be32 (buf : list byte) (i : nat) : Z :=
  Z.lor (Z.lor (Z.lor (u32 (Z.shiftl (peek buf i) 24)) (u32 (Z.shiftl (peek buf (i + 1)) 16)))
    (u32 (Z.shiftl (peek buf (i + 2)) 8))) (peek buf (i + 3)).

Definition read_be64 (buf : list byte) (i : nat) : Z :=
  foldl (fun value j => Z.lor (u64 (Z.shiftl value 8)) (peek buf (i + j))) 0 (seq 0 8).

(** Byte offsets of each field on the wire. *)
Module offset.
Definition kMagic : nat := 0.
Definition kVersion : nat := 4.
Definition kPacketType : nat := 5.
Definition kHeaderLength : nat := 6.
Definition kSessionId : nat := 8.
Definition kSequenceNumber : nat := 16.
Definition kAckNumber : nat := 20.
Definition kByteOffset : nat := 24.
Definition kPayloadLength : nat := 32.
Definition kFlags : nat := 34.
Definition kChecksum : nat := 36.
Definition kEnd : nat := 40.
End offset.

(** ** [serialize] and [deserialize] *)

(** The buffer once every field and the payload are in place, the checksum
    field still zero. *)
Definition fill_packet (h : PacketHeader) (payload : list byte) : list byte :=
  let out := replicate (kHeaderWireSize + length payload) Byte.x00 in
  let out := write_be32 offset.kMagic (magic h) out in
  let out := poke offset.kVersion (version h) out in
  let out := poke offset.kPacketType (PacketType_raw (packet_type h)) out in
  let out := write_be16 offset.kHeaderLength (header_length h) out in
  let out := write_be64 offset.kSessionId (session_id h) out in
  let out := write_be32 offset.kSequenceNumber (sequence_number h) out in
  let out := write_be32 offset.kAckNumber (acknowledgement_number h) out in
  let out := write_be64 offset.kByteOffset (byte_offset h) out in
  let out := write_be16 offset.kPayloadLength (u16 (Z.of_nat (length payload))) out in
  let out := write_be16 offset.kFlags (flags h) out in
  let out := write_be32 offset.kChecksum 0 out in
  if negb (bool_decide (payload = [])) then splice out kHeaderWireSize payload else out.

Definition serialize (h : PacketHeader) (payload : list byte) : list byte :=
  if Z.of_nat (length payload) >? kMaxPayloadSize then []
  else
    let buffer := fill_packet h payload in
    write_be32 offset.kChecksum (crc32_excluding_checksum buffer offset.kChecksum) buffer.

Definition deserialize (buffer : list byte) : DecodeResult :=
  if (length buffer <? kHeaderWireSize)%nat then failure kBufferTooSmall else
  let magic := read_be32 buffer offset.kMagic in
  if negb (magic =? kMagic) then failure kBadMagic else
  let version := read_be8 buffer offset.kVersion in
  if negb (version =? kVersion) then failure kUnsupportedVersion else
  let raw_type := read_be8 buffer offset.kPacketType in
  match PacketType_of_raw raw_type with
  | None => failure kUnknownPacketType
  | Some packet_type =>
    let header_length := read_be16 buffer offset.kHeaderLength in
    if negb (header_length =? Z.of_nat kHeaderWireSize) then failure kBadHeaderLength else
    let header := {|
      magic := magic; version := version; packet_type := packet_type;
      header_length := header_length;
      session_id := read_be64 buffer offset.kSessionId;
      sequence_number := read_be32 buffer offset.kSequenceNumber;
      acknowledgement_number := read_be32 buffer offset.kAckNumber;
      byte_offset := read_be64 buffer offset.kByteOffset;
      payload_length := read_be16 buffer offset.kPayloadLength;
      flags := read_be16 buffer offset.kFlags;
      checksum := read_be32 buffer offset.kChecksum |} in
    let actual_payload := Z.of_nat (length buffer - kHeaderWireSize) in
    if negb (actual_payload =? payload_length header) then failure kPayloadLengthMismatch else
    if negb (crc32_excluding_checksum buffer offset.kChecksum =? checksum header)
    then failure kChecksumMismatch else
    success {| Packet.header := header; payload := drop kHeaderWireSize buffer |}
  end.

(** ** The layout, as the documentation of the format states it *)

(** The header as a sequence of big-endian fields. *)
Definition header_bytes (h : PacketHeader) (payload_len cs : Z) : list byte :=
  be_bytes 4 (magic h) ++ be_bytes 1 (version h) ++
  be_bytes 1 (PacketType_raw (packet_type h)) ++ be_bytes 2 (header_length h) ++
  be_bytes 8 (session_id h) ++ be_bytes 4 (sequence_number h) ++
  be_bytes 4 (acknowledgement_number h) ++ be_bytes 8 (byte_offset h) ++
  be_bytes 2 payload_len ++ be_bytes 2 (flags h) ++ be_bytes 4 cs.

Lemma length_header_bytes h n cs : length (header_bytes h n cs) = kHeaderWireSize.
Proof. done. Qed.

Lemma byte_of_Z_land v : byte_of_Z (Z.land v 0xFF) = byte_of_Z v.
Proof. by rewrite land_0xFF, byte_of_Z_mod. Qed.

Lemma be_bytes_u16 v : be_bytes 2 (u16 v) = be_bytes 2 v.
Proof. apply (be_bytes_wrap 2). Qed.

Lemma splice_exact (a b d : list byte) :
  length d = length b -> splice (a ++ b) (length a) d = a ++ d.
Proof.
  intros Hl. unfold splice. rewrite take_app_length, Hl.
  rewrite drop_ge by len. by rewrite app_nil_r.
Qed.

Lemma fill_packet_layout h p :
  fill_packet h p = header_bytes h (Z.of_nat (length p)) 0 ++ p.
Proof.
  transitivity (splice (header_bytes h (Z.of_nat (length p)) 0 ++ replicate (length p) Byte.x00)
                  kHeaderWireSize p).
  - unfold fill_packet.
    assert (forall b : list byte, p = [] -> splice b kHeaderWireSize p = b) as Hnil.
    { intros b ->. apply take_drop. }
    case_bool_decide as Hp; simpl negb; cbv iota; [rewrite Hnil by done|f_equal];
      unfold header_bytes; rewrite <- (be_bytes_u16 (Z.of_nat (length p)));
      unfold write_be64, write_be32, write_be16, poke; simpl;
      rewrite !byte_of_Z_land, !Z.shiftr_0_r; done.
  - rewrite <- (length_header_bytes h (Z.of_nat (length p)) 0) at 1.
    apply splice_exact. len.
Qed.

Lemma write_checksum h n c v p :
  write_be32 offset.kChecksum v (header_bytes h n c ++ p) = header_bytes h n v ++ p.
Proof.
  unfold header_bytes, write_be32, poke. simpl.
  by rewrite !byte_of_Z_land, !Z.shiftr_0_r.
Qed.

(** The bytes the checksum does not cover, taken as zero. *)
Lemma crc32_header h n c p :
  crc32_excluding_checksum (header_bytes h n c ++ p) offset.kChecksum =
  crc32 (header_bytes h n 0 ++ p).
Proof.
  rewrite crc32_excluding_blank.
  set (pre := take 36 (header_bytes h n c)).
  change (header_bytes h n c) with (pre ++ be_bytes 4 c).
  change (header_bytes h n 0) with (pre ++ replicate 4 Byte.x00).
  rewrite <- !app_assoc. f_equal. by apply (blank_checksum_app pre (be_bytes 4 c) p).
Qed.

Definition packet_crc (h : PacketHeader) (p : list byte) : Z :=
  crc32 (header_bytes h (Z.of_nat (length p)) 0 ++ p).

Lemma serialize_layout h p :
  Z.of_nat (length p) <= kMaxPayloadSize ->
  serialize h p = header_bytes h (Z.of_nat (length p)) (packet_crc h p) ++ p.
Proof.
  intros Hp. unfold serialize. rewrite Z.gtb_ltb, (proj2 (Z.ltb_ge _ _)) by done.
  by rewrite fill_packet_layout, crc32_header, write_checksum.
Qed.

(** ** The readers *)

Lemma nth_slice (l : list byte) i n j d :
  (j < n)%nat -> nth (i + j) l d = nth j (slice i n l) d.
Proof.
  intros. rewrite <- (take_drop i l) at 1. unfold slice.
  destruct (decide (i <= length l)%nat).
  - rewrite app_nth2; rewrite length_take; [|lia].
    replace (i + j - _)%nat with j by lia.
    rewrite <- (take_drop n (drop i l)) at 1.
    destruct (decide (j < length (take n (drop i l)))%nat).
    + by rewrite app_nth1.
    + rewrite !nth_overflow; [done|lia|]. rewrite take_drop.
      rewrite length_take in *. lia.
  - rewrite !nth_overflow; [done|..]; len.
Qed.

Lemma be_step w v b :
  fits w v -> 0 <= w -> w + 8 <= 64 ->
  Z.lor (u64 (Z.shiftl v 8)) (Z_of_byte b) = v * 256 + Z_of_byte b.
Proof.
  intros Hv Hw Hle. destruct (Z_of_byte_fits b).
  rewrite wrap_small.
  - rewrite lor_shiftl_add by (unfold fits; lia). done.
  - destruct Hv as [Hv0 Hv]. rewrite Z.shiftl_mul_pow2 by lia.
    assert (v * 2 ^ 8 < 2 ^ (w + 8)) by (rewrite Z.pow_add_r by lia; nia).
    pose proof (Z.pow_le_mono_r 2 (w + 8) 64). split; lia.
Qed.

Lemma be_value_snoc l b : be_value (l ++ [b]) = be_value l * 256 + Z_of_byte b.
Proof. by rewrite be_value_app. Qed.

Lemma length_list_4 (l : list byte) : length l = 4%nat -> exists a b c d, l = [a; b; c; d].
Proof. destruct l as [|a [|b [|c [|d [|]]]]]; intros; simplify_eq/=; eauto. Qed.

Lemma read_be32_slice buf i :
  (i + 4 <= length buf)%nat -> read_be32 buf i = be_value (slice i 4 buf).
Proof.
  intros Hi. unfold read_be32, peek.
  rewrite <- (Nat.add_0_r i) at 1. rewrite !(nth_slice buf i 4) by lia.
  destruct (length_list_4 (slice i 4 buf)) as (a & b & c & d & ->);
    [by apply length_slice|]. simpl nth.
  destruct (Z_of_byte_fits a), (Z_of_byte_fits b), (Z_of_byte_fits c), (Z_of_byte_fits d).
  rewrite !Z.shiftl_mul_pow2, !wrap_small by (unfold fits; lia).
  rewrite (lor_mul (Z_of_byte a)) by (unfold fits; lia).
  replace (_ + Z_of_byte b * _) with ((Z_of_byte a * 256 + Z_of_byte b) * 2 ^ 16) by lia.
  rewrite lor_mul by (unfold fits; lia).
  replace (_ + Z_of_byte c * _)
    with (((Z_of_byte a * 256 + Z_of_byte b) * 256 + Z_of_byte c) * 2 ^ 8) by lia.
  rewrite lor_mul by (unfold fits; lia). done.
Qed.

Lemma read_be16_slice buf i :
  (i + 2 <= length buf)%nat -> read_be16 buf i = be_value (slice i 2 buf).
Proof.
  intros Hi. unfold read_be16, peek.
  rewrite <- (Nat.add_0_r i) at 1. rewrite !(nth_slice buf i 2) by lia.
  pose proof (length_slice i 2 buf Hi) as Hl.
  destruct (slice i 2 buf) as [|a [|b [|]]]; simplify_eq/=.
  destruct (Z_of_byte_fits a), (Z_of_byte_fits b).
  rewrite !Z.shiftl_mul_pow2, lor_mul, wrap_small by (unfold fits; lia).
  done.
Qed.

Lemma read_be8_slice buf i :
  (i + 1 <= length buf)%nat -> read_be8 buf i = be_value (slice i 1 buf).
Proof.
  intros Hi. unfold read_be8, peek.
  rewrite <- (Nat.add_0_r i) at 1. rewrite (nth_slice buf i 1) by lia.
  pose proof (length_slice i 1 buf Hi) as Hl.
  by destruct (slice i 1 buf) as [|a [|]]; simplify_eq/=.
Qed.

Lemma read_be64_loop (l : list byte) n :
  (n <= length l)%nat -> (n <= 8)%nat ->
  foldl (fun value j => Z.lor (u64 (Z.shiftl value 8)) (Z_of_byte (nth j l Byte.x00))) 0 (seq 0 n)
  = be_value (take n l).
Proof.
  induction n as [|n IH]; intros Hn H8; [done|].
  rewrite seq_S, foldl_snoc, IH by lia. simpl.
  destruct (lookup_lt_is_Some_2 l n) as [b Hb]; [lia|].
  rewrite (take_S_r l n b Hb), be_value_snoc, (nth_lookup_Some l n _ b Hb).
  pose proof (be_value_fits (take n l)) as Hf. rewrite length_take in Hf.
  apply (be_step (8 * Z.of_nat n)); [|lia..]. by replace (n `min` length l)%nat with n in Hf by lia.
Qed.

Lemma read_be64_slice buf i :
  (i + 8 <= length buf)%nat -> read_be64 buf i = be_value (slice i 8 buf).
Proof.
  intros Hi. pose proof (length_slice i 8 buf Hi) as Hl.
  rewrite <- (firstn_all (slice i 8 buf)), Hl.
  rewrite <- (read_be64_loop (slice i 8 buf) 8) by lia.
  unfold read_be64, peek. cbn [seq foldl]. by rewrite !(nth_slice buf i 8) by lia.
Qed.

Lemma slice_join {A} (l : list A) i n j m :
  j = (i + n)%nat -> slice i n l ++ slice j m l = slice i (n + m) l.
Proof. intros ->. unfold slice. rewrite <- drop_drop. apply take_take_drop. Qed.

(** The header fields as reference big-endian numbers. *)
Definition field (buf : list byte) (i n : nat) : Z := be_value (slice i n buf).

Definition header_of (buf : list byte) (t : PacketType) : PacketHeader := {|
  magic := field buf 0 4; version := field buf 4 1; packet_type := t;
  header_length := field buf 6 2; session_id := field buf 8 8;
  sequence_number := field buf 16 4; acknowledgement_number := field buf 20 4;
  byte_offset := field buf 24 8; payload_length := field buf 32 2;
  flags := field buf 34 2; checksum := field buf 36 4 |}.

(** What [deserialize] accepts, check by check. *)
Record accepted (buf : list byte) (t : PacketType) : Prop := {
  acc_size : (kHeaderWireSize <= length buf)%nat;
  acc_magic : field buf 0 4 = kMagic;
  acc_version : field buf 4 1 = kVersion;
  acc_type : field buf 5 1 = PacketType_raw t;
  acc_header_length : field buf 6 2 = Z.of_nat kHeaderWireSize;
  acc_payload_length : field buf 32 2 = Z.of_nat (length buf - kHeaderWireSize);
  acc_checksum : field buf 36 4 = crc32_excluding_checksum buf offset.kChecksum
}.

Lemma deserialize_ok_inv buf pk :
  deserialize buf = success pk ->
  accepted buf (packet_type (header pk)) /\
  pk = {| header := header_of buf (packet_type (header pk)); payload := drop kHeaderWireSize buf |}.
Proof.
  unfold deserialize. intros H.
  destruct (length buf <? kHeaderWireSize)%nat eqn:El; [done|]. bool_to_prop.
  unfold kHeaderWireSize in El.
  rewrite !read_be32_slice, !read_be64_slice, !read_be16_slice, !read_be8_slice in H
    by (unfold offset.kMagic, offset.kVersion, offset.kPacketType, offset.kHeaderLength,
          offset.kSessionId, offset.kSequenceNumber, offset.kAckNumber, offset.kByteOffset,
          offset.kPayloadLength, offset.kFlags, offset.kChecksum; lia).
  repeat match type of H with
  | (if ?b then _ else _) = _ => destruct b eqn:?; [done|]
  | (match ?x with _ => _ end) = _ => destruct x as [t|] eqn:Et; [|done]
  end.
  apply PacketType_of_raw_Some in Et. bool_to_prop.
  injection H as <-. by split; [split|].
Qed.

Lemma deserialize_accepted buf t :
  accepted buf t ->
  deserialize buf = success {| header := header_of buf t; payload := drop kHeaderWireSize buf |}.
Proof.
  intros [Hs Hm Hv Ht Hh Hp Hc]. unfold deserialize.
  unfold field in *. pose proof Hs as Hs'. unfold kHeaderWireSize in Hs.
  rewrite (proj2 (Nat.ltb_ge _ _)) by done.
  rewrite !read_be32_slice, !read_be64_slice, !read_be16_slice, !read_be8_slice
    by (unfold offset.kMagic, offset.kVersion, offset.kPacketType, offset.kHeaderLength,
          offset.kSessionId, offset.kSequenceNumber, offset.kAckNumber, offset.kByteOffset,
          offset.kPayloadLength, offset.kFlags, offset.kChecksum; lia).
  unfold offset.kMagic, offset.kVersion, offset.kPacketType, offset.kHeaderLength,
    offset.kPayloadLength, offset.kChecksum in *. cbv zeta. cbn [payload_length checksum].
  rewrite Hm, Hv, Ht, Hh, Hp, Hc, !Z.eqb_refl, PacketType_of_raw_raw. simpl negb. cbv iota.
  unfold header_of, field. by rewrite Hm, Hv, Hh, Hp, Hc.
Qed.

Lemma field_fits buf i n : fits (8 * Z.of_nat n) (field buf i n).
Proof.
  unfold field. pose proof (be_value_fits (slice i n buf)) as Hf.
  apply (fits_le (8 * Z.of_nat (length (slice i n buf)))); [|done].
  unfold slice. rewrite length_take. lia.
Qed.

Lemma header_of_wf buf t : header_wf (header_of buf t).
Proof.
  split; simpl;
    match goal with |- fits _ (field _ ?i ?n) => exact (field_fits buf i n) end.
Qed.

Lemma be_bytes_field buf i n :
  (i + n <= length buf)%nat -> be_bytes n (field buf i n) = slice i n buf.
Proof.
  intros Hi. unfold field. rewrite <- (length_slice i n buf) at 1 by done.
  apply be_bytes_be_value.
Qed.

(** An accepted datagram is its header fields followed by its payload. *)
Lemma accepted_layout buf t :
  accepted buf t ->
  buf = header_bytes (header_of buf t) (Z.of_nat (length buf - kHeaderWireSize))
          (field buf 36 4) ++ drop kHeaderWireSize buf.
Proof.
  intros [Hs Hm Hv Ht Hh Hp Hc]. pose proof Hs as Hs'. unfold kHeaderWireSize in Hs'.
  unfold header_bytes, header_of. cbn [magic version packet_type header_length session_id
    sequence_number acknowledgement_number byte_offset flags].
  rewrite <- Ht, <- Hp. rewrite !be_bytes_field by lia.
  rewrite !app_assoc.
  do 10 rewrite slice_join by done.
  symmetry. apply (take_drop 40 buf).
Qed.

Lemma accepted_crc buf t :
  accepted buf t ->
  field buf 36 4 = packet_crc (header_of buf t) (drop kHeaderWireSize buf).
Proof.
  intros Hacc. pose proof Hacc as [Hs Hm Hv Ht Hh Hp Hc].
  rewrite Hc at 1. rewrite (accepted_layout buf t) at 1 by done. rewrite crc32_header.
  unfold packet_crc. by rewrite length_drop.
Qed.

Lemma accepted_serialize buf t :
  accepted buf t -> serialize (header_of buf t) (drop kHeaderWireSize buf) = buf.
Proof.
  intros Hacc. pose proof Hacc as [Hs Hm Hv Ht Hh Hp Hc].
  rewrite serialize_layout.
  - rewrite <- accepted_crc, length_drop by done. by rewrite <- accepted_layout.
  - pose proof (field_fits buf 32 2) as Hf. rewrite Hp in Hf. rewrite length_drop.
    unfold fits in Hf. unfold kMaxPayloadSize. lia.
Qed.

(** What a receiver reads back from a packet this sender wrote. *)
Definition sent_header (h : PacketHeader) (p : list byte) : PacketHeader := {|
  magic := magic h; version := version h; packet_type := packet_type h;
  header_length := header_length h; session_id := session_id h;
  sequence_number := sequence_number h;
  acknowledgement_number := acknowledgement_number h; byte_offset := byte_offset h;
  payload_length := Z.of_nat (length p); flags := flags h; checksum := packet_crc h p |}.

(** The header is one this protocol version speaks. *)
Definition speaks (h : PacketHeader) : Prop :=
  magic h = kMagic /\ version h = kVersion /\ header_length h = Z.of_nat kHeaderWireSize.

Lemma packet_crc_fits h p : fits 32 (packet_crc h p).
Proof. apply crc32_fits. Qed.

Lemma serialize_fields h p :
  header_wf h -> Z.of_nat (length p) <= kMaxPayloadSize ->
  header_of (serialize h p) (packet_type h) = sent_header h p /\
  drop kHeaderWireSize (serialize h p) = p /\
  field (serialize h p) 5 1 = PacketType_raw (packet_type h) /\
  length (serialize h p) = (kHeaderWireSize + length p)%nat.
Proof.
  intros [] Hp. rewrite serialize_layout by done.
  split_and!; [|done| |by len].
  - unfold header_of, sent_header. f_equal; cbv [field];
      match goal with |- be_value (slice ?i ?n _) = ?v =>
        change (be_value (be_bytes n v) = v) end;
      rewrite be_value_be_bytes; apply wrap_small; try done.
    + unfold fits, kMaxPayloadSize in *. lia.
    + apply packet_crc_fits.
  - unfold field. change (be_value (be_bytes 1 (PacketType_raw (packet_type h))) = PacketType_raw (packet_type h)).
    rewrite be_value_be_bytes. apply wrap_small, PacketType_raw_fits.
Qed.

Lemma serialize_accepted h p :
  header_wf h -> speaks h -> Z.of_nat (length p) <= kMaxPayloadSize ->
  accepted (serialize h p) (packet_type h).
Proof.
  intros Hwf (Hm & Hv & Hh) Hp.
  destruct (serialize_fields h p Hwf Hp) as (Hf & Hd & Ht & Hl).
  split; [lia| | |done| | |].
  - rewrite <- Hm. exact (f_equal magic Hf).
  - rewrite <- Hv. exact (f_equal version Hf).
  - rewrite <- Hh. exact (f_equal header_length Hf).
  - rewrite Hl, Nat.add_comm, Nat.add_sub. exact (f_equal payload_length Hf).
  - transitivity (packet_crc h p); [exact (f_equal checksum Hf)|].
    by rewrite serialize_layout, crc32_header.
Qed.

(** ** Properties *)

(** C29:  Round trip: every packet the program can build (fields within their
    types, this protocol version, at most 65535 payload bytes) survives
    [serialize] then [deserialize], with the payload verbatim and with
    [payload_length] and [checksum] recomputed rather than trusted. *)
Theorem deserialize_serialize h p :
  header_wf h -> speaks h -> Z.of_nat (length p) <= kMaxPayloadSize ->
  deserialize (serialize h p) = success {| header := sent_header h p; payload := p |}.
Proof.
  intros Hwf Hs Hp.
  rewrite (deserialize_accepted _ (packet_type h)) by by apply serialize_accepted.
  destruct (serialize_fields h p Hwf Hp) as (-> & -> & _ & _). done.
Qed.

Lemma deserialize_serialize_witness :
  deserialize (serialize (make_header kData 0xDEADBEEF00000001 7 0 8400) (str "swiftlink"))
  = success {| header := sent_header (make_header kData 0xDEADBEEF00000001 7 0 8400) (str "swiftlink");
               payload := str "swiftlink" |}.
Proof.
  apply deserialize_serialize; [apply make_header_wf; vm_compute; intuition discriminate
  | by vm_compute | by vm_compute].
Defined.

(** C38:  The decoder accepts nothing but the encoder's output: an accepted
    datagram re-serialises to exactly the bytes received, and every field of
    the decoded header is a value of its C++ type. *)
Theorem deserialize_canonical buf :
  ok (deserialize buf) = true ->
  serialize (header (value (deserialize buf))) (payload (value (deserialize buf))) = buf
  /\ header_wf (header (value (deserialize buf)))
  /\ speaks (header (value (deserialize buf))).
Proof.
  intros Hok. destruct (deserialize buf) as [pk e] eqn:E.
  unfold ok in Hok. simpl in Hok. bool_to_prop. subst e. simpl.
  apply deserialize_ok_inv in E as [Hacc ->]. simpl. split_and!.
  - by apply accepted_serialize.
  - apply header_of_wf.
  - by destruct Hacc.
Qed.

Lemma deserialize_canonical_witness :
  let buf := serialize (make_header kAck 5 9 9 0) [] in
  ok (deserialize buf) = true /\
  serialize (header (value (deserialize buf))) (payload (value (deserialize buf))) = buf.
Proof. split; [by vm_compute|]. apply deserialize_canonical. by vm_compute. Defined.

(** The type travels, whatever the other fields are. *)
Lemma sent_type h p q : deserialize (serialize h p) = success q -> packet_type (header q) = packet_type h.
Proof.
  intros [Ha _]%deserialize_ok_inv. destruct (decide (Z.of_nat (length p) <= kMaxPayloadSize)) as [Hp|Hp].
  - pose proof (acc_type _ _ Ha) as Ht. rewrite serialize_layout in Ht by done. unfold field in Ht.
    change (be_value (be_bytes 1 (PacketType_raw (packet_type h))) = PacketType_raw (packet_type (header q))) in Ht.
    rewrite be_value_be_bytes, wrap_small in Ht by apply PacketType_raw_fits.
    apply (f_equal PacketType_of_raw) in Ht. rewrite !PacketType_of_raw_raw in Ht. congruence.
  - pose proof (acc_size _ _ Ha) as Hl. unfold serialize in Hl. rewrite Z.gtb_ltb, (proj2 (Z.ltb_lt _ _)) in Hl by lia.
    unfold kHeaderWireSize in Hl. simpl in Hl. lia.
Qed.

(** The first check a datagram fails, as the reference fields tell it. *)
Definition rejection (buf : list byte) : DecodeError :=
  if bool_decide (length buf < kHeaderWireSize)%nat then kBufferTooSmall
  else if bool_decide (field buf 0 4 <> kMagic) then kBadMagic
  else if bool_decide (field buf 4 1 <> kVersion) then kUnsupportedVersion
  else if bool_decide (~ 1 <= field buf 5 1 <= 7) then kUnknownPacketType
  else if bool_decide (field buf 6 2 <> 40) then kBadHeaderLength
  else if bool_decide (field buf 32 2 <> Z.of_nat (length buf - kHeaderWireSize))
  then kPayloadLengthMismatch
  else if bool_decide (field buf 36 4 <> crc32 (blank_checksum buf 36)) then kChecksumMismatch
  else kNone.

Lemma PacketType_of_raw_None raw : PacketType_of_raw raw = None <-> ~ 1 <= raw <= 7.
Proof.
  split; intros H.
  - intros [H1 H7].
    assert (raw = 1 \/ raw = 2 \/ raw = 3 \/ raw = 4 \/ raw = 5 \/ raw = 6 \/ raw = 7)
      as Hr by lia.
    destruct_or! Hr; by subst raw.
  - destruct (PacketType_of_raw raw) as [t|] eqn:E; [|done].
    apply PacketType_of_raw_Some in E. destruct t; simpl in E; lia.
Qed.

Lemma eqb_bool_decide (x y : Z) : negb (x =? y) = bool_decide (x <> y).
Proof. destruct (Z.eqb_spec x y); symmetry; by (apply bool_decide_eq_true || apply bool_decide_eq_false; auto). Qed.

(** C39:  Every branch of the decoder: the error reported is the first check of
    the list (size, magic, version, type, header length, payload length,
    checksum) that the datagram fails, success means it passes all of them, and
    a failed result exposes only the default packet. *)
Theorem deserialize_rejection buf :
  error_ (deserialize buf) = rejection buf /\
  (ok (deserialize buf) = false -> value (deserialize buf) = default_packet).
Proof.
  unfold deserialize, rejection.
  destruct (Nat.ltb_spec (length buf) kHeaderWireSize) as [Hl|Hl].
  { rewrite bool_decide_eq_true_2 by done. done. }
  rewrite bool_decide_eq_false_2 by lia. unfold kHeaderWireSize in Hl.
  rewrite !read_be32_slice, !read_be64_slice, !read_be16_slice, !read_be8_slice
    by (unfold offset.kMagic, offset.kVersion, offset.kPacketType, offset.kHeaderLength,
          offset.kSessionId, offset.kSequenceNumber, offset.kAckNumber, offset.kByteOffset,
          offset.kPayloadLength, offset.kFlags, offset.kChecksum; lia).
  rewrite !eqb_bool_decide, crc32_excluding_blank. cbn [payload_length checksum].
  unfold field, offset.kMagic, offset.kVersion, offset.kPacketType, offset.kHeaderLength,
    offset.kPayloadLength, offset.kChecksum.
  change (Z.of_nat kHeaderWireSize) with 40.
  do 2 (case_bool_decide; [done|]).
  destruct (PacketType_of_raw _) eqn:Et.
  - rewrite (bool_decide_eq_false_2 (~ 1 <= _ <= 7));
      [|intros Hn; apply PacketType_of_raw_None in Hn; congruence].
    case_bool_decide; [done|]. rewrite (Z.eqb_sym (Z.of_nat _)), (Z.eqb_sym (crc32 _)), !eqb_bool_decide.
    case_bool_decide; [done|].
    by case_bool_decide.
  - rewrite bool_decide_eq_true_2; [done|]. by apply PacketType_of_raw_None in Et.
Qed.

Lemma accepted_split buf t :
  accepted buf t ->
  buf = take 36 buf ++ slice 36 4 buf ++ drop 40 buf /\
  length (take 36 buf) = 36%nat /\ length (slice 36 4 buf) = 4%nat /\
  be_value (slice 36 4 buf) = crc32 (take 36 buf ++ replicate 4 Byte.x00 ++ drop 40 buf).
Proof.
  intros [Hs _ _ _ _ _ Hc]. unfold kHeaderWireSize in Hs.
  pose proof (take_drop_slice 36 4 buf) as Hb.
  assert (length (take 36 buf) = 36%nat) as H36 by (len).
  split_and!; [by symmetry|exact H36|apply length_slice; lia|].
  unfold field in Hc. rewrite Hc, crc32_excluding_blank.
  pose proof (blank_checksum_app (take 36 buf) (slice 36 4 buf) (drop 40 buf)
    ltac:(apply length_slice; lia)) as Hk.
  rewrite H36 in Hk. change 40%nat with (36 + 4)%nat in Hk |- *. by rewrite <- Hk, Hb.
Qed.

Lemma slice_slice {A} (l : list A) i n j m :
  (j + m <= n)%nat -> slice j m (slice i n l) = slice (i + j) m l.
Proof.
  intros. unfold slice. rewrite skipn_firstn_comm, drop_drop, take_take.
  by replace (m `min` (n - j))%nat with m by lia.
Qed.

(** A run of bytes lies entirely before, inside or after the checksum field. *)
Definition aside_checksum (pos len : nat) : Prop :=
  (pos + len <= 36)%nat \/ (36 <= pos /\ pos + len <= 40)%nat \/ (40 <= pos)%nat.

(** Two accepted datagrams that differ only in such a run are equal; one lemma
    for each side of the checksum field, on its parts. *)
Section Burst.
Context (pre d1 d2 post : list byte).
Context (Hl : length d1 = length d2) (Hb : bit_burst d1 d2).
Abbreviation buf1 := (pre ++ d1 ++ post).
Abbreviation buf2 := (pre ++ d2 ++ post).
Context (L : (36 <= length buf1)%nat).
Context (C1 : be_value (slice 36 4 buf1) = crc32 (take 36 buf1 ++ replicate 4 Byte.x00 ++ drop 40 buf1)).
Context (C2 : be_value (slice 36 4 buf2) = crc32 (take 36 buf2 ++ replicate 4 Byte.x00 ++ drop 40 buf2)).

Lemma burst_before_checksum : (length pre + length d1 <= 36)%nat -> d1 = d2.
Proof.
  intros Hpos. rewrite !length_app in L.
  assert (forall d, length d = length d1 ->
    take 36 (pre ++ d ++ post) = pre ++ d ++ take (36 - length pre - length d1) post /\
    drop 36 (pre ++ d ++ post) = drop (36 - length pre - length d1) post) as Hd.
  { intros d Hd. rewrite !take_app, !drop_app, Hd, (take_ge pre), (drop_ge pre) by lia.
    by rewrite (take_ge d), (drop_ge d) by lia. }
  destruct (Hd d1 eq_refl) as [T1 D1]. destruct (Hd d2 (eq_sym Hl)) as [T2 D2].
  unfold slice in C1, C2. change 40%nat with (36 + 4)%nat in C1, C2.
  rewrite <- !drop_drop, D1, T1 in C1. rewrite <- !drop_drop, D2, T2 in C2.
  rewrite C1, <- !app_assoc in C2. by apply crc32_app_burst in C2.
Qed.

Lemma burst_in_checksum :
  length (slice 36 4 buf1) = length (slice 36 4 buf2) ->
  (36 <= length pre)%nat -> (length pre + length d1 <= 40)%nat -> d1 = d2.
Proof.
  intros Hs Hlo Hhi.
  assert (forall d, length d = length d1 ->
    take 36 (pre ++ d ++ post) = take 36 pre /\
    drop 40 (pre ++ d ++ post) = drop (40 - length pre - length d1) post) as Hd.
  { intros d Hd. rewrite !take_app, !drop_app, Hd.
    rewrite (drop_ge pre), (drop_ge d) by lia.
    replace (36 - length pre)%nat with 0%nat by lia. simpl. by rewrite app_nil_r. }
  destruct (Hd d1 eq_refl) as [T1 D1]. destruct (Hd d2 (eq_sym Hl)) as [T2 D2].
  rewrite T1, D1 in C1. rewrite T2, D2, <- C1 in C2.
  apply be_value_inj in C2; [|congruence].
  apply (f_equal (fun l => take (length d1) (drop (length pre - 36) l))) in C2.
  fold (slice (length pre - 36) (length d1) (slice 36 4 buf2)) in C2.
  fold (slice (length pre - 36) (length d1) (slice 36 4 buf1)) in C2.
  rewrite !slice_slice in C2 by lia.
  replace (36 + (length pre - 36))%nat with (length pre) in C2 by lia.
  unfold slice in C2. rewrite !drop_app_length in C2.
  rewrite take_app_length in C2. rewrite Hl, take_app_length in C2. done.
Qed.

Lemma burst_after_checksum : (40 <= length pre)%nat -> d1 = d2.
Proof.
  intros Hpos.
  assert (forall d, slice 36 4 (pre ++ d) = slice 36 4 pre /\ take 36 (pre ++ d) = take 36 pre
    /\ drop 40 (pre ++ d) = drop 40 pre ++ d) as Hd.
  { intros d. split_and!; [by apply slice_app_l|by apply take_app_le; lia|by apply drop_app_le]. }
  destruct (Hd (d1 ++ post)) as (S1 & T1 & D1). destruct (Hd (d2 ++ post)) as (S2 & T2 & D2).
  rewrite S1, T1, D1 in C1. rewrite S2, T2, D2, C1 in C2.
  rewrite !(app_assoc (replicate _ _)), !(app_assoc (take _ _)) in C2.
  by apply crc32_app_burst in C2.
Qed.
End Burst.

(** C30:  Corruption on the path: if a datagram would be accepted, then no
    datagram obtained from it by altering bits within 32 consecutive ones (in
    the order of the CRC, the least significant bit of a byte first; the burst
    may begin anywhere in a byte and so touch five bytes) is accepted, when the
    altered bytes lie before, inside or after the checksum field and do not
    straddle its edge.  Any change of up to four consecutive bytes is such a
    burst. *)
Theorem corruption_rejected pre d1 d2 post :
  ok (deserialize (pre ++ d1 ++ post)) = true ->
  length d1 = length d2 -> bit_burst d1 d2 -> d1 <> d2 ->
  aside_checksum (length pre) (length d1) ->
  ok (deserialize (pre ++ d2 ++ post)) = false.
Proof.
  intros Hok Hl Hb Hne Hpos. apply not_true_iff_false. intros Hok'. apply Hne. clear Hne.
  destruct (deserialize (pre ++ d1 ++ post)) as [pk1 e1] eqn:E1.
  destruct (deserialize (pre ++ d2 ++ post)) as [pk2 e2] eqn:E2.
  unfold ok in *. simpl in *. bool_to_prop. subst.
  apply deserialize_ok_inv in E1 as [A1 _]. apply deserialize_ok_inv in E2 as [A2 _].
  destruct (accepted_split _ _ A1) as (_ & _ & L1 & C1).
  destruct (accepted_split _ _ A2) as (_ & _ & L2 & C2).
  assert (36 <= length (pre ++ d1 ++ post))%nat as Hlen.
  { destruct A1 as [Hs _ _ _ _ _ _]. unfold kHeaderWireSize in Hs. lia. }
  destruct Hpos as [Hpos|[[Hlo Hhi]|Hpos]].
  - by apply (burst_before_checksum pre d1 d2 post).
  - apply (burst_in_checksum pre d1 d2 post); [done..|congruence|done|done].
  - by apply (burst_after_checksum pre d1 d2 post).
Qed.

(** A burst of 30 bits over five bytes of the payload: it begins at bit 5 of the
    first and ends at bit 2 of the fifth. *)
Definition hit_bytes (l : list byte) : list byte :=
  zip_with (fun b m => byte_of_Z (Z.lxor (Z_of_byte b) m)) l [0xE0; 0xFF; 0xFF; 0xFF; 0x07].

Lemma corruption_rejected_witness :
  let buf := serialize (make_header kData 77 3 0 24) (str "payload!") in
  ok (deserialize (take 41 buf ++ str "ayloa" ++ drop 46 buf)) = true /\
  ok (deserialize (take 41 buf ++ hit_bytes (str "ayloa") ++ drop 46 buf)) = false.
Proof.
  split; [by vm_compute|].
  apply (corruption_rejected _ (str "ayloa"));
    [by vm_compute|reflexivity| |by vm_compute|right; right; vm_compute; lia].
  exists 5. split; [lia|]. intros i Hi Hne.
  destruct (decide (5 <= i < 37)) as [|Hout]; [lia|]. exfalso. apply Hne.
  assert (i < 5 \/ 37 <= i < 40 \/ 40 <= i) as [H|[H|H]] by lia.
  - assert (i = 0 \/ i = 1 \/ i = 2 \/ i = 3 \/ i = 4) as Hc by lia.
    by repeat destruct Hc as [->|Hc]; subst; vm_compute.
  - assert (i = 37 \/ i = 38 \/ i = 39) as Hc by lia.
    by repeat destruct Hc as [->|Hc]; subst; vm_compute.
  - unfold bit_at. assert (5 <= i / 8) by (apply Z.div_le_lower_bound; lia).
    rewrite !nth_overflow; [done|vm_compute length; lia..].
Defined.
