(* ===== verification/Fips180.v ===== *)
(** * SHA-256 as FIPS 180-4 states it

    A reading of the standard, made apart from src/src/crypto/sha256.cpp and
    used to judge it: nothing in this file comes from the code.  The constants
    are not a table but their definition (sections 4.2.2 and 5.3.3: the first
    32 bits of the fractional parts of cube and square roots of primes), the
    message schedule is a growing sequence and not an array of 64 cells, the
    rounds run along the constants and the schedule side by side, and the
    message is cut into blocks of sixteen words after the padding of section
    5.1.1. *)

From S2P Require Import Prelude Words.
Open Scope Z_scope.

Module FIPS.

(** ** Operations on 32-bit words (sections 2.2.2 and 3.2) *)

Definition add (x y : Z) : Z := (x + y) mod 2 ^ 32.
Definition complement (x : Z) : Z := Z.lnot x mod 2 ^ 32.
Definition SHR (n x : Z) : Z := Z.shiftr x n.
Definition SHL (n x : Z) : Z := Z.shiftl x n mod 2 ^ 32.
Definition ROTR (n x : Z) : Z := Z.lor (SHR n x) (SHL (32 - n) x).

(** ** Functions (section 4.1.2) *)

Definition Ch (x y z : Z) : Z := Z.lxor (Z.land x y) (Z.land (complement x) z).
Definition Maj (x y z : Z) : Z := Z.lxor (Z.lxor (Z.land x y) (Z.land x z)) (Z.land y z).
Definition Sigma0 (x : Z) : Z := Z.lxor (Z.lxor (ROTR 2 x) (ROTR 13 x)) (ROTR 22 x).
Definition Sigma1 (x : Z) : Z := Z.lxor (Z.lxor (ROTR 6 x) (ROTR 11 x)) (ROTR 25 x).
Definition sigma0 (x : Z) : Z := Z.lxor (Z.lxor (ROTR 7 x) (ROTR 18 x)) (SHR 3 x).
Definition sigma1 (x : Z) : Z := Z.lxor (Z.lxor (ROTR 17 x) (ROTR 19 x)) (SHR 10 x).

(** ** Constants (sections 4.2.2 and 5.3.3) *)

Definition is_prime (p : nat) : bool :=
  (2 <=? p)%nat && forallb (fun d => negb (p mod d =? 0)%nat) (seq 2 (p - 2)).

(** The first [n] primes; the 64th is 311. *)
Definition primes (n : nat) : list Z := map Z.of_nat (take n (List.filter is_prime (seq 0 312))).

(** The integer cube root, one bit at a time from bit [n - 1] down. *)
Fixpoint cube_root_from (n : nat) (r m : Z) : Z :=
  match n with
  | O => r
  | S n => let r' := r + 2 ^ Z.of_nat n in
      cube_root_from n (if r' ^ 3 <=? m then r' else r) m
  end.
Definition cube_root (m : Z) : Z := cube_root_from 36 0 m.

(** The first 32 bits of the fractional part of a root of [p]: the integer
    root of [p] scaled by the power of [2 ^ 32], without the integer part. *)
Definition K : list Z := map (fun p => cube_root (p * 2 ^ 96) mod 2 ^ 32) (primes 64).
Definition IV : list Z := map (fun p => Z.sqrt (p * 2 ^ 64) mod 2 ^ 32) (primes 8).

(** ** Padding and parsing (sections 5.1.1 and 5.2.1) *)

(** One bit, the fewest zeroes that leave room for the length, and the length
    in bits. *)
Definition pad (m : list byte) : list byte :=
  m ++ [Byte.x80] ++ replicate ((119 - length m mod 64) mod 64) Byte.x00
    ++ be_bytes 8 (8 * Z.of_nat (length m)).

(** The big-endian words of a block. *)
Fixpoint words (n : nat) (l : list byte) : list Z :=
  match n with
  | O => []
  | S n => be_value (take 4 l) :: words n (drop 4 l)
  end.

(** The blocks of sixteen words. *)
Fixpoint blocks (n : nat) (l : list byte) : list (list Z) :=
  match n with
  | O => []
  | S n => words 16 (take 64 l) :: blocks n (drop 64 l)
  end.

Definition parse (l : list byte) : list (list Z) := blocks (length l / 64) l.

(** ** Hash computation (section 6.2.2) *)

(** Step 1: [W_t] for [t] the number of words there are already. *)
Definition next_word (W : list Z) : Z :=
  let t := length W in
  let w i := nth (t - i) W 0 in
  add (add (add (sigma1 (w 2%nat)) (w 7%nat)) (sigma0 (w 15%nat))) (w 16%nat).

Definition extend (W : list Z) : list Z := W ++ [next_word W].
Definition message_schedule (M : list Z) : list Z := Nat.iter 48 extend M.

(** Step 3: one round on the working variables, with [K_t] and [W_t]. *)
Definition hash_round (v : Z * Z * Z * Z * Z * Z * Z * Z) (kw : Z * Z) :=
  let '(a, b, c, d, e, f, g, h) := v in
  let T1 := add (add (add (add h (Sigma1 e)) (Ch e f g)) (fst kw)) (snd kw) in
  let T2 := add (Sigma0 a) (Maj a b c) in
  (add T1 T2, a, b, c, add d T1, e, f, g).

(** Steps 2 and 4: the working variables start as the hash value, and are added
    to it at the end. *)
Definition hash_block (H M : list Z) : list Z :=
  match H with
  | [a; b; c; d; e; f; g; h] =>
      let '(a', b', c', d', e', f', g', h') :=
        foldl hash_round (a, b, c, d, e, f, g, h) (zip K (message_schedule M)) in
      [add a' a; add b' b; add c' c; add d' d; add e' e; add f' f; add g' g; add h' h]
  | _ => []
  end.

(** The 256-bit message digest of [m]. *)
Definition digest (m : list byte) : list byte :=
  mjoin (map (be_bytes 4) (foldl hash_block IV (parse (pad m)))).

(** ** The constants are roots *)

Lemma cube_root_from_spec n r m :
  0 <= r -> r ^ 3 <= m < (r + 2 ^ Z.of_nat n) ^ 3 ->
  let s := cube_root_from n r m in s ^ 3 <= m < (s + 1) ^ 3.
Proof.
  revert r. induction n as [|n IH]; intros r Hr Hm; [done|].
  cbn [cube_root_from]. pose proof (Z.pow_pos_nonneg 2 (Z.of_nat n) ltac:(lia) ltac:(lia)).
  destruct (Z.leb_spec ((r + 2 ^ Z.of_nat n) ^ 3) m); apply IH; [lia| |lia|lia].
  rewrite Nat2Z.inj_succ, Z.pow_succ_r in Hm by lia.
  replace (r + 2 ^ Z.of_nat n + 2 ^ Z.of_nat n) with (r + 2 * 2 ^ Z.of_nat n) by lia. lia.
Qed.

(** [cube_root] is the cube root rounded down on the range it is used on. *)
Lemma cube_root_spec m : 0 <= m < 2 ^ 108 -> cube_root m ^ 3 <= m < (cube_root m + 1) ^ 3.
Proof. intros. by apply cube_root_from_spec. Qed.

(** ** Padding fills whole blocks *)

Lemma length_pad m : (length (pad m) mod 64 = 0)%nat.
Proof.
  unfold pad. rewrite !length_app, length_replicate, length_be_bytes. simpl length.
  pose proof (Nat.div_mod_eq (length m) 64). pose proof (Nat.mod_upper_bound (length m) 64 ltac:(lia)).
  set (r := (length m mod 64)%nat) in *. set (q := (length m / 64)%nat) in *.
  replace (length m + (1 + ((119 - r) mod 64 + 8)))%nat
    with (r + 9 + (119 - r) mod 64 + q * 64)%nat by lia.
  rewrite Nat.Div0.mod_add, Nat.Div0.add_mod_idemp_r.
  by replace (r + 9 + (119 - r))%nat with (2 * 64)%nat by lia.
Qed.

Lemma length_schedule_iter n M : length (Nat.iter n extend M) = (n + length M)%nat.
Proof.
  induction n as [|n IH]; [done|]. rewrite Nat.iter_succ. unfold extend at 1.
  rewrite length_app, IH. simpl. lia.
Qed.

Lemma length_message_schedule M : length (message_schedule M) = (48 + length M)%nat.
Proof. apply (length_schedule_iter 48). Qed.

End FIPS.

(** The standard's own examples (the published vectors of the standard). *)
Example fips_abc : map Z_of_byte (FIPS.digest (map byte_of_Z [97; 98; 99])) =
  [0xba; 0x78; 0x16; 0xbf; 0x8f; 0x01; 0xcf; 0xea; 0x41; 0x41; 0x40; 0xde; 0x5d; 0xae; 0x22; 0x23;
   0xb0; 0x03; 0x61; 0xa3; 0x96; 0x17; 0x7a; 0x9c; 0xb4; 0x10; 0xff; 0x61; 0xf2; 0x00; 0x15; 0xad].
Proof. by vm_compute. Qed.
