(* ===== verification/Sha256.v ===== *)
(** * SHA-256

    src/include/swiftlink/crypto/sha256.hpp and src/src/crypto/sha256.cpp: the
    compression function, the incremental hasher with its 64-byte buffer, and
    the padding of [finish].  [compress] is proved to be the hash computation of
    FIPS 180-4 as Fips180.v states it, and the whole hasher the standard's
    digest. *)

From S2P Require Import Prelude Words Fips180 Wire.
Open Scope Z_scope.

Definition kSha256DigestSize : nat := 32.

Definition kRoundConstants : list Z := [
  0x428A2F98; 0x71374491; 0xB5C0FBCF; 0xE9B5DBA5; 0x3956C25B;
  0x59F111F1; 0x923F82A4; 0xAB1C5ED5; 0xD807AA98; 0x12835B01;
  0x243185BE; 0x550C7DC3; 0x72BE5D74; 0x80DEB1FE; 0x9BDC06A7;
  0xC19BF174; 0xE49B69C1; 0xEFBE4786; 0x0FC19DC6; 0x240CA1CC;
  0x2DE92C6F; 0x4A7484AA; 0x5CB0A9DC; 0x76F988DA; 0x983E5152;
  0xA831C66D; 0xB00327C8; 0xBF597FC7; 0xC6E00BF3; 0xD5A79147;
  0x06CA6351; 0x14292967; 0x27B70A85; 0x2E1B2138; 0x4D2C6DFC;
  0x53380D13; 0x650A7354; 0x766A0ABB; 0x81C2C92E; 0x92722C85;
  0xA2BFE8A1; 0xA81A664B; 0xC24B8B70; 0xC76C51A3; 0xD192E819;
  0xD6990624; 0xF40E3585; 0x106AA070; 0x19A4C116; 0x1E376C08;
  0x2748774C; 0x34B0BCB5; 0x391C0CB3; 0x4ED8AA4A; 0x5B9CCA4F;
  0x682E6FF3; 0x748F82EE; 0x78A5636F; 0x84C87814; 0x8CC70208;
  0x90BEFFFA; 0xA4506CEB; 0xBEF9A3F7; 0xC67178F2].

Definition rotate_right (value bits : Z) : Z :=
  Z.lor (Z.shiftr value bits) (u32 (Z.shiftl value (32 - bits))).

(** This file has its own copies of the two 32-bit primitives. *)
Definition read_be32 (input : list byte) (i : nat) : Z :=
  Z.lor (Z.lor (Z.lor (u32 (Z.shiftl (peek input i) 24)) (u32 (Z.shiftl (peek input (i + 1)) 16)))
    (u32 (Z.shiftl (peek input (i + 2)) 8))) (peek input (i + 3)).

Definition write_be32 (out : nat) (value : Z) (buf : list byte) : list byte :=
  poke (out + 3) (Z.land value 0xFF)
    (poke (out + 2) (Z.land (Z.shiftr value 8) 0xFF)
      (poke (out + 1) (Z.land (Z.shiftr value 16) 0xFF)
        (poke (out + 0) (Z.land (Z.shiftr value 24) 0xFF) buf))).

(** ** [Sha256::compress] *)

(** [w[i]] of the message schedule array. *)
Notation "w '.[' i ']'" := (nth i w 0) (at level 1, i at level 200, format "w .[ i ]").

(** The first loop of [compress]: the sixteen words of the block. *)
Definition schedule_load (block : list byte) : list Z :=
  foldl (fun w i => <[i := read_be32 block (i * 4)]> w) (replicate 64 0) (seq 0 16).

(** The second loop: the 48 derived words. *)
Definition schedule_step (w : list Z) (i : nat) : list Z :=
  let s0 := Z.lxor (Z.lxor (rotate_right w.[i - 15] 7) (rotate_right w.[i - 15] 18))
              (Z.shiftr w.[i - 15] 3) in
  let s1 := Z.lxor (Z.lxor (rotate_right w.[i - 2] 17) (rotate_right w.[i - 2] 19))
              (Z.shiftr w.[i - 2] 10) in
  <[i := u32 (w.[i - 16] + s0 + w.[i - 7] + s1)]> w.

Definition schedule (block : list byte) : list Z :=
  foldl schedule_step (schedule_load block) (seq 16 48).

(** The eight working variables. *)
Record working := Working { wa : Z; wb : Z; wc : Z; wd : Z; we : Z; wf : Z; wg : Z; wh : Z }.

Definition round (w : list Z) (v : working) (i : nat) : working :=
  let '(Working a b c d e f g h) := v in
  let s1 := Z.lxor (Z.lxor (rotate_right e 6) (rotate_right e 11)) (rotate_right e 25) in
  let choice := Z.lxor (Z.land e f) (Z.land (u32 (Z.lnot e)) g) in
  let temp1 := u32 (h + s1 + choice + kRoundConstants.[i] + w.[i]) in
  let s0 := Z.lxor (Z.lxor (rotate_right a 2) (rotate_right a 13)) (rotate_right a 22) in
  let majority := Z.lxor (Z.lxor (Z.land a b) (Z.land a c)) (Z.land b c) in
  let temp2 := u32 (s0 + majority) in
  Working (u32 (temp1 + temp2)) a b c (u32 (d + temp1)) e f g.

Definition compress (state_ : list Z) (block : list byte) : list Z :=
  let w := schedule block in
  let v := Working state_.[0] state_.[1] state_.[2] state_.[3]
             state_.[4] state_.[5] state_.[6] state_.[7] in
  let v := foldl (round w) v (seq 0 64) in
  [u32 (state_.[0] + wa v); u32 (state_.[1] + wb v); u32 (state_.[2] + wc v);
   u32 (state_.[3] + wd v); u32 (state_.[4] + we v); u32 (state_.[5] + wf v);
   u32 (state_.[6] + wg v); u32 (state_.[7] + wh v)].

(** ** The incremental hasher *)

Record Sha256 := {
  state_ : list Z;
  buffer_ : list byte;
  buffered_ : nat;
  total_bits_ : Z
}.

Definition initial_state : list Z :=
  [0x6a09e667; 0xbb67ae85; 0x3c6ef372; 0xa54ff53a;
   0x510e527f; 0x9b05688c; 0x1f83d9ab; 0x5be0cd19].

(** The default member initialisers. *)
Definition new_hasher : Sha256 := {|
  state_ := initial_state; buffer_ := replicate 64 Byte.x00;
  buffered_ := 0; total_bits_ := 0 |}.

(** [while (offset + 64 <= data.size())]: returns the state and the offset.
    Each iteration consumes 64 bytes, so [length data] iterations are enough. *)
Fixpoint whole_blocks (fuel : nat) (state : list Z) (offset : nat) (data : list byte)
    : list Z * nat :=
  match fuel with
  | O => (state, offset)
  | S fuel =>
      if (offset + 64 <=? length data)%nat
      then whole_blocks fuel (compress state (slice offset 64 data)) (offset + 64) data
      else (state, offset)
  end.

(** The part of [update] after the top-up. *)
Definition update_rest (state : list Z) (buffer : list byte) (total : Z)
    (offset : nat) (data : list byte) : Sha256 :=
  let '(state, offset) := whole_blocks (length data) state offset data in
  if (offset <? length data)%nat
  then {| state_ := state; buffer_ := splice buffer 0 (drop offset data);
          buffered_ := length data - offset; total_bits_ := total |}
  else {| state_ := state; buffer_ := buffer; buffered_ := 0; total_bits_ := total |}.

Definition update (h : Sha256) (data : list byte) : Sha256 :=
  let total := u64 (total_bits_ h + u64 (Z.of_nat (length data) * 8)) in
  if (0 <? buffered_ h)%nat then
    let want := (64 - buffered_ h)%nat in
    let n := if (length data <? want)%nat then length data else want in
    let buffer := splice (buffer_ h) (buffered_ h) (take n data) in
    let buffered := (buffered_ h + n)%nat in
    if (buffered <? 64)%nat
    then {| state_ := state_ h; buffer_ := buffer; buffered_ := buffered; total_bits_ := total |}
    else update_rest (compress (state_ h) buffer) buffer total n data
  else update_rest (state_ h) (buffer_ h) total 0 data.

(** [buffer_[buffered_++] = b]. *)
Definition push_byte (bs : list byte * nat) (b : byte) : list byte * nat :=
  let '(buffer, buffered) := bs in (<[buffered := b]> buffer, S buffered).

(** [while (buffered_ < limit) buffer_[buffered_++] = std::byte{0}]. *)
Definition zero_fill (limit : nat) (bs : list byte * nat) : list byte * nat :=
  foldl push_byte bs (replicate (limit - snd bs) Byte.x00).

Definition digest_bytes (state : list Z) : list byte :=
  foldl (fun digest i => write_be32 (i * 4) state.[i] digest)
    (replicate kSha256DigestSize Byte.x00) (seq 0 8).

Definition finish (h : Sha256) : list byte :=
  let length_bits := total_bits_ h in
  let bs := push_byte (buffer_ h, buffered_ h) Byte.x80 in
  let '(state, bs) :=
    if (56 <? snd bs)%nat then
      let bs := zero_fill 64 bs in
      (compress (state_ h) (fst bs), (fst bs, 0%nat))
    else (state_ h, bs) in
  let bs := zero_fill 56 bs in
  let bs := foldl (fun bs i =>
      push_byte bs (byte_of_Z (Z.land (Z.shiftr length_bits (8 * i)) 0xFF)))
      bs [7; 6; 5; 4; 3; 2; 1; 0] in
  digest_bytes (compress state (fst bs)).

Definition sha256 (data : list byte) : list byte := finish (update new_hasher data).

(** [kHex[...]] and [to_hex]. *)
Definition kHex : list byte := str "0123456789abcdef".

Definition to_hex (digest : list byte) : list byte :=
  foldl (fun text b =>
    let value := Z_of_byte b in
    text ++ [nth (Z.to_nat (Z.shiftr value 4)) kHex Byte.x00;
             nth (Z.to_nat (Z.land value 0x0F)) kHex Byte.x00]) [] digest.

(** The published vectors of tests/crypto_tests.cpp. *)
Example sha256_empty : to_hex (sha256 []) =
  str "e3b0c44298fc1c149afbf4c8996fb92427ae41e4649b934ca495991b7852b855".
Proof. by vm_compute. Qed.

Example sha256_abc : to_hex (sha256 (str "abc")) =
  str "ba7816bf8f01cfea414140de5dae2223b00361a396177a9cb410ff61f20015ad".
Proof. by vm_compute. Qed.

Example sha256_two_block :
  to_hex (sha256 (str "abcdbcdecdefdefgefghfghighijhijkijkljklmklmnlmnomnopnopq")) =
  str "248d6a61d20638b8e5c026930c3e6039a33ce45964ff2167f6ecedd419db06c1".
Proof. by vm_compute. Qed.

(** ** The compression function is the standard's *)

Lemma add_wrap x y : FIPS.add x y = u32 (x + y).
Proof. done. Qed.

Lemma add_swap x y : FIPS.add x y = u32 (y + x).
Proof. by rewrite add_wrap, Z.add_comm. Qed.

Lemma rotr_rotate n x : FIPS.ROTR n x = rotate_right x n.
Proof. done. Qed.

(** Nested 32-bit sums wrap once. *)
Lemma add_4 a b c d e :
  FIPS.add (FIPS.add (FIPS.add (FIPS.add a b) c) d) e = u32 (a + b + c + d + e).
Proof. by rewrite !add_wrap, (wrap_add_l _ (a + b)), (wrap_add_l _ (a + b + c)), wrap_add_l. Qed.

Lemma add_3 a b c d :
  FIPS.add (FIPS.add (FIPS.add a b) c) d = u32 (a + b + c + d).
Proof. by rewrite !add_wrap, (wrap_add_l _ (a + b)), wrap_add_l. Qed.

(** The table and the start value are the roots that define them. *)
Lemma round_constants_roots : kRoundConstants = FIPS.K.
Proof. by vm_compute. Qed.

Lemma initial_state_roots : initial_state = FIPS.IV.
Proof. by vm_compute. Qed.

Lemma words_slices n l k :
  FIPS.words n (drop (4 * k) l) = map (fun i => be_value (slice (i * 4) 4 l)) (seq k n).
Proof.
  revert k. induction n as [|n IH]; intros k; [done|]. simpl FIPS.words. simpl seq. simpl map.
  rewrite drop_drop. f_equal; [unfold slice; do 3 f_equal; lia|].
  rewrite <- IH. do 2 f_equal. lia.
Qed.

Lemma schedule_load_words block :
  length block = 64%nat -> schedule_load block = FIPS.words 16 block ++ replicate 48 0.
Proof.
  intros Hb. rewrite <- (drop_0 block) at 2. 
  pose proof (words_slices 16 block 0) as Hw. simpl (4 * 0)%nat in Hw. rewrite Hw.
  transitivity (map (fun i => read_be32 block (i * 4)) (seq 0 16) ++ replicate 48 0); [done|].
  f_equal. apply list_fmap_ext. intros i j Hj. apply lookup_seq in Hj.
  apply (read_be32_slice block). lia.
Qed.

Lemma schedule_steps M n :
  length M = 16%nat -> (n <= 48)%nat ->
  foldl schedule_step (M ++ replicate 48 0) (seq 16 n) =
  Nat.iter n FIPS.extend M ++ replicate (48 - n) 0.
Proof.
  intros HM. induction n as [|n IH]; intros Hn; [done|].
  rewrite seq_S, foldl_app, IH, Nat.iter_succ by lia. cbn [foldl].
  pose proof (FIPS.length_schedule_iter n M) as Hl.
  set (W := Nat.iter n FIPS.extend M) in *.
  replace (48 - n)%nat with (S (48 - S n)) by lia. cbn [replicate].
  unfold schedule_step, FIPS.extend, FIPS.next_word. rewrite !app_nth1 by lia.
  rewrite <- app_assoc. replace (16 + n)%nat with (length W) by lia.
  rewrite insert_app_r_alt, Nat.sub_diag by lia. cbn [app insert list_insert]. do 2 f_equal. cbv zeta.
  unfold FIPS.sigma0, FIPS.sigma1. rewrite add_3, !rotr_rotate. f_equal. unfold FIPS.SHR. lia.
Qed.

Lemma schedule_fips block :
  length block = 64%nat -> schedule block = FIPS.message_schedule (FIPS.words 16 block).
Proof.
  intros Hb. unfold schedule, FIPS.message_schedule.
  rewrite schedule_load_words, schedule_steps, Nat.sub_diag by done. cbn [replicate].
  by rewrite app_nil_r.
Qed.

Definition tuple (v : working) :=
  (wa v, wb v, wc v, wd v, we v, wf v, wg v, wh v).

Lemma round_fips w v i :
  tuple (round w v i) = FIPS.hash_round (tuple v) (FIPS.K.[i], w.[i]).
Proof.
  destruct v as [a b c d e f g h]. unfold round, FIPS.hash_round, tuple.
  cbn [wa wb wc wd we wf wg wh fst snd]. rewrite round_constants_roots.
  generalize (FIPS.K.[i]) (w.[i]). intros k x.
  unfold FIPS.Sigma0, FIPS.Sigma1, FIPS.Ch, FIPS.Maj.
  by rewrite !rotr_rotate, !(add_4 h), !add_wrap.
Qed.

Lemma rounds_fips w l v :
  tuple (foldl (round w) v l) =
  foldl FIPS.hash_round (tuple v) (map (fun i => (FIPS.K.[i], w.[i])) l).
Proof.
  revert v. induction l as [|i l IH]; intros v; [reflexivity|]. cbn [foldl map].
  rewrite IH. f_equal. apply round_fips.
Qed.

Lemma zip_nth (k l : list Z) n :
  length k = n -> length l = n ->
  zip k l = map (fun i => (k.[i], l.[i])) (seq 0 n).
Proof.
  revert l n. induction k as [|x k IH]; intros [|y l] [|n] ? ?; simplify_eq/=; [done|].
  f_equal. rewrite <- fmap_S_seq, <- list_fmap_compose. by apply IH.
Qed.

Lemma compress_fips state block :
  length state = 8%nat -> length block = 64%nat ->
  compress state block = FIPS.hash_block state (FIPS.words 16 block).
Proof.
  intros Hs Hb. do 9 (destruct state as [|? state]; try discriminate Hs). clear Hs.
  unfold compress, FIPS.hash_block. rewrite <- (schedule_fips block) by done. cbn [nth].
  rewrite (zip_nth FIPS.K (schedule block) 64).
  2: by vm_compute.
  2:{ by rewrite schedule_fips, FIPS.length_message_schedule. }
  match goal with |- context [Working ?a ?b ?c ?d ?e ?f ?g ?h] =>
    change (a, b, c, d, e, f, g, h) with (tuple (Working a b c d e f g h)) end.
  rewrite <- rounds_fips.
  destruct (foldl (round _) _ _) as [a b c d e f g h]. cbn [tuple wa wb wc wd we wf wg wh].
  rewrite !add_swap. reflexivity.
Qed.

(** ** Absorbing blocks *)

(** Fold the compression function over [n] blocks. *)
Fixpoint absorb (n : nat) (state : list Z) (l : list byte) : list Z :=
  match n with
  | O => state
  | S n => absorb n (compress state (take 64 l)) (drop 64 l)
  end.

(** The digest with the code's compression function: what [finish] is first
    proved to compute, and [digest_spec_fips] below identifies with the
    standard's. *)
Definition digest_spec (m : list byte) : list byte :=
  let p := FIPS.pad m in
  mjoin (map (be_bytes 4) (absorb (length p / 64) initial_state p)).

Lemma absorb_add n m state l : absorb (n + m) state l = absorb m (absorb n state l) (drop (64 * n) l).
Proof.
  revert state l. induction n as [|n IH]; intros; [done|]. simpl absorb. rewrite IH, drop_drop.
  do 2 f_equal. lia.
Qed.

Lemma absorb_app n state l k :
  (64 * n <= length l)%nat -> absorb n state (l ++ k) = absorb n state l.
Proof.
  revert state l. induction n as [|n IH]; intros state l Hl; [done|]. simpl.
  rewrite take_app_le, drop_app_le by lia. apply IH. len.
Qed.

Lemma absorb_take n state l : absorb n state (take (64 * n) l) = absorb n state l.
Proof.
  destruct (decide (64 * n <= length l)%nat); [|by rewrite take_ge by lia].
  rewrite <- (take_drop (64 * n) l) at 2. symmetry. apply absorb_app. len.
Qed.

Lemma absorb_S n state l :
  absorb (S n) state l = compress (absorb n state l) (slice (64 * n) 64 l).
Proof. replace (S n) with (n + 1)%nat by lia. by rewrite absorb_add. Qed.

(** The loop of [update] absorbs every whole block from [offset] on. *)
Lemma whole_blocks_absorb fuel state offset data :
  (length data <= offset + 64 * fuel + 63)%nat -> (offset <= length data)%nat ->
  let n := ((length data - offset) / 64)%nat in
  whole_blocks fuel state offset data =
  (absorb n state (drop offset data), (offset + 64 * n)%nat).
Proof.
  revert state offset. induction fuel as [|fuel IH]; intros state offset Hf Ho n.
  - subst n. rewrite Nat.div_small by lia. simpl. f_equal. lia.
  - simpl. destruct (Nat.leb_spec (offset + 64) (length data)) as [Hle|Hgt].
    + rewrite IH by lia. subst n.
      replace (length data - offset)%nat with (length data - (offset + 64) + 1 * 64)%nat by lia.
      rewrite Nat.div_add, Nat.add_1_r by lia. simpl absorb.
      rewrite drop_drop. f_equal. lia.
    + subst n. rewrite Nat.div_small by lia. simpl. f_equal. lia.
Qed.

(** ** What the hasher's fields mean *)

(** The hasher [h] has been given exactly the bytes [m]. *)
Record represents (h : Sha256) (m : list byte) : Prop := {
  rep_state : state_ h = absorb (length m / 64) initial_state m;
  rep_buffered : buffered_ h = (length m mod 64)%nat;
  rep_buffer : take (buffered_ h) (buffer_ h) = drop (64 * (length m / 64)) m;
  rep_size : length (buffer_ h) = 64%nat;
  rep_total : total_bits_ h = u64 (8 * Z.of_nat (length m))
}.

Lemma new_hasher_represents : represents new_hasher [].
Proof. by split. Qed.

Lemma update_rest_represents k m state buffer total offset data :
  length m = (64 * k)%nat -> state = absorb k initial_state m ->
  length buffer = 64%nat -> (offset <= length data)%nat ->
  total = u64 (8 * Z.of_nat (length (m ++ drop offset data))) ->
  represents (update_rest state buffer total offset data) (m ++ drop offset data).
Proof.
  intros Hm -> Hb Ho ->. unfold update_rest.
  rewrite whole_blocks_absorb by lia.
  set (d := drop offset data). set (n := ((length data - offset) / 64)%nat).
  assert (length d = (length data - offset)%nat) as Hd by (subst d; len).
  pose proof (Nat.div_mod_eq (length data - offset) 64) as Hdm. fold n in Hdm.
  pose proof (Nat.mod_upper_bound (length data - offset) 64 ltac:(lia)) as Hmod.
  assert (length (m ++ d) / 64 = k + n)%nat as Hdiv.
  { rewrite length_app, Hm, Hd, (Nat.mul_comm 64), Nat.add_comm, Nat.div_add by lia. lia. }
  assert (length (m ++ d) mod 64 = length data - (offset + 64 * n))%nat as Hmd.
  { rewrite length_app, Hm, Hd, (Nat.mul_comm 64), Nat.add_comm, Nat.Div0.mod_add. lia. }
  assert (absorb n (absorb k initial_state m) d = absorb (k + n) initial_state (m ++ d)) as Habs.
  { rewrite absorb_add, absorb_app by lia. by rewrite <- Hm, drop_app_length. }
  assert (drop (64 * (k + n)) (m ++ d) = drop (offset + 64 * n) data) as Hrest.
  { replace (64 * (k + n))%nat with (length m + 64 * n)%nat by lia.
    rewrite drop_app_add. subst d. by rewrite drop_drop. }
  destruct (Nat.ltb_spec (offset + 64 * n) (length data)); split;
    cbn [state_ buffered_ buffer_ total_bits_];
    rewrite ?Hdiv, ?Hmd, ?Habs, ?Hrest; try done; try lia.
  - rewrite <- (length_drop data (offset + 64 * n)). unfold splice. by rewrite take_0, app_nil_l, take_app_length.
  - rewrite length_splice; len.
  - rewrite drop_ge by lia. done.
Qed.

Lemma update_total h m data :
  represents h m ->
  u64 (total_bits_ h + u64 (Z.of_nat (length data) * 8)) = u64 (8 * Z.of_nat (length (m ++ data))).
Proof. intros []. rewrite rep_total0, wrap_add_l, wrap_add_r, length_app. f_equal. lia. Qed.

(** Topping the buffer up appends to the partial block. *)
Lemma top_up h m data n :
  represents h m -> (n <= length data)%nat -> (buffered_ h + n <= 64)%nat ->
  take (buffered_ h + n) (splice (buffer_ h) (buffered_ h) (take n data)) =
  drop (64 * (length m / 64)) (m ++ take n data).
Proof.
  intros [] Hn Hle. pose proof (Nat.div_mod_eq (length m) 64).
  rewrite drop_app_le by lia. rewrite <- rep_buffer0.
  rewrite <- (take_splice (buffer_ h) (buffered_ h) (take n data)) by lia.
  f_equal. len.
Qed.

(** Feeding more data appends it. *)
Lemma update_represents h m data : represents h m -> represents (update h data) (m ++ data).
Proof.
  intros Hrep. pose proof (update_total h m data Hrep) as Htot.
  pose proof (top_up h m data) as Htop. pose proof Hrep as [Hst Hbd Hbf Hsz _].
  pose proof (Nat.div_mod_eq (length m) 64) as Hdm.
  pose proof (Nat.mod_upper_bound (length m) 64 ltac:(lia)) as Hmod.
  unfold update. rewrite Htot.
  destruct (Nat.ltb_spec 0 (buffered_ h)) as [Hpos|Hzero].
  2:{ rewrite <- (drop_0 data) at 2. apply (update_rest_represents (length m / 64));
        rewrite ?drop_0; (done || lia). }
  set (n := if (length data <? 64 - buffered_ h)%nat then length data else (64 - buffered_ h)%nat).
  assert (n <= length data /\ buffered_ h + n <= 64 /\ (buffered_ h + n < 64 -> n = length data))%nat
    as (Hnl & Hn64 & Hnlt).
  { subst n. destruct (Nat.ltb_spec (length data) (64 - buffered_ h)); lia. }
  specialize (Htop n Hrep Hnl Hn64).
  destruct (Nat.ltb_spec (buffered_ h + n) 64) as [Hlt|Hge].
  - pose proof (Hnlt Hlt) as Hn. clear Hnlt. clearbody n. subst n. rewrite firstn_all in Htop |- *.
    assert (length (m ++ data) = length m mod 64 + length data + (length m / 64) * 64)%nat as Hlen by len.
    split; cbn [state_ buffered_ buffer_ total_bits_]; rewrite ?Hlen.
    + rewrite Nat.div_add, Nat.div_small, absorb_app by lia. done.
    + rewrite Nat.Div0.mod_add, Nat.mod_small by lia. lia.
    + rewrite Htop, Nat.div_add, (Nat.div_small (_ + _)) by lia. done.
    + rewrite length_splice; len.
    + done.
  - assert (length (splice (buffer_ h) (buffered_ h) (take n data)) = 64%nat) as Hs
      by (rewrite length_splice; len).
    rewrite take_ge in Htop by lia.
    replace (m ++ data) with ((m ++ take n data) ++ drop n data)
      by (by rewrite <- app_assoc, take_drop).
    apply (update_rest_represents (S (length m / 64))); [len| |done|lia|].
    + rewrite absorb_S, absorb_app, Hst by lia. f_equal. rewrite Htop. unfold slice.
      rewrite (take_ge (drop _ _)); [done|]. len.
    + done.
Qed.

(** The first [n] bytes of the block buffer are [l]. *)
Record filled (bs : list byte * nat) (l : list byte) : Prop := {
  fill_size : length (fst bs) = 64%nat;
  fill_count : snd bs = length l;
  fill_bytes : take (length l) (fst bs) = l
}.

Lemma push_byte_filled bs l b :
  filled bs l -> (length l < 64)%nat -> filled (push_byte bs b) (l ++ [b]).
Proof.
  destruct bs as [buffer n]. intros [Hs Hc Hb] Hl. simpl in *. subst n.
  split; simpl; [by len|by len; lia|].
  rewrite length_app. simpl. rewrite Nat.add_1_r.
  rewrite (take_S_r _ _ b) by (apply list_lookup_insert_eq; lia).
  by rewrite take_insert_ge, Hb by lia.
Qed.

Lemma push_bytes_filled bs l k :
  filled bs l -> (length l + length k <= 64)%nat -> filled (foldl push_byte bs k) (l ++ k).
Proof.
  revert bs l. induction k as [|b k IH]; intros bs l Hf Hl; simpl; [by rewrite app_nil_r|].
  change (b :: k) with ([b] ++ k). rewrite app_assoc. simpl in Hl.
  apply IH; [apply push_byte_filled; [done|lia]|len].
Qed.

Lemma zero_fill_filled limit bs l :
  filled bs l -> (length l <= limit)%nat -> (limit <= 64)%nat ->
  filled (zero_fill limit bs) (l ++ replicate (limit - length l) Byte.x00).
Proof.
  intros Hf Hl H64. unfold zero_fill. rewrite (fill_count _ _ Hf).
  apply push_bytes_filled; len. done.
Qed.

Lemma filled_full bs l : filled bs l -> length l = 64%nat -> fst bs = l.
Proof. intros [Hs _ Hb] Hl. by rewrite <- Hb, take_ge by lia. Qed.

Lemma length_bytes_filled bs l v :
  filled bs l -> length l = 56%nat ->
  fst (foldl (fun bs i => push_byte bs (byte_of_Z (Z.land (Z.shiftr v (8 * i)) 0xFF)))
        bs [7; 6; 5; 4; 3; 2; 1; 0]) = l ++ be_bytes 8 v.
Proof.
  intros Hf Hl.
  replace (foldl _ bs _) with (foldl push_byte bs (be_bytes 8 v)).
  - apply filled_full; [|len; by rewrite length_be_bytes, Hl].
    apply push_bytes_filled; [done|]. rewrite length_be_bytes. lia.
  - simpl. by rewrite !byte_of_Z_land.
Qed.

Lemma digest_bytes_spec state block :
  digest_bytes (compress state block) = mjoin (map (be_bytes 4) (compress state block)).
Proof.
  unfold compress. cbv zeta.
  match goal with |- digest_bytes [?a; ?b; ?c; ?d; ?e; ?f; ?g; ?h] = _ =>
    generalize a b c d e f g h end.
  intros. unfold digest_bytes, write_be32, poke. simpl.
  by rewrite !byte_of_Z_land, !Z.shiftr_0_r.
Qed.

Lemma absorb_block k state p block rest :
  length p = (64 * k)%nat -> length block = 64%nat ->
  absorb (S k) state (p ++ block ++ rest) = compress (absorb k state p) block.
Proof.
  intros Hp Hb. rewrite absorb_S, absorb_app by lia. f_equal.
  unfold slice. rewrite <- Hp, drop_app_length. by apply take_app_length'.
Qed.

(** The padding splits at the last block boundary of the message. *)
Lemma pad_split m :
  let k := (length m / 64)%nat in let r := (length m mod 64)%nat in
  FIPS.pad m = take (64 * k) m ++ (drop (64 * k) m ++ [Byte.x80]
            ++ replicate ((119 - r) mod 64) Byte.x00 ++ be_bytes 8 (8 * Z.of_nat (length m))).
Proof. intros. unfold FIPS.pad. by rewrite (app_assoc (take _ _)), take_drop. Qed.

Lemma digest_spec_one k m p block :
  FIPS.pad m = p ++ block -> length p = (64 * k)%nat -> length block = 64%nat ->
  digest_spec m = mjoin (map (be_bytes 4) (compress (absorb k initial_state p) block)).
Proof.
  intros Hpad Hp Hb. unfold digest_spec. rewrite Hpad.
  replace (length (p ++ block) / 64)%nat with (S k).
  - rewrite <- (app_nil_r block) at 1. by rewrite absorb_block.
  - rewrite length_app, Hp, Hb. replace (64 * k + 64)%nat with (S k * 64)%nat by lia.
    by rewrite Nat.div_mul by lia.
Qed.

Lemma finish_represents h m : represents h m -> finish h = digest_spec m.
Proof.
  intros [Hst Hbd Hbf Hsz Htot].
  pose proof (Nat.div_mod_eq (length m) 64) as Hdm.
  pose proof (Nat.mod_upper_bound (length m) 64 ltac:(lia)) as Hmod.
  pose proof (pad_split m) as Hpad. cbv zeta in Hpad.
  set (k := (length m / 64)%nat) in *. set (r := (length m mod 64)%nat) in *.
  assert (filled (buffer_ h, buffered_ h) (drop (64 * k) m)) as Hf.
  { split; simpl; [done|len|]. rewrite length_drop. rewrite <- Hbf at 1.
    f_equal. lia. }
  assert (length (drop (64 * k) m) = r) as Hr by len.
  assert (length (take (64 * k) m) = 64 * k)%nat as Htk by len.
  apply (push_byte_filled _ _ Byte.x80) in Hf; [|lia].
  unfold finish. rewrite (fill_count _ _ Hf), length_app, Hr, Hst, Htot.
  rewrite <- (absorb_take k). simpl length.
  destruct (Nat.ltb_spec 56 (r + 1)) as [Hbig|Hsmall].
  - apply (zero_fill_filled 64) in Hf; [|len..].
    assert (filled (zero_fill 56 (fst (zero_fill 64 (push_byte (buffer_ h, buffered_ h) Byte.x80)), 0%nat))
              (replicate 56 Byte.x00)) as Hz.
    { apply (zero_fill_filled 56 _ []); [|simpl; lia..]. split; [apply Hf|done..]. }
    rewrite (length_bytes_filled _ _ _ Hz) by done.
    rewrite (filled_full _ _ Hf) by len.
    rewrite digest_bytes_spec, <- (absorb_block k _ _ _ []) by len.
    rewrite app_nil_r. symmetry. apply digest_spec_one.
    + rewrite Hpad, <- !app_assoc. do 3 f_equal. rewrite length_app, Hr. simpl length.
      replace ((119 - r) mod 64)%nat with (64 - (r + 1) + 56)%nat
        by (rewrite Nat.mod_small; lia).
      rewrite replicate_add, <- app_assoc. do 2 f_equal. symmetry. apply (be_bytes_wrap 8).
    + len.
    + len.
  - apply (zero_fill_filled 56) in Hf; [|len..].
    rewrite (length_bytes_filled _ _ _ Hf) by len.
    rewrite digest_bytes_spec. symmetry. apply digest_spec_one; [|done|].
    + rewrite Hpad, <- !app_assoc. do 3 f_equal. rewrite length_app, Hr. simpl length.
      replace ((119 - r) mod 64)%nat with (56 - (r + 1))%nat.
      * f_equal. symmetry. apply (be_bytes_wrap 8).
      * replace (119 - r)%nat with (55 - r + 1 * 64)%nat by lia.
        rewrite Nat.Div0.mod_add, Nat.mod_small; lia.
    + len.
Qed.

Lemma length_absorb n state l : length state = 8%nat -> length (absorb n state l) = 8%nat.
Proof. revert state l. induction n as [|n IH]; intros; [done|]. by apply IH. Qed.

Lemma absorb_fips n state l :
  length state = 8%nat -> (64 * n <= length l)%nat ->
  absorb n state l = foldl FIPS.hash_block state (FIPS.blocks n l).
Proof.
  revert state l. induction n as [|n IH]; intros state l Hs Hl; [done|].
  cbn [absorb FIPS.blocks foldl]. rewrite <- compress_fips by (done || len).
  apply IH; [done|len].
Qed.

Lemma digest_spec_fips m : digest_spec m = FIPS.digest m.
Proof.
  unfold digest_spec, FIPS.digest, FIPS.parse. rewrite <- initial_state_roots.
  rewrite absorb_fips; [done..|]. pose proof (Nat.div_mod_eq (length (FIPS.pad m)) 64). lia.
Qed.

(** ** Properties *)

(** C32:  The streaming hasher is FIPS 180-4: however the message is cut into
    pieces, [update]-ing with each piece and then calling [finish] gives the
    digest that the standard defines for the whole message, with the standard's
    own constants, functions, schedule, rounds and padding ([FIPS.digest], which
    takes nothing from the code).  As in the standard's 64-bit length field, the
    length in bits counts modulo [2 ^ 64]. *)
Theorem sha256_streaming pieces :
  finish (foldl update new_hasher pieces) = FIPS.digest (mjoin pieces).
Proof.
  rewrite <- digest_spec_fips. apply finish_represents.
  assert (forall h m, represents h m -> represents (foldl update h pieces) (m ++ mjoin pieces)) as H.
  { induction pieces as [|d pieces IH]; intros h m Hrep; simpl; [by rewrite app_nil_r|].
    rewrite app_assoc. by apply IH, update_represents. }
  apply (H _ []), new_hasher_represents.
Qed.

Lemma sha256_spec m : sha256 m = digest_spec m.
Proof. apply finish_represents, (update_represents _ []), new_hasher_represents. Qed.

Lemma length_digest_spec m : length (digest_spec m) = kSha256DigestSize.
Proof.
  unfold digest_spec. rewrite length_join, <- list_fmap_compose.
  rewrite (list_fmap_ext _ (const 4%nat)) by (intros; apply length_be_bytes).
  pose proof (length_absorb (length (FIPS.pad m) / 64) initial_state (FIPS.pad m) eq_refl) as H.
  revert H. generalize (absorb (length (FIPS.pad m) / 64) initial_state (FIPS.pad m)). intros l Hl.
  by do 9 (destruct l as [|? l]; simplify_eq/=).
Qed.
