(* ===== verification/Filename.v ===== *)
(** * Filename sanitisation

    src/include/swiftlink/transfer/filename.hpp and src/src/transfer/filename.cpp.
    Names are byte strings, as they arrive in a START payload. *)

From S2P Require Import Prelude Words.
Open Scope Z_scope.

Inductive FilenameRejection :=
| kNone | kEmpty | kTooLong | kPathSeparator | kDotDot | kControlCharacter
| kDisallowedCharacter | kLeadingDash.
#[export] Instance FilenameRejection_eq_dec : EqDecision FilenameRejection.
Proof. solve_decision. Defined.

Definition FilenameRejection_of_raw (raw : Z) : option FilenameRejection :=
  match raw with
  | 0 => Some kNone | 1 => Some kEmpty | 2 => Some kTooLong | 3 => Some kPathSeparator
  | 4 => Some kDotDot | 5 => Some kControlCharacter | 6 => Some kDisallowedCharacter
  | 7 => Some kLeadingDash
  | _ => None
  end.

Definition rejection_to_string (raw : Z) : String.string :=
  match FilenameRejection_of_raw raw with
  | Some kNone => "ok"
  | Some kEmpty => "filename is empty"
  | Some kTooLong => "filename is too long"
  | Some kPathSeparator => "filename resolves to a path, not a name"
  | Some kDotDot => "filename is '.' or '..'"
  | Some kControlCharacter => "filename contains a control character or NUL"
  | Some kDisallowedCharacter => "filename contains a character outside the permitted set"
  | Some kLeadingDash => "filename begins with '-'"
  | None => "unknown rejection"
  end.

Definition kMaxFilenameLength : nat := 200.

Definition slash : byte := Byte.x2f.

(** [c == 'x'] for the punctuation the allowlist names. *)
Definition is_permitted (c : byte) : bool :=
  let byte := Z_of_byte c in
  if (0x61 <=? byte) && (byte <=? 0x7A) then true      (* 'a'..'z' *)
  else if (0x41 <=? byte) && (byte <=? 0x5A) then true (* 'A'..'Z' *)
  else if (0x30 <=? byte) && (byte <=? 0x39) then true (* '0'..'9' *)
  else bool_decide (c ∈ str ".-_+@=").

(** The control-byte test of the first loop. *)
Definition is_control (c : byte) : bool :=
  (Z_of_byte c <? 0x20) || (Z_of_byte c =? 0x7F).

(** [raw.find_last_of('/')] and [substr(last + 1)], or all of [raw]. *)
Fixpoint find_last (c : byte) (s : list byte) : option nat :=
  match s with
  | [] => None
  | x :: s =>
      match find_last c s with
      | Some i => Some (S i)
      | None => if bool_decide (x = c) then Some 0%nat else None
      end
  end.

Definition base_of (raw : list byte) : list byte :=
  match find_last slash raw with
  | None => raw
  | Some last_separator => drop (last_separator + 1) raw
  end.

(** The last loop of [sanitize_filename]: the first offending character of the
    base name decides. *)
Fixpoint scan_base (base : list byte) : FilenameRejection :=
  match base with
  | [] => kNone
  | c :: base =>
      if bool_decide (c = slash) then kPathSeparator
      else if negb (is_permitted c) then kDisallowedCharacter
      else scan_base base
  end.

(** The rejection, and the value left in [out]. *)
Definition sanitize_filename (raw : list byte) : FilenameRejection * list byte :=
  if bool_decide (raw = []) then (kEmpty, [])
  else if existsb is_control raw then (kControlCharacter, [])
  else
    let base := base_of raw in
    if bool_decide (base = []) then (kPathSeparator, [])
    else if bool_decide (base = str ".") || bool_decide (base = str "..") then (kDotDot, [])
    else if (kMaxFilenameLength <? length base)%nat then (kTooLong, [])
    else if bool_decide (head base = Some Byte.x2d) then (kLeadingDash, [])
    else match scan_base base with
         | kNone => (kNone, base)
         | rejection => (rejection, [])
         end.

Definition join_path (directory sanitized_name : list byte) : list byte :=
  let path := directory in
  let path := if negb (bool_decide (path = [])) && negb (bool_decide (last path = Some slash))
              then path ++ [slash] else path in
  path ++ sanitized_name.

Example sanitize_plain : sanitize_filename (str "report-2.pdf") = (kNone, str "report-2.pdf").
Proof. by vm_compute. Qed.
Example sanitize_traversal : sanitize_filename (str "../../etc/passwd") = (kNone, str "passwd").
Proof. by vm_compute. Qed.
Example sanitize_dots : sanitize_filename (str "a/..") = (kDotDot, []).
Proof. by vm_compute. Qed.
Example sanitize_dash : sanitize_filename (str "-rf") = (kLeadingDash, []).
Proof. by vm_compute. Qed.

(** ** The base name *)

Lemma find_last_None c s : find_last c s = None <-> c ∉ s.
Proof.
  induction s as [|x s IH]; simpl; [set_solver|].
  destruct (find_last c s) as [i|].
  - split; [done|]. intros Hn. exfalso. apply not_elem_of_cons in Hn as [_ Hn].
    by apply IH in Hn.
  - rewrite not_elem_of_cons, <- IH. case_bool_decide; intuition congruence.
Qed.

Lemma find_last_Some c s i :
  find_last c s = Some i -> s = take i s ++ c :: drop (i + 1) s /\ c ∉ drop (i + 1) s.
Proof.
  revert i. induction s as [|x s IH]; intros i H; simpl in H; [done|].
  destruct (find_last c s) as [j|] eqn:E.
  - injection H as <-. destruct (IH j eq_refl) as [Hs Hn]. simpl. by rewrite <- Hs.
  - case_bool_decide; [|done]. injection H as <-. simpl. rewrite drop_0. subst x.
    by apply find_last_None in E.
Qed.

(** [base] is what follows the last slash of [raw]. *)
Definition basename (raw base : list byte) : Prop :=
  (slash ∉ base) /\ (raw = base \/ (exists dir, raw = dir ++ slash :: base)).

Lemma base_of_basename raw : basename raw (base_of raw).
Proof.
  unfold base_of. destruct (find_last slash raw) as [i|] eqn:E.
  - apply find_last_Some in E as [Hs Hn]. split; [done|]. right. by eexists.
  - apply find_last_None in E. split; [done|]. by left.
Qed.

Lemma find_last_app c dir s : c ∉ s -> find_last c (dir ++ c :: s) = Some (length dir).
Proof.
  intros Hs. induction dir as [|x dir IH]; simpl.
  - apply find_last_None in Hs as ->. by rewrite bool_decide_eq_true_2.
  - by rewrite IH.
Qed.

Lemma base_of_iff raw base : base_of raw = base <-> basename raw base.
Proof.
  split; [intros <-; apply base_of_basename|].
  intros [Hn [->|[dir ->]]]; unfold base_of.
  - by apply find_last_None in Hn as ->.
  - rewrite find_last_app by done. rewrite drop_app_ge by lia.
    by replace (length dir + 1 - length dir)%nat with 1%nat by lia.
Qed.

Lemma base_of_noslash s : slash ∉ s -> base_of s = s.
Proof. intros. apply base_of_iff. split; [done|by left]. Qed.

(** ** The character scan *)

Lemma permitted_not_slash c : is_permitted c = true -> c <> slash.
Proof. by intros H ->. Qed.

Lemma permitted_not_control c : is_permitted c = true -> is_control c = false.
Proof. by destruct c. Qed.

Lemma scan_base_none base :
  scan_base base = kNone <-> Forall (fun c => is_permitted c = true) base.
Proof.
  induction base as [|c base IH]; simpl; [by split|].
  rewrite Forall_cons, <- IH. case_bool_decide as Hc.
  - split; [done|]. intros [Hp _]. by apply permitted_not_slash in Hp.
  - destruct (is_permitted c); simpl; intuition congruence.
Qed.

Lemma existsb_false {A} (f : A -> bool) l :
  existsb f l = false <-> Forall (fun x => f x = false) l.
Proof.
  induction l as [|x l IH]; simpl; [by split|].
  by rewrite orb_false_iff, Forall_cons, IH.
Qed.

(** ** What an accepted name is *)

Record safe_name (s : list byte) : Prop := {
  safe_nonempty : s <> [];
  safe_dot : s <> str ".";
  safe_dotdot : s <> str "..";
  safe_short : (length s <= kMaxFilenameLength)%nat;
  safe_dash : head s <> Some Byte.x2d;
  safe_chars : Forall (fun c => is_permitted c = true) s
}.

Lemma safe_noslash s : safe_name s -> slash ∉ s.
Proof.
  intros Hs Hin. pose proof (safe_chars _ Hs) as Hc. rewrite Forall_forall in Hc.
  by apply (permitted_not_slash slash); [apply Hc|].
Qed.

Lemma sanitize_accepts raw out :
  sanitize_filename raw = (kNone, out) <->
  safe_name out /\ Forall (fun c => is_control c = false) raw /\ basename raw out.
Proof.
  unfold sanitize_filename. rewrite <- base_of_iff. split.
  - intros H. repeat (split_guard; [done|]). destruct (scan_base _) eqn:Es; simplify_eq.
    apply scan_base_none in Es. apply existsb_false in E0.
    by split_and!; [split|..].
  - intros ([] & Hc & Hb). pose proof Hc as Hc'. apply existsb_false in Hc' as ->.
    rewrite Hb. rewrite bool_decide_eq_false_2.
    2:{ intros ->. by subst out. }
    rewrite !bool_decide_eq_false_2 by done. simpl orb. cbv iota.
    rewrite (proj2 (Nat.ltb_ge _ _)) by done.
    by apply scan_base_none in safe_chars0 as ->.
Qed.

(** ** Path resolution, the reference *)

(** The components of a path, the text between its slashes. *)
Fixpoint split_path (path : list byte) : list (list byte) :=
  match path with
  | [] => [[]]
  | c :: path =>
      match split_path path with
      | comp :: comps =>
          if bool_decide (c = slash) then [] :: comp :: comps else (c :: comp) :: comps
      | [] => []
      end
  end.

(** Walk the components from a directory: the empty component and [.] stay,
    [..] goes up, a name goes down. *)
Definition enter (at_ : list (list byte)) (comp : list byte) : list (list byte) :=
  if bool_decide (comp = []) || bool_decide (comp = str ".") then at_
  else if bool_decide (comp = str "..") then removelast at_
  else at_ ++ [comp].

Definition resolve (path : list byte) : list (list byte) := foldl enter [] (split_path path).

Lemma split_path_ne path : split_path path <> [].
Proof.
  induction path as [|c path IH]; simpl; [done|].
  destruct (split_path path); [done|]. by case_bool_decide.
Qed.

Lemma split_path_app dir name :
  slash ∉ name -> split_path (dir ++ slash :: name) = split_path dir ++ [name].
Proof.
  intros Hn. induction dir as [|c dir IH].
  - simpl. replace (split_path name) with [name]; [done|].
    induction name as [|c name IH]; [done|]. apply not_elem_of_cons in Hn as [Hc Hn].
    simpl. rewrite <- IH by done. by rewrite bool_decide_eq_false_2 by done.
  - simpl. rewrite IH. pose proof (split_path_ne dir).
    destruct (split_path dir); [done|]. simpl. by case_bool_decide.
Qed.

Lemma split_path_name name : slash ∉ name -> split_path name = [name].
Proof.
  intros Hn. pose proof (split_path_app [] name Hn) as H. simpl in H.
  pose proof (split_path_ne name). destruct (split_path name); simplify_eq/=. done.
Qed.

Lemma resolve_slash dir : resolve (dir ++ [slash]) = resolve dir.
Proof. unfold resolve. rewrite split_path_app by set_solver. by rewrite foldl_snoc. Qed.

Lemma join_path_slash dir name :
  dir <> [] -> exists dir', join_path dir name = dir' ++ slash :: name /\ resolve dir' = resolve dir.
Proof.
  intros Hd. unfold join_path. rewrite bool_decide_eq_false_2 by done. simpl.
  destruct (decide (last dir = Some slash)) as [Hl|Hl].
  - rewrite bool_decide_eq_true_2 by done. simpl. apply last_Some in Hl as [dir' ->].
    exists dir'. rewrite <- app_assoc. split; [done|]. symmetry. apply resolve_slash.
  - rewrite bool_decide_eq_false_2 by done. simpl. exists dir. by rewrite <- app_assoc.
Qed.

Lemma enter_safe at_ name : safe_name name -> enter at_ name = at_ ++ [name].
Proof. intros []. unfold enter. by rewrite !bool_decide_eq_false_2 by done. Qed.

Lemma join_path_safe directory out :
  safe_name out -> resolve (join_path directory out) = resolve directory ++ [out].
Proof.
  intros Hs. pose proof (safe_noslash _ Hs) as Hn.
  destruct (decide (directory = [])) as [->|Hd].
  - unfold join_path, resolve. simpl. rewrite split_path_name by done. simpl.
    by apply enter_safe.
  - destruct (join_path_slash directory out Hd) as (dir' & -> & <-).
    unfold resolve. rewrite split_path_app, foldl_snoc by done. by apply enter_safe.
Qed.

(** ** Properties *)

(** C36:  [sanitize_filename] accepts exactly the requests without control bytes
    whose last path component is a safe bare name (non-empty, not [.] or [..],
    at most 200 bytes, no leading dash, allowlisted characters only), and what
    it returns is that component. *)
Theorem sanitize_filename_spec raw out :
  sanitize_filename raw = (kNone, out) <->
  safe_name out /\ (slash ∉ out) /\ Forall (fun c => is_control c = false) raw /\
  (raw = out \/ (exists dir, raw = dir ++ slash :: out)).
Proof.
  rewrite sanitize_accepts. unfold basename.
  split; [|naive_solver]. intros (Hs & Hc & Hb). pose proof (safe_noslash _ Hs). naive_solver.
Qed.

(** No escape: whatever name a peer sends, if it is accepted then the path
    the server opens resolves to a direct child of the output directory, named
    by the sanitised name. *)
Theorem join_path_contained raw out directory :
  sanitize_filename raw = (kNone, out) ->
  resolve (join_path directory out) = resolve directory ++ [out].
Proof.
  intros [Hs _]%sanitize_accepts. by apply join_path_safe.
Qed.

Lemma join_path_contained_witness :
  resolve (join_path (str "./received") (str "passwd")) = resolve (str "./received") ++ [str "passwd"].
Proof. apply (join_path_contained (str "../../etc/passwd")). by vm_compute. Defined.
