(* ===== verification/Transfer.v ===== *)
(** * Types shared by the two halves of a transfer

    src/include/swiftlink/transfer/transfer.hpp and src/src/transfer/transfer.cpp. *)

From Stdlib Require Import Floats.SpecFloat.
From S2P Require Import Prelude Words Doubles Packet.
Open Scope Z_scope.

Definition kDefaultChunkSize : Z := 1200.
Definition kDefaultRto : Z := 300.
Definition kMaxRetriesPerChunk : Z := 50.
Definition kDefaultWindowSize : Z := 32.
Definition kDefaultReceiverWindowSize : Z := 1024.

(** All of it in 64-bit unsigned arithmetic, then the cast to 32 bits. *)
Definition chunk_count (file_size chunk_size : Z) : option Z :=
  if chunk_size =? 0 then None
  else
    let chunks := u64 (u64 (file_size + chunk_size) - 1) / chunk_size in
    if chunks >? 0xFFFFFFFF then None else Some (u32 chunks).

Inductive TransferError :=
| kNone | kFileOpenFailed | kFileReadFailed | kFileWriteFailed | kSocketFailed
| kSendFailed | kReceiveFailed | kPeerUnresponsive | kProtocolViolation | kSizeMismatch
| kHandshakeFailed | kRemoteError | kIntegrityFailed | kInvalidFilename.
#[export] Instance TransferError_eq_dec : EqDecision TransferError.
Proof. solve_decision. Defined.

Definition TransferError_of_raw (raw : Z) : option TransferError :=
  match raw with
  | 0 => Some kNone | 1 => Some kFileOpenFailed | 2 => Some kFileReadFailed
  | 3 => Some kFileWriteFailed | 4 => Some kSocketFailed | 5 => Some kSendFailed
  | 6 => Some kReceiveFailed | 7 => Some kPeerUnresponsive | 8 => Some kProtocolViolation
  | 9 => Some kSizeMismatch | 10 => Some kHandshakeFailed | 11 => Some kRemoteError
  | 12 => Some kIntegrityFailed | 13 => Some kInvalidFilename
  | _ => None
  end.

Definition transfer_error_to_string (raw : Z) : String.string :=
  match TransferError_of_raw raw with
  | Some kNone => "ok"
  | Some kFileOpenFailed => "could not open file"
  | Some kFileReadFailed => "read from file failed"
  | Some kFileWriteFailed => "write to file failed"
  | Some kSocketFailed => "socket operation failed"
  | Some kSendFailed => "sendto failed"
  | Some kReceiveFailed => "recvfrom failed"
  | Some kPeerUnresponsive => "peer stopped responding"
  | Some kProtocolViolation => "peer violated the protocol"
  | Some kSizeMismatch => "received byte count disagrees with the declared file size"
  | Some kHandshakeFailed => "no START_ACK from the peer"
  | Some kRemoteError => "peer reported an error"
  | Some kIntegrityFailed => "SHA-256 verification failed"
  | Some kInvalidFilename => "filename rejected by the receiver"
  | None => "unknown transfer error"
  end.

(** The counters are all [std::uint64_t]. *)
Record TransferStats := {
  bytes_transferred : Z;
  chunks : Z;
  packets_sent : Z;
  retransmissions : Z;
  simulated_drops : Z;
  packets_received : Z;
  duplicates_received : Z;
  out_of_order_received : Z;
  timeouts : Z;
  elapsed_seconds : Double;
  remote_status : Status.StatusCode
}.

Definition default_stats : TransferStats := {|
  bytes_transferred := 0; chunks := 0; packets_sent := 0; retransmissions := 0;
  simulated_drops := 0; packets_received := 0; duplicates_received := 0;
  out_of_order_received := 0; timeouts := 0; elapsed_seconds := dzero;
  remote_status := Status.kOk |}.

Definition set_elapsed (x : Double) (t : TransferStats) : TransferStats := {|
  bytes_transferred := bytes_transferred t; chunks := chunks t; packets_sent := packets_sent t;
  retransmissions := retransmissions t; simulated_drops := simulated_drops t;
  packets_received := packets_received t; duplicates_received := duplicates_received t;
  out_of_order_received := out_of_order_received t; timeouts := timeouts t;
  elapsed_seconds := x; remote_status := remote_status t |}.

Definition throughput_mbps (t : TransferStats) : Double :=
  if SFleb (elapsed_seconds t) dzero then dzero
  else ddiv (ddiv (dmul (dint (bytes_transferred t)) (dint 8)) (elapsed_seconds t)) (dint 1000000).

(** [++counter] on a 64-bit unsigned counter. *)
Definition bump (counter : Z) : Z := u64 (counter + 1).

(** ** Properties *)

(** Five megabytes in half a second. *)
Example throughput_ordinary :
  throughput_mbps {| bytes_transferred := 5000000; chunks := 0; packets_sent := 0; retransmissions := 0;
    simulated_drops := 0; packets_received := 0; duplicates_received := 0; out_of_order_received := 0;
    timeouts := 0; elapsed_seconds := seconds 500000000; remote_status := Status.kOk |} = dint 80.
Proof. by vm_compute. Qed.

Example chunk_count_ordinary :
  map (fun n => chunk_count n 1200) [0; 1; 1199; 1200; 1201; 2400; 2401]
  = map Some [0; 1; 1; 1; 2; 2; 3].
Proof. by vm_compute. Qed.

Lemma chunk_count_no_wrap file_size chunk_size :
  0 < chunk_size -> 0 <= file_size -> file_size + chunk_size <= 2 ^ 64 ->
  u64 (u64 (file_size + chunk_size) - 1) = file_size + chunk_size - 1.
Proof.
  intros. rewrite <- (wrap_small 64 (file_size + chunk_size - 1)) by (unfold fits; lia).
  unfold wrap. rewrite Zminus_mod_idemp_l. done.
Qed.

(** [chunk_count] is the exact number of chunks: as long as the rounding
    addition does not wrap, it answers [n] precisely when [n] chunks cover the
    file and [n - 1] do not, and refuses precisely the files that more than
    2^32 - 1 chunks are needed for. *)
Theorem chunk_count_spec file_size chunk_size :
  0 < chunk_size -> 0 <= file_size -> file_size + chunk_size <= 2 ^ 64 ->
  match chunk_count file_size chunk_size with
  | Some n => fits 32 n /\ (n - 1) * chunk_size < file_size <= n * chunk_size
  | None => file_size > (2 ^ 32 - 1) * chunk_size
  end.
Proof.
  intros Hc Hf Hw. unfold chunk_count.
  destruct (Z.eqb_spec chunk_size 0); [lia|]. rewrite chunk_count_no_wrap by done.
  set (q := (file_size + chunk_size - 1) / chunk_size).
  pose proof (Z.div_mod (file_size + chunk_size - 1) chunk_size ltac:(lia)) as Hdm.
  pose proof (Z.mod_pos_bound (file_size + chunk_size - 1) chunk_size Hc) as Hm.
  fold q in Hdm. rewrite Z.gtb_ltb. destruct (Z.ltb_spec 0xFFFFFFFF q); [nia|].
  assert (0 <= q) by (apply Z.div_pos; lia).
  rewrite wrap_small by (unfold fits; lia). unfold fits. nia.
Qed.

Lemma chunk_count_spec_witness :
  chunk_count ((2 ^ 32 - 1) * 1200 + 1) 1200 = None /\
  match chunk_count ((2 ^ 32 - 1) * 1200 + 1) 1200 with
  | Some n => fits 32 n /\ (n - 1) * 1200 < (2 ^ 32 - 1) * 1200 + 1 <= n * 1200
  | None => (2 ^ 32 - 1) * 1200 + 1 > (2 ^ 32 - 1) * 1200
  end.
Proof. split; [by vm_compute|]. apply chunk_count_spec; vm_compute; congruence. Defined.

(** The rounding addition does wrap: a file size within [chunk_size] of 2^64
    is given no chunks at all instead of being refused. *)
Lemma chunk_count_wraps : chunk_count (2 ^ 64 - 1) 1200 = Some 0.
Proof. by vm_compute. Qed.
