(* ===== verification/PriorityQueue.v ===== *)
(** * Priority queues

    The interface of [std::priority_queue] that src/src/transfer/window.cpp and
    src/tools/delay_proxy.cpp rely on: [push], [top], [pop], [empty], for an
    element type with a strict weak ordering [less], the greatest element on
    top.  The C++ standard leaves the choice among equivalent elements open, and
    so do the laws; the clients' theorems are proved against the laws, and
    [sorted_queue] is one implementation that meets them. *)

From Stdlib Require Import Sorting.Sorted.
From S2P Require Import Prelude.

Class PriorityQueue (E : Type) (less : E -> E -> bool) (Q : Type) := {
  pq_empty : Q;
  pq_push : E -> Q -> Q;
  pq_top : Q -> option E;
  pq_pop : Q -> Q;
  (** The elements, in no particular order; only specifications use it, and
      the loops of the clients take its length as their fuel. *)
  pq_elems : Q -> list E
}.

Class PriorityQueueLaws (E : Type) (less : E -> E -> bool) (Q : Type)
    `{PriorityQueue E less Q} : Prop := {
  pq_elems_empty : pq_elems pq_empty = [];
  pq_elems_push e q : pq_elems (pq_push e q) ≡ₚ e :: pq_elems q;
  pq_top_None q : pq_top q = None -> pq_elems q = [];
  pq_top_Some q e : pq_top q = Some e -> pq_elems q ≡ₚ e :: pq_elems (pq_pop q);
  pq_top_greatest q e x : pq_top q = Some e -> x ∈ pq_elems q -> less e x = false
}.

Section Facts.
Context `{PriorityQueueLaws E less Q}.

Lemma pq_elem_push e x q : x ∈ pq_elems (pq_push e q) <-> x = e \/ x ∈ pq_elems q.
Proof. by rewrite pq_elems_push, elem_of_cons. Qed.

Lemma pq_elem_pop e x q :
  pq_top q = Some e -> x ∈ pq_elems q <-> x = e \/ x ∈ pq_elems (pq_pop q).
Proof. intros He. by rewrite (pq_top_Some q e He), elem_of_cons. Qed.

Lemma pq_length_pop e q :
  pq_top q = Some e -> length (pq_elems q) = S (length (pq_elems (pq_pop q))).
Proof. intros He. by rewrite (pq_top_Some q e He). Qed.

Lemma pq_pop_subset e x q :
  pq_top q = Some e -> x ∈ pq_elems (pq_pop q) -> x ∈ pq_elems q.
Proof. intros He Hx. apply (pq_elem_pop e); auto. Qed.

Lemma pq_top_elem e q : pq_top q = Some e -> e ∈ pq_elems q.
Proof. intros He. apply (pq_elem_pop e); auto. Qed.
End Facts.

(** ** An implementation *)

(** [less] orders by a key: the queues of this program all do. *)
Class StrictWeakOrder {E : Type} (less : E -> E -> bool) : Prop := {
  less_irrefl x : less x x = false;
  less_trans x y z : less x y = true -> less y z = true -> less x z = true;
  nless_trans x y z : less x y = false -> less y z = false -> less x z = false
}.

Section SortedQueue.
Context {E : Type} (less : E -> E -> bool) `{!StrictWeakOrder less}.

(** Greatest first; among equivalents, first in first out. *)
Fixpoint insert_sorted (e : E) (q : list E) : list E :=
  match q with
  | [] => [e]
  | x :: q => if less x e then e :: x :: q else x :: insert_sorted e q
  end.

(** The sortedness is part of the type, so that [top] is always right. *)
Definition descending (q : list E) : Prop := StronglySorted (fun x y => less x y = false) q.

Lemma insert_sorted_perm e q : insert_sorted e q ≡ₚ e :: q.
Proof.
  induction q as [|x q IH]; simpl; [done|]. destruct (less x e); [done|].
  rewrite IH. apply perm_swap.
Qed.

Lemma less_asym x y : less x y = true -> less y x = false.
Proof.
  intros Hxy. destruct (less y x) eqn:Hyx; [|done].
  pose proof (less_trans x y x Hxy Hyx) as Hc. by rewrite less_irrefl in Hc.
Qed.

Lemma insert_sorted_descending e q : descending q -> descending (insert_sorted e q).
Proof.
  unfold descending. induction 1 as [|x q Hq IH Hx]; simpl; [by repeat constructor|].
  destruct (less x e) eqn:Hxe; constructor; try done.
  - by constructor.
  - constructor; [by apply less_asym|].
    eapply Forall_impl; [exact Hx|]. intros y Hy. simpl in Hy.
    apply (nless_trans e x y); [by apply less_asym|done].
  - rewrite insert_sorted_perm. by constructor.
Qed.
End SortedQueue.

Record sorted_queue {E : Type} (less : E -> E -> bool) := SortedQueue {
  sq_list : list E;
  sq_sorted : StronglySorted (fun x y => less x y = false) sq_list
}.
Arguments SortedQueue {E less}.
Arguments sq_list {E less}.
Arguments sq_sorted {E less}.

Definition sq_pop {E : Type} {less : E -> E -> bool} (q : sorted_queue less) : sorted_queue less.
Proof.
  refine (SortedQueue (tail (sq_list q)) _).
  destruct q as [[|x q] H]; simpl; [constructor|by inversion H].
Defined.

#[export] Instance sorted_queue_pq {E : Type} (less : E -> E -> bool) `{!StrictWeakOrder less} :
    PriorityQueue E less (sorted_queue less) := {|
  pq_empty := SortedQueue [] (SSorted_nil _);
  pq_push e q := SortedQueue (insert_sorted less e (sq_list q))
                   (insert_sorted_descending less e (sq_list q) (sq_sorted q));
  pq_top q := head (sq_list q);
  pq_pop q := sq_pop q;
  pq_elems q := sq_list q
|}.

#[export] Instance sorted_queue_laws {E : Type} (less : E -> E -> bool) `{!StrictWeakOrder less} :
  PriorityQueueLaws E less (sorted_queue less).
Proof.
  split; simpl.
  - done.
  - intros e q. apply insert_sorted_perm.
  - intros [[|x q] ?]; simpl; [done|discriminate].
  - intros [[|y q] ?] e; simpl; [discriminate|]. by intros [= ->].
  - intros [[|y q] Hq] e x; simpl; [discriminate|]. intros [= ->].
    inversion_clear Hq as [|? ? _ Hx]. intros [->|Hin]%elem_of_cons.
    + apply less_irrefl.
    + rewrite Forall_forall in Hx. by apply Hx.
Qed.
