(* ===== verification/SenderWindow.v ===== *)
(** * The sender's sliding window

    [SenderWindow] of src/include/swiftlink/transfer/window.hpp and
    src/src/transfer/window.cpp: the ring of slots, and the retransmission
    timers kept in a priority queue with lazy deletion by generation counters.
    A [TimePoint] is the count of clock ticks.

    The abstract window ([Window]) is a set of unacknowledged sequence numbers
    and a finite map from sequence number to armed deadline; [refines] relates
    the two, and each operation is proved to implement its abstract version. *)

From Stdlib Require Import Sorting.Sorted.
From S2P Require Import Prelude Words PriorityQueue.
Open Scope Z_scope.

Record Slot := { outstanding : bool; generation : Z }.
Definition default_slot : Slot := {| outstanding := false; generation := 0 |}.

Record Entry := { deadline : Z; sequence : Z; entry_generation : Z }.

(** [Entry::operator<], inverted so that the earliest deadline is on top. *)
Definition entry_less (a b : Entry) : bool := deadline a >? deadline b.

#[export] Instance entry_less_order : StrictWeakOrder entry_less.
Proof.
  unfold entry_less. split; intros *; rewrite !Z.gtb_ltb, ?Z.ltb_lt, ?Z.ltb_ge; lia.
Qed.

Record SenderWindow {Q : Type} := {
  capacity_ : Z;
  base_ : Z;
  next_sequence_ : Z;
  slots_ : list Slot;
  timers_ : Q
}.
Arguments SenderWindow : clear implicits.

Section Operations.
Context {Q : Type} `{PQ : !PriorityQueue Entry entry_less Q}.
Implicit Types (w : SenderWindow Q).

Definition new_sender_window (capacity : Z) : SenderWindow Q :=
  let cap := if capacity =? 0 then 1 else capacity in
  {| capacity_ := cap; base_ := 0; next_sequence_ := 0;
     slots_ := replicate (Z.to_nat cap) default_slot; timers_ := pq_empty |}.

Definition can_send w : bool := u32 (next_sequence_ w - base_ w) <? capacity_ w.
Definition in_flight w : Z := u32 (next_sequence_ w - base_ w).
Definition empty w : bool := base_ w =? next_sequence_ w.

Definition slot_index w (seq : Z) : nat := Z.to_nat (seq mod capacity_ w).
Definition slot_for w (seq : Z) : Slot := nth (slot_index w seq) (slots_ w) default_slot.

(** Assignments through [Slot& slot = slot_for(sequence)]. *)
Definition set_slot w (seq : Z) (s : Slot) : SenderWindow Q :=
  {| capacity_ := capacity_ w; base_ := base_ w; next_sequence_ := next_sequence_ w;
     slots_ := <[slot_index w seq := s]> (slots_ w); timers_ := timers_ w |}.
Definition set_timers w (q : Q) : SenderWindow Q :=
  {| capacity_ := capacity_ w; base_ := base_ w; next_sequence_ := next_sequence_ w;
     slots_ := slots_ w; timers_ := q |}.
Definition set_base w (b : Z) : SenderWindow Q :=
  {| capacity_ := capacity_ w; base_ := b; next_sequence_ := next_sequence_ w;
     slots_ := slots_ w; timers_ := timers_ w |}.
Definition set_next w (n : Z) : SenderWindow Q :=
  {| capacity_ := capacity_ w; base_ := base_ w; next_sequence_ := n;
     slots_ := slots_ w; timers_ := timers_ w |}.

Definition is_live w (e : Entry) : bool :=
  let slot := slot_for w (sequence e) in
  outstanding slot && (generation slot =? entry_generation e).

(** [while (!timers_.empty() && !is_live(timers_.top())) timers_.pop()]: every
    iteration pops, so the number of entries is fuel enough. *)
Fixpoint prune_loop (fuel : nat) w : SenderWindow Q :=
  match fuel with
  | O => w
  | S fuel =>
      match pq_top (timers_ w) with
      | Some e => if is_live w e then w
                  else prune_loop fuel (set_timers w (pq_pop (timers_ w)))
      | None => w
      end
  end.
Definition prune w : SenderWindow Q := prune_loop (length (pq_elems (timers_ w))) w.

Definition on_sent (dl : Z) w : SenderWindow Q :=
  let seq := next_sequence_ w in
  let slot := {| outstanding := true; generation := u64 (generation (slot_for w seq) + 1) |} in
  let w := set_slot w seq slot in
  let w := set_timers w (pq_push {| deadline := dl; sequence := seq;
                                    entry_generation := generation slot |} (timers_ w)) in
  set_next w (u32 (next_sequence_ w + 1)).

(** The [while] loop of [on_ack]: each iteration moves [base_] one closer to
    [next_sequence_], so their distance is fuel enough. *)
Fixpoint slide (fuel : nat) w : SenderWindow Q :=
  match fuel with
  | O => w
  | S fuel =>
      if (base_ w <? next_sequence_ w) && negb (outstanding (slot_for w (base_ w)))
      then slide fuel (set_base w (u32 (base_ w + 1)))
      else w
  end.

Definition on_ack (seq : Z) w : SenderWindow Q * bool :=
  if (seq <? base_ w) || (next_sequence_ w <=? seq) then (w, false)
  else
    let slot := slot_for w seq in
    if negb (outstanding slot) then (w, false)
    else
      let w := set_slot w seq {| outstanding := false; generation := u64 (generation slot + 1) |} in
      (slide (Z.to_nat (next_sequence_ w - base_ w)) w, true).

Definition earliest_deadline w : SenderWindow Q * option Z :=
  let w := prune w in (w, deadline <$> pq_top (timers_ w)).

(** The [for (;;)] of [expire]: every iteration that does not stop pops. *)
Fixpoint expire_loop (fuel : nat) (now : Z) w : SenderWindow Q * list Z :=
  match fuel with
  | O => (w, [])
  | S fuel =>
      let w := prune w in
      match pq_top (timers_ w) with
      | None => (w, [])
      | Some entry =>
          if deadline entry >? now then (w, [])
          else
            let w := set_timers w (pq_pop (timers_ w)) in
            let slot := slot_for w (sequence entry) in
            let w := set_slot w (sequence entry)
              {| outstanding := outstanding slot; generation := u64 (generation slot + 1) |} in
            let '(w, expired) := expire_loop fuel now w in
            (w, sequence entry :: expired)
      end
  end.
Definition expire (now : Z) w : SenderWindow Q * list Z :=
  expire_loop (S (length (pq_elems (timers_ w)))) now w.

Definition reschedule (seq dl : Z) w : SenderWindow Q :=
  if (seq <? base_ w) || (next_sequence_ w <=? seq) then w
  else
    let slot := slot_for w seq in
    if negb (outstanding slot) then w
    else
      let slot := {| outstanding := outstanding slot; generation := u64 (generation slot + 1) |} in
      let w := set_slot w seq slot in
      set_timers w (pq_push {| deadline := dl; sequence := seq;
                               entry_generation := generation slot |} (timers_ w)).
End Operations.

(** ** The abstract window *)

(** How many packets it spans, which are unacknowledged, which of them have an armed timer and
    when it fires, and the next sequence number to use. *)
Record Window := { span : Z; unacked : gset Z; armed : gmap Z Z; upcoming : Z }.

(** The base: the lowest unacknowledged packet, or the next one to be sent. *)
Definition lowest (U : gset Z) (n : Z) : Z := foldr Z.min n (elements U).

Definition idle (capacity : Z) : Window :=
  {| span := capacity; unacked := ∅; armed := ∅; upcoming := 0 |}.

Definition window_sent (dl : Z) (a : Window) : Window :=
  {| span := span a; unacked := {[upcoming a]} ∪ unacked a; armed := <[upcoming a := dl]> (armed a);
     upcoming := upcoming a + 1 |}.

Definition window_ack (seq : Z) (a : Window) : Window :=
  {| span := span a; unacked := unacked a ∖ {[seq]}; armed := delete seq (armed a); upcoming := upcoming a |}.

Definition window_disarm (seq : Z) (a : Window) : Window :=
  {| span := span a; unacked := unacked a; armed := delete seq (armed a); upcoming := upcoming a |}.

Definition window_arm (seq dl : Z) (a : Window) : Window :=
  {| span := span a; unacked := unacked a; armed := <[seq := dl]> (armed a); upcoming := upcoming a |}.

(** Every timer due at [now] disarmed. *)
Definition window_expired (now : Z) (a : Window) : Window :=
  {| span := span a; unacked := unacked a; armed := filter (fun sd => now < sd.2) (armed a);
     upcoming := upcoming a |}.

Definition timer (a : Window) (s : Z) : Z := default 0 (armed a !! s).

(** [l] lists the packets whose timers are due at [now], each once, those whose
    timers fired first at the front. *)
Definition due (now : Z) (a : Window) (l : list Z) : Prop :=
  NoDup l /\
  (forall s, s ∈ l <-> exists d, armed a !! s = Some d /\ d <= now) /\
  (forall i j s t, (i < j)%nat -> l !! i = Some s -> l !! j = Some t -> timer a s <= timer a t).

Lemma lowest_le U n x : x ∈ U -> lowest U n <= x.
Proof.
  unfold lowest. rewrite <- elem_of_elements. induction (elements U) as [|y l IH]; simpl; [by intros ?%elem_of_nil|].
  intros [->|Hx]%elem_of_cons; [lia|]. specialize (IH Hx). lia.
Qed.

Lemma lowest_cases U n : lowest U n = n \/ lowest U n ∈ U.
Proof.
  unfold lowest. setoid_rewrite <- elem_of_elements.
  induction (elements U) as [|y l IH]; simpl; [by left|].
  destruct (Z.min_spec y (foldr Z.min n l)) as [[_ ->]|[_ ->]];
    [right; by apply elem_of_cons; left|].
  destruct IH; [by left|right; by apply elem_of_cons; right].
Qed.

Lemma lowest_le_n U n : lowest U n <= n.
Proof. unfold lowest. induction (elements U); simpl; lia. Qed.

(** The lowest element is characterised by these two facts. *)
Lemma lowest_unique U n b :
  b <= n -> (forall x, x ∈ U -> b <= x) -> (b = n \/ b ∈ U) -> lowest U n = b.
Proof.
  intros Hn Hle Hb. destruct (lowest_cases U n) as [H|H].
  - destruct Hb as [->|Hb]; [done|]. apply (lowest_le U n) in Hb. lia.
  - apply Hle in H as H1. destruct Hb as [->|Hb]; [pose proof (lowest_le_n U n); lia|].
    apply (lowest_le U n) in Hb. lia.
Qed.

(** ** Refinement *)

Section Refinement.
Context {Q : Type} `{PQL : PriorityQueueLaws Entry entry_less Q}.
Implicit Types (w : SenderWindow Q) (a : Window).

(** [tracks n w a]: slots and heap of [w] represent [a], and no generation
    counter has been bumped more than [n] times. *)
Record tracks (n : Z) w a : Prop := {
  ref_capacity : 1 <= capacity_ w < 2 ^ 32;
  ref_span : capacity_ w = span a;
  ref_slots : length (slots_ w) = Z.to_nat (capacity_ w);
  ref_range : 0 <= base_ w <= next_sequence_ w /\ next_sequence_ w <= base_ w + capacity_ w;
  ref_width : next_sequence_ w < 2 ^ 32;
  ref_next : next_sequence_ w = upcoming a;
  ref_unacked s : s ∈ unacked a <->
    base_ w <= s < next_sequence_ w /\ outstanding (slot_for w s) = true;
  ref_generation s : 0 <= generation (slot_for w s) <= n;
  ref_entries e : e ∈ pq_elems (timers_ w) ->
    entry_generation e <= generation (slot_for w (sequence e)) /\
    (is_live w e = true -> base_ w <= sequence e < next_sequence_ w);
  ref_armed s d : armed a !! s = Some d <->
    exists e, e ∈ pq_elems (timers_ w) /\ is_live w e = true /\ sequence e = s /\ deadline e = d
}.

(** [refines n w a]: moreover the base is where the abstract window says. *)
Record refines (n : Z) w a : Prop := {
  ref_tracks :> tracks n w a;
  ref_base : base_ w = lowest (unacked a) (upcoming a)
}.

Lemma tracks_mono n m w a : tracks n w a -> n <= m -> tracks m w a.
Proof. intros [] ?. split; try done. intros s. specialize (ref_generation0 s). lia. Qed.

(** *** Slots *)

Lemma slot_for_set w s x s' :
  1 <= capacity_ w -> length (slots_ w) = Z.to_nat (capacity_ w) ->
  slot_for (set_slot w s x) s' =
  if decide (s mod capacity_ w = s' mod capacity_ w) then x else slot_for w s'.
Proof.
  intros Hc Hl. unfold slot_for, slot_index; simpl. by apply nth_ring; lia.
Qed.

Lemma slot_for_set_window n w a s x s' :
  tracks n w a -> base_ w <= s <= base_ w + capacity_ w -> base_ w <= s' <= base_ w + capacity_ w ->
  Z.abs (s - s') < capacity_ w ->
  slot_for (set_slot w s x) s' = if decide (s = s') then x else slot_for w s'.
Proof.
  intros [] Hs Hs' Hd. rewrite slot_for_set by lia.
  destruct (decide (s = s')) as [->|Hne]; [by rewrite decide_True|].
  rewrite decide_False; [done|]. intros Hm. by apply Hne, (mod_inj s s' (capacity_ w)); lia.
Qed.

(** *** Pruning only drops ghosts *)

Lemma pop_ghost n w a e :
  tracks n w a -> pq_top (timers_ w) = Some e -> is_live w e = false ->
  tracks n (set_timers w (pq_pop (timers_ w))) a.
Proof.
  intros [] He Hl. split; try done.
  - intros x Hx. by apply ref_entries0, (pq_pop_subset e).
  - intros s d. rewrite ref_armed0. simpl. split; intros (x & Hx & Hlx & Hs & Hd); exists x;
      (split_and!; [|done..]).
    + apply (pq_elem_pop e x _ He) in Hx as [->|Hx]; [congruence|done].
    + by apply (pq_pop_subset e).
Qed.

Lemma prune_loop_tracks fuel n w a :
  tracks n w a -> tracks n (prune_loop fuel w) a.
Proof.
  revert w. induction fuel as [|fuel IH]; intros w Hr; [done|]. simpl.
  destruct (pq_top (timers_ w)) as [e|] eqn:He; [|done].
  destruct (is_live w e) eqn:Hl; [done|]. by eapply IH, pop_ghost.
Qed.

Lemma prune_loop_top fuel w :
  (length (pq_elems (timers_ w)) <= fuel)%nat ->
  match pq_top (timers_ (prune_loop fuel w)) with
  | Some e => is_live (prune_loop fuel w) e = true
  | None => True
  end.
Proof.
  revert w. induction fuel as [|fuel IH]; intros w Hf.
  - simpl. destruct (pq_top (timers_ w)) as [e|] eqn:He; [|done].
    apply pq_length_pop in He. lia.
  - simpl. destruct (pq_top (timers_ w)) as [e|] eqn:He; [|by rewrite He].
    destruct (is_live w e) eqn:Hl; [by rewrite He|].
    apply IH. simpl. apply pq_length_pop in He. lia.
Qed.

Lemma prune_loop_length fuel w :
  (length (pq_elems (timers_ (prune_loop fuel w))) <= length (pq_elems (timers_ w)))%nat.
Proof.
  revert w. induction fuel as [|fuel IH]; intros w; [done|]. simpl.
  destruct (pq_top (timers_ w)) as [e|] eqn:He; [|done]. destruct (is_live w e); [done|].
  etrans; [apply IH|]. simpl. apply pq_length_pop in He. lia.
Qed.

Lemma prune_tracks n w a : tracks n w a -> tracks n (prune w) a.
Proof. apply prune_loop_tracks. Qed.

Lemma prune_loop_base fuel w : base_ (prune_loop fuel w) = base_ w.
Proof.
  revert w. induction fuel as [|fuel IH]; intros w; [done|]. simpl.
  destruct (pq_top (timers_ w)) as [e|]; [|done]. destruct (is_live w e); [done|]. by rewrite IH.
Qed.

Lemma prune_refines n w a : refines n w a -> refines n (prune w) a.
Proof. intros []. split; [by apply prune_tracks|]. unfold prune. by rewrite prune_loop_base. Qed.

(** Once pruned, the top of the heap is the earliest armed deadline. *)
Lemma prune_top n w a :
  tracks n w a ->
  match pq_top (timers_ (prune w)) with
  | Some e => armed a !! sequence e = Some (deadline e) /\
              (forall s d, armed a !! s = Some d -> deadline e <= d)
  | None => armed a = ∅
  end.
Proof.
  intros Hr. pose proof (prune_tracks n w a Hr) as [].
  pose proof (prune_loop_top (length (pq_elems (timers_ w))) w ltac:(lia)) as Ht.
  fold (prune w) in Ht. revert Ht. destruct (pq_top (timers_ (prune w))) as [e|] eqn:He; intros Ht.
  - split.
    + apply ref_armed0. exists e. split_and!; [by apply (pq_top_elem e _ He)|done..].
    + intros s d (x & Hx & _ & _ & <-)%ref_armed0.
      pose proof (pq_top_greatest _ _ _ He Hx) as Hg. unfold entry_less in Hg.
      rewrite Z.gtb_ltb in Hg. bool_to_prop. lia.
  - apply map_eq. intros s. rewrite lookup_empty.
    destruct (armed a !! s) as [d|] eqn:Hs; [|done].
    apply ref_armed0 in Hs as (x & Hx & _). rewrite (pq_top_None _ He) in Hx.
    by apply elem_of_nil in Hx.
Qed.

(** *** Bumping a slot's generation orphans its timer *)

Lemma retag n w a s o :
  tracks n w a -> base_ w <= s < next_sequence_ w -> n + 1 < 2 ^ 64 ->
  (o = true -> outstanding (slot_for w s) = true) ->
  tracks (n + 1)
    (set_slot w s {| outstanding := o; generation := u64 (generation (slot_for w s) + 1) |})
    {| span := span a; unacked := if o then unacked a else unacked a ∖ {[s]};
       armed := delete s (armed a); upcoming := upcoming a |}.
Proof.
  intros Ht Hs Hn Ho. pose proof Ht as [].
  pose proof (ref_generation0 s) as Hg.
  rewrite wrap_small by (unfold fits; lia).
  set (x := {| outstanding := o; generation := generation (slot_for w s) + 1 |}).
  pose proof (slot_for_set w s x) as Hset.
  assert (forall s', base_ w <= s' < next_sequence_ w ->
    slot_for (set_slot w s x) s' = if decide (s = s') then x else slot_for w s') as Hwin.
  { intros s' Hs'. apply (slot_for_set_window n w a); [done|lia..]. }
  assert (forall e, e ∈ pq_elems (timers_ w) -> is_live (set_slot w s x) e =
    if decide (s mod capacity_ w = sequence e mod capacity_ w) then false else is_live w e) as Hlive.
  { intros e He. unfold is_live. rewrite Hset by lia. case_decide as Hm; [|done].
    subst x. simpl. rewrite andb_false_iff. right. apply Z.eqb_neq.
    destruct (ref_entries0 e He) as [Hle _].
    replace (slot_for w (sequence e)) with (slot_for w s) in Hle; [lia|].
    unfold slot_for, slot_index. by rewrite Hm. }
  split; try done; simpl.
  - by rewrite length_insert.
  - intros s'. destruct (decide (base_ w <= s' < next_sequence_ w)) as [Hs'|Hs'].
    + rewrite Hwin by done. destruct o; simpl; rewrite ?elem_of_difference, ?elem_of_singleton, ref_unacked0;
        case_decide; subst x; simpl; intuition congruence.
    + split; [|lia]. intros Hin. exfalso. apply Hs'.
      assert (s' ∈ unacked a) as Hin'
        by (destruct o; [done|by apply elem_of_difference in Hin as [? _]]).
      by apply ref_unacked0 in Hin' as [? _].
  - intros s'. rewrite Hset by lia. specialize (ref_generation0 s').
    case_decide; subst x; simpl; lia.
  - intros e He. destruct (ref_entries0 e He) as [Hle Hin]. rewrite Hlive, Hset by (done || lia).
    case_decide as Hm; [|done]. split; [|done]. subst x; simpl.
    replace (slot_for w (sequence e)) with (slot_for w s) in Hle; [lia|].
    unfold slot_for, slot_index. by rewrite Hm.
  - intros s' d. rewrite lookup_delete_Some, ref_armed0. split.
    + intros (Hne & e & He & Hl & <- & <-). exists e. split_and!; try done.
      rewrite Hlive by done. rewrite decide_False; [done|]. intros Hm.
      apply Hne. destruct (ref_entries0 e He) as [_ Hin]. specialize (Hin Hl).
      apply (mod_inj s _ (capacity_ w)); [lia|lia|done].
    + intros (e & He & Hl & <- & <-). rewrite Hlive in Hl by done.
      case_decide as Hm; [done|]. split; [|by exists e]. intros ->. done.
Qed.

(** *** Claiming the slot of a new packet *)

Lemma sent_slot n w a :
  tracks n w a -> can_send w = true -> next_sequence_ w + 1 < 2 ^ 32 -> n + 1 < 2 ^ 64 ->
  let s := next_sequence_ w in
  let x := {| outstanding := true; generation := u64 (generation (slot_for w s) + 1) |} in
  let w' := set_next (set_slot w s x) (s + 1) in
  tracks (n + 1) w'
    {| span := span a; unacked := {[s]} ∪ unacked a; armed := armed a; upcoming := s + 1 |} /\
  slot_for w' s = x /\ armed a !! s = None.
Proof.
  intros Ht Hsend Hw Hn s x w'. pose proof Ht as [].
  assert (s < base_ w + capacity_ w) as Hroom.
  { unfold can_send in Hsend. rewrite wrap_small in Hsend by (unfold fits; lia).
    bool_to_prop. lia. }
  pose proof (ref_generation0 s) as Hg.
  assert (generation x = generation (slot_for w s) + 1) as Hx
    by (unfold x; apply wrap_small; unfold fits; lia).
  assert (forall s', slot_for w' s' =
    if decide (s mod capacity_ w = s' mod capacity_ w) then x else slot_for w s') as Hset.
  { intros s'. change (slot_for w' s') with (slot_for (set_slot w s x) s').
    by apply slot_for_set; lia. }
  assert (forall s', base_ w <= s' < s -> slot_for w' s' = slot_for w s') as Hold.
  { intros s' Hs'. rewrite Hset, decide_False; [done|].
    intros Hm. apply (mod_inj s s' (capacity_ w)) in Hm; lia. }
  assert (slot_for w' s = x) as Hs by (by rewrite Hset, decide_True).
  assert (armed a !! s = None) as Harm.
  { destruct (armed a !! s) as [d|] eqn:E; [|done].
    apply ref_armed0 in E as (e & He & Hl & Hse & _).
    destruct (ref_entries0 e He) as [_ Hin]. specialize (Hin Hl). lia. }
  assert (forall e, e ∈ pq_elems (timers_ w) ->
    is_live w' e = true <-> is_live w e = true /\ base_ w <= sequence e < s) as Hlive.
  { intros e He. destruct (ref_entries0 e He) as [Hle Hin]. split.
    - unfold is_live. rewrite Hset. case_decide as Hm.
      + intros Hl. bool_to_prop. exfalso. rewrite Hx in *.
        replace (slot_for w (sequence e)) with (slot_for w s) in Hle; [lia|].
        unfold slot_for, slot_index. by rewrite Hm.
      + intros Hl. split; [done|]. by apply Hin.
    - intros [Hl Hr]. unfold is_live. rewrite Hold by done. done. }
  split; [|done]. split; simpl; try done.
  - by rewrite length_insert.
  - lia.
  - intros s'. rewrite elem_of_union, elem_of_singleton, ref_unacked0.
    destruct (decide (s' = s)) as [->|Hne]; [rewrite Hs; simpl; split; [split; [lia|done]|by left]|].
    split.
    + intros [->|[Hr Ho]]; [done|]. rewrite Hold by done. split; [lia|done].
    + intros [Hr Ho]. right. rewrite Hold in Ho by lia. split; [lia|done].
  - intros s'. rewrite Hset. specialize (ref_generation0 s'). case_decide; [rewrite Hx|]; lia.
  - intros e He. destruct (ref_entries0 e He) as [Hle Hin]. split.
    + rewrite Hset. case_decide as Hm; [|done].
      replace (slot_for w (sequence e)) with (slot_for w s) in Hle; [lia|].
      unfold slot_for, slot_index. by rewrite Hm.
    + intros [_ Hr]%(Hlive e He). lia.
  - intros s' d. rewrite ref_armed0. split; intros (e & He & Hl & Hse & Hd); exists e;
      (split_and!; [done| |done..]).
    + apply (Hlive e He). split; [done|]. destruct (ref_entries0 e He) as [_ Hin]. by apply Hin.
    + by apply (Hlive e He) in Hl as [? _].
Qed.

(** *** Pushing an entry arms a timer *)

Lemma push_entry n w a s d :
  tracks n w a -> s ∈ unacked a -> armed a !! s = None ->
  tracks n (set_timers w (pq_push {| deadline := d; sequence := s;
              entry_generation := generation (slot_for w s) |} (timers_ w)))
    (window_arm s d a).
Proof.
  intros [] [Hs Ho]%ref_unacked0 Ha.
  set (x := {| deadline := d; sequence := s; entry_generation := generation (slot_for w s) |}).
  assert (is_live w x = true) as Hx.
  { unfold is_live. simpl. by rewrite Ho, Z.eqb_refl. }
  split; try done.
  - intros e [->|He]%pq_elem_push; [|by apply ref_entries0]. simpl. split; [done|]. by intros _.
  - intros s' d'. simpl. rewrite lookup_insert_Some, ref_armed0. split.
    + intros [[<- <-]|(Hne & e & He & Hl & <- & <-)].
      * exists x. split_and!; try done. apply pq_elem_push. by left.
      * exists e. split_and!; try done. apply pq_elem_push. by right.
    + intros (e & [->|He]%pq_elem_push & Hl & <- & <-); [by left|]. right. split; [|by exists e].
      intros ->. assert (armed a !! sequence e = Some (deadline e)) as Hc by (apply ref_armed0; by exists e).
      congruence.
Qed.
(** *** Sliding the base *)

Lemma slide_step n w a :
  tracks n w a -> base_ w < next_sequence_ w -> outstanding (slot_for w (base_ w)) = false ->
  tracks n (set_base w (u32 (base_ w + 1))) a /\ u32 (base_ w + 1) = base_ w + 1.
Proof.
  intros [] Hlt Ho. rewrite wrap_small by (unfold fits; lia). split; [|done].
  assert (forall s, outstanding (slot_for w s) = true -> s <> base_ w) as Hne by congruence.
  split; try done; simpl.
  - lia.
  - intros s. rewrite ref_unacked0. change (slot_for (set_base w (base_ w + 1)) s) with (slot_for w s).
    split; intros [? Hs]; (split; [|done]); specialize (Hne s Hs); lia.
  - intros e He. destruct (ref_entries0 e He) as [Hle Hin]. split; [done|].
    intros Hl. specialize (Hin Hl). apply andb_true_iff in Hl as [Hl _].
    specialize (Hne _ Hl). lia.
Qed.

Lemma slide_tracks fuel n w a :
  tracks n w a -> tracks n (slide fuel w) a.
Proof.
  revert w. induction fuel as [|fuel IH]; intros w Ht; [done|]. simpl.
  destruct (_ && _) eqn:E; [|done]. bool_to_prop.
  apply IH. by apply slide_step.
Qed.

Lemma slide_next fuel w : next_sequence_ (slide fuel w) = next_sequence_ w.
Proof.
  revert w. induction fuel as [|fuel IH]; intros w; [done|]. simpl.
  destruct (_ && _); [by rewrite IH|done].
Qed.

Lemma slide_stops fuel n w a :
  tracks n w a -> next_sequence_ w - base_ w <= Z.of_nat fuel ->
  base_ (slide fuel w) = next_sequence_ w \/
  (base_ (slide fuel w) < next_sequence_ w /\
   outstanding (slot_for (slide fuel w) (base_ (slide fuel w))) = true).
Proof.
  revert w. induction fuel as [|fuel IH]; intros w Ht Hf; pose proof Ht as [].
  - left. simpl. lia.
  - simpl. destruct (base_ w <? next_sequence_ w) eqn:Hlt; bool_to_prop; [|left; simpl; lia].
    destruct (outstanding (slot_for w (base_ w))) eqn:Ho; simpl in *; [by right|].
    destruct (slide_step n w a Ht Hlt Ho) as [Ht' Hb].
    apply (IH (set_base w (u32 (base_ w + 1)))); [done|]. simpl. lia.
Qed.

Lemma slide_refines fuel n w a :
  tracks n w a -> next_sequence_ w - base_ w <= Z.of_nat fuel -> refines n (slide fuel w) a.
Proof.
  intros Ht Hf. pose proof (slide_stops fuel n w a Ht Hf) as Hstop.
  rewrite <- (slide_next fuel w) in Hstop.
  pose proof (slide_tracks fuel n w a Ht) as Ht'. split; [done|]. destruct Ht'.
  symmetry. apply lowest_unique.
  - lia.
  - intros x Hx. apply ref_unacked0 in Hx. lia.
  - destruct Hstop as [->|[Hlt Ho]]; [by left|]. right. apply ref_unacked0. split; [lia|done].
Qed.

(** *** The armed timers all belong to packets of the window *)

Lemma armed_unacked n w a s d : tracks n w a -> armed a !! s = Some d -> s ∈ unacked a.
Proof.
  intros [] (e & He & Hl & <- & _)%ref_armed0. apply ref_unacked0.
  destruct (ref_entries0 e He) as [_ Hin]. split; [by apply Hin|].
  by apply andb_true_iff in Hl as [? _].
Qed.

Lemma armed_size n w a : tracks n w a -> Z.of_nat (size (armed a)) <= capacity_ w.
Proof.
  intros Ht. rewrite <- size_dom. pose proof Ht as [].
  transitivity (Z.of_nat (size (list_to_set (seqZ (base_ w) (capacity_ w)) : gset Z))).
  - apply inj_le, subseteq_size. intros s [d Hd]%elem_of_dom.
    apply (armed_unacked n w) in Hd; [|done]. apply ref_unacked0 in Hd.
    apply elem_of_list_to_set, elem_of_seqZ. lia.
  - rewrite size_list_to_set by apply NoDup_seqZ. rewrite length_seqZ. lia.
Qed.

(** *** Expiry *)

Lemma due_nil now a : (forall s d, armed a !! s = Some d -> now < d) -> due now a [].
Proof.
  intros Hall. split_and!; [apply NoDup_nil_2| |by intros ?????; rewrite lookup_nil].
  intros s. split; [by intros ?%elem_of_nil|]. intros (d & Hd & ?). apply Hall in Hd. lia.
Qed.

Lemma due_cons now a s d l :
  armed a !! s = Some d -> d <= now -> (forall t d', armed a !! t = Some d' -> d <= d') ->
  due now (window_disarm s a) l -> due now a (s :: l).
Proof.
  intros Hs Hd Hmin (Hnd & Hin & Hord). simpl in *.
  assert (s ∉ l) as Hsl.
  { rewrite Hin. intros (d' & Hd' & _). by rewrite lookup_delete_eq in Hd'. }
  assert (forall t, t ∈ l -> timer (window_disarm s a) t = timer a t) as Ht.
  { intros t Htl. unfold timer. simpl. rewrite lookup_delete_ne; [done|]. by intros ->. }
  split_and!.
  - by constructor.
  - intros t. rewrite elem_of_cons, Hin. setoid_rewrite lookup_delete_Some. split.
    + intros [->|(d' & [_ Ht'] & Hd')]; [by exists d|by exists d'].
    + intros (d' & Ht' & Hd'). destruct (decide (s = t)) as [->|Hne]; [by left|].
      right. by exists d'.
  - intros [|i] [|j] x y Hij Hx Hy; simpl in *; [lia| |lia|].
    + simplify_eq. assert (exists d', armed a !! y = Some d' /\ d' <= now) as (d' & Hy' & _).
      { apply list_elem_of_lookup_2, Hin in Hy as (d' & [_ Hy]%lookup_delete_Some & ?). by exists d'. }
      unfold timer. rewrite Hs, Hy'. simpl. by apply (Hmin y).
    + rewrite <- !Ht by (by eapply list_elem_of_lookup_2). apply (Hord i j); [lia|done..].
Qed.

Lemma due_length now a l : due now a l -> (length l <= size (armed a))%nat.
Proof.
  intros (Hnd & Hin & _). rewrite <- size_dom, <- (size_list_to_set (C:=gset Z)) by done.
  apply subseteq_size. intros s (d & Hd & _)%elem_of_list_to_set%Hin. by apply elem_of_dom_2 in Hd.
Qed.

Lemma expire_loop_spec fuel n now w a :
  tracks n w a -> (length (pq_elems (timers_ w)) < fuel)%nat ->
  n + Z.of_nat (size (armed a)) < 2 ^ 64 ->
  let '(w', l) := expire_loop fuel now w in
  tracks (n + Z.of_nat (length l)) w' (window_expired now a) /\
  base_ w' = base_ w /\ due now a l.
Proof.
  revert n w a. induction fuel as [|fuel IH]; intros n w a Ht Hf Hn; [lia|]. simpl.
  pose proof (prune_top n w a Ht) as Htop. pose proof (prune_tracks n w a Ht) as Hp.
  pose proof (prune_loop_length (length (pq_elems (timers_ w))) w) as Hlen.
  pose proof (prune_loop_base (length (pq_elems (timers_ w))) w) as Hbase.
  fold (prune w) in Hlen, Hbase. revert Htop Hp Hlen Hbase. generalize (prune w) as w0.
  intros w0 Htop Hp Hlen Hbase.
  assert (forall (Hfilter : forall s d, armed a !! s = Some d -> now < d),
    tracks (n + 0) w0 (window_expired now a) /\ base_ w0 = base_ w /\ due now a []) as Hstop.
  { intros Hfilter. split_and!; [|done|by apply due_nil]. rewrite Z.add_0_r.
    unfold window_expired. rewrite map_filter_id by (intros ???; by eapply Hfilter).
    by destruct a. }
  destruct (pq_top (timers_ w0)) as [e|] eqn:He.
  2:{ apply Hstop. intros s d. by rewrite Htop, lookup_empty. }
  destruct Htop as [Ha Hmin]. rewrite Z.gtb_ltb. destruct (now <? deadline e) eqn:Hd; bool_to_prop.
  { apply Hstop. intros s d Hs. apply Hmin in Hs. lia. }
  set (s := sequence e) in *. pose proof (armed_unacked _ _ _ _ _ Hp Ha) as Hs.
  pose proof (proj1 (ref_unacked _ _ _ Hp s) Hs) as [Hr Ho].
  assert (size (armed a) = S (size (delete s (armed a)))) as Hsize.
  { rewrite <- (insert_delete_id (armed a) s (deadline e)) at 1 by done.
    apply map_size_insert_None, lookup_delete_eq. }
  pose proof (retag n w0 a s true Hp Hr ltac:(lia) (fun _ => Ho)) as Hr1.
  simpl in Hr1. fold (window_disarm s a) in Hr1. rewrite <- Ho in Hr1 at 1.
  apply (pop_ghost _ _ _ e) in Hr1; [|done|].
  2:{ destruct (is_live _ e) eqn:Hl; [|done].
      assert (armed (window_disarm s a) !! s = Some (deadline e)) as Hc.
      { apply (ref_armed _ _ _ Hr1). exists e. split_and!; [by eapply pq_top_elem|done..]. }
      simpl in Hc. by rewrite lookup_delete_eq in Hc. }
  specialize (IH _ _ _ Hr1). simpl in IH.
  destruct (expire_loop fuel now _) as [w' l]. destruct IH as (IHt & IHb & IHd).
  { apply pq_length_pop in He. lia. }
  { lia. }
  split_and!.
  - simpl. replace (n + _) with (n + 1 + Z.of_nat (length l)) by lia.
    enough (window_expired now (window_disarm s a) = window_expired now a) as <- by done.
    unfold window_expired, window_disarm. simpl. f_equal.
    apply map_filter_delete_not. intros y Hy. simpl in *. simplify_eq. lia.
  - lia.
  - by apply (due_cons now a s (deadline e)).
Qed.

(** *** The operations *)

Lemma new_sender_window_refines capacity :
  0 <= capacity < 2 ^ 32 ->
  refines 0 (new_sender_window capacity) (idle (if capacity =? 0 then 1 else capacity)).
Proof.
  intros Hc. unfold new_sender_window.
  assert (1 <= (if capacity =? 0 then 1 else capacity) < 2 ^ 32) as Hcap by (case_match; bool_to_prop; lia).
  revert Hcap. generalize (if capacity =? 0 then 1 else capacity) as cap. intros cap Hcap.
  assert (forall s, nth s (replicate (Z.to_nat cap) default_slot) default_slot = default_slot) as Hnth.
  { intros s. rewrite nth_lookup. destruct (_ !! s) as [x|] eqn:E; [|done].
    by apply lookup_replicate in E as [-> _]. }
  split; [split|]; simpl; try done; unfold slot_for; simpl.
  - by rewrite length_replicate.
  - lia.
  - intros s. rewrite elem_of_empty. lia.
  - intros s. rewrite Hnth. simpl. lia.
  - intros e. rewrite pq_elems_empty. by intros ?%elem_of_nil.
  - intros s d. rewrite lookup_empty. split; [done|].
    intros (e & He & _). rewrite pq_elems_empty in He. by apply elem_of_nil in He.
Qed.

Lemma can_send_spec n w a :
  refines n w a -> can_send w = bool_decide (upcoming a - lowest (unacked a) (upcoming a) < span a).
Proof.
  intros [[] Hb]. unfold can_send. rewrite <- Hb, <- ref_next0, <- ref_span0.
  rewrite wrap_small by (unfold fits; lia). apply eq_true_iff_eq.
  rewrite bool_decide_eq_true. apply Z.ltb_lt.
Qed.

Lemma in_flight_spec n w a :
  refines n w a -> in_flight w = upcoming a - lowest (unacked a) (upcoming a).
Proof.
  intros [[] Hb]. unfold in_flight. rewrite <- Hb, <- ref_next0. apply wrap_small. unfold fits. lia.
Qed.

Lemma empty_spec n w a : refines n w a -> empty w = bool_decide (unacked a = ∅).
Proof.
  intros [[] Hb]. apply eq_true_iff_eq. unfold empty. rewrite bool_decide_eq_true, Z.eqb_eq. split.
  - intros He. apply set_eq. intros s. rewrite ref_unacked0, elem_of_empty. lia.
  - intros He. rewrite Hb, He, ref_next0. done.
Qed.

Lemma on_sent_refines n w a dl :
  refines n w a -> can_send w = true -> next_sequence_ w + 1 < 2 ^ 32 -> n + 1 < 2 ^ 64 ->
  refines (n + 1) (on_sent dl w) (window_sent dl a).
Proof.
  intros [Ht Hb] Hs Hw Hn. pose proof (sent_slot n w a Ht Hs Hw Hn) as (Ht1 & Hx & Ha).
  apply (push_entry _ _ _ (next_sequence_ w) dl) in Ht1; [|by apply elem_of_union; left; apply elem_of_singleton|done].
  pose proof Ht as []. unfold on_sent. cbn [next_sequence_ set_timers set_slot]. rewrite (wrap_small 32) by (unfold fits; lia).
  rewrite Hx in Ht1. simpl in Ht1. split.
  - unfold window_sent. by rewrite <- ref_next0.
  - simpl. rewrite Hb. symmetry. apply lowest_unique.
    + pose proof (lowest_le_n (unacked a) (upcoming a)). lia.
    + intros x [->%elem_of_singleton|Hin]%elem_of_union; [apply lowest_le_n|by apply lowest_le].
    + right. destruct (lowest_cases (unacked a) (upcoming a)) as [->|];
        apply elem_of_union; [left; by apply elem_of_singleton|by right].
Qed.

Lemma outstanding_spec n w a s :
  tracks n w a ->
  (if (s <? base_ w) || (next_sequence_ w <=? s) then false else outstanding (slot_for w s))
  = bool_decide (s ∈ unacked a).
Proof.
  intros []. apply eq_true_iff_eq. rewrite bool_decide_eq_true, ref_unacked0.
  destruct (_ || _) eqn:E; bool_to_prop; intuition lia.
Qed.

Lemma on_ack_refines n w a s :
  refines n w a -> n + 1 < 2 ^ 64 ->
  let '(w', b) := on_ack s w in
  b = bool_decide (s ∈ unacked a) /\
  refines (n + 1) w' (if bool_decide (s ∈ unacked a) then window_ack s a else a).
Proof.
  intros [Ht Hb] Hn. rewrite <- (outstanding_spec n w a s Ht). unfold on_ack.
  assert (refines (n + 1) w a) as Hsame by (by split; [eapply tracks_mono; [done|lia]|]).
  destruct (_ || _) eqn:E; [done|]. destruct (outstanding (slot_for w s)) eqn:Ho; [|done].
  simpl. split; [done|]. bool_to_prop. pose proof Ht as [].
  apply slide_refines; [|simpl; lia]. by apply (retag n w a s false).
Qed.

Lemma reschedule_refines n w a s d :
  refines n w a -> n + 1 < 2 ^ 64 ->
  refines (n + 1) (reschedule s d w) (if bool_decide (s ∈ unacked a) then window_arm s d a else a).
Proof.
  intros [Ht Hb] Hn. rewrite <- (outstanding_spec n w a s Ht). unfold reschedule.
  assert (refines (n + 1) w a) as Hsame by (by split; [eapply tracks_mono; [done|lia]|]).
  destruct (_ || _) eqn:E; [done|]. destruct (outstanding (slot_for w s)) eqn:Ho; [|done].
  simpl. bool_to_prop. pose proof Ht as [].
  pose proof (retag n w a s true Ht ltac:(lia) Hn (fun _ => Ho)) as Hr.
  apply (push_entry _ _ _ s d) in Hr.
  - rewrite slot_for_set, decide_True in Hr by (done || lia). simpl in Hr. split.
    + unfold window_arm in *. simpl in Hr. by rewrite insert_delete_eq in Hr.
    + done.
  - apply ref_unacked0. split; [lia|done].
  - apply lookup_delete_eq.
Qed.

(** What [earliest_deadline] may answer. *)
Definition is_earliest a (o : option Z) : Prop :=
  match o with
  | Some d => (exists s, armed a !! s = Some d) /\ forall s d', armed a !! s = Some d' -> d <= d'
  | None => armed a = ∅
  end.

Lemma earliest_deadline_refines n w a :
  refines n w a ->
  let '(w', o) := earliest_deadline w in is_earliest a o /\ refines n w' a.
Proof.
  intros Hr. unfold earliest_deadline. split; [|by apply prune_refines].
  pose proof (prune_top n w a Hr) as Htop. destruct (pq_top _) as [e|]; [|done].
  simpl. destruct Htop. split; [by exists (sequence e)|done].
Qed.

Lemma expire_refines n w a now :
  refines n w a -> n + capacity_ w < 2 ^ 64 ->
  let '(w', l) := expire now w in
  due now a l /\ refines (n + capacity_ w) w' (window_expired now a).
Proof.
  intros [Ht Hb] Hn. unfold expire. pose proof (armed_size n w a Ht) as Hsz.
  pose proof (expire_loop_spec (S (length (pq_elems (timers_ w)))) n now w a Ht ltac:(lia) ltac:(lia)) as Hl.
  destruct (expire_loop _ _ _) as [w' l]. destruct Hl as (Ht' & Hb' & Hd). split; [done|].
  split; [|simpl; congruence]. eapply tracks_mono; [exact Ht'|].
  pose proof (due_length now a l Hd). lia.
Qed.
End Refinement.


(** ** The public interface, call by call *)

Inductive Call :=
| CSent (dl : Z)
| CAck (seq : Z)
| CEarliest
| CExpire (now : Z)
| CReschedule (seq dl : Z)
| CState.

Inductive Answer :=
| ADone
| ARetired (b : bool)
| ADeadline (d : option Z)
| AExpired (l : list Z)
| AState (base next in_flight : Z) (can_send empty : bool).

Section Calls.
Context {Q : Type} `{PQ : !PriorityQueue Entry entry_less Q}.

(** One member function call; [on_sent] asserts [can_send()]. *)
Definition call (c : Call) (w : SenderWindow Q) : option (SenderWindow Q * Answer) :=
  match c with
  | CSent dl => if can_send w then Some (on_sent dl w, ADone) else None
  | CAck s => let '(w, b) := on_ack s w in Some (w, ARetired b)
  | CEarliest => let '(w, o) := earliest_deadline w in Some (w, ADeadline o)
  | CExpire now => let '(w, l) := expire now w in Some (w, AExpired l)
  | CReschedule s d => Some (reschedule s d w, ADone)
  | CState => Some (w, AState (base_ w) (next_sequence_ w) (in_flight w) (can_send w) (empty w))
  end.

Fixpoint run (cs : list Call) (w : SenderWindow Q) : option (SenderWindow Q * list Answer) :=
  match cs with
  | [] => Some (w, [])
  | c :: cs =>
      match call c w with
      | None => None
      | Some (w, ans) =>
          match run cs w with
          | None => None
          | Some (w, l) => Some (w, ans :: l)
          end
      end
  end.
End Calls.

(** What the abstract window does on a call, and which answers it allows. *)
Inductive window_step (a : Window) : Call -> Answer -> Window -> Prop :=
| step_sent dl :
    upcoming a - lowest (unacked a) (upcoming a) < span a ->
    window_step a (CSent dl) ADone (window_sent dl a)
| step_ack s :
    window_step a (CAck s) (ARetired (bool_decide (s ∈ unacked a)))
      (if bool_decide (s ∈ unacked a) then window_ack s a else a)
| step_earliest o : is_earliest a o -> window_step a CEarliest (ADeadline o) a
| step_expire now l : due now a l -> window_step a (CExpire now) (AExpired l) (window_expired now a)
| step_reschedule s d :
    window_step a (CReschedule s d) ADone
      (if bool_decide (s ∈ unacked a) then window_arm s d a else a)
| step_state :
    let low := lowest (unacked a) (upcoming a) in
    window_step a CState
      (AState low (upcoming a) (upcoming a - low)
        (bool_decide (upcoming a - low < span a)) (bool_decide (unacked a = ∅))) a.

Inductive window_run (a : Window) : list Call -> list Answer -> Window -> Prop :=
| run_nil : window_run a [] [] a
| run_cons c ans a1 cs l a2 :
    window_step a c ans a1 -> window_run a1 cs l a2 -> window_run a (c :: cs) (ans :: l) a2.

Section Simulation.
Context {Q : Type} `{PQL : PriorityQueueLaws Entry entry_less Q}.
Implicit Types (w : SenderWindow Q) (a : Window).

Definition generation_step : Z := 2 ^ 32 - 1.

Lemma refines_mono n m w a : refines n w a -> n <= m -> refines m w a.
Proof. intros [] ?. split; [by eapply tracks_mono|done]. Qed.

Lemma call_simulates n w a c w' ans :
  refines n w a -> next_sequence_ w + 1 < 2 ^ 32 -> n + generation_step < 2 ^ 64 ->
  call c w = Some (w', ans) ->
  exists a', window_step a c ans a' /\ refines (n + generation_step) w' a' /\
             next_sequence_ w' <= next_sequence_ w + 1.
Proof.
  intros Hr Hw Hn Hc. unfold generation_step in *.
  assert (capacity_ w <= 2 ^ 32 - 1) as Hcap by (pose proof (ref_capacity _ _ _ Hr); lia).
  assert (forall m a', m <= n + (2 ^ 32 - 1) -> refines m w' a' -> upcoming a' <= upcoming a + 1 ->
    refines (n + (2 ^ 32 - 1)) w' a' /\ next_sequence_ w' <= next_sequence_ w + 1) as Hfin.
  { intros m a' Hm Hr' Hu. split; [by eapply refines_mono|].
    rewrite (ref_next _ _ _ Hr), (ref_next _ _ _ Hr'). done. }
  destruct c as [dl|s| |now|s d|]; cbn [call] in Hc.
  - destruct (can_send w) eqn:Hs; simplify_eq/=.
    exists (window_sent dl a). split.
    + constructor. rewrite (can_send_spec n w a Hr) in Hs. by bool_to_prop.
    + apply (Hfin (n + 1)); [lia|by apply on_sent_refines; [..|lia]|done].
  - pose proof (on_ack_refines n w a s Hr ltac:(lia)) as Ha.
    destruct (on_ack s w) as [w1 b]. simplify_eq. destruct Ha as [-> Ha].
    eexists. split; [constructor|]. apply (Hfin (n + 1)); [lia|done|].
    case_bool_decide; simpl; lia.
  - pose proof (earliest_deadline_refines n w a Hr) as Ha.
    destruct (earliest_deadline w) as [w1 o]. simplify_eq. destruct Ha as [? Ha].
    eexists. split; [by constructor|]. apply (Hfin n); [lia|done|lia].
  - pose proof (expire_refines n w a now Hr ltac:(lia)) as Ha.
    destruct (expire now w) as [w1 l]. simplify_eq. destruct Ha as [? Ha].
    eexists. split; [by constructor|]. apply (Hfin (n + capacity_ w)); [lia|done|simpl; lia].
  - simplify_eq. eexists. split; [constructor|].
    apply (Hfin (n + 1)); [lia|apply reschedule_refines; [done|lia]|].
    case_bool_decide; simpl; lia.
  - simplify_eq. eexists. split; [|by apply (Hfin n); [lia|done|lia]].
    rewrite (can_send_spec _ _ _ Hr), (in_flight_spec _ _ _ Hr), (empty_spec _ _ _ Hr).
    rewrite (ref_base _ _ _ Hr), (ref_next _ _ _ Hr). constructor.
Qed.

Lemma run_simulates cs n w a w' l :
  refines n w a -> next_sequence_ w + Z.of_nat (length cs) < 2 ^ 32 ->
  n + generation_step * Z.of_nat (length cs) < 2 ^ 64 -> run cs w = Some (w', l) ->
  exists a', window_run a cs l a' /\ refines (n + generation_step * Z.of_nat (length cs)) w' a'.
Proof.
  revert n w a l. induction cs as [|c cs IH]; intros n w a l Hr Hw Hn Hrun; simpl in Hrun.
  { simplify_eq. exists a. split; [constructor|]. simpl. by rewrite Z.mul_0_r, Z.add_0_r. }
  destruct (call c w) as [[w1 ans]|] eqn:Hc; [|done].
  destruct (run cs w1) as [[w2 l2]|] eqn:Hcs; [|done]. simplify_eq.
  simpl length in *. rewrite Nat2Z.inj_succ in *.
  destruct (call_simulates n w a c w1 ans) as (a1 & Hstep & Hr1 & Hn1); [done|lia|unfold generation_step in *; lia|done|].
  destruct (IH (n + generation_step) w1 a1 l2) as (a2 & Hrest & Hr2); [done|lia|lia|done|].
  exists a2. split; [by econstructor|]. eapply refines_mono; [done|lia].
Qed.

(** The hypothesis of the theorems on whole runs: fewer than 2^32 calls keep
    both the 32-bit sequence numbers and the 64-bit generations from
    wrapping. *)
Lemma run_refines capacity cs w l :
  0 <= capacity < 2 ^ 32 -> Z.of_nat (length cs) < 2 ^ 32 ->
  run cs (new_sender_window capacity) = Some (w, l) ->
  exists n a, window_run (idle (if capacity =? 0 then 1 else capacity)) cs l a /\ refines n w a.
Proof.
  intros Hc Hl Hrun. pose proof (new_sender_window_refines capacity Hc) as Hr.
  destruct (run_simulates cs _ _ _ w l Hr) as (a & Ha & Hr'); [simpl; lia| |done|].
  { unfold generation_step. lia. }
  by eexists _, _.
Qed.

(** *** What follows for the sender *)

Lemma window_run_length a cs l a' : window_run a cs l a' -> length cs = length l.
Proof. induction 1; simpl; congruence. Qed.

Lemma run_span a cs l a' : window_run a cs l a' -> span a' = span a.
Proof.
  induction 1 as [|a c ans a1 cs l a2 Hstep _ IH]; [done|]. rewrite IH.
  by destruct Hstep; try case_match.
Qed.

(** Outstanding packets have been sent. *)
Definition sent_only a : Prop := forall s, s ∈ unacked a -> s < upcoming a.

Lemma sent_only_run a cs l a' : window_run a cs l a' -> sent_only a -> sent_only a'.
Proof.
  induction 1 as [|a c ans a1 cs l a2 Hstep _ IH]; [done|]. intros Ha. apply IH.
  destruct Hstep as [| x | | | |]; try done; [|case_bool_decide..]; try done; intros s; simpl.
  - intros [->%elem_of_singleton|Hs%Ha]%elem_of_union; lia.
  - intros [Hs%Ha _]%elem_of_difference. done.
Qed.

Lemma window_run_retired a cs l a' s :
  window_run a cs l a' -> s < upcoming a' -> s ∉ unacked a' ->
  (s < upcoming a /\ s ∉ unacked a) \/ (CAck s, ARetired true) ∈ zip cs l.
Proof.
  induction 1 as [|a c ans a1 cs l a2 Hstep _ IH]; [by left|]. intros Hs Hu.
  specialize (IH Hs Hu). simpl. rewrite elem_of_cons. destruct IH as [[Hs1 Hu1]|]; [|by right; right].
  destruct Hstep as [| x | | | |]; simpl in *; [| |by left|by left| |by left].
  - rewrite elem_of_union, elem_of_singleton in Hu1. left. split; [lia|tauto].
  - case_bool_decide as Hx; simpl in *; [|by left].
    destruct (decide (x = s)) as [->|Hne]; [by right; left|].
    left. split; [done|]. intros Hin. apply Hu1. apply elem_of_difference. split; [done|].
    rewrite elem_of_singleton. congruence.
  - case_bool_decide; by left.
Qed.

(** A packet that is out of the window stays out, and has no timer. *)
Definition retired s a : Prop :=
  s < upcoming a /\ (s ∉ unacked a) /\ armed a !! s = None.

Lemma retired_step s a c ans a' :
  window_step a c ans a' -> retired s a ->
  retired s a' /\ forall now l, (c, ans) = (CExpire now, AExpired l) -> s ∉ l.
Proof.
  intros Hstep (Hs & Hu & Ha).
  destruct Hstep as [dl Hroom|x|o Ho|now l (Hnd & Hin & _)|x d|low]; (split; [|try done]).
  - split_and!; simpl; [lia| |rewrite lookup_insert_ne; [done|lia]].
    rewrite elem_of_union, elem_of_singleton. intros [->|]; [lia|done].
  - case_bool_decide; [|done]. split_and!; simpl; [done| |by rewrite lookup_delete_None; right].
    by intros [? _]%elem_of_difference.
  - done.
  - split_and!; simpl; [done..|]. apply map_lookup_filter_None. by left.
  - intros now' l' [= <- <-]. rewrite Hin, Ha. by intros (? & ? & _).
  - case_bool_decide as Hx; [|done]. split_and!; simpl; [done..|].
    rewrite lookup_insert_ne; [done|]. by intros ->.
  - done.
Qed.

Lemma retired_run s a cs l a' :
  window_run a cs l a' -> retired s a ->
  forall now e, (CExpire now, AExpired e) ∈ zip cs l -> s ∉ e.
Proof.
  induction 1 as [|a c ans a1 cs l a2 Hstep _ IH]; simpl; intros Hr now e.
  - by intros ?%elem_of_nil.
  - destruct (retired_step s a c ans a1 Hstep Hr) as [Hr1 Hout].
    intros [Heq|Hin]%elem_of_cons; [by eapply Hout|by eapply IH].
Qed.

Lemma window_run_cons_inv a c cs l a' :
  window_run a (c :: cs) l a' ->
  exists ans a1 l', l = ans :: l' /\ window_step a c ans a1 /\ window_run a1 cs l' a'.
Proof. inversion 1; subst. by repeat eexists. Qed.

Lemma window_run_app a cs1 cs2 l a' :
  window_run a (cs1 ++ cs2) l a' ->
  exists l1 a1 l2, l = l1 ++ l2 /\ window_run a cs1 l1 a1 /\ window_run a1 cs2 l2 a'.
Proof.
  revert a l. induction cs1 as [|c cs1 IH]; intros a l Hrun.
  - exists [], a, l. split_and!; [done|constructor|done].
  - apply window_run_cons_inv in Hrun as (ans & a1 & l' & -> & Hstep & Hrest).
    apply IH in Hrest as (l1 & a2 & l2 & -> & ? & ?).
    exists (ans :: l1), a2, l2. split_and!; [done|by econstructor|done].
Qed.

Lemma run_app cs1 cs2 w w' l :
  run (cs1 ++ cs2) w = Some (w', l) ->
  exists w1 l1 l2, l = l1 ++ l2 /\ run cs1 w = Some (w1, l1) /\ run cs2 w1 = Some (w', l2).
Proof.
  revert w l. induction cs1 as [|c cs1 IH]; intros w l; simpl.
  - intros Hrun. by exists w, [], l.
  - destruct (call c w) as [[w1 ans]|]; [|done].
    destruct (run (cs1 ++ cs2) w1) as [[w2 l2]|] eqn:E; [|done]. intros [= <- <-].
    apply IH in E as (w3 & l3 & l4 & -> & E3 & E4). rewrite E3. by exists w3, (ans :: l3), l4.
Qed.

Lemma run_stuck cs w :
  run cs w = None ->
  exists cs1 dl cs2 w1 l1, cs = cs1 ++ CSent dl :: cs2 /\ run cs1 w = Some (w1, l1) /\
                           can_send w1 = false.
Proof.
  revert w. induction cs as [|c cs IH]; intros w; simpl; [done|].
  destruct (call c w) as [[w1 ans]|] eqn:Hc.
  - destruct (run cs w1) as [[w2 l]|] eqn:E; [done|]. intros _.
    apply IH in E as (cs1 & dl & cs2 & w3 & l3 & -> & E3 & Hf).
    exists (c :: cs1), dl, cs2, w3, (ans :: l3). split_and!; [done| |done]. simpl. by rewrite Hc, E3.
  - intros _. destruct c as [dl| | | | |]; simpl in Hc; [|by repeat case_match..].
    exists [], dl, cs, w, []. split_and!; [done..|]. by destruct (can_send w).
Qed.

(** *** Claims *)

(** C8: the window implements its specification.  Any sequence of fewer than
    2^32 calls on a fresh window gets the answers the abstract window allows:
    acknowledgements retire exactly the outstanding packets, [expire] hands
    out exactly the due timers, once each and earliest first, and
    [earliest_deadline] is the minimum of the armed timers, whatever ghost
    entries the heap holds; at the end the base is the lowest unacknowledged
    packet.  The only call that cannot proceed is an [on_sent] into a full
    window, which the code asserts against. *)
Theorem sender_window_refines capacity cs :
  0 <= capacity < 2 ^ 32 -> Z.of_nat (length cs) < 2 ^ 32 ->
  let start := idle (if capacity =? 0 then 1 else capacity) in
  match run cs (new_sender_window capacity) with
  | Some (w, l) =>
      exists a, window_run start cs l a /\ next_sequence_ w = upcoming a /\
                base_ w = lowest (unacked a) (upcoming a)
  | None =>
      exists cs1 dl cs2 l a, cs = cs1 ++ CSent dl :: cs2 /\ window_run start cs1 l a /\
                             upcoming a - lowest (unacked a) (upcoming a) = span a
  end.
Proof.
  intros Hc Hl start. destruct (run cs _) as [[w l]|] eqn:E.
  - apply run_refines in E as (n & a & Ha & Hr); [|done..].
    exists a. split_and!; [done|apply Hr|apply Hr].
  - apply run_stuck in E as (cs1 & dl & cs2 & w1 & l1 & -> & E & Hf).
    apply run_refines in E as (n & a & Ha & Hr); [|done|rewrite length_app in Hl; lia].
    exists cs1, dl, cs2, l1, a. split_and!; [done..|].
    rewrite (can_send_spec _ _ _ Hr) in Hf. bool_to_prop.
    pose proof (ref_range _ _ _ Hr). rewrite (ref_base _ _ _ Hr), (ref_next _ _ _ Hr) in *.
    rewrite (ref_span _ _ _ Hr) in *. lia.
Qed.

(** C40: nothing but an acknowledgement moves the base.  In any sequence of fewer
    than 2^32 calls that the window accepts, every packet below the base was retired by an [on_ack] of its own that answered [true]: no
    duplicate, stale or forged acknowledgement slides the window past a packet
    that was not acknowledged, and at most [capacity] packets are in flight. *)
Theorem base_passes_only_acknowledged capacity cs w l s :
  0 <= capacity < 2 ^ 32 -> Z.of_nat (length cs) < 2 ^ 32 ->
  run cs (new_sender_window capacity) = Some (w, l) ->
  next_sequence_ w - base_ w <= Z.max 1 capacity /\
  (0 <= s < base_ w -> (CAck s, ARetired true) ∈ zip cs l).
Proof.
  intros Hc Hl Hrun. pose proof (run_refines capacity cs w l Hc Hl Hrun) as (n & a & Ha & Hr).
  pose proof (ref_range _ _ _ Hr) as Hrange. split.
  - pose proof (run_span _ _ _ _ Ha) as Hsp. rewrite <- (ref_span _ _ _ Hr) in Hsp.
    simpl in Hsp. case_match; bool_to_prop; lia.
  - intros Hs. apply (window_run_retired _ _ _ _ s) in Ha as [[Hup _]|]; simpl in *; [lia|done| |].
    + rewrite <- (ref_next _ _ _ Hr). lia.
    + intros Hin. apply (lowest_le _ (upcoming a)) in Hin. rewrite <- (ref_base _ _ _ Hr) in Hin. lia.
Qed.

(** Acknowledged means no more retransmission.  After an [on_ack] of a
    packet that was outstanding, no later [expire] returns it, although its
    entry is still in the heap. *)
Theorem acknowledged_never_expires capacity cs1 cs2 w l s now e :
  0 <= capacity < 2 ^ 32 -> Z.of_nat (length (cs1 ++ CAck s :: cs2)) < 2 ^ 32 ->
  run (cs1 ++ CAck s :: cs2) (new_sender_window capacity) = Some (w, l) ->
  l !! length cs1 = Some (ARetired true) ->
  (CExpire now, AExpired e) ∈ zip cs2 (drop (S (length cs1)) l) ->
  s ∉ e.
Proof.
  intros Hc Hlen Hrun Hans. apply run_refines in Hrun as (n & a & Ha & Hr); [|done..].
  apply window_run_app in Ha as (l1 & a1 & l2 & -> & Ha1 & Ha2).
  rewrite (window_run_length _ _ _ _ Ha1) in *.
  rewrite lookup_app_r, Nat.sub_diag in Hans by lia.
  apply window_run_cons_inv in Ha2 as (ans & a2 & l3 & -> & Hstep & Hrest). simpl in Hans.
  replace (S (length l1)) with (length l1 + 1)%nat by lia. rewrite drop_app_add'; [|done]. simpl.
  rewrite drop_0. intros Hin. eapply retired_run; [exact Hrest| |exact Hin].
  inversion Hstep; subst. simplify_eq. bool_to_prop. rewrite bool_decide_true by done.
  split_and!; simpl.
  - apply (sent_only_run _ _ _ _ Ha1); [by intros ? ?%elem_of_empty|done].
  - rewrite elem_of_difference, elem_of_singleton. tauto.
  - apply lookup_delete_eq.
Qed.
End Simulation.

(** ** A concrete run

    Two packets through a window of two: the second is acknowledged first, the
    first times out, is re-armed, and its acknowledgement slides the base past
    both; the packet sent then reuses the slot, and neither ghost entry of that
    slot is mistaken for its timer. *)
Definition scenario_before : list Call := [CSent 10; CSent 12].
Definition scenario_after : list Call :=
  [CState; CExpire 15; CReschedule 0 30; CEarliest; CAck 0; CAck 0; CSent 40; CAck 7; CState; CExpire 35; CEarliest].
Definition scenario : list Call := scenario_before ++ CAck 1 :: scenario_after.

Definition scenario_answers : list Answer :=
  [ADone; ADone; ARetired true; AState 0 2 2 false false; AExpired [0]; ADone; ADeadline (Some 30);
   ARetired true; ARetired false; ADone; ARetired false; AState 2 3 1 true false; AExpired []; ADeadline (Some 40)].

Definition fresh_window : SenderWindow (sorted_queue entry_less) := new_sender_window 2.

Example scenario_runs : snd <$> run scenario fresh_window = Some scenario_answers.
Proof. vm_compute. reflexivity. Qed.

Definition scenario_window : SenderWindow (sorted_queue entry_less) :=
  match run scenario fresh_window with Some (w, _) => w | None => fresh_window end.

Lemma scenario_reaches : run scenario fresh_window = Some (scenario_window, scenario_answers).
Proof.
  pose proof scenario_runs as Hs. unfold scenario_window. destruct (run scenario fresh_window) as [[w l]|]; [|done].
  simpl in Hs. congruence.
Qed.

Lemma sender_window_refines_witness :
  exists a, window_run (idle 2) scenario scenario_answers a /\ upcoming a = 3 /\
            lowest (unacked a) (upcoming a) = 2.
Proof.
  pose proof (sender_window_refines (Q:=sorted_queue entry_less) 2 scenario
    ltac:(split; [discriminate|reflexivity]) ltac:(reflexivity)) as Hw.
  change (new_sender_window 2) with fresh_window in Hw. rewrite scenario_reaches in Hw.
  destruct Hw as (a & Ha & Hn & Hb). exists a. split; [exact Ha|].
  split; [rewrite <- Hn|rewrite <- Hb]; vm_compute; reflexivity.
Defined.

Lemma base_passes_only_acknowledged_witness :
  base_ scenario_window = 2 /\ (CAck 1, ARetired true) ∈ zip scenario scenario_answers.
Proof.
  split; [vm_compute; reflexivity|].
  apply (base_passes_only_acknowledged (Q:=sorted_queue entry_less) 2 scenario scenario_window
    scenario_answers 1); [lia|vm_compute; reflexivity|apply scenario_reaches|].
  split; [discriminate|vm_compute; reflexivity].
Defined.

Lemma acknowledged_never_expires_witness : 1 ∉ [0].
Proof.
  apply (acknowledged_never_expires (Q:=sorted_queue entry_less) 2 scenario_before scenario_after
    scenario_window scenario_answers 1 15 [0]).
  - lia.
  - vm_compute. reflexivity.
  - apply scenario_reaches.
  - reflexivity.
  - vm_compute. right. left.
Defined.
