(* ===== verification/ReceiverWindow.v ===== *)
(** * The receiver's sliding window

    [ReceiverWindow] of src/include/swiftlink/transfer/window.hpp and
    src/src/transfer/window.cpp: a ring of flags that tells new chunks from
    duplicates without buffering any payload.

    The abstract receiver is the set of the sequence numbers stored so far; the
    base is its least missing number.  The refinement holds while
    [base + capacity] fits 32 bits, and [classify_wraps] shows what happens past
    that point. *)

From S2P Require Import Prelude Words.
Open Scope Z_scope.

Inductive Disposition := kAccepted | kDuplicate | kOutsideWindow.
#[export] Instance disposition_eq_dec : EqDecision Disposition.
Proof. solve_decision. Defined.

Record ReceiverWindow := { capacity_ : Z; base_ : Z; received_ : list bool }.

Definition new_receiver_window (capacity : Z) : ReceiverWindow :=
  let cap := if capacity =? 0 then 1 else capacity in
  {| capacity_ := cap; base_ := 0; received_ := replicate (Z.to_nat cap) false |}.

(** [received_[sequence % capacity_]], as a value and as a place. *)
Definition ring_index (w : ReceiverWindow) (seq : Z) : nat := Z.to_nat (seq mod capacity_ w).
Definition received (w : ReceiverWindow) (seq : Z) : bool :=
  nth (ring_index w seq) (received_ w) false.
Definition set_received (w : ReceiverWindow) (seq : Z) (b : bool) : ReceiverWindow :=
  {| capacity_ := capacity_ w; base_ := base_ w;
     received_ := <[ring_index w seq := b]> (received_ w) |}.
Definition set_base (w : ReceiverWindow) (b : Z) : ReceiverWindow :=
  {| capacity_ := capacity_ w; base_ := b; received_ := received_ w |}.

Definition classify (w : ReceiverWindow) (seq : Z) : Disposition :=
  if seq <? base_ w then kDuplicate
  else if u32 (base_ w + capacity_ w) <=? seq then kOutsideWindow
  else if received w seq then kDuplicate else kAccepted.

(** The [while] of [mark_received]: every iteration clears a flag that was set,
    so the size of the ring is fuel enough ([advance_stops]). *)
Fixpoint advance (fuel : nat) (w : ReceiverWindow) : ReceiverWindow :=
  match fuel with
  | O => w
  | S fuel =>
      if received w (base_ w)
      then advance fuel (set_base (set_received w (base_ w) false) (u32 (base_ w + 1)))
      else w
  end.

Definition mark_received (w : ReceiverWindow) (seq : Z) : ReceiverWindow :=
  if decide (classify w seq <> kAccepted) then w
  else
    let w := set_received w seq true in
    advance (length (received_ w)) w.

(** ** Refinement *)

(** [tracks w S]: the ring and the base represent the stored set [S]; the base
    may still have to advance. *)
Record tracks (w : ReceiverWindow) (S : gset Z) : Prop := {
  ref_capacity : 1 <= capacity_ w < 2 ^ 32;
  ref_ring : length (received_ w) = Z.to_nat (capacity_ w);
  ref_low : 0 <= base_ w;
  ref_bounds s : s ∈ S -> 0 <= s < base_ w + capacity_ w;
  ref_below s : 0 <= s < base_ w -> s ∈ S;
  ref_flags s : base_ w <= s < base_ w + capacity_ w -> received w s = bool_decide (s ∈ S)
}.

Record refines (w : ReceiverWindow) (S : gset Z) : Prop := {
  ref_tracks :> tracks w S;
  ref_missing : base_ w ∉ S
}.

(** The least number not in a set. *)
Definition is_mex (S : gset Z) (b : Z) : Prop :=
  (b ∉ S) /\ 0 <= b /\ forall s, 0 <= s < b -> s ∈ S.

Lemma refines_mex w S : refines w S -> is_mex S (base_ w).
Proof. intros [[] ?]. done. Qed.

Lemma received_set w s b s' :
  1 <= capacity_ w -> length (received_ w) = Z.to_nat (capacity_ w) ->
  received (set_received w s b) s' =
  if decide (s mod capacity_ w = s' mod capacity_ w) then b else received w s'.
Proof.
  intros Hc Hl. unfold received, ring_index; simpl. by apply nth_ring; lia.
Qed.

Lemma length_set_received w s b : length (received_ (set_received w s b)) = length (received_ w).
Proof. simpl. apply length_insert. Qed.

(** Two numbers of one window share no flag. *)
Lemma received_set_window w S s b s' :
  tracks w S -> base_ w <= s < base_ w + capacity_ w -> base_ w <= s' < base_ w + capacity_ w ->
  received (set_received w s b) s' = if decide (s = s') then b else received w s'.
Proof.
  intros [] Hs Hs'. rewrite received_set by lia.
  destruct (decide (s = s')) as [->|Hne]; [by rewrite decide_True|].
  rewrite decide_False; [done|]. intros Hm. by apply Hne, (mod_inj s s' (capacity_ w)); lia.
Qed.

Lemma advance_step w S :
  tracks w S -> base_ w + 1 < 2 ^ 32 -> received w (base_ w) = true ->
  tracks (set_base (set_received w (base_ w) false) (u32 (base_ w + 1))) S /\
  u32 (base_ w + 1) = base_ w + 1 /\ base_ w ∈ S.
Proof.
  intros Ht Hw Hr. pose proof Ht as [].
  rewrite ref_flags0 in Hr by lia. bool_to_prop.
  rewrite wrap_small by (unfold fits; lia). split_and!; [|done..].
  split; simpl; try done.
  - by rewrite length_insert.
  - lia.
  - intros s Hs. apply ref_bounds0 in Hs. lia.
  - intros s Hs. destruct (decide (s = base_ w)) as [->|]; [done|]. apply ref_below0. lia.
  - intros s Hs. unfold received at 1. simpl.
    change (received (set_received w (base_ w) false) s = bool_decide (s ∈ S)).
    destruct (decide (s = base_ w + capacity_ w)) as [->|Hne].
    + rewrite received_set by lia. rewrite decide_True.
      * symmetry. apply bool_decide_false. intros Hin%ref_bounds0. lia.
      * rewrite <- Zplus_mod_idemp_r, Z_mod_same_full. f_equal. lia.
    + rewrite (received_set_window w S) by (done || lia). rewrite decide_False by lia.
      apply ref_flags0. lia.
Qed.

Lemma advance_capacity fuel w : capacity_ (advance fuel w) = capacity_ w.
Proof. revert w. induction fuel as [|fuel IH]; intros w; simpl; [done|]. by case_match; [rewrite IH|]. Qed.

(** The loop stops, and stops at the least missing number. *)
Lemma advance_stops fuel w S :
  tracks w S -> (forall s, s ∈ S -> s < base_ w + Z.of_nat fuel /\ s + 1 < 2 ^ 32) ->
  refines (advance fuel w) S.
Proof.
  revert w. induction fuel as [|fuel IH]; intros w Ht Hf; simpl.
  { split; [done|]. intros [Hb _]%Hf. lia. }
  pose proof Ht as []. destruct (received w (base_ w)) eqn:Hr.
  - assert (base_ w ∈ S) as Hin by (rewrite ref_flags0 in Hr by lia; by bool_to_prop).
    destruct (advance_step w S Ht) as (Ht' & Hu & _); [by apply Hf|done|].
    apply IH; [done|]. simpl. rewrite Hu. intros s Hs%Hf. lia.
  - split; [done|]. rewrite ref_flags0 in Hr by lia. by bool_to_prop.
Qed.

Lemma new_receiver_window_refines capacity :
  0 <= capacity < 2 ^ 32 -> refines (new_receiver_window capacity) ∅.
Proof.
  intros Hc. unfold new_receiver_window.
  assert (1 <= (if capacity =? 0 then 1 else capacity) < 2 ^ 32) as Hcap by (case_match; bool_to_prop; lia).
  revert Hcap. generalize (if capacity =? 0 then 1 else capacity) as cap. intros cap Hcap.
  split; [split|]; simpl; try done.
  - by rewrite length_replicate.
  - lia.
  - intros s _. unfold received, ring_index; simpl. rewrite bool_decide_false by apply not_elem_of_empty.
    rewrite nth_lookup. destruct (_ !! _) as [b|] eqn:E; [|done].
    by apply lookup_replicate in E as [-> _].
Qed.

(** What a sequence number is to a receiver that has stored [S]. *)
Definition disposition (S : gset Z) (base capacity s : Z) : Disposition :=
  if decide (s ∈ S) then kDuplicate
  else if decide (s < base + capacity) then kAccepted else kOutsideWindow.

Lemma classify_spec w S s :
  refines w S -> base_ w + capacity_ w < 2 ^ 32 -> 0 <= s ->
  classify w s = disposition S (base_ w) (capacity_ w) s.
Proof.
  intros [[] _] Hw Hs. unfold classify, disposition. rewrite wrap_small by (unfold fits; lia).
  destruct (s <? base_ w) eqn:E1; bool_to_prop.
  { by rewrite decide_True by (by apply ref_below0). }
  destruct (base_ w + capacity_ w <=? s) eqn:E2; bool_to_prop.
  - rewrite decide_False by (intros ?%ref_bounds0; lia). by rewrite decide_False by lia.
  - rewrite ref_flags0 by lia. case_bool_decide; case_decide; try done. by rewrite decide_True by lia.
Qed.

Lemma mark_received_refines w S s :
  refines w S -> base_ w + capacity_ w < 2 ^ 32 -> 0 <= s ->
  refines (mark_received w s)
    (if decide (classify w s = kAccepted) then {[s]} ∪ S else S) /\
  capacity_ (mark_received w s) = capacity_ w.
Proof.
  intros Hr Hw Hs. unfold mark_received.
  destruct (decide (classify w s = kAccepted)) as [Ha|Ha]; [|by rewrite decide_True by done].
  rewrite decide_False by (intros Hn; by apply Hn). rewrite advance_capacity. split; [|done].
  rewrite (classify_spec w S s Hr Hw Hs) in Ha. unfold disposition in Ha.
  destruct (decide (s ∈ S)); [done|]. destruct (decide (s < base_ w + capacity_ w)); [|done].
  pose proof Hr as [Ht Hm]. pose proof Ht as [].
  assert (base_ w <= s) as Hlow.
  { destruct (decide (s < base_ w)); [|lia]. exfalso. by apply n, ref_below0. }
  apply advance_stops.
  - split; simpl; try done.
    + by rewrite length_insert.
    + intros x [->%elem_of_singleton|Hx%ref_bounds0]%elem_of_union; lia.
    + intros x Hx. apply elem_of_union. right. by apply ref_below0.
    + intros x Hx. rewrite (received_set_window w S) by (done || lia).
      case_decide; [subst x; rewrite bool_decide_true; [done|set_solver]|].
      rewrite ref_flags0 by lia. apply bool_decide_ext. set_solver.
  - rewrite length_set_received, ref_ring0. simpl.
    intros x [->%elem_of_singleton|Hx%ref_bounds0]%elem_of_union; lia.
Qed.

(** ** Sequences of arrivals *)

(** What the session does with each arriving chunk: classify it, then record
    it. *)
Definition arrive (w : ReceiverWindow) (s : Z) : ReceiverWindow * Disposition :=
  (mark_received w s, classify w s).

Fixpoint arrive_all (w : ReceiverWindow) (l : list Z) : ReceiverWindow * list Disposition :=
  match l with
  | [] => (w, [])
  | s :: l =>
      let '(w, d) := arrive w s in
      let '(w, ds) := arrive_all w l in (w, d :: ds)
  end.

(** The abstract receiver: the stored set, one arrival at a time. *)
Inductive receives (capacity : Z) (S : gset Z) : list Z -> list Disposition -> gset Z -> Prop :=
| receives_nil : receives capacity S [] [] S
| receives_cons s b l ds S' :
    is_mex S b ->
    receives capacity (if decide (disposition S b capacity s = kAccepted) then {[s]} ∪ S else S) l ds S' ->
    receives capacity S (s :: l) (disposition S b capacity s :: ds) S'.

(** The sequence numbers that were stored. *)
Definition accepted (l : list Z) (ds : list Disposition) : list Z :=
  (filter (fun sd => sd.2 = kAccepted) (zip l ds)).*1.

Lemma mex_bounded S N b : (forall s, s ∈ S -> s < N) -> 0 <= N -> is_mex S b -> b <= N.
Proof.
  intros HS HN (_ & Hb & Hbelow). destruct (decide (b <= N)); [done|].
  assert (N ∈ S) as Hin by (apply Hbelow; lia). apply HS in Hin. lia.
Qed.

(** The least missing number is at most the number of numbers there are. *)
Lemma mex_size S b : is_mex S b -> b <= Z.of_nat (size S).
Proof.
  intros (_ & Hb & Hbelow). set (l := map Z.of_nat (seq 0 (Z.to_nat b))).
  assert (NoDup l) as Hl by (apply (NoDup_fmap_2 Z.of_nat), NoDup_seq).
  assert ((list_to_set l : gset Z) ⊆ S) as Hsub.
  { intros x Hx%elem_of_list_to_set. apply list_elem_of_fmap in Hx as (n & -> & Hn%elem_of_seq). apply Hbelow. lia. }
  apply subseteq_size in Hsub. rewrite size_list_to_set in Hsub by done.
  subst l. rewrite length_map, length_seq in Hsub. lia.
Qed.

Lemma mex_within (U S : gset Z) b : S ⊆ U -> is_mex S b -> b <= Z.of_nat (size U).
Proof. intros Hs%subseteq_size Hb%mex_size. lia. Qed.

Lemma arrive_all_refines (U : gset Z) w S l :
  refines w S -> S ⊆ U -> Z.of_nat (size U) + capacity_ w < 2 ^ 32 ->
  Forall (fun s => 0 <= s < 2 ^ 32 /\ s ∈ U) l ->
  let '(w', ds) := arrive_all w l in
  exists S', receives (capacity_ w) S l ds S' /\ refines w' S' /\
             capacity_ w' = capacity_ w /\ S' ⊆ U.
Proof.
  revert w S. induction l as [|s l IH]; intros w S Hr HS Hw Hl; simpl.
  { exists S. split_and!; [constructor|done..]. }
  inversion_clear Hl as [|? ? Hs Hl'].
  pose proof (mex_within U S _ HS (refines_mex w S Hr)) as Hb. destruct Hs as [Hs HU].
  destruct (mark_received_refines w S s Hr ltac:(lia) ltac:(lia)) as [Hr1 Hc1].
  specialize (IH _ _ Hr1). destruct (arrive_all (mark_received w s) l) as [w' ds].
  destruct IH as (S' & HS' & Hr' & Hc' & Hb'); [|lia|done|].
  { case_decide; set_solver. }
  rewrite Hc1 in *. exists S'. split_and!; [|done..].
  rewrite (classify_spec w S s Hr ltac:(lia) ltac:(lia)) in *.
  apply receives_cons; [by apply refines_mex|done].
Qed.

Lemma new_capacity capacity :
  0 <= capacity -> capacity_ (new_receiver_window capacity) = Z.max 1 capacity.
Proof. intros. simpl. destruct (capacity =? 0) eqn:E; bool_to_prop; lia. Qed.

Lemma receives_accepted capacity S l ds S' :
  receives capacity S l ds S' ->
  NoDup (accepted l ds) /\ (forall s, s ∈ accepted l ds -> s ∉ S) /\
  (forall s, s ∈ S' <-> s ∈ S \/ s ∈ accepted l ds).
Proof.
  unfold accepted. induction 1 as [S|S s b l ds S' Hb _ (IHn & IHd & IHs)]; simpl.
  { split_and!; [apply NoDup_nil_2|by intros s ?%elem_of_nil|]. intros s. rewrite elem_of_nil. tauto. }
  rewrite filter_cons. simpl. case_decide as Ha; simpl; [|by split_and!].
  assert (s ∉ S) as Hs.
  { unfold disposition in Ha. by destruct (decide (s ∈ S)). }
  split_and!.
  - constructor; [|done]. intros Hin. apply IHd in Hin. set_solver.
  - intros x. rewrite elem_of_cons. intros [->|Hin]; [done|]. apply IHd in Hin. set_solver.
  - intros x. rewrite IHs, elem_of_cons, elem_of_union, elem_of_singleton. tauto.
Qed.

(** ** Claims *)

(** The numbers that arrive, as one set. *)
Definition arriving (l : list Z) : gset Z := list_to_set l.

Lemma arriving_all l : Forall (fun s => 0 <= s < 2 ^ 32) l -> Forall (fun s => 0 <= s < 2 ^ 32 /\ s ∈ arriving l) l.
Proof. rewrite !Forall_forall. intros Hl s Hs. split; [by apply Hl|by apply elem_of_list_to_set]. Qed.

(** C9: the window implements its specification.  Whatever 32-bit sequence numbers
    arrive, in whatever order and however often, as long as the distinct ones are
    fewer than [2 ^ 32] less the capacity (beyond that the sum of base and capacity
    wraps, see [classify_wraps]), the ring answers as the set of stored chunks
    would: a stored one is a duplicate, a new one within [capacity] of the least
    missing one is accepted, anything further ahead is outside; and the base is the
    least missing one at the end. *)
Theorem receiver_window_refines capacity l :
  0 <= capacity < 2 ^ 32 -> Forall (fun s => 0 <= s < 2 ^ 32) l ->
  Z.of_nat (size (arriving l)) + Z.max 1 capacity < 2 ^ 32 ->
  let '(w, ds) := arrive_all (new_receiver_window capacity) l in
  exists S, receives (Z.max 1 capacity) ∅ l ds S /\ is_mex S (base_ w).
Proof.
  intros Hc Hl Hw.
  pose proof (arrive_all_refines (arriving l) _ ∅ l (new_receiver_window_refines capacity Hc)) as Ha.
  rewrite new_capacity in Ha by lia. destruct (arrive_all _ l) as [w ds].
  destruct Ha as (S & HS & Hr & _); [set_solver|done|by apply arriving_all|].
  exists S. split; [done|]. by apply refines_mex.
Qed.

(** Every chunk is stored exactly once.  Under retransmission, duplication
    and reordering no sequence number is accepted twice; the base passes a chunk
    only after it was accepted; and the base chunk itself is always accepted and
    moves the base on, so the window cannot stall. *)
Theorem receiver_stores_once capacity l :
  0 <= capacity < 2 ^ 32 -> Forall (fun s => 0 <= s < 2 ^ 32) l ->
  Z.of_nat (size (arriving l)) + Z.max 1 capacity < 2 ^ 32 ->
  let '(w, ds) := arrive_all (new_receiver_window capacity) l in
  NoDup (accepted l ds) /\
  (forall s, 0 <= s < base_ w -> s ∈ accepted l ds) /\
  classify w (base_ w) = kAccepted /\ base_ w < base_ (mark_received w (base_ w)).
Proof.
  intros Hc Hl Hw.
  pose proof (arrive_all_refines (arriving l) _ ∅ l (new_receiver_window_refines capacity Hc)) as Ha.
  rewrite new_capacity in Ha by lia. destruct (arrive_all _ l) as [w ds].
  destruct Ha as (S & HS & Hr & Hcw & Hb); [set_solver|done|by apply arriving_all|].
  apply receives_accepted in HS as (Hnd & _ & HS').
  pose proof (refines_mex w S Hr) as Hmex.
  pose proof (mex_within _ S _ Hb Hmex) as HbN. destruct Hmex as (Hmiss & H0 & Hbelow).
  assert (classify w (base_ w) = kAccepted) as Hacc.
  { rewrite (classify_spec w S) by (done || lia). unfold disposition.
    rewrite decide_False by done. by rewrite decide_True by lia. }
  split_and!; [done| |done|].
  - intros s Hs. apply Hbelow, HS' in Hs as [?%elem_of_empty|]; done.
  - destruct (mark_received_refines w S (base_ w) Hr ltac:(lia) H0) as [Hr' _].
    rewrite decide_True in Hr' by done. pose proof (refines_mex _ _ Hr') as (Hm & _ & _).
    destruct (decide (base_ w < base_ (mark_received w (base_ w)))); [done|]. exfalso.
    apply Hm, elem_of_union.
    destruct (decide (base_ (mark_received w (base_ w)) = base_ w)) as [->|];
      [left; by apply elem_of_singleton|right; apply Hbelow].
    pose proof (ref_low _ _ Hr'). lia.
Qed.

(** A window of three: chunk 2 arrives before chunk 0, chunk 5 is too far ahead, and
    so is the largest number there is. *)
Definition arrivals : list Z := [2; 5; 0; 2; 2 ^ 32 - 1; 1; 0; 5; 3].

Definition arrivals_window : ReceiverWindow := (arrive_all (new_receiver_window 3) arrivals).1.
Definition arrivals_answers : list Disposition := (arrive_all (new_receiver_window 3) arrivals).2.

Example arrivals_run :
  arrivals_answers =
  [kAccepted; kOutsideWindow; kAccepted; kDuplicate; kOutsideWindow; kAccepted; kDuplicate; kAccepted; kAccepted] /\
  base_ arrivals_window = 4.
Proof. split; vm_compute; reflexivity. Qed.

Lemma receiver_window_refines_witness :
  exists S, receives 3 ∅ arrivals arrivals_answers S /\ is_mex S 4.
Proof.
  pose proof (receiver_window_refines 3 arrivals ltac:(lia) ltac:(repeat constructor; lia)
    ltac:(vm_compute; reflexivity)) as Hw.
  exact Hw.
Defined.

Lemma receiver_stores_once_witness :
  (forall s, 0 <= s < 4 -> s ∈ accepted arrivals arrivals_answers) /\
  classify arrivals_window 4 = kAccepted.
Proof.
  destruct (receiver_stores_once 3 arrivals ltac:(lia) ltac:(repeat constructor; lia)
    ltac:(vm_compute; reflexivity)) as (_ & Hb & Hc & _).
  split; [exact Hb|exact Hc].
Defined.

(** The bound of the two theorems above is needed.  [base_ + capacity_] is
    computed in 32 bits, so as soon as the base is within [capacity] of 2^32 and
    the sum wraps, the window turns every chunk that is still missing away: the
    chunk at the base is outside the window, and no arrival changes anything. *)
Theorem classify_wraps w s :
  0 <= base_ w < 2 ^ 32 -> 1 <= capacity_ w < 2 ^ 32 -> 2 ^ 32 <= base_ w + capacity_ w ->
  base_ w <= s < 2 ^ 32 ->
  classify w s = kOutsideWindow /\ mark_received w s = w.
Proof.
  intros Hb Hc Hw Hs.
  assert (classify w s = kOutsideWindow) as Ho.
  { unfold classify. rewrite (proj2 (Z.ltb_ge _ _)) by lia.
    assert (u32 (base_ w + capacity_ w) = base_ w + capacity_ w - 2 ^ 32) as ->.
    { unfold wrap. replace (base_ w + capacity_ w) with (base_ w + capacity_ w - 2 ^ 32 + 1 * 2 ^ 32) at 1 by lia.
      rewrite Z_mod_plus_full. apply Z.mod_small. lia. }
    by rewrite (proj2 (Z.leb_le _ _)) by lia. }
  split; [done|]. unfold mark_received. rewrite decide_True; [done|]. by rewrite Ho.
Qed.

Lemma classify_wraps_witness :
  let w := {| capacity_ := 4; base_ := 2 ^ 32 - 4; received_ := [false; false; false; false] |} in
  classify w (base_ w) = kOutsideWindow.
Proof. apply classify_wraps; simpl; lia. Defined.
