(* ===== verification/FileIO.v ===== *)
(** * Files

    [io::File] of src/include/swiftlink/io/file.hpp and src/src/io/file.cpp, over
    the file operations of the operating system.  Those are a parameter: the
    class [Posix] has the calls, and [PosixLaws] states what POSIX documents of
    them in terms of a view of the file system (directory entries, file
    contents, open descriptors).  Short transfers, interruption by signals and
    failure are all left to the system.

    A path is the byte string handed to the system; every path this program
    writes to is a name joined to one directory, so that two of them name the
    same entry only if they are equal. *)

From S2P Require Import Prelude Words.
Open Scope Z_scope.

Abbreviation path := (list byte).

Definition EINTR : Z := 4.
Definition EIO : Z := 5.
Definition EBADF : Z := 9.

Inductive OpenMode := O_RDONLY | O_RDWR_CREAT_TRUNC.

Class Posix (W : Type) := {
  (** The descriptor, or [errno]. *)
  sys_open : path -> OpenMode -> W -> W * (Z + Z);
  sys_close : Z -> W -> W;
  (** [pread(fd, _, count, offset)]: the bytes read, or [errno]. *)
  sys_pread : Z -> nat -> Z -> W -> W * (list byte + Z);
  (** [pwrite(fd, data, size, offset)]: the count, or [errno]. *)
  sys_pwrite : Z -> list byte -> Z -> W -> W * (nat + Z);
  sys_fsync : Z -> W -> W * bool;
  sys_fstat_size : Z -> W -> W * (Z + Z);
  sys_rename : path -> path -> W -> W * bool;
  sys_unlink : path -> W -> W * bool;
  (** How many more times a call can be interrupted by a signal: the fuel of
      the retry loops. *)
  interruptions : W -> nat
}.

(** ** [io::File] *)

Record File := { fd_ : Z }.
Definition closed_file : File := {| fd_ := -1 |}.

Section Operations.
Context `{OS : Posix W}.

Definition valid (f : File) : bool := 0 <=? fd_ f.

Definition close (f : File) (w : W) : W * File :=
  if valid f then (sys_close (fd_ f) w, closed_file) else (w, f).

Definition open_with (mode : OpenMode) (p : path) (f : File) (w : W) : W * File * bool :=
  let '(w, _) := close f w in
  match sys_open p mode w with
  | (w, inl fd) => (w, {| fd_ := fd |}, 0 <=? fd)
  | (w, inr _) => (w, closed_file, false)
  end.
Definition open_read := open_with O_RDONLY.
Definition open_write := open_with O_RDWR_CREAT_TRUNC.

(** The size, or [errno]. *)
Definition size (f : File) (w : W) : W * (Z + Z) :=
  if negb (valid f) then (w, inr EBADF)
  else match sys_fstat_size (fd_ f) w with
       | (w, inl n) => (w, inl (u64 n))
       | (w, inr e) => (w, inr e)
       end.

(** The loop of [read_at]: [got] is what the first [done] bytes of [out] hold,
    [want] is [out.size() - done].  Every iteration either is an interruption
    or shortens [want]. *)
Fixpoint read_loop (fuel : nat) (fd : Z) (got : list byte) (want : nat) (offset : Z) (w : W) :
    W * (list byte + Z) :=
  match fuel with
  | O => (w, inl got)
  | S fuel =>
      if (want =? 0)%nat then (w, inl got)
      else
        match sys_pread fd want (s64 (offset + Z.of_nat (length got))) w with
        | (w, inr e) => if e =? EINTR then read_loop fuel fd got want offset w else (w, inr e)
        | (w, inl []) => (w, inl got)
        | (w, inl bs) => read_loop fuel fd (got ++ bs) (want - length bs) offset w
        end
  end.

(** The bytes read into [out], or [errno] when it returns -1. *)
Definition read_at (f : File) (want : nat) (offset : Z) (w : W) : W * (list byte + Z) :=
  if negb (valid f) then (w, inr EBADF)
  else read_loop (S (want + interruptions w)) (fd_ f) [] want offset w.

(** The loop of [write_at]: [rest] is [in] from [done] on. *)
Fixpoint write_loop (fuel : nat) (fd : Z) (done : nat) (rest : list byte) (offset : Z) (w : W) :
    W * (nat + Z) :=
  match fuel with
  | O => (w, inl done)
  | S fuel =>
      if (length rest =? 0)%nat then (w, inl done)
      else
        match sys_pwrite fd rest (s64 (offset + Z.of_nat done)) w with
        | (w, inr e) => if e =? EINTR then write_loop fuel fd done rest offset w else (w, inr e)
        | (w, inl O) => (w, inr EIO)
        | (w, inl n) => write_loop fuel fd (done + n) (drop n rest) offset w
        end
  end.

Definition write_at (f : File) (data : list byte) (offset : Z) (w : W) : W * (nat + Z) :=
  if negb (valid f) then (w, inr EBADF)
  else write_loop (S (length data + interruptions w)) (fd_ f) 0 data offset w.

Definition sync (f : File) (w : W) : W * bool :=
  if negb (valid f) then (w, false) else sys_fsync (fd_ f) w.
End Operations.

(** ** What POSIX promises *)

(** The part of the file system the program can observe: which file a path
    names, the bytes of each file, which file a descriptor is open on. *)
Record View := {
  names : gmap path nat;
  data : gmap nat (list byte);
  handles : gmap Z nat
}.

(** A write of [bs] at [off] into a file holding [c]; a hole reads as zeroes. *)
Definition overwrite (c : list byte) (off : nat) (bs : list byte) : list byte :=
  match bs with
  | [] => c
  | _ => take off (c ++ replicate (off - length c) Byte.x00) ++ bs ++ drop (off + length bs) c
  end.

Definition set_names (f : gmap path nat -> gmap path nat) (v : View) : View :=
  {| names := f (names v); data := data v; handles := handles v |}.
Definition set_content (i : nat) (c : list byte) (v : View) : View :=
  {| names := names v; data := <[i := c]> (data v); handles := handles v |}.
Definition set_handle (fd : Z) (i : nat) (v : View) : View :=
  {| names := names v; data := data v; handles := <[fd := i]> (handles v) |}.
Definition drop_handle (fd : Z) (v : View) : View :=
  {| names := names v; data := data v; handles := delete fd (handles v) |}.

(** The file open at a descriptor and its content. *)
Definition opened (v : View) (fd : Z) (i : nat) (c : list byte) : Prop :=
  handles v !! fd = Some i /\ data v !! i = Some c.

Class PosixLaws (W : Type) `{OS : Posix W} := {
  view : W -> View;

  law_open p mode w :
    let '(w', r) := sys_open p mode w in
    match r with
    | inr _ => view w' = view w
    | inl fd =>
        0 <= fd /\ handles (view w) !! fd = None /\
        match mode with
        | O_RDONLY => exists i, names (view w) !! p = Some i /\ view w' = set_handle fd i (view w)
        | O_RDWR_CREAT_TRUNC =>
            exists i, view w' = set_names <[p := i]> (set_content i [] (set_handle fd i (view w))) /\
              (names (view w) !! p = Some i \/
               names (view w) !! p = None /\ data (view w) !! i = None /\
               forall q, names (view w) !! q <> Some i)
        end
    end;

  law_close fd w : view (sys_close fd w) = drop_handle fd (view w);

  (** Reads no further than the end of the file, and at least one byte before
      it; a negative offset is an error. *)
  law_pread fd n off w :
    let '(w', r) := sys_pread fd n off w in
    view w' = view w /\
    match r with
    | inl bs =>
        0 <= off /\ (interruptions w' <= interruptions w)%nat /\
        exists i c, opened (view w) fd i c /\
          bs = take (length bs) (drop (Z.to_nat off) c) /\ (length bs <= n)%nat /\
          ((0 < n)%nat -> bs = [] -> (length c <= Z.to_nat off)%nat)
    | inr e => e = EINTR -> (interruptions w' < interruptions w)%nat
    end;

  (** Writes a prefix of the data, or nothing. *)
  law_pwrite fd bs off w :
    let '(w', r) := sys_pwrite fd bs off w in
    match r with
    | inl k =>
        0 <= off /\ (k <= length bs)%nat /\ (interruptions w' <= interruptions w)%nat /\
        exists i c, opened (view w) fd i c /\
          view w' = set_content i (overwrite c (Z.to_nat off) (take k bs)) (view w)
    | inr e => view w' = view w /\ (e = EINTR -> (interruptions w' < interruptions w)%nat)
    end;

  law_fsync fd w : view (sys_fsync fd w).1 = view w;

  law_fstat fd w :
    let '(w', r) := sys_fstat_size fd w in
    view w' = view w /\
    match r with
    | inl n => exists i c, opened (view w) fd i c /\ n = Z.of_nat (length c)
    | inr _ => True
    end;

  (** Renaming replaces the target, except that it does nothing when both
      names already are links to one file. *)
  law_rename p q w :
    let '(w', ok) := sys_rename p q w in
    if ok then
      exists i, names (view w) !! p = Some i /\
        view w' = if decide (names (view w) !! q = Some i) then view w
                  else set_names (fun m => <[q := i]> (delete p m)) (view w)
    else view w' = view w;

  law_unlink p w :
    let '(w', ok) := sys_unlink p w in
    view w' = if ok then set_names (delete p) (view w) else view w
}.

(** ** Content after writes *)

Lemma lookup_overwrite c off bs i :
  bs <> [] ->
  overwrite c off bs !! i =
  if decide (i < off)%nat then Some (nth i c Byte.x00)
  else if decide (i < off + length bs)%nat then bs !! (i - off)%nat else c !! i.
Proof.
  intros Hbs. unfold overwrite. destruct bs as [|b bs]; [done|]. set (d := b :: bs) in *.
  assert (length (take off (c ++ replicate (off - length c) Byte.x00)) = off) as Hl.
  { rewrite length_take, length_app, length_replicate. lia. }
  case_decide as Hi; [|case_decide as Hj].
  - rewrite lookup_app_l by lia. rewrite lookup_take_lt by done.
    destruct (decide (i < length c)%nat).
    + rewrite lookup_app_l by done. symmetry. rewrite nth_lookup. by destruct (lookup_lt_is_Some_2 c i) as [? ->].
    + rewrite lookup_app_r by lia. rewrite lookup_replicate_2 by lia. by rewrite nth_overflow by lia.
  - rewrite lookup_app_r by lia. rewrite Hl. by rewrite lookup_app_l by lia.
  - rewrite lookup_app_r by lia. rewrite Hl. rewrite lookup_app_r by lia. rewrite lookup_drop. f_equal. lia.
Qed.

Lemma length_overwrite c off bs :
  bs <> [] -> length (overwrite c off bs) = Nat.max (length c) (off + length bs).
Proof.
  intros. destruct bs as [|b bs]; [done|]. unfold overwrite.
  rewrite !length_app, length_take, length_app, length_replicate, length_drop. lia.
Qed.

Lemma nth_overwrite c off bs i :
  nth i (overwrite c off bs) Byte.x00 =
  if decide (off <= i < off + length bs)%nat then nth (i - off) bs Byte.x00 else nth i c Byte.x00.
Proof.
  destruct (decide (bs = [])) as [->|Hbs]; [simpl; by rewrite decide_False by lia|].
  rewrite nth_lookup, lookup_overwrite by done. case_decide.
  - simpl. by rewrite decide_False by lia.
  - case_decide.
    + by rewrite decide_True, nth_lookup by lia.
    + by rewrite decide_False, nth_lookup by lia.
Qed.

(** Writing a block in two goes. *)
Lemma overwrite_app c off bs1 bs2 :
  overwrite (overwrite c off bs1) (off + length bs1) bs2 = overwrite c off (bs1 ++ bs2).
Proof.
  destruct (decide (bs1 = [])) as [->|H1]; [by rewrite Nat.add_0_r|].
  destruct (decide (bs2 = [])) as [->|H2]; [by rewrite app_nil_r|].
  apply list_eq. intros i. rewrite !lookup_overwrite by (done || by destruct bs1).
  rewrite length_app, nth_overwrite. repeat case_decide; try lia; try done.
  - rewrite lookup_app_l by lia. rewrite nth_lookup.
    by destruct (lookup_lt_is_Some_2 bs1 (i - off)) as [? ->]; [lia|].
  - rewrite lookup_app_r by lia. f_equal. lia.
Qed.

(** ** The loops *)

Section Facts.
Context `{OSL : PosixLaws W}.
Implicit Types (w : W).

(** [read_at] returns exactly the bytes of the file at that offset: all it was
    asked for, or up to the end of the file.  The fuel never runs out. *)
Lemma read_loop_spec fuel fd got want offset w i c :
  opened (view w) fd i c -> 0 <= offset < 2 ^ 64 -> got = [] \/ offset < 2 ^ 63 ->
  Z.of_nat (length got + want) < 2 ^ 63 ->
  got = take (length got) (drop (Z.to_nat offset) c) ->
  (want + interruptions w < fuel)%nat ->
  let '(w', r) := read_loop fuel fd got want offset w in
  view w' = view w /\
  match r with
  | inl bs => bs = take (length got + want) (drop (Z.to_nat offset) c)
  | inr e => e <> EINTR
  end.
Proof.
  revert got want w. induction fuel as [|fuel IH]; intros got want w Ho Hoff Hsmall Hlt Hgot Hf; [lia|].
  simpl. destruct (want =? 0)%nat eqn:Hw; bool_to_prop.
  { subst want. by rewrite Nat.add_0_r. }
  pose proof (law_pread fd want (s64 (offset + Z.of_nat (length got))) w) as Hlaw.
  destruct (sys_pread fd want _ w) as [w1 [bs|e]]; destruct Hlaw as [Hv Hlaw].
  - destruct Hlaw as (Hpos & Hint & i' & c' & [Hh' Hd'] & Hbs & Hle & Hend).
    assert (0 <= offset + Z.of_nat (length got) < 2 ^ 64) as Hrange
      by (destruct Hsmall as [->|]; simpl in *; lia).
    apply s64_nonneg in Hpos as [Hs Hpos]; [|done]. rewrite Hs in *.
    destruct Ho as [Hh Hd]. simplify_eq.
    assert (length got <= length c - Z.to_nat offset)%nat as Hgl.
    { rewrite Hgot, length_take, length_drop. lia. }
    replace (Z.to_nat (offset + Z.of_nat (length got)))
      with (Z.to_nat offset + length got)%nat in Hbs, Hend by lia.
    destruct bs as [|b bs'].
    + split; [done|]. specialize (Hend ltac:(lia) eq_refl).
      rewrite Hgot at 1. rewrite !take_ge; [done|rewrite length_drop; lia..].
    + set (bs := b :: bs') in *.
      specialize (IH (got ++ bs) (want - length bs)%nat w1).
      rewrite Hv, length_app in IH. replace (length got + length bs + (want - length bs))%nat
        with (length got + want)%nat in IH by lia.
      apply IH; [done|done|right; lia|done| |subst bs; simpl in *; lia].
      rewrite Hgot at 1. rewrite Hbs at 1. rewrite <- drop_drop. apply take_take_drop.
  - destruct (e =? EINTR) eqn:He; bool_to_prop; [|done].
    specialize (IH got want w1). rewrite Hv in IH. apply IH; try done. specialize (Hlaw He). lia.
Qed.

(** [write_at] writes a prefix of the data, all of it when it succeeds. *)
Lemma write_loop_spec fuel fd done rest offset w i c :
  opened (view w) fd i c -> 0 <= offset < 2 ^ 64 -> done = O \/ offset < 2 ^ 63 ->
  Z.of_nat (done + length rest) < 2 ^ 63 ->
  (length rest + interruptions w < fuel)%nat ->
  let '(w', r) := write_loop fuel fd done rest offset w in
  exists k, (k <= length rest)%nat /\
    view w' = set_content i (overwrite c (Z.to_nat offset + done) (take k rest)) (view w) /\
    ((0 < k)%nat -> offset < 2 ^ 63) /\
    match r with inl n => k = length rest /\ n = (done + k)%nat | inr e => e <> EINTR end.
Proof.
  revert done rest w c. induction fuel as [|fuel IH]; intros done rest w c Ho Hoff Hsmall Hlt Hf; [lia|].
  simpl. assert (view w = set_content i c (view w)) as Hid.
  { destruct Ho as [_ Hd]. unfold set_content. rewrite insert_id by done. by destruct (view w). }
  destruct (length rest =? 0)%nat eqn:Hw; bool_to_prop.
  { exists O. split_and!; [lia|done|lia..]. }
  pose proof (law_pwrite fd rest (s64 (offset + Z.of_nat done)) w) as Hlaw.
  destruct (sys_pwrite fd rest _ w) as [w1 [k|e]].
  - destruct Hlaw as (Hpos & Hk & Hint & i' & c' & [Hh' Hd'] & Hv).
    assert (0 <= offset + Z.of_nat done < 2 ^ 64) as Hrange
      by (destruct Hsmall as [->|]; simpl in *; lia).
    apply s64_nonneg in Hpos as [Hs Hpos]; [|done]. rewrite Hs in *.
    destruct Ho as [Hh Hd]. simplify_eq.
    replace (Z.to_nat (offset + Z.of_nat done)) with (Z.to_nat offset + done)%nat in Hv by lia.
    destruct k as [|k'].
    { exists O. split_and!; [lia|by rewrite Hv|lia|done]. }
    set (k := S k') in *.
    specialize (IH (done + k)%nat (drop k rest) w1 (overwrite c (Z.to_nat offset + done) (take k rest))).
    rewrite Hv, length_drop in IH.
    destruct (write_loop fuel fd (done + k) (drop k rest) offset w1) as [w2 r].
    destruct IH as (j & Hj & Hv2 & _ & Hr); [|done|right; lia|lia|subst k; lia|].
    { split; simpl; [done|by rewrite lookup_insert_eq]. }
    exists (k + j)%nat. split; [lia|]. split_and!.
    + rewrite Hv2. unfold set_content; simpl. rewrite insert_insert_eq. do 2 f_equal.
      replace (Z.to_nat offset + (done + k))%nat
        with (Z.to_nat offset + done + length (take k rest))%nat by (rewrite length_take; lia).
      rewrite overwrite_app. by rewrite (take_take_drop rest k j).
    + lia.
    + destruct r; [|done]. lia.
  - destruct Hlaw as [Hv He]. destruct (e =? EINTR) eqn:E; bool_to_prop.
    + specialize (IH done rest w1 c). rewrite Hv in IH. apply IH; try done. specialize (He E). lia.
    + exists O. split_and!; [lia|by rewrite Hv|lia|done].
Qed.

Lemma read_at_opened f want offset w i c :
  opened (view w) (fd_ f) i c -> 0 <= fd_ f -> 0 <= offset < 2 ^ 64 -> Z.of_nat want < 2 ^ 63 ->
  let '(w', r) := read_at f want offset w in
  view w' = view w /\
  match r with
  | inl bs => bs = take want (drop (Z.to_nat offset) c)
  | inr e => e <> EINTR
  end.
Proof.
  intros Ho Hf Hoff Hw. unfold read_at, valid. rewrite (proj2 (Z.leb_le _ _)) by done. simpl negb.
  apply (read_loop_spec _ _ [] want offset w i c); [done|done|by left|done|done|lia].
Qed.

Lemma write_at_opened f bs offset w i c :
  opened (view w) (fd_ f) i c -> 0 <= fd_ f -> 0 <= offset < 2 ^ 64 ->
  Z.of_nat (length bs) < 2 ^ 63 ->
  let '(w', r) := write_at f bs offset w in
  exists k, (k <= length bs)%nat /\
    view w' = set_content i (overwrite c (Z.to_nat offset) (take k bs)) (view w) /\
    ((0 < k)%nat -> offset < 2 ^ 63) /\
    match r with inl n => k = length bs /\ n = length bs | inr e => e <> EINTR end.
Proof.
  intros Ho Hf Hoff Hw. unfold write_at, valid. rewrite (proj2 (Z.leb_le _ _)) by done. simpl negb.
  pose proof (write_loop_spec (S (length bs + interruptions w)) (fd_ f) 0 bs offset w i c) as Hs.
  destruct (write_loop _ _ _ _ _ _) as [w' r].
  destruct Hs as (k & Hk & Hv & Hsmall & Hr); [done|done|by left|done|lia|].
  rewrite Nat.add_0_r in Hv. exists k. split_and!; [done..|].
  destruct r; [|done]. destruct Hr as [-> ->]. done.
Qed.

(** Opening for writing truncates the file or makes a new one; either way the
    descriptor is on an empty file of that name. *)
Lemma open_write_opened p f w :
  let '(w', f', ok) := open_write p f w in
  let v := if valid f then drop_handle (fd_ f) (view w) else view w in
  if ok then
    0 <= fd_ f' /\ handles v !! fd_ f' = None /\
    exists i, view w' = set_names <[p := i]> (set_content i [] (set_handle (fd_ f') i v)) /\
      (names v !! p = Some i \/
       names v !! p = None /\ data v !! i = None /\ forall q, names v !! q <> Some i)
  else view w' = v /\ f' = closed_file.
Proof.
  unfold open_write, open_with, close.
  set (wc := if valid f then _ else (w, f)).
  assert (view wc.1 = if valid f then drop_handle (fd_ f) (view w) else view w) as Hv.
  { subst wc. destruct (valid f); [apply law_close|done]. }
  destruct wc as [w1 f1]. simpl in Hv. rewrite <- Hv.
  pose proof (law_open p O_RDWR_CREAT_TRUNC w1) as Hlaw.
  destruct (sys_open p O_RDWR_CREAT_TRUNC w1) as [w2 [fd|e]]; [|done].
  destruct Hlaw as (Hfd & Hfree & i & Hv2 & Hi). rewrite (proj2 (Z.leb_le _ _)) by done.
  split_and!; [done..|]. by exists i.
Qed.

Lemma close_view f w :
  view (close f w).1 = (if valid f then drop_handle (fd_ f) (view w) else view w).
Proof. unfold close. destruct (valid f); [apply law_close|done]. Qed.

Lemma sync_view f w : view (sync f w).1 = view w.
Proof. unfold sync. destruct (valid f); [apply law_fsync|done]. Qed.
End Facts.

Lemma overwrite_slice c off bs : take (length bs) (drop off (overwrite c off bs)) = bs.
Proof.
  destruct bs as [|b bs]; [done|]. unfold overwrite.
  rewrite drop_app_length' by (rewrite length_take, length_app, length_replicate; lia).
  apply take_app_length.
Qed.

(** ** Claims *)

Section Claims.
Context `{OSL : PosixLaws W}.
Implicit Types (w : W).

(** C37: positional writes and reads agree.  However the system splits or
    interrupts the transfers, a successful [write_at] has replaced exactly the
    bytes at that offset, a [read_at] of the same range then returns them or
    reports a system error, and neither ever reports [EINTR] or hangs on it; a
    failed [write_at] has stored a prefix of the data and touched nothing
    else. *)
Theorem write_read_back f bs offset w i c :
  opened (view w) (fd_ f) i c -> 0 <= fd_ f -> 0 <= offset < 2 ^ 64 ->
  Z.of_nat (length bs) < 2 ^ 63 ->
  let '(w1, r) := write_at f bs offset w in
  match r with
  | inl n =>
      n = length bs /\ view w1 = set_content i (overwrite c (Z.to_nat offset) bs) (view w) /\
      let '(w2, r2) := read_at f (length bs) offset w1 in
      view w2 = view w1 /\ match r2 with inl got => got = bs | inr e => e <> EINTR end
  | inr e =>
      e <> EINTR /\ exists k, (k <= length bs)%nat /\
        view w1 = set_content i (overwrite c (Z.to_nat offset) (take k bs)) (view w)
  end.
Proof.
  intros Ho Hf Hoff Hlen. pose proof (write_at_opened f bs offset w i c Ho Hf Hoff Hlen) as Hw.
  destruct (write_at f bs offset w) as [w1 [n|e]]; destruct Hw as (k & Hk & Hv & _ & Hr).
  - destruct Hr as [-> ->]. rewrite firstn_all in Hv. split_and!; [done..|].
    pose proof (read_at_opened f (length bs) offset w1 i (overwrite c (Z.to_nat offset) bs)) as Hread.
    destruct (read_at f (length bs) offset w1) as [w2 r2]. destruct Hread as [Hv2 Hr2]; try done.
    { rewrite Hv. destruct Ho. by split; [|simpl; rewrite lookup_insert_eq]. }
    split; [done|]. destruct r2; [|done]. by rewrite Hr2, overwrite_slice.
  - split; [done|]. by exists k.
Qed.

(** A short read means end of file.  [read_at] changes nothing, and
    unless the system fails it returns every byte of the file in the range it
    was given. *)
Theorem read_at_exact f want offset w i c :
  opened (view w) (fd_ f) i c -> 0 <= fd_ f -> 0 <= offset < 2 ^ 64 -> Z.of_nat want < 2 ^ 63 ->
  let '(w', r) := read_at f want offset w in
  view w' = view w /\
  match r with
  | inl bs => bs = take want (drop (Z.to_nat offset) c) /\
              ((length bs < want)%nat -> Z.of_nat (length c) <= offset + Z.of_nat (length bs))
  | inr e => e <> EINTR
  end.
Proof.
  intros Ho Hf Hoff Hw. pose proof (read_at_opened f want offset w i c Ho Hf Hoff Hw) as Hr.
  destruct (read_at f want offset w) as [w' [bs|e]]; destruct Hr as [Hv Hr]; [|done].
  split_and!; [done..|]. subst bs. rewrite length_take, length_drop. lia.
Qed.
End Claims.
