(* ===== verification/Disk.v ===== *)
(** * A file system

    One implementation of the interface of FileIO.v, held in memory: it
    truncates, extends with zeroes, renames over existing entries and shares a
    file between the descriptors open on it.  A script makes chosen reads and
    writes come up short, be interrupted or fail, so that the witnesses of the
    other files exercise those paths. *)

From S2P Require Import Prelude Words FileIO.
Open Scope Z_scope.

(** What happens to the next read or write. *)
Inductive Glitch := Whole | Interrupted | Short (n : nat) | Broken.

#[export] Instance glitch_eq_dec : EqDecision Glitch.
Proof. solve_decision. Defined.

Record Disk := { disk_view : View; glitches : list Glitch }.

Definition set_view (d : Disk) (v : View) : Disk := {| disk_view := v; glitches := glitches d |}.
Definition next_glitch (d : Disk) : Glitch := default Whole (head (glitches d)).
Definition spend (d : Disk) : Disk := {| disk_view := disk_view d; glitches := tail (glitches d) |}.

Definition pending (l : list Glitch) : nat :=
  length (filter (fun g => g = Interrupted) l).

Definition fresh_fd (v : View) : Z := 1 + foldr Z.max 2 (map_to_list (handles v)).*1.
Definition fresh_inode (v : View) : nat :=
  S (foldr Nat.max 0%nat ((map_to_list (data v)).*1 ++ (map_to_list (names v)).*2)).

Definition file_at (v : View) (fd : Z) : option (nat * list byte) :=
  match handles v !! fd with
  | None => None
  | Some i => match data v !! i with None => None | Some c => Some (i, c) end
  end.

Definition disk_open (p : path) (mode : OpenMode) (d : Disk) : Disk * (Z + Z) :=
  let v := disk_view d in
  match mode, names v !! p with
  | O_RDONLY, None => (d, inr 2)
  | O_RDONLY, Some i => (set_view d (set_handle (fresh_fd v) i v), inl (fresh_fd v))
  | O_RDWR_CREAT_TRUNC, o =>
      let i := default (fresh_inode v) o in
      (set_view d (set_names <[p := i]> (set_content i [] (set_handle (fresh_fd v) i v))),
       inl (fresh_fd v))
  end.

Definition disk_pread (fd : Z) (n : nat) (off : Z) (d : Disk) : Disk * (list byte + Z) :=
  match next_glitch d with
  | Interrupted => (spend d, inr EINTR)
  | Broken => (spend d, inr EIO)
  | g =>
      let n := match g with Short k => Nat.min n (S k) | _ => n end in
      if off <? 0 then (spend d, inr 22)
      else match file_at (disk_view d) fd with
           | None => (spend d, inr EBADF)
           | Some (_, c) => (spend d, inl (take n (drop (Z.to_nat off) c)))
           end
  end.

Definition disk_pwrite (fd : Z) (bs : list byte) (off : Z) (d : Disk) : Disk * (nat + Z) :=
  match next_glitch d with
  | Interrupted => (spend d, inr EINTR)
  | Broken => (spend d, inr EIO)
  | g =>
      let n := match g with Short k => Nat.min (length bs) (S k) | _ => length bs end in
      if off <? 0 then (spend d, inr 22)
      else match file_at (disk_view d) fd with
           | None => (spend d, inr EBADF)
           | Some (i, c) =>
               (set_view (spend d) (set_content i (overwrite c (Z.to_nat off) (take n bs)) (disk_view d)),
                inl n)
           end
  end.

#[export] Instance disk_posix : Posix Disk := {
  sys_open := disk_open;
  sys_close fd d := set_view d (drop_handle fd (disk_view d));
  sys_pread := disk_pread;
  sys_pwrite := disk_pwrite;
  sys_fsync _ d := (d, true);
  sys_fstat_size fd d :=
    (d, match file_at (disk_view d) fd with
        | Some (_, c) => inl (Z.of_nat (length c)) | None => inr EBADF end);
  sys_rename p q d :=
    match names (disk_view d) !! p with
    | None => (d, false)
    | Some i =>
        if decide (names (disk_view d) !! q = Some i) then (d, true)
        else (set_view d (set_names (fun m => <[q := i]> (delete p m)) (disk_view d)), true)
    end;
  sys_unlink p d := (set_view d (set_names (delete p) (disk_view d)), true);
  interruptions d := pending (glitches d)
}.

Lemma foldr_max_ge (l : list Z) x : x ∈ l -> x <= foldr Z.max 2 l.
Proof. induction l as [|y l IH]; [by intros ?%elem_of_nil|]. intros [->|Hx%IH]%elem_of_cons; simpl; lia. Qed.
Lemma foldr_natmax_ge (l : list nat) x : x ∈ l -> (x <= foldr Nat.max 0 l)%nat.
Proof. induction l as [|y l IH]; [by intros ?%elem_of_nil|]. intros [->|Hx%IH]%elem_of_cons; simpl; lia. Qed.

Lemma fresh_fd_spec v : 0 <= fresh_fd v /\ handles v !! fresh_fd v = None.
Proof.
  unfold fresh_fd. split.
  - assert (0 <= foldr Z.max 2 (map_to_list (handles v)).*1); [|lia].
    induction (map_to_list (handles v)).*1; simpl; lia.
  - destruct (handles v !! _) as [i|] eqn:E; [|done].
    apply elem_of_map_to_list, (list_elem_of_fmap_2 fst), foldr_max_ge in E. simpl in E. lia.
Qed.

Lemma fresh_inode_spec v :
  data v !! fresh_inode v = None /\ forall q, names v !! q <> Some (fresh_inode v).
Proof.
  unfold fresh_inode. split.
  - destruct (data v !! _) as [c|] eqn:E; [|done].
    apply elem_of_map_to_list, (list_elem_of_fmap_2 fst) in E. simpl in E.
    assert (S (foldr Nat.max 0%nat ((map_to_list (data v)).*1 ++ (map_to_list (names v)).*2)) ∈
      (map_to_list (data v)).*1 ++ (map_to_list (names v)).*2) as Hin by (apply elem_of_app; by left).
    apply foldr_natmax_ge in Hin. lia.
  - intros q E. apply elem_of_map_to_list, (list_elem_of_fmap_2 snd) in E. simpl in E.
    assert (S (foldr Nat.max 0%nat ((map_to_list (data v)).*1 ++ (map_to_list (names v)).*2)) ∈
      (map_to_list (data v)).*1 ++ (map_to_list (names v)).*2) as Hin by (apply elem_of_app; by right).
    apply foldr_natmax_ge in Hin. lia.
Qed.

Lemma file_at_opened v fd i c : file_at v fd = Some (i, c) -> opened v fd i c.
Proof.
  unfold file_at, opened. destruct (handles v !! fd) as [j|]; [|done].
  destruct (data v !! j) as [c'|] eqn:E; [|done]. by intros [= -> ->].
Qed.

Lemma spend_pending d : (pending (glitches (spend d)) <= pending (glitches d))%nat.
Proof.
  unfold spend, pending; simpl. destruct (glitches d) as [|g l]; [done|].
  simpl. rewrite filter_cons. case_decide; simpl; lia.
Qed.

Lemma spend_interrupted d :
  next_glitch d = Interrupted -> (pending (glitches (spend d)) < pending (glitches d))%nat.
Proof.
  unfold spend, pending, next_glitch; simpl. destruct (glitches d) as [|g l]; [done|].
  simpl. intros ->. rewrite filter_cons. rewrite decide_True by done. simpl. lia.
Qed.

Lemma take_prefix (n : nat) (l : list byte) : take n l = take (length (take n l)) l.
Proof.
  rewrite length_take. destruct (Nat.min_spec n (length l)) as [[_ ->]|[? ->]]; [done|].
  by rewrite !take_ge by lia.
Qed.

Lemma take_nil_end (n off : nat) (c : list byte) :
  (0 < n)%nat -> take n (drop off c) = [] -> (length c <= off)%nat.
Proof. intros Hn Ht. apply (f_equal length) in Ht. rewrite length_take, length_drop in Ht. simpl in Ht. lia. Qed.

Lemma disk_pread_law fd n off d :
  let '(d', r) := disk_pread fd n off d in
  disk_view d' = disk_view d /\
  match r with
  | inl bs =>
      0 <= off /\ (pending (glitches d') <= pending (glitches d))%nat /\
      exists i c, opened (disk_view d) fd i c /\
        bs = take (length bs) (drop (Z.to_nat off) c) /\ (length bs <= n)%nat /\
        ((0 < n)%nat -> bs = [] -> (length c <= Z.to_nat off)%nat)
  | inr e => e = EINTR -> (pending (glitches d') < pending (glitches d))%nat
  end.
Proof.
  pose proof (spend_pending d) as Hs. unfold disk_pread.
  assert (forall m, (m <= n)%nat -> ((0 < n)%nat -> (0 < m)%nat) ->
    let '(d', r) :=
      (if off <? 0 then (spend d, inr 22)
       else match file_at (disk_view d) fd with
            | None => (spend d, inr EBADF)
            | Some (_, c) => (spend d, inl (take m (drop (Z.to_nat off) c)))
            end) in
    disk_view d' = disk_view d /\
    match r with
    | inl bs =>
        0 <= off /\ (pending (glitches d') <= pending (glitches d))%nat /\
        exists i c, opened (disk_view d) fd i c /\
          bs = take (length bs) (drop (Z.to_nat off) c) /\ (length bs <= n)%nat /\
          ((0 < n)%nat -> bs = [] -> (length c <= Z.to_nat off)%nat)
    | inr e => e = EINTR -> (pending (glitches d') < pending (glitches d))%nat
    end) as Hread.
  { intros m Hm Hpos. destruct (off <? 0) eqn:Ho; [done|]. bool_to_prop.
    destruct (file_at _ fd) as [[i c]|] eqn:Hf; [|done]. split_and!; [done..|]. exists i, c.
    split_and!; [by apply file_at_opened|apply take_prefix|rewrite length_take; lia|].
    intros Hn. apply take_nil_end. lia. }
  destruct (next_glitch d) as [| |k|] eqn:Hg.
  - by apply Hread.
  - split; [done|]. intros _. by apply spend_interrupted.
  - apply Hread; lia.
  - done.
Qed.

Lemma disk_pwrite_law fd bs off d :
  let '(d', r) := disk_pwrite fd bs off d in
  match r with
  | inl k =>
      0 <= off /\ (k <= length bs)%nat /\ (pending (glitches d') <= pending (glitches d))%nat /\
      exists i c, opened (disk_view d) fd i c /\
        disk_view d' = set_content i (overwrite c (Z.to_nat off) (take k bs)) (disk_view d)
  | inr e => disk_view d' = disk_view d /\
             (e = EINTR -> (pending (glitches d') < pending (glitches d))%nat)
  end.
Proof.
  pose proof (spend_pending d) as Hs. unfold disk_pwrite.
  destruct (next_glitch d) as [| |k|] eqn:Hg; [|by split; [|intros _; apply spend_interrupted]| |done];
    (destruct (off <? 0) eqn:Ho; [done|]; bool_to_prop;
     destruct (file_at _ fd) as [[i c]|] eqn:Hf; [|done];
     split_and!; [done|lia|done|]; exists i, c; split; [by apply file_at_opened|done]).
Qed.

#[export] Instance disk_laws : PosixLaws Disk.
Proof.
  refine {| view := disk_view; law_pread := disk_pread_law; law_pwrite := disk_pwrite_law |}; simpl.
  - intros p mode d. pose proof (fresh_fd_spec (disk_view d)) as [Hpos Hfree].
    unfold disk_open. destruct mode; [destruct (names _ !! p) as [i|] eqn:E; [|done]|]; simpl; split_and!; try done.
    + by exists i.
    + eexists. split; [done|]. destruct (names _ !! p) as [i|] eqn:E; simpl; [by left|]. right.
      split; [done|]. apply fresh_inode_spec.
  - done.
  - done.
  - intros fd d. split; [done|]. destruct (file_at _ fd) as [[i c]|] eqn:E; [|done].
    exists i, c. split; [by apply file_at_opened|done].
  - intros p q d. destruct (names (disk_view d) !! p) as [i|] eqn:E; [|done].
    case_decide as Hq; exists i; (split; [done|]); [by rewrite decide_True|by rewrite decide_False].
  - done.
Defined.

(** ** Witnesses of the claims of FileIO.v *)

(** Five bytes in file 7, open at descriptor 3; the first two transfers are
    interrupted and short. *)
Definition small_disk : Disk := {|
  disk_view := {| names := {[str "out/a" := 7%nat]}; data := {[7%nat := str "hello"]};
                  handles := {[3 := 7%nat]} |};
  glitches := [Interrupted; Short 1; Whole; Interrupted; Short 0] |}.

Lemma write_read_back_witness :
  (write_at {| fd_ := 3 |} (str "ABCD") 3 small_disk).2 = inl 4%nat /\
  match read_at {| fd_ := 3 |} 4 3 (write_at {| fd_ := 3 |} (str "ABCD") 3 small_disk).1 with
  | (_, inl got) => got = str "ABCD"
  | (_, inr _) => False
  end.
Proof.
  pose proof (write_read_back {| fd_ := 3 |} (str "ABCD") 3 small_disk 7%nat (str "hello")) as Hw.
  split; [vm_compute; reflexivity|].
  destruct (write_at {| fd_ := 3 |} (str "ABCD") 3 small_disk) as [w1 r] eqn:E1.
  assert (r = inl 4%nat) as -> by (apply (f_equal snd) in E1; vm_compute in E1; symmetry; exact E1).
  destruct Hw as (_ & _ & Hread); [split; vm_compute; reflexivity|discriminate|split; [discriminate|reflexivity]|reflexivity|].
  simpl fst. destruct (read_at _ _ _ w1) as [w2 r2] eqn:E2. destruct Hread as [_ Hread].
  destruct r2; [exact Hread|].
  apply (f_equal fst) in E1. vm_compute in E1. subst w1. vm_compute in E2. discriminate E2.
Defined.

Lemma read_at_exact_witness :
  (read_at {| fd_ := 3 |} 10 1 small_disk).2 = inl (str "ello") /\
  match (read_at {| fd_ := 3 |} 10 1 small_disk).2 with
  | inl bs => bs = take 10 (drop 1 (str "hello"))
  | inr _ => True
  end.
Proof.
  split; [vm_compute; reflexivity|].
  pose proof (read_at_exact {| fd_ := 3 |} 10 1 small_disk 7%nat (str "hello")) as Hr.
  destruct (read_at {| fd_ := 3 |} 10 1 small_disk) as [w' r].
  destruct Hr as [_ Hr]; [split; vm_compute; reflexivity|discriminate|split; [discriminate|reflexivity]|reflexivity|].
  destruct r; [apply Hr|exact I].
Defined.
