(* ===== verification/Net.v ===== *)
(** * The UDP socket

    [net::UdpSocket] of src/include/swiftlink/net/udp_socket.hpp and
    src/src/net/udp_socket.cpp.  The socket calls and the clock are a parameter,
    the class [Network], with [NetworkLaws] saying what it keeps apart: datagrams
    handed out and, with their senders, taken in, the receive timeout, and the files, which it does
    not touch.  The address conversions of the C library are modelled. *)

From S2P Require Import Prelude Words FileIO.
Open Scope Z_scope.

Definition EAGAIN : Z := 11.
Definition EWOULDBLOCK : Z := 11.
Definition EINVAL : Z := 22.
Definition O_NONBLOCK : Z := 0x800.
Definition INADDR_ANY : Z := 0.

Record Endpoint := { address : list byte; port : Z }.
Definition default_endpoint : Endpoint := {| address := str "127.0.0.1"; port := 0 |}.
#[export] Instance endpoint_eq_dec : EqDecision Endpoint.
Proof. solve_decision. Defined.

(** [sin_port] holds the port in network byte order, [sin_addr] the four octets
    of the address, most significant first. *)
Record sockaddr_in := { sin_port : Z; sin_addr : Z }.
#[export] Instance sockaddr_eq_dec : EqDecision sockaddr_in.
Proof. solve_decision. Defined.

(** A little-endian host swaps the two bytes of a port. *)
Definition htons (v : Z) : Z := u16 (Z.shiftl v 8) + Z.shiftr (u16 v) 8.
Definition ntohs (v : Z) : Z := htons v.

(** ** Addresses as text *)

Definition digit_value (c : byte) : option Z :=
  let v := Z_of_byte c in if (0x30 <=? v) && (v <=? 0x39) then Some (v - 0x30) else None.
Definition digit_byte (d : Z) : byte := byte_of_Z (0x30 + d).
Definition dot : byte := Byte.x2e.

(** The state of [inet_pton]: the octets finished, and the one being read. *)
Definition pton_step (st : option (list Z * option Z)) (c : byte) : option (list Z * option Z) :=
  match st with
  | None => None
  | Some (octets, current) =>
      match digit_value c, current with
      | Some d, None => if (length octets <? 4)%nat then Some (octets, Some d) else None
      | Some d, Some v =>
          if (v =? 0) || (v * 10 + d >? 255) then None else Some (octets, Some (v * 10 + d))
      | None, Some v =>
          if bool_decide (c = dot) && (length octets <? 3)%nat then Some (octets ++ [v], None) else None
      | None, None => None
      end
  end.

Definition c_str (s : list byte) : list byte :=
  take (default (length s) (fst <$> list_find (fun c => c = Byte.x00) s)) s.

Definition inet_pton (text : list byte) : option Z :=
  match foldl pton_step (Some ([], None)) text with
  | Some ([a; b; c], Some d) => Some (((a * 256 + b) * 256 + c) * 256 + d)
  | _ => None
  end.

(** [%u] of an octet. *)
Definition decimal (v : Z) : list byte :=
  if v <? 10 then [digit_byte v]
  else if v <? 100 then [digit_byte (v / 10); digit_byte (v mod 10)]
  else [digit_byte (v / 100); digit_byte (v / 10 mod 10); digit_byte (v mod 10)].

Definition dotted (a : Z) : list byte :=
  let octet i := Z.land (Z.shiftr a (8 * i)) 0xFF in
  decimal (octet 3) ++ dot :: decimal (octet 2) ++ dot :: decimal (octet 1) ++ dot :: decimal (octet 0).

(** It fails only when the buffer is too small, and sixteen bytes are enough. *)
Definition inet_ntop (a : Z) : option (list byte) := Some (dotted a).

Definition to_sockaddr (e : Endpoint) : option sockaddr_in :=
  match inet_pton (c_str (address e)) with
  | Some a => Some {| sin_port := htons (port e); sin_addr := a |}
  | None => None
  end.

Definition from_sockaddr (s : sockaddr_in) : Endpoint :=
  {| address := match inet_ntop (sin_addr s) with Some text => text | None => str "?" end;
     port := ntohs (sin_port s) |}.

(** ** The system *)

Class Network (W : Type) := {
  sys_socket : W -> W * (Z + Z);
  sys_bind : Z -> sockaddr_in -> W -> W * bool;
  (** [setsockopt(fd, SOL_SOCKET, SO_RCVTIMEO, {sec, usec})]; zero means no
      timeout. *)
  sys_set_rcvtimeo : Z -> Z -> Z -> W -> W * bool;
  sys_getfl : Z -> W -> W * Z;
  sys_setfl : Z -> Z -> W -> W * bool;
  sys_sendto : Z -> list byte -> sockaddr_in -> W -> W * (Z + Z);
  (** [recvfrom(fd, _, size)]: the datagram (cut to [size]) and its sender. *)
  sys_recvfrom : Z -> nat -> W -> W * (list byte * sockaddr_in + Z);
  (** [steady_clock::now()], in its ticks of a nanosecond. *)
  sys_now : W -> W * Z
}.

(** ** [net::UdpSocket] *)

Record UdpSocket := { sock_fd : Z }.
Definition closed_socket : UdpSocket := {| sock_fd := -1 |}.

Section Operations.
Context {W : Type} `{OS : !Posix W} `{NET : !Network W}.

Definition socket_valid (s : UdpSocket) : bool := 0 <=? sock_fd s.

Definition socket_close (s : UdpSocket) (w : W) : W * UdpSocket :=
  if socket_valid s then (sys_close (sock_fd s) w, closed_socket) else (w, s).

Definition socket_open (s : UdpSocket) (w : W) : W * UdpSocket * bool :=
  let '(w, _) := socket_close s w in
  match sys_socket w with
  | (w, inl fd) => (w, {| sock_fd := fd |}, 0 <=? fd)
  | (w, inr _) => (w, closed_socket, false)
  end.

Definition bind (s : UdpSocket) (p : Z) (w : W) : W * bool :=
  if negb (socket_valid s) then (w, false)
  else sys_bind (sock_fd s) {| sin_port := htons p; sin_addr := INADDR_ANY |} w.

(** The [timeval] for a timeout in microseconds. *)
Definition timeval_of (timeout : Z) : Z * Z :=
  let timeout := if timeout <=? 0 then 1 else timeout in
  let seconds := Z.quot timeout 1000000 in
  (seconds, timeout - seconds * 1000000).

Definition set_receive_timeout (s : UdpSocket) (timeout : Z) (w : W) : W * bool :=
  if negb (socket_valid s) then (w, false)
  else
    let '(sec, usec) := timeval_of timeout in
    sys_set_rcvtimeo (sock_fd s) sec usec w.

Definition nonblocking_flags (enabled : bool) (flags : Z) : Z :=
  if enabled then Z.lor flags O_NONBLOCK else Z.ldiff flags O_NONBLOCK.

Definition set_nonblocking (s : UdpSocket) (enabled : bool) (w : W) : W * bool :=
  if negb (socket_valid s) then (w, false)
  else
    let '(w, flags) := sys_getfl (sock_fd s) w in
    if flags <? 0 then (w, false)
    else
      sys_setfl (sock_fd s) (nonblocking_flags enabled flags) w.

(** The count, or [errno] when it returns -1. *)
Definition send_to (s : UdpSocket) (bytes : list byte) (destination : Endpoint) (w : W) : W * (Z + Z) :=
  if negb (socket_valid s) then (w, inr EBADF)
  else match to_sockaddr destination with
       | None => (w, inr EINVAL)
       | Some a => sys_sendto (sock_fd s) bytes a w
       end.

(** The bytes received and their sender, or [errno]. *)
Definition recv_from (s : UdpSocket) (size : nat) (w : W) : W * (list byte * Endpoint + Z) :=
  if negb (socket_valid s) then (w, inr EBADF)
  else match sys_recvfrom (sock_fd s) size w with
       | (w, inl (bytes, a)) => (w, inl (bytes, from_sockaddr a))
       | (w, inr e) => (w, inr e)
       end.
End Operations.

(** ** What the theorems on the drivers rely on *)

Class NetworkLaws (W : Type) `{OSL : PosixLaws W} `{NET : !Network W} := {
  (** Every datagram the system was given, with its destination, and every one it
      handed over, with its sender, oldest first. *)
  outbox : W -> list (list byte * sockaddr_in);
  inbox : W -> list (list byte * sockaddr_in);

  law_timeo fd sec usec w :
    let w' := (sys_set_rcvtimeo fd sec usec w).1 in
    view w' = view w /\ outbox w' = outbox w /\ inbox w' = inbox w;
  law_now w : let w' := (sys_now w).1 in view w' = view w /\ outbox w' = outbox w /\ inbox w' = inbox w;

  law_sendto fd bytes a w :
    let '(w', r) := sys_sendto fd bytes a w in
    view w' = view w /\ inbox w' = inbox w /\
    outbox w' = (match r with inl _ => outbox w ++ [(bytes, a)] | inr _ => outbox w end);

  law_recvfrom fd size w :
    let '(w', r) := sys_recvfrom fd size w in
    view w' = view w /\ outbox w' = outbox w /\
    inbox w' = (match r with inl d => inbox w ++ [d] | inr _ => inbox w end);

  (** Calls on files leave the network alone. *)
  law_open_net p mode w :
    let w' := (sys_open p mode w).1 in outbox w' = outbox w /\ inbox w' = inbox w;
  law_close_net fd w :
    let w' := sys_close fd w in outbox w' = outbox w /\ inbox w' = inbox w;
  law_fstat_net fd w :
    let w' := (sys_fstat_size fd w).1 in outbox w' = outbox w /\ inbox w' = inbox w;
  law_pread_net fd n off w :
    let w' := (sys_pread fd n off w).1 in outbox w' = outbox w /\ inbox w' = inbox w;
  law_pwrite_net fd bs off w :
    let w' := (sys_pwrite fd bs off w).1 in outbox w' = outbox w /\ inbox w' = inbox w;
  law_fsync_net fd w :
    let w' := (sys_fsync fd w).1 in outbox w' = outbox w /\ inbox w' = inbox w;
  law_rename_net p q w :
    let w' := (sys_rename p q w).1 in outbox w' = outbox w /\ inbox w' = inbox w;
  law_unlink_net p w :
    let w' := (sys_unlink p w).1 in outbox w' = outbox w /\ inbox w' = inbox w
}.

Section Quiet.
Context {W : Type} `{NL : NetworkLaws W}.

(** A call that neither changes files nor touches the network. *)
Definition quiet (w w' : W) : Prop :=
  view w' = view w /\ outbox w' = outbox w /\ inbox w' = inbox w.

Lemma read_loop_net fuel fd got want off w :
  let w' := (read_loop fuel fd got want off w).1 in outbox w' = outbox w /\ inbox w' = inbox w.
Proof.
  revert got want w. induction fuel as [|fuel IH]; intros got want w; simpl; [done|].
  destruct (want =? 0)%nat; [done|].
  pose proof (law_pread_net fd want (s64 (off + Z.of_nat (length got))) w) as [Ho Hi].
  destruct (sys_pread _ _ _ w) as [w1 [bs|e]]; simpl in *.
  - destruct bs as [|b bs]; [done|]. by rewrite <- Ho, <- Hi.
  - destruct (e =? EINTR); [|done]. by rewrite <- Ho, <- Hi.
Qed.

Lemma read_at_net f want off w :
  let w' := (read_at f want off w).1 in outbox w' = outbox w /\ inbox w' = inbox w.
Proof. unfold read_at. destruct (valid f); [apply read_loop_net|done]. Qed.

Lemma set_receive_timeout_quiet s timeout w : quiet w (set_receive_timeout s timeout w).1.
Proof.
  unfold set_receive_timeout. destruct (socket_valid s); [|done]. simpl. destruct (timeval_of timeout). apply law_timeo.
Qed.

Lemma now_quiet w : quiet w (sys_now w).1.
Proof. apply law_now. Qed.

Lemma send_to_spec s bytes e w :
  let '(w', r) := send_to s bytes e w in
  view w' = view w /\ inbox w' = inbox w /\
  (outbox w' = outbox w \/ exists a, to_sockaddr e = Some a /\ outbox w' = outbox w ++ [(bytes, a)]).
Proof.
  unfold send_to. destruct (socket_valid s); simpl; [|split_and!; [done..|by left]].
  destruct (to_sockaddr e) as [a|]; [|split_and!; [done..|by left]].
  pose proof (law_sendto (sock_fd s) bytes a w) as Hl. destruct (sys_sendto _ _ _ w) as [w' r].
  destruct Hl as (? & ? & Ho). split_and!; [done..|]. destruct r; [right; by exists a|by left].
Qed.

Lemma recv_from_spec s size w :
  let '(w', r) := recv_from s size w in
  view w' = view w /\ outbox w' = outbox w /\
  match r with
  | inl (bytes, e) => exists a, from_sockaddr a = e /\ inbox w' = inbox w ++ [(bytes, a)]
  | inr _ => inbox w' = inbox w
  end.
Proof.
  unfold recv_from. destruct (socket_valid s); [|done]. simpl.
  pose proof (law_recvfrom (sock_fd s) size w) as Hl.
  destruct (sys_recvfrom _ _ w) as [w' [[bytes a]|e]]; destruct Hl as (? & ? & ?); split_and!; try done. by exists a.
Qed.
End Quiet.

(** ** Properties *)

Lemma htons_involutive v : fits 16 v -> htons (htons v) = v /\ fits 16 (htons v).
Proof.
  intros Hv. unfold htons, fits, wrap in *. rewrite !Z.shiftl_mul_pow2, !Z.shiftr_div_pow2 by lia.
  change (2 ^ 8) with 256 in *. change (2 ^ 16) with 65536 in *.
  pose proof (Z.div_mod v 256 ltac:(lia)) as Hd. pose proof (Z.mod_pos_bound v 256 ltac:(lia)) as Hm.
  assert (0 <= v / 256 < 256) by (split; [apply Z.div_pos; lia|apply Z.div_lt_upper_bound; lia]).
  assert (forall x h l, x = h * 256 + l -> 0 <= h < 256 -> 0 <= l < 256 ->
    x * 256 mod 65536 + x mod 65536 / 256 = l * 256 + h) as Hswap.
  { intros x h l -> Hh Hl. rewrite (Z.mod_small (h * 256 + l)) by lia.
    replace ((h * 256 + l) * 256) with (l * 256 + h * 65536) by lia.
    replace (h * 256 + l) with (l + h * 256) by lia.
    rewrite Z.mod_add, Z.mod_small, Z.div_add, Z.div_small by lia. lia. }
  rewrite (Hswap v (v / 256) (v mod 256)) by lia. split; [|lia].
  rewrite (Hswap _ (v mod 256) (v / 256)) by lia. lia.
Qed.

Lemma digit_value_byte d : 0 <= d < 10 -> digit_value (digit_byte d) = Some d.
Proof.
  intros Hd. unfold digit_value, digit_byte. rewrite Z_of_byte_of_Z, Z.mod_small by lia.
  rewrite !(proj2 (Z.leb_le _ _)) by lia. simpl. f_equal. lia.
Qed.

(** Reading the text of an octet from between dots gives the octet back. *)
Lemma pton_decimal octets v :
  0 <= v < 256 -> (length octets < 4)%nat ->
  foldl pton_step (Some (octets, None)) (decimal v) = Some (octets, Some v).
Proof.
  intros Hv Hl. apply Nat.ltb_lt in Hl. unfold decimal.
  assert (forall d, 0 <= d < 10 ->
    pton_step (Some (octets, None)) (digit_byte d) = Some (octets, Some d)) as Hfirst.
  { intros d Hd. unfold pton_step. by rewrite digit_value_byte, Hl. }
  assert (forall u d, 0 < u -> 0 <= d < 10 -> u * 10 + d <= 255 ->
    pton_step (Some (octets, Some u)) (digit_byte d) = Some (octets, Some (u * 10 + d))) as Hnext.
  { intros u d Hu Hd Hmax. unfold pton_step. rewrite digit_value_byte, Z.gtb_ltb by done.
    rewrite (proj2 (Z.eqb_neq _ _)), (proj2 (Z.ltb_ge _ _)) by lia. done. }
  pose proof (Z.div_mod v 10 ltac:(lia)). pose proof (Z.mod_pos_bound v 10 ltac:(lia)).
  pose proof (Z.div_mod (v / 10) 10 ltac:(lia)). pose proof (Z.mod_pos_bound (v / 10) 10 ltac:(lia)).
  assert (v / 100 = v / 10 / 10) as H100 by (rewrite Z.div_div by lia; done).
  destruct (v <? 10) eqn:E1; [|destruct (v <? 100) eqn:E2]; bool_to_prop; cbn [foldl].
  - apply Hfirst. lia.
  - rewrite Hfirst, Hnext by lia. do 3 f_equal. lia.
  - rewrite H100, Hfirst, Hnext, Hnext by lia. do 3 f_equal. lia.
Qed.

Lemma pton_octet octets v rest :
  0 <= v < 256 -> (length octets < 3)%nat ->
  foldl pton_step (Some (octets, None)) (decimal v ++ dot :: rest) =
  foldl pton_step (Some (octets ++ [v], None)) rest.
Proof.
  intros Hv Hl. rewrite foldl_app, pton_decimal by (done || lia). cbn [foldl]. f_equal.
  unfold pton_step. change (digit_value dot) with (@None Z). cbv iota.
  rewrite bool_decide_true by done. by rewrite (proj2 (Nat.ltb_lt _ _)) by done.
Qed.

Lemma decimal_printable v : 0 <= v < 256 -> Forall (fun c => c <> Byte.x00) (decimal v).
Proof.
  intros Hv. assert (forall d, 0 <= d < 10 -> digit_byte d <> Byte.x00) as Hd.
  { intros d Hd Hz. pose proof (digit_value_byte d Hd) as He. by rewrite Hz in He. }
  pose proof (Z.mod_pos_bound v 10). pose proof (Z.mod_pos_bound (v / 10) 10).
  assert (0 <= v / 10 < 26) by (split; [apply Z.div_pos|apply Z.div_lt_upper_bound]; lia).
  assert (0 <= v / 100 < 3) by (split; [apply Z.div_pos|apply Z.div_lt_upper_bound]; lia).
  unfold decimal. destruct (v <? 10) eqn:E1; [|destruct (v <? 100) eqn:E2]; bool_to_prop;
    repeat constructor; apply Hd; try lia.
  assert (v / 10 < 10) by (apply Z.div_lt_upper_bound; lia). lia.
Qed.

Lemma c_str_printable s : Forall (fun c => c <> Byte.x00) s -> c_str s = s.
Proof.
  intros Hs. unfold c_str. destruct (list_find _ s) as [[i c]|] eqn:E; [|apply firstn_all].
  apply list_find_Some in E as (Hi & -> & _). rewrite Forall_lookup in Hs. by destruct (Hs i _ Hi).
Qed.

Ltac split_digit x :=
  pose proof (Z.div_mod x 256 ltac:(lia)); pose proof (Z.mod_pos_bound x 256 ltac:(lia)).

Lemma inet_pton_dotted a : fits 32 a -> inet_pton (c_str (dotted a)) = Some a.
Proof.
  intros Ha. unfold dotted. set (octet i := Z.land (Z.shiftr a (8 * i)) 0xFF).
  assert (forall i, 0 <= i -> 0 <= octet i < 256) as Ho.
  { intros i Hi. unfold octet. rewrite land_0xFF. apply Z.mod_pos_bound. lia. }
  rewrite c_str_printable.
  2:{ repeat (apply Forall_app; split; [by apply decimal_printable, Ho|]; apply Forall_cons; split; [done|]).
      by apply decimal_printable, Ho. }
  unfold inet_pton. rewrite !pton_octet by (first [by apply Ho|simpl; lia]).
  rewrite pton_decimal by (first [by apply Ho|simpl; lia]). cbn [app]. f_equal. unfold octet. rewrite !land_0xFF.
  rewrite !Z.shiftr_div_pow2 by lia. simpl. unfold fits in Ha.
  change (2 ^ (8 * 3)) with (256 * 256 * 256). change (2 ^ (8 * 2)) with (256 * 256).
  change (2 ^ (8 * 1)) with 256. change (2 ^ (8 * 0)) with 1.
  rewrite <- !Z.div_div by lia. rewrite Z.div_1_r.
  split_digit a. split_digit (a / 256). split_digit (a / 256 / 256). split_digit (a / 256 / 256 / 256).
  assert (a / 256 / 256 / 256 / 256 = 0).
  { rewrite !Z.div_div by lia. apply Z.div_small. change (2 ^ 32) with (256 * 256 * 256 * 256) in Ha. lia. }
  lia.
Qed.

(** A reply finds its way back.  The endpoint recorded for a datagram's
    sender converts to the very address the datagram came from. *)
Theorem endpoint_round_trip a :
  fits 16 (sin_port a) -> fits 32 (sin_addr a) -> to_sockaddr (from_sockaddr a) = Some a.
Proof.
  intros Hp Ha. unfold to_sockaddr, from_sockaddr. cbn [address port].
  unfold inet_ntop. rewrite (inet_pton_dotted _ Ha). unfold ntohs. destruct (htons_involutive _ Hp) as [-> _]. by destruct a.
Qed.

Lemma endpoint_round_trip_witness :
  from_sockaddr {| sin_port := 0x901F; sin_addr := 0xC0A80017 |}
    = {| address := str "192.168.0.23"; port := 8080 |} /\
  to_sockaddr {| address := str "192.168.0.23"; port := 8080 |}
    = Some {| sin_port := 0x901F; sin_addr := 0xC0A80017 |}.
Proof.
  split; [vm_compute; reflexivity|].
  apply (endpoint_round_trip {| sin_port := 0x901F; sin_addr := 0xC0A80017 |}); vm_compute; split; congruence.
Defined.

(** No timeout ever means "wait forever".  For every requested wait,
    negative and zero ones included, the [timeval] handed to SO_RCVTIMEO is well
    formed, not zero, and worth exactly the wait, or one microsecond when that
    is not positive. *)
Theorem receive_timeout_never_zero timeout :
  let '(sec, usec) := timeval_of timeout in
  0 <= sec /\ 0 <= usec < 1000000 /\ sec * 1000000 + usec = Z.max 1 timeout.
Proof.
  unfold timeval_of. destruct (timeout <=? 0) eqn:E; bool_to_prop.
  - change (Z.quot 1 1000000) with 0. lia.
  - rewrite Z.quot_div_nonneg by lia. pose proof (Z.div_mod timeout 1000000 ltac:(lia)).
    pose proof (Z.mod_pos_bound timeout 1000000 ltac:(lia)). pose proof (Z.div_pos timeout 1000000). lia.
Qed.

(** Switching non-blocking mode is a read-modify-write of one flag. *)
Theorem nonblocking_flags_only enabled flags i :
  0 <= i -> Z.testbit (nonblocking_flags enabled flags) i =
  if decide (i = 11) then enabled else Z.testbit flags i.
Proof.
  intros Hi. assert (Z.testbit O_NONBLOCK i = bool_decide (i = 11)) as Hb.
  { change O_NONBLOCK with (2 ^ 11). rewrite Z.pow2_bits_eqb by lia.
    apply eq_true_iff_eq. rewrite Z.eqb_eq, bool_decide_eq_true. lia. }
  unfold nonblocking_flags. destruct enabled; rewrite ?Z.lor_spec, ?Z.ldiff_spec, Hb;
    case_bool_decide; case_decide; try done; simpl; by rewrite ?orb_true_r, ?orb_false_r, ?andb_false_r, ?andb_true_r.
Qed.

Lemma nonblocking_flags_only_witness :
  Z.testbit (nonblocking_flags false 0x802) 11 = false /\ Z.testbit (nonblocking_flags false 0x802) 1 = true.
Proof. split; [exact (nonblocking_flags_only false 0x802 11 ltac:(lia))|exact (nonblocking_flags_only false 0x802 1 ltac:(lia))]. Defined.
