(* ===== verification/Text.v ===== *)
(** * Numbers in text

    [std::from_chars] and the option syntax the programs of this repository share:
    decimal integers of 64 bits, and doubles, correctly rounded. *)

From Stdlib Require Import Floats.SpecFloat.
From S2P Require Import Prelude Words Doubles Net.
Open Scope Z_scope.

(** ** Digits *)

Fixpoint span_digits (text : list byte) : list Z * list byte :=
  match text with
  | [] => ([], [])
  | c :: rest =>
      match digit_value c with
      | Some d => let '(ds, rest) := span_digits rest in (d :: ds, rest)
      | None => ([], text)
      end
  end.

Definition digits_value (ds : list Z) : Z := foldl (fun v d => v * 10 + d) 0 ds.

(** [from_chars(first, last, unsigned long long&)]: the value and what follows the
    digits, unless there is none or the value does not fit. *)
Definition from_chars_u64 (text : list byte) : option (Z * list byte) :=
  let '(ds, rest) := span_digits text in
  if bool_decide (ds = []) then None
  else let v := digits_value ds in if v <? 2 ^ 64 then Some (v, rest) else None.

(** [parse_unsigned] *)
Definition parse_unsigned (text : list byte) : option Z :=
  match from_chars_u64 text with
  | Some (v, []) => Some v
  | _ => None
  end.

(** ** Decimal floating point *)

Definition to_lower (c : byte) : byte :=
  let v := Z_of_byte c in if (0x41 <=? v) && (v <=? 0x5A) then byte_of_Z (v + 0x20) else c.

(** What follows [word], in either case, if the text begins with it. *)
Fixpoint strip_word (word text : list byte) : option (list byte) :=
  match word, text with
  | [], _ => Some text
  | c :: word, d :: text => if bool_decide (c = to_lower d) then strip_word word text else None
  | _, [] => None
  end.

(** [(n-char-sequence)], if the text begins with one. *)
Definition is_nan_char (c : byte) : bool :=
  let v := Z_of_byte (to_lower c) in
  ((0x61 <=? v) && (v <=? 0x7A)) || ((0x30 <=? v) && (v <=? 0x39)) || (v =? 0x5F).

Fixpoint nan_payload (text : list byte) : option (list byte) :=
  match text with
  | [] => None
  | c :: rest =>
      if bool_decide (c = Byte.x29) then Some rest else if is_nan_char c then nan_payload rest else None
  end.

Definition after_nan (text : list byte) : list byte :=
  match text with
  | Byte.x28 :: rest => default text (nan_payload rest)
  | _ => text
  end.

(** [M * 10^X], correctly rounded. *)
Definition round_decimal (neg : bool) (M X : Z) : Double :=
  let signed v := if neg then - v else v in
  if M =? 0 then S754_zero neg
  else if 0 <=? X then binary_normalize 53 1024 (signed (M * 10 ^ X)) 0 neg
  else ddiv (S754_finite neg (Z.to_pos M) 0) (S754_finite false (Z.to_pos (10 ^ (- X))) 0).

(** The digits after a point: none unless there are digits on either side. *)
Definition fraction (whole : list Z) (text : list byte) : list Z * list byte :=
  match text with
  | Byte.x2e :: rest =>
      let '(ds, rest') := span_digits rest in
      if bool_decide (whole = []) && bool_decide (ds = []) then ([], text) else (ds, rest')
  | _ => ([], text)
  end.

(** The exponent: none unless there are digits in it. *)
Definition exponent (text : list byte) : Z * list byte :=
  match text with
  | (Byte.x65 | Byte.x45) :: rest =>
      let '(neg, rest) := match rest with
                          | Byte.x2d :: rest => (true, rest)
                          | Byte.x2b :: rest => (false, rest)
                          | _ => (false, rest)
                          end in
      let '(ds, rest) := span_digits rest in
      if bool_decide (ds = []) then (0, text)
      else (if neg : bool then - digits_value ds else digits_value ds, rest)
  | _ => (0, text)
  end.

Definition is_infinite (x : Double) : bool := match x with S754_infinity _ => true | _ => false end.
Definition is_zero (x : Double) : bool := match x with S754_zero _ => true | _ => false end.

(** [from_chars(first, last, double&)], in the general format: the value and what
    follows it; [None] for no number, or one that overflows or underflows. *)
Definition from_chars_double (text : list byte) : option (Double * list byte) :=
  let '(neg, text) := match text with Byte.x2d :: rest => (true, rest) | _ => (false, text) end in
  match strip_word (str "infinity") text, strip_word (str "inf") text, strip_word (str "nan") text with
  | Some rest, _, _ => Some (S754_infinity neg, rest)
  | None, Some rest, _ => Some (S754_infinity neg, rest)
  | None, None, Some rest => Some (S754_nan, after_nan rest)
  | None, None, None =>
      let '(whole, rest) := span_digits text in
      let '(part, rest) := fraction whole rest in
      if bool_decide (whole ++ part = []) then None
      else
        let '(exp, rest) := exponent rest in
        let M := digits_value (whole ++ part) in
        let x := round_decimal neg M (exp - Z.of_nat (length part)) in
        if is_infinite x || (is_zero x && negb (M =? 0)) then None else Some (x, rest)
  end.

(** [parse_double] *)
Definition parse_double (text : list byte) : option Double :=
  match from_chars_double text with
  | Some (x, []) => Some x
  | _ => None
  end.

Example parse_doubles :
  parse_double (str "0.05") = Some (ddiv (dint 5) (dint 100)) /\
  parse_double (str "1e-2") = Some (ddiv (dint 1) (dint 100)) /\
  parse_double (str ".5") = Some (ddiv (dint 1) (dint 2)) /\
  parse_double (str "5.E1") = Some (dint 50) /\
  parse_double (str "-0") = Some (S754_zero true) /\
  parse_double (str "NaN(x_1)") = Some S754_nan /\
  map (fun s => parse_double (str s)) ["."; ""; "+1"; "1e"; "0x1"; " 1"; "1e999"; "1e-999"; "nan(+)"]%string
    = replicate 9 None.
Proof. by split_and!; vm_compute. Qed.

(** ** Options *)

(** [--name=value]: the name with its dashes, and the value, empty when there is no
    equals sign. *)
Definition is_option (arg : list byte) : bool :=
  match arg with
  | Byte.x2d :: Byte.x2d :: _ => true
  | _ => false
  end.

Fixpoint split_option (arg : list byte) : list byte * list byte :=
  match arg with
  | [] => ([], [])
  | Byte.x3d :: value => ([], value)
  | c :: rest => let '(name, value) := split_option rest in (c :: name, value)
  end.

(** ** What the parsers accept *)

Abbreviation digits := (Forall (fun d => 0 <= d < 10)).

Lemma digit_value_Some c d : digit_value c = Some d -> c = digit_byte d /\ 0 <= d < 10.
Proof.
  unfold digit_value, digit_byte. intros H. inv_guards H.
  replace (0x30 + (Z_of_byte c - 0x30)) with (Z_of_byte c) by lia. rewrite byte_of_Z_of_byte. split; [done|lia].
Qed.

Lemma span_digits_inv text ds rest :
  span_digits text = (ds, rest) -> text = map digit_byte ds ++ rest /\ digits ds.
Proof.
  revert ds. induction text as [|c text IH]; intros ds; simpl; [by intros [= <- <-]|].
  destruct (digit_value c) as [d|] eqn:Hc; [|by intros [= <- <-]].
  destruct (span_digits text) as [ds' rest'] eqn:Hs. intros [= <- ->].
  apply digit_value_Some in Hc as [-> Hd]. destruct (IH ds' eq_refl) as [-> Hds]. split; [done|]. by constructor.
Qed.

Lemma span_digits_digits ds : digits ds -> span_digits (map digit_byte ds) = (ds, []).
Proof. induction 1 as [|d ds Hd _ IH]; simpl; [done|]. by rewrite digit_value_byte, IH. Qed.

(** Exactly the non-empty strings of digits whose value fits in 64 bits. *)
Lemma parse_unsigned_spec text n :
  parse_unsigned text = Some n <->
  exists ds, text = map digit_byte ds /\ ds <> [] /\ digits ds /\ n = digits_value ds /\ n < 2 ^ 64.
Proof.
  unfold parse_unsigned, from_chars_u64. split.
  - destruct (span_digits text) as [ds rest] eqn:Hs. apply span_digits_inv in Hs as [-> Hds].
    intros H. inv_guards H. exists ds. rewrite app_nil_r. by split_and!.
  - intros (ds & -> & Hne & Hds & -> & Hlt). rewrite span_digits_digits by done.
    rewrite bool_decide_false, (proj2 (Z.ltb_lt _ _)) by done. done.
Qed.

Lemma digits_value_snoc ds d : digits_value (ds ++ [d]) = digits_value ds * 10 + d.
Proof. unfold digits_value. by rewrite foldl_app. Qed.

Lemma digits_value_nonneg ds : digits ds -> 0 <= digits_value ds.
Proof.
  induction ds as [|d ds IH] using rev_ind; [done|]. rewrite Forall_app, digits_value_snoc.
  intros [Hds Hd%Forall_inv]. specialize (IH Hds). lia.
Qed.

Lemma parse_unsigned_range text n : parse_unsigned text = Some n -> 0 <= n < 2 ^ 64.
Proof. intros (ds & _ & _ & Hds & -> & ?)%parse_unsigned_spec. split; [by apply digits_value_nonneg|done]. Qed.

(** The digits [std::format] prints of an unsigned number. *)
Fixpoint format_digits (fuel : nat) (n : Z) : list Z :=
  match fuel with
  | O => []
  | S fuel => if n <? 10 then [n] else format_digits fuel (n / 10) ++ [n mod 10]
  end.
Definition format_unsigned (n : Z) : list byte := map digit_byte (format_digits 20 n).

Lemma format_digits_spec fuel n :
  (0 < fuel)%nat -> 0 <= n < 10 ^ Z.of_nat fuel ->
  digits (format_digits fuel n) /\ format_digits fuel n <> [] /\ digits_value (format_digits fuel n) = n.
Proof.
  revert n. induction fuel as [|fuel IH]; intros n Hf Hn; [lia|]. cbn [format_digits].
  destruct (n <? 10) eqn:Hs; bool_to_prop.
  { split_and!; [apply Forall_singleton; lia|done|]. unfold digits_value. simpl. lia. }
  rewrite Nat2Z.inj_succ, Z.pow_succ_r in Hn by lia.
  pose proof (Z.div_lt_upper_bound n 10 (10 ^ Z.of_nat fuel)). pose proof (Z.div_pos n 10).
  pose proof (Z.mod_pos_bound n 10). pose proof (Z.div_mod n 10).
  destruct fuel as [|fuel']; [simpl in *; lia|]. destruct (IH (n / 10)) as (Hd & Hne & Hv); [lia..|].
  split_and!.
  - apply Forall_app. split; [done|]. apply Forall_singleton. lia.
  - by intros []%app_eq_nil.
  - rewrite digits_value_snoc, Hv. lia.
Qed.

(** What is printed is read back. *)
Lemma parse_format n : 0 <= n < 2 ^ 64 -> parse_unsigned (format_unsigned n) = Some n.
Proof.
  intros Hn. apply parse_unsigned_spec. exists (format_digits 20 n).
  destruct (format_digits_spec 20 n) as (? & ? & Hv); [lia|simpl; lia|]. split_and!; try done. lia.
Qed.

Lemma SFcompare_zero_nan x : SFcompare x dzero = None -> x = S754_nan.
Proof. by destruct x as [[]|[]| |[] m e]. Qed.

Lemma SFcompare_flip x y : SFcompare x y = CompOpp <$> SFcompare y x.
Proof.
  destruct x as [sx|sx| |sx mx ex], y as [sy|sy| |sy my ey]; try (destruct sx); try (destruct sy); try done.
  all: simpl; rewrite Z.compare_antisym; destruct (ey ?= ex)%Z; simpl; try done.
  all: rewrite Pos.compare_cont_antisym; simpl; by destruct (Pos.compare_cont _ _ _).
Qed.

Lemma SFcompare_ordered x y : x <> S754_nan -> y <> S754_nan -> is_Some (SFcompare x y).
Proof.
  intros Hx Hy. destruct x as [sx|sx| |sx mx ex], y as [sy|sy| |sy my ey]; try done;
    simpl; try (destruct sx); try (destruct sy); try (by eexists); by destruct (_ ?= _)%Z; eexists.
Qed.

(** The range test keeps out everything but a NaN and the unit interval. *)
Lemma outside_unit_spec x :
  outside_unit x = false <-> x = S754_nan \/ (SFleb dzero x = true /\ SFleb x (dint 1) = true).
Proof.
  assert (x = S754_nan \/ x <> S754_nan) as [->|Hx] by (destruct x; by (left + right)); [by split; [left|]|].
  unfold outside_unit, SFltb, SFleb. rewrite (SFcompare_flip dzero), (SFcompare_flip (dint 1)).
  destruct (SFcompare x dzero) as [c|] eqn:H0; [|by apply SFcompare_zero_nan in H0].
  destruct (SFcompare_ordered x (dint 1) Hx) as [c' ->]; [by vm_compute|].
  destruct c, c'; simpl; naive_solver.
Qed.
