(* ===== verification/Ownership.v ===== *)
(** * Ownership of descriptors

    [io::UniqueFd] (src/include/swiftlink/io/unique_fd.hpp) and the same pattern in
    [io::File] and [net::UdpSocket]: one object owns one descriptor, moves hand it
    over, and destruction closes it.  The objects live in a store of their own, so
    that moves between two of them, self-assignment included, are what they are in
    the source; the kernel's table of open descriptors says when a [close] is one
    too many. *)

From S2P Require Import Prelude.
Open Scope Z_scope.

Record Store := { objects : gmap nat Z; open_fds : gset Z }.

(** [::close(fd)]: [None] when the descriptor is not open any more. *)
Definition close_fd (fd : Z) (st : Store) : option Store :=
  if decide (fd ∈ open_fds st)
  then Some {| objects := objects st; open_fds := open_fds st ∖ {[fd]} |} else None.

Definition assign (o : nat) (fd : Z) (st : Store) : Store :=
  {| objects := <[o := fd]> (objects st); open_fds := open_fds st |}.

(** [if (fd_ >= 0) ::close(fd_)] *)
Definition release (o : nat) (st : Store) : option Store :=
  match objects st !! o with
  | None => None
  | Some fd => if 0 <=? fd then close_fd fd st else Some st
  end.

(** [UniqueFd::reset(fd)]; with [-1] it is also [File::close] and
    [UdpSocket::close]. *)
Definition reset (o : nat) (fd : Z) (st : Store) : option Store :=
  st ← release o st; Some (assign o fd st).

(** [UniqueFd(UniqueFd&&)], [File(File&&)], [UdpSocket(UdpSocket&&)]. *)
Definition move_construct (o src : nat) (st : Store) : option Store :=
  match objects st !! src with
  | None => None
  | Some fd => Some (assign src (-1) (assign o fd st))
  end.

(** The move assignments: close what is held, take over, let the source
    forget; nothing on self-assignment. *)
Definition move_assign (o src : nat) (st : Store) : option Store :=
  if decide (o = src) then Some st
  else
    st ← release o st;
    match objects st !! src with
    | None => None
    | Some fd => Some (assign src (-1) (assign o fd st))
    end.

Definition destruct_object (o : nat) (st : Store) : option Store :=
  st ← reset o (-1) st;
  Some {| objects := delete o (objects st); open_fds := open_fds st |}.

(** The kernel opens a descriptor, or fails with -1. *)
Definition acquire (fd : Z) (st : Store) : Store :=
  {| objects := objects st; open_fds := if 0 <=? fd then {[fd]} ∪ open_fds st else open_fds st |}.

Inductive Command :=
| Construct (o : nat) (fd : Z)
| Reset (o : nat) (fd : Z)
| Reopen (o : nat) (fd : Z)
| MoveConstruct (o src : nat)
| MoveAssign (o src : nat)
| Destroy (o : nat).

(** [Construct] and [Reset] are given a descriptor the kernel just opened;
    [Reopen] is [File::open_read], [File::open_write] and [UdpSocket::open], which
    close first. *)
Definition exec (c : Command) (st : Store) : option Store :=
  match c with
  | Construct o fd => Some (assign o fd (acquire fd st))
  | Reset o fd => reset o fd (acquire fd st)
  | Reopen o fd => st ← reset o (-1) st; Some (assign o fd (acquire fd st))
  | MoveConstruct o src => move_construct o src st
  | MoveAssign o src => move_assign o src st
  | Destroy o => destruct_object o st
  end.

Fixpoint exec_all (cs : list Command) (st : Store) : option Store :=
  match cs with
  | [] => Some st
  | c :: cs => st ← exec c st; exec_all cs st
  end.

(** A command the language and the kernel allow: objects are constructed once
    and not used after their destruction, and the kernel never hands out a
    descriptor that is open. *)
Definition allowed (st : Store) (c : Command) : Prop :=
  match c with
  | Construct o fd => objects st !! o = None /\ -1 <= fd /\ fd ∉ open_fds st
  | Reset o fd => is_Some (objects st !! o) /\ -1 <= fd /\ fd ∉ open_fds st
  | Reopen o fd =>
      match objects st !! o with
      | Some old => -1 <= fd /\ fd ∉ open_fds st ∖ {[old]}
      | None => False
      end
  | MoveConstruct o src => objects st !! o = None /\ is_Some (objects st !! src)
  | MoveAssign o src => is_Some (objects st !! o) /\ is_Some (objects st !! src)
  | Destroy o => is_Some (objects st !! o)
  end.

Fixpoint allowed_all (cs : list Command) (st : Store) : Prop :=
  match cs with
  | [] => True
  | c :: cs => allowed st c /\ match exec c st with Some st => allowed_all cs st | None => True end
  end.

#[export] Instance allowed_dec st c : Decision (allowed st c).
Proof. destruct c; simpl; try apply _. destruct (objects st !! o); apply _. Defined.
#[export] Instance allowed_all_dec cs st : Decision (allowed_all cs st).
Proof.
  revert st. induction cs as [|c cs IH]; intros st; simpl; [apply _|].
  apply and_dec; [apply _|]. destruct (exec c st); [apply IH|apply _].
Defined.

(** ** One owner each *)

Record owned (st : Store) : Prop := {
  own_range o fd : objects st !! o = Some fd -> -1 <= fd;
  own_open o fd : objects st !! o = Some fd -> 0 <= fd -> fd ∈ open_fds st;
  own_held fd : fd ∈ open_fds st -> 0 <= fd /\ exists o, objects st !! o = Some fd;
  own_once o1 o2 fd : objects st !! o1 = Some fd -> objects st !! o2 = Some fd -> 0 <= fd -> o1 = o2
}.

(** After [release], the object holds a stale number nobody else owns. *)
Record released (o : nat) (st : Store) : Prop := {
  rel_alive : is_Some (objects st !! o);
  rel_owned : owned (assign o (-1) st)
}.

Lemma release_owned o st :
  owned st -> is_Some (objects st !! o) -> exists st', release o st = Some st' /\ released o st' /\
    objects st' = objects st.
Proof.
  intros [] [fd Hfd]. unfold release, close_fd. rewrite Hfd.
  destruct (0 <=? fd) eqn:E; bool_to_prop.
  - rewrite decide_True by (by apply (own_open0 o)). eexists. split; [done|].
    split; [|done]. split; [by exists fd|]. split; simpl.
    + intros x g [[<- <-]|[_ Hx]]%lookup_insert_Some; [lia|by eapply own_range0].
    + intros x g [[<- <-]|[Hne Hx]]%lookup_insert_Some Hg; [lia|].
      apply elem_of_difference. split; [by eapply own_open0|]. rewrite elem_of_singleton. intros ->.
      by apply Hne, (own_once0 o x fd).
    + intros g [Hg Hne]%elem_of_difference. rewrite elem_of_singleton in Hne.
      destruct (own_held0 g Hg) as (? & x & Hx). split; [done|]. exists x.
      rewrite lookup_insert_ne; [done|]. intros ->. congruence.
    + intros x y g [[<- <-]|[_ Hx]]%lookup_insert_Some [[<- ?]|[_ Hy]]%lookup_insert_Some Hg; try lia.
      by eapply own_once0.
  - eexists. split; [done|]. split; [|done]. split; [by exists fd|].
    assert (fd = -1) as -> by (pose proof (own_range0 o fd Hfd); lia).
    unfold assign. rewrite insert_id by done. by destruct st.
Qed.

(** Handing a released object a descriptor: a fresh one, or one whose owner
    forgets it. *)
Lemma assign_fresh o fd st :
  owned (assign o (-1) st) -> -1 <= fd -> fd ∉ open_fds st -> owned (assign o fd (acquire fd st)).
Proof.
  intros [] Hr Hn. unfold assign, acquire in *. simpl in *. split; simpl.
  - intros x g [[<- <-]|[Hx Hg]]%lookup_insert_Some; [done|].
    apply (own_range0 x). by rewrite lookup_insert_ne.
  - intros x g [[<- <-]|[Hx Hg]]%lookup_insert_Some Hpos.
    + rewrite (proj2 (Z.leb_le _ _)) by done. set_solver.
    + assert (g ∈ open_fds st) by (apply (own_open0 x); [by rewrite lookup_insert_ne|done]).
      case_match; set_solver.
  - intros g Hg. destruct (0 <=? fd) eqn:E; bool_to_prop.
    + apply elem_of_union in Hg as [->%elem_of_singleton|Hg]; [split; [done|exists o; by rewrite lookup_insert_eq]|].
      destruct (own_held0 g Hg) as (Hp & x & Hx). split; [done|]. exists x.
      destruct (decide (x = o)) as [->|]; [rewrite lookup_insert_eq in Hx; simplify_eq; lia|].
      by rewrite lookup_insert_ne in *.
    + destruct (own_held0 g Hg) as (Hp & x & Hx). split; [done|]. exists x.
      destruct (decide (x = o)) as [->|]; [rewrite lookup_insert_eq in Hx; simplify_eq; lia|].
      by rewrite lookup_insert_ne in *.
  - assert (forall x g, x <> o -> objects st !! x = Some g -> 0 <= g -> g <> fd) as Hother.
    { intros x g Hx Hg Hp ->. apply Hn, (own_open0 x); [by rewrite lookup_insert_ne|done]. }
    intros x y g [[Hx Hg]|[Hx Hg]]%lookup_insert_Some [[Hy Hg']|[Hy Hg']]%lookup_insert_Some Hp.
    + congruence.
    + destruct (Hother y g); [congruence|done..].
    + destruct (Hother x g); [congruence|done..].
    + apply (own_once0 x y g); by rewrite ?lookup_insert_ne.
Qed.

Lemma assign_moved o src fd st :
  o <> src -> owned (assign o (-1) st) -> objects st !! src = Some fd ->
  owned (assign src (-1) (assign o fd st)).
Proof.
  intros Hne [] Hsrc. unfold assign in *. simpl in *.
  assert (-1 <= fd) as Hfd by (apply (own_range0 src); by rewrite lookup_insert_ne).
  assert (forall x g, x <> o -> objects st !! x = Some g -> <[o:=-1]> (objects st) !! x = Some g) as Hold.
  { intros x g ? ?. by rewrite lookup_insert_ne. }
  split; simpl.
  - intros x g [[<- <-]|[? [[<- <-]|[Hx Hg]]%lookup_insert_Some]]%lookup_insert_Some; [lia|done|].
    apply (own_range0 x). by apply Hold.
  - intros x g [[<- <-]|[? [[<- <-]|[Hx Hg]]%lookup_insert_Some]]%lookup_insert_Some Hp; [lia| |].
    + apply (own_open0 src); [by apply Hold|done].
    + apply (own_open0 x); [by apply Hold|done].
  - intros g Hg. destruct (own_held0 g Hg) as (Hp & x & Hx). split; [done|].
    destruct (decide (x = src)) as [->|Hxs].
    + exists o. rewrite lookup_insert_ne, lookup_insert_eq by done.
      rewrite lookup_insert_ne in Hx by done. congruence.
    + exists x. destruct (decide (x = o)) as [->|]; [rewrite lookup_insert_eq in Hx; simplify_eq; lia|].
      by rewrite !lookup_insert_ne in *.
  - intros x y g [[? ?]|[? [[? ?]|[Hx Hg]]%lookup_insert_Some]]%lookup_insert_Some
      [[? ?]|[? [[? ?]|[Hy Hg']]%lookup_insert_Some]]%lookup_insert_Some Hp; try lia; subst; try done.
    + by destruct (own_once0 src y g); auto.
    + by destruct (own_once0 x src g); auto.
    + apply (own_once0 x y g); auto.
Qed.

Lemma absent_owned o st : owned st -> objects st !! o = None -> owned (assign o (-1) st).
Proof.
  intros [] Ho. unfold assign. split; simpl.
  - intros x g [[<- <-]|[_ Hg]]%lookup_insert_Some; [lia|by eapply own_range0].
  - intros x g [[<- <-]|[_ Hg]]%lookup_insert_Some Hp; [lia|by eapply own_open0].
  - intros g Hg. destruct (own_held0 g Hg) as (? & x & Hx). split; [done|]. exists x.
    rewrite lookup_insert_ne; [done|]. intros ->. congruence.
  - intros x y g [[? ?]|[_ Hx]]%lookup_insert_Some [[? ?]|[_ Hy]]%lookup_insert_Some Hp; try lia.
    by eapply own_once0.
Qed.

(** Forgetting an object that holds nothing. *)
Lemma delete_owned o st :
  owned (assign o (-1) st) -> owned {| objects := delete o (<[o := -1]> (objects st)); open_fds := open_fds st |}.
Proof.
  intros []. unfold assign in *. simpl in *. rewrite delete_insert_eq.
  assert (forall x g, delete o (objects st) !! x = Some g -> <[o:=-1]> (objects st) !! x = Some g) as Hold.
  { intros x g [? ?]%lookup_delete_Some. by rewrite lookup_insert_ne. }
  split; simpl.
  - intros x g Hx%Hold. by eapply own_range0.
  - intros x g Hx%Hold. by eapply own_open0.
  - intros g Hg. destruct (own_held0 g Hg) as (? & x & Hx). split; [done|]. exists x.
    apply lookup_insert_Some in Hx as [[<- <-]|[? ?]]; [lia|]. by rewrite lookup_delete_ne.
  - intros x y g Hx%Hold Hy%Hold. by eapply own_once0.
Qed.

Lemma acquire_owned fd o st :
  owned st -> fd ∉ open_fds st -> is_Some (objects st !! o) ->
  exists st', release o (acquire fd st) = Some (acquire fd st') /\ released o st' /\
    objects st' = objects st /\ fd ∉ open_fds st'.
Proof.
  intros Ho Hn Hs. destruct (release_owned o st Ho Hs) as (st' & Hr & Hrel & Hobj).
  exists st'. unfold release, close_fd in *. simpl. destruct Hs as [old Hold]. rewrite Hold in *.
  destruct (0 <=? old) eqn:E; [|by simplify_eq]. bool_to_prop.
  pose proof (own_open _ Ho o old Hold E) as Hin. rewrite decide_True in Hr by done. simplify_eq. simpl in *.
  rewrite decide_True by (case_match; set_solver). split_and!; [|done|done|set_solver].
  f_equal. unfold acquire. simpl. f_equal. case_match; [|done]. apply set_eq. intros x. set_solver.
Qed.

Lemma exec_owned c st :
  owned st -> allowed st c -> exists st', exec c st = Some st' /\ owned st'.
Proof.
  intros Ho. destruct c as [o fd|o fd|o fd|o src|o src|o]; simpl.
  - intros (Hnew & Hr & Hn). eexists. split; [done|]. apply assign_fresh; [by apply absent_owned|done..].
  - intros (Hs & Hr & Hn). destruct (acquire_owned fd o st Ho Hn Hs) as (st' & Hrel & [_ Hown] & _ & Hn').
    unfold reset. rewrite Hrel. simpl. eexists. split; [done|]. by apply (assign_fresh o fd st').
  - destruct (objects st !! o) as [old|] eqn:Hold; [|done]. intros (Hr & Hn). destruct (release_owned o st Ho ltac:(by exists old)) as (st' & Hrel & [_ Hown] & _).
    unfold reset. rewrite Hrel. simpl. eexists. split; [done|].
    assert (assign o fd (acquire fd (assign o (-1) st')) = assign o fd (acquire fd st')) as ->.
    { unfold assign, acquire. simpl. by rewrite insert_insert_eq. }
    apply assign_fresh; [done..|]. unfold release, close_fd in Hrel. rewrite Hold in Hrel.
    destruct (0 <=? old) eqn:E; [|simplify_eq].
    + destruct (decide _); simplify_eq. done.
    + bool_to_prop. intros Hin. apply Hn, elem_of_difference. split; [done|].
      rewrite elem_of_singleton. intros ->. apply (own_held _ Ho) in Hin. lia.
  - intros [Hnew [fd Hsrc]]. unfold move_construct. rewrite Hsrc. eexists. split; [done|].
    apply assign_moved; [congruence|by apply absent_owned|done].
  - intros [Hs [fd Hsrc]]. unfold move_assign. case_decide as He; [by exists st|].
    destruct (release_owned o st Ho Hs) as (st' & Hrel & [_ Hown] & Hobj). rewrite Hrel. simpl.
    rewrite Hobj, Hsrc. eexists. split; [done|]. apply assign_moved; [done..|by rewrite Hobj].
  - intros Hs. destruct (release_owned o st Ho Hs) as (st' & Hrel & [_ Hown] & _).
    unfold destruct_object, reset. rewrite Hrel. simpl. eexists. split; [done|]. by apply delete_owned.
Qed.

Definition no_objects : Store := {| objects := ∅; open_fds := ∅ |}.

(** C35: descriptors are closed exactly once.  No sequence of constructions,
    moves, self-moves, resets, reopenings and destructions ever closes a
    descriptor that is not open; at every point each open descriptor has exactly
    one owner, and when the last object is gone nothing is left open. *)
Theorem descriptors_closed_once cs :
  allowed_all cs no_objects ->
  exists st, exec_all cs no_objects = Some st /\
    (forall fd, fd ∈ open_fds st -> exists o, objects st !! o = Some fd /\
       forall o', objects st !! o' = Some fd -> o' = o) /\
    (objects st = ∅ -> open_fds st = ∅).
Proof.
  assert (owned no_objects) as Ho by (by split; simpl).
  revert Ho. generalize no_objects as st. induction cs as [|c cs IH]; intros st Ho; simpl.
  - intros _. exists st. split; [done|]. split.
    + intros fd Hfd. destruct (own_held _ Ho fd Hfd) as (Hp & o & Hobj). exists o. split; [done|].
      intros o' Ho'. by apply (own_once _ Ho o' o fd).
    + intros Hnone. apply set_eq. intros fd. split; [|by intros ?%elem_of_empty]. intros Hfd.
      destruct (own_held _ Ho fd Hfd) as (_ & o & Hobj). by rewrite Hnone, lookup_empty in Hobj.
  - intros [Hc Hcs]. destruct (exec_owned c st Ho Hc) as (st' & He & Ho'). rewrite He in *. simpl. by apply IH.
Qed.

Lemma descriptors_closed_once_witness :
  open_fds <$> exec_all
    [Construct 1 5; MoveConstruct 2 1; MoveAssign 2 2; Construct 3 6; MoveAssign 3 2; Reopen 3 5; Reset 2 7;
     Destroy 1; Destroy 2; Destroy 3] no_objects = Some ∅.
Proof.
  destruct (descriptors_closed_once
    [Construct 1 5; MoveConstruct 2 1; MoveAssign 2 2; Construct 3 6; MoveAssign 3 2; Reopen 3 5; Reset 2 7;
     Destroy 1; Destroy 2; Destroy 3]) as (st & He & _ & Hnone).
  - apply (bool_decide_unpack _). vm_compute. exact I.
  - rewrite He. simpl. f_equal. apply Hnone. vm_compute in He. injection He as <-. vm_compute. reflexivity.
Defined.
