(* ===== verification/Monad.v ===== *)
(** * Drivers that send, wait and give up

    The sender threads the system, its local objects and early returns through many
    calls; [Run] is the monad of that.  A result is a value, an early [return] of
    the enclosing function, or [Spin]: the loop that the fuel was for is still going
    round. *)

From S2P Require Import Prelude Words Transfer.
Open Scope Z_scope.

Inductive Res (A : Type) :=
| Val (a : A)
| Ret (e : TransferError)
| Spin.
Arguments Val {A} a.
Arguments Ret {A} e.
Arguments Spin {A}.

Section Monad.
Context {W S : Type}.

Definition Run (A : Type) : Type := W -> S -> W * S * Res A.

Definition ret {A} (a : A) : Run A := fun w st => (w, st, Val a).
Definition throw {A} (e : TransferError) : Run A := fun w st => (w, st, Ret e).
Definition spin {A} : Run A := fun w st => (w, st, Spin).
Definition sys {A} (f : W -> W * A) : Run A := fun w st => let '(w, a) := f w in (w, st, Val a).
(** On the local objects. *)
Definition local {A} (f : S -> S * A) : Run A := fun w st => let '(st, a) := f st in (w, st, Val a).
Definition seq_bind {A B} (m : Run A) (k : A -> Run B) : Run B :=
  fun w st =>
    let '(w, st, r) := m w st in
    match r with
    | Val a => k a w st
    | Ret e => (w, st, Ret e)
    | Spin => (w, st, Spin)
    end.

(** ** Triples *)

(** Nothing is asked of the local objects. *)
Definition any : S -> Prop := fun _ => True.

(** From a system satisfying [P], with local objects of which [I] holds, [m] ends in
    one satisfying [Q a] when it yields [a], [E] when the function returns early, and
    [L] when the fuel is used up, and [I] still holds. *)
Definition triple (I : S -> Prop) {A} (P : W -> Prop) (m : Run A) (Q : A -> W -> Prop)
    (E : TransferError -> W -> Prop) (L : W -> Prop) : Prop :=
  forall w st, P w -> I st ->
    let '(w', st', r) := m w st in
    I st' /\ match r with Val a => Q a w' | Ret e => E e w' | Spin => L w' end.

Section Rules.
Context {I : S -> Prop}.

Lemma triple_ret {A} (a : A) (P : W -> Prop) Q E L : (forall w, P w -> Q a w) -> triple I P (ret a) Q E L.
Proof. intros H w st Hw Hs. split; [done|by apply H]. Qed.

Lemma triple_throw {A} e (P : W -> Prop) (Q : A -> W -> Prop) E L :
  (forall w, P w -> E e w) -> triple I P (throw e) Q E L.
Proof. intros H w st Hw Hs. split; [done|by apply H]. Qed.

Lemma triple_spin {A} (P : W -> Prop) (Q : A -> W -> Prop) E (L : W -> Prop) :
  (forall w, P w -> L w) -> triple I P spin Q E L.
Proof. intros H w st Hw Hs. split; [done|by apply H]. Qed.

Lemma triple_sys {A} (f : W -> W * A) (P : W -> Prop) (Q : A -> W -> Prop) E L :
  (forall w, P w -> let '(w', a) := f w in Q a w') -> triple I P (sys f) Q E L.
Proof. intros H w st Hw Hs. unfold sys. specialize (H w Hw). by destruct (f w). Qed.

Lemma triple_bind {A B} (m : Run A) (k : A -> Run B) P R Q E L :
  triple I P m R E L -> (forall a, triple I (R a) (k a) Q E L) -> triple I P (seq_bind m k) Q E L.
Proof.
  intros Hm Hk w st Hw Hs. unfold seq_bind. specialize (Hm w st Hw Hs).
  destruct (m w st) as [[w1 st1] [a|e|]]; destruct Hm as [Hs1 Hm]; [|done..]. by apply Hk.
Qed.

(** Work on the local objects changes no system. *)
Lemma triple_locally_keeping {A B} (g : S -> S * B) (k : B -> Run A) P Q E L :
  (forall s, I s -> I (g s).1) -> (forall b, triple I P (k b) Q E L) -> triple I P (seq_bind (local g) k) Q E L.
Proof.
  intros Hg Hk w st Hw Hs. unfold seq_bind, local. specialize (Hg st Hs). destruct (g st) as [st' b]. by apply Hk.
Qed.

Lemma triple_counting_keeping {A} (g : S -> S) (k : Run A) P Q E L :
  (forall s, I s -> I (g s)) -> triple I P k Q E L -> triple I P (seq_bind (local (fun s => (g s, tt))) (fun _ => k)) Q E L.
Proof. intros Hg Hk. by apply triple_locally_keeping. Qed.

Lemma triple_if {A} (b : bool) (m1 m2 : Run A) P Q E L :
  (b = true -> triple I P m1 Q E L) -> (b = false -> triple I P m2 Q E L) ->
  triple I P (if b then m1 else m2) Q E L.
Proof. intros H1 H2. destruct b; auto. Qed.

Lemma triple_pre {A} (P P' : W -> Prop) (m : Run A) Q E L :
  triple I P' m Q E L -> (forall w, P w -> P' w) -> triple I P m Q E L.
Proof. intros H Hp w st Hw. by apply H, Hp. Qed.

Lemma triple_post {A} (P : W -> Prop) (m : Run A) (Q Q' : A -> W -> Prop) E L :
  triple I P m Q E L -> (forall a w, Q a w -> Q' a w) -> triple I P m Q' E L.
Proof. intros H Hq w st Hw Hs. specialize (H w st Hw Hs). destruct (m w st) as [[w' st'] []]; naive_solver. Qed.

Lemma triple_prop {A} (phi : Prop) (P : W -> Prop) (m : Run A) Q E L :
  (phi -> triple I P m Q E L) -> triple I (fun w => phi /\ P w) m Q E L.
Proof. intros H w st [Hphi Hw]. by apply H. Qed.

(** What the system tells can be used. *)
Lemma triple_fact {A} (phi : Prop) (P : W -> Prop) (m : Run A) Q E L :
  (forall w, P w -> phi) -> (phi -> triple I P m Q E L) -> triple I P m Q E L.
Proof. intros Hphi H w st Hw. by apply (H (Hphi w Hw)). Qed.

(** What holds of some abstract state can be taken apart before going on. *)
Lemma triple_ex {A X} (phi : X -> Prop) (P : X -> W -> Prop) (m : Run A) Q E L :
  (forall x, phi x -> triple I (P x) m Q E L) -> triple I (fun w => exists x, phi x /\ P x w) m Q E L.
Proof. intros H w st (x & Hx & Hw). by apply (H x). Qed.

(** From each system by itself. *)
Lemma triple_from {A} (P : W -> Prop) (m : Run A) Q E L :
  (forall w0, P w0 -> triple I (fun w => w = w0) m Q E L) -> triple I P m Q E L.
Proof. intros Hfrom w st Hw. by apply (Hfrom w Hw w st). Qed.
End Rules.

Lemma triple_locally {A B} (g : S -> S * B) (k : B -> Run A) P Q E L :
  (forall b, triple any P (k b) Q E L) -> triple any P (seq_bind (local g) k) Q E L.
Proof. by apply triple_locally_keeping. Qed.

Lemma triple_counting {A} (g : S -> S) (k : Run A) P Q E L :
  triple any P k Q E L -> triple any P (seq_bind (local (fun s => (g s, tt))) (fun _ => k)) Q E L.
Proof. by apply triple_counting_keeping. Qed.

Lemma triple_count (g : S -> S) (P : W -> Prop) Q E L :
  (forall w, P w -> Q tt w) -> triple any P (local (fun s => (g s, tt))) Q E L.
Proof. intros H w st Hw Hs. split; [done|by apply H]. Qed.

(** Run from some system. *)
Lemma triple_run {A} I w st P (m : Run A) Q E L :
  triple I P m Q E L -> P w -> I st ->
  let '(w', _, r) := m w st in match r with Val a => Q a w' | Ret e => E e w' | Spin => L w' end.
Proof. intros H Hw Hs. specialize (H w st Hw Hs). destruct (m w st) as [[w' st'] r]. apply H. Qed.
End Monad.
Arguments Run : clear implicits.

Notation "'let!' x := m 'in' k" := (seq_bind m (fun x => k))
  (at level 10, x pattern, m at level 100, k at level 200,
   format "'[v' 'let!'  x  :=  m  'in' '/' k ']'") : swl_scope.
