(* ===== verification/ReceiverSession.v ===== *)
(** * One receiving session

    [ReceiverSession] of src/include/swiftlink/transfer/receiver_session.hpp and
    src/src/transfer/receiver_session.cpp: the state machine that turns the
    packets of one peer into a file.  The handlers pass the state of the file
    system along; everything they do to it goes through FileIO.v. *)

From S2P Require Import Prelude Words Packet Sha256 Filename Transfer ReceiverWindow FileIO.
Import Packet.Packet.
Open Scope Z_scope.

Record Reply := {
  send : bool;
  type : PacketType;
  sequence : Z;
  reply_payload : list byte
}.
(** [Reply{}] *)
Definition no_reply : Reply := {| send := false; type := kAck; sequence := 0; reply_payload := [] |}.
Definition reply_with (t : PacketType) (seq : Z) : Reply :=
  {| send := true; type := t; sequence := seq; reply_payload := [] |}.

Record ReceiverSession := {
  file_ : File;
  window_ : ReceiverWindow;
  output_directory_ : path;
  output_path_ : path;
  temp_path_ : path;
  published_ : bool;
  session_id_ : Z;
  declared_size_ : Z;
  bytes_written_ : Z;
  started_ : bool;
  finished_ : bool;
  final_reply_ : Reply;
  error_ : TransferError;
  stats_ : TransferStats
}.

Definition new_session (window_capacity : Z) (output_directory : path) : ReceiverSession := {|
  file_ := closed_file; window_ := new_receiver_window window_capacity;
  output_directory_ := output_directory; output_path_ := []; temp_path_ := [];
  published_ := false; session_id_ := 0; declared_size_ := 0; bytes_written_ := 0;
  started_ := false; finished_ := false; final_reply_ := no_reply;
  error_ := Transfer.kNone; stats_ := default_stats |}.

(** Assignments to the members. *)
Definition set_file (f : File) (s : ReceiverSession) : ReceiverSession := {|
  file_ := f; window_ := window_ s; output_directory_ := output_directory_ s;
  output_path_ := output_path_ s; temp_path_ := temp_path_ s; published_ := published_ s;
  session_id_ := session_id_ s; declared_size_ := declared_size_ s;
  bytes_written_ := bytes_written_ s; started_ := started_ s; finished_ := finished_ s;
  final_reply_ := final_reply_ s; error_ := error_ s; stats_ := stats_ s |}.
Definition set_stats (f : TransferStats -> TransferStats) (s : ReceiverSession) : ReceiverSession := {|
  file_ := file_ s; window_ := window_ s; output_directory_ := output_directory_ s;
  output_path_ := output_path_ s; temp_path_ := temp_path_ s; published_ := published_ s;
  session_id_ := session_id_ s; declared_size_ := declared_size_ s;
  bytes_written_ := bytes_written_ s; started_ := started_ s; finished_ := finished_ s;
  final_reply_ := final_reply_ s; error_ := error_ s; stats_ := f (stats_ s) |}.
Definition set_session_id (sid : Z) (s : ReceiverSession) : ReceiverSession := {|
  file_ := file_ s; window_ := window_ s; output_directory_ := output_directory_ s;
  output_path_ := output_path_ s; temp_path_ := temp_path_ s; published_ := published_ s;
  session_id_ := sid; declared_size_ := declared_size_ s;
  bytes_written_ := bytes_written_ s; started_ := started_ s; finished_ := finished_ s;
  final_reply_ := final_reply_ s; error_ := error_ s; stats_ := stats_ s |}.
Definition set_paths (output temp : path) (s : ReceiverSession) : ReceiverSession := {|
  file_ := file_ s; window_ := window_ s; output_directory_ := output_directory_ s;
  output_path_ := output; temp_path_ := temp; published_ := published_ s;
  session_id_ := session_id_ s; declared_size_ := declared_size_ s;
  bytes_written_ := bytes_written_ s; started_ := started_ s; finished_ := finished_ s;
  final_reply_ := final_reply_ s; error_ := error_ s; stats_ := stats_ s |}.
(** [declared_size_ = size; started_ = true] *)
Definition set_started (size : Z) (s : ReceiverSession) : ReceiverSession := {|
  file_ := file_ s; window_ := window_ s; output_directory_ := output_directory_ s;
  output_path_ := output_path_ s; temp_path_ := temp_path_ s; published_ := published_ s;
  session_id_ := session_id_ s; declared_size_ := size;
  bytes_written_ := bytes_written_ s; started_ := true; finished_ := finished_ s;
  final_reply_ := final_reply_ s; error_ := error_ s; stats_ := stats_ s |}.
(** [error_ = e; finished_ = true; final_reply_ = r] *)
Definition set_settled (e : TransferError) (r : Reply) (s : ReceiverSession) : ReceiverSession := {|
  file_ := file_ s; window_ := window_ s; output_directory_ := output_directory_ s;
  output_path_ := output_path_ s; temp_path_ := temp_path_ s; published_ := published_ s;
  session_id_ := session_id_ s; declared_size_ := declared_size_ s;
  bytes_written_ := bytes_written_ s; started_ := started_ s; finished_ := true;
  final_reply_ := r; error_ := e; stats_ := stats_ s |}.
Definition set_published (s : ReceiverSession) : ReceiverSession := {|
  file_ := file_ s; window_ := window_ s; output_directory_ := output_directory_ s;
  output_path_ := output_path_ s; temp_path_ := temp_path_ s; published_ := true;
  session_id_ := session_id_ s; declared_size_ := declared_size_ s;
  bytes_written_ := bytes_written_ s; started_ := started_ s; finished_ := finished_ s;
  final_reply_ := final_reply_ s; error_ := error_ s; stats_ := stats_ s |}.
(** [window_.mark_received(seq); bytes_written_ += n] *)
Definition set_stored (seq n : Z) (s : ReceiverSession) : ReceiverSession := {|
  file_ := file_ s; window_ := mark_received (window_ s) seq; output_directory_ := output_directory_ s;
  output_path_ := output_path_ s; temp_path_ := temp_path_ s; published_ := published_ s;
  session_id_ := session_id_ s; declared_size_ := declared_size_ s;
  bytes_written_ := u64 (bytes_written_ s + n); started_ := started_ s; finished_ := finished_ s;
  final_reply_ := final_reply_ s; error_ := error_ s; stats_ := stats_ s |}.

(** The counters this class touches. *)
Definition count_received (t : TransferStats) : TransferStats := {|
  bytes_transferred := bytes_transferred t; chunks := chunks t; packets_sent := packets_sent t;
  retransmissions := retransmissions t; simulated_drops := simulated_drops t;
  packets_received := bump (packets_received t); duplicates_received := duplicates_received t;
  out_of_order_received := out_of_order_received t; timeouts := timeouts t;
  elapsed_seconds := elapsed_seconds t; remote_status := remote_status t |}.
Definition count_duplicate (t : TransferStats) : TransferStats := {|
  bytes_transferred := bytes_transferred t; chunks := chunks t; packets_sent := packets_sent t;
  retransmissions := retransmissions t; simulated_drops := simulated_drops t;
  packets_received := packets_received t; duplicates_received := bump (duplicates_received t);
  out_of_order_received := out_of_order_received t; timeouts := timeouts t;
  elapsed_seconds := elapsed_seconds t; remote_status := remote_status t |}.
Definition count_out_of_order (t : TransferStats) : TransferStats := {|
  bytes_transferred := bytes_transferred t; chunks := chunks t; packets_sent := packets_sent t;
  retransmissions := retransmissions t; simulated_drops := simulated_drops t;
  packets_received := packets_received t; duplicates_received := duplicates_received t;
  out_of_order_received := bump (out_of_order_received t); timeouts := timeouts t;
  elapsed_seconds := elapsed_seconds t; remote_status := remote_status t |}.
Definition count_chunk (bytes : Z) (t : TransferStats) : TransferStats := {|
  bytes_transferred := bytes; chunks := bump (chunks t); packets_sent := packets_sent t;
  retransmissions := retransmissions t; simulated_drops := simulated_drops t;
  packets_received := packets_received t; duplicates_received := duplicates_received t;
  out_of_order_received := out_of_order_received t; timeouts := timeouts t;
  elapsed_seconds := elapsed_seconds t; remote_status := remote_status t |}.

(** [std::format(".swiftlink-{:016x}.partial", session_id)] *)
Definition temp_name (session_id : Z) : path :=
  str ".swiftlink-" ++ to_hex (be_bytes 8 session_id) ++ str ".partial".

(** The ERROR payload: one status byte, then the message. *)
Definition error_payload (code : Status.StatusCode) : list byte :=
  byte_of_Z (Status.StatusCode_raw code) :: str (Status.status_to_string (Status.StatusCode_raw code)).

Definition fail {W} (code : Status.StatusCode) (error : TransferError) (seq : Z)
    (s : ReceiverSession) (w : W) : W * ReceiverSession * Reply :=
  let r := {| send := true; type := kError; sequence := seq; reply_payload := error_payload code |} in
  (w, set_settled error r s, r).

Definition kHashBlock : Z := 64 * 1024.

Section Handlers.
Context `{OS : Posix W}.

Definition on_start (p : Packet) (s : ReceiverSession) (w : W) : W * ReceiverSession * Reply :=
  let h := header p in
  if started_ s then
    if session_id h =? session_id_ s
    then (w, set_stats count_duplicate s, reply_with kStartAck (sequence_number h))
    else fail Status.kUnknownSession kProtocolViolation (sequence_number h) s w
  else
    let s := set_session_id (session_id h) s in
    match sanitize_filename (payload p) with
    | (Filename.kNone, safe_name) =>
        let s := set_paths (join_path (output_directory_ s) safe_name)
                           (join_path (output_directory_ s) (temp_name (session_id_ s))) s in
        let '(w, f, ok) := open_write (temp_path_ s) (file_ s) w in
        let s := set_file f s in
        if negb ok
        then fail Status.kFileOpenFailed kFileOpenFailed (sequence_number h) s w
        else (w, set_started (byte_offset h) s, reply_with kStartAck (sequence_number h))
    | _ => fail Status.kInvalidFilename kInvalidFilename (sequence_number h) s w
    end.

Definition on_data (p : Packet) (s : ReceiverSession) (w : W) : W * ReceiverSession * Reply :=
  let h := header p in
  let size := Z.of_nat (length (payload p)) in
  match classify (window_ s) (sequence_number h) with
  | kDuplicate => (w, set_stats count_duplicate s, reply_with kAck (sequence_number h))
  | kOutsideWindow => (w, set_stats count_out_of_order s, no_reply)
  | kAccepted =>
      if u64 (byte_offset h + size) >? declared_size_ s
      then fail Status.kSizeMismatch kSizeMismatch (sequence_number h) s w
      else
        let s := if negb (sequence_number h =? base_ (window_ s))
                 then set_stats count_out_of_order s else s in
        match write_at (file_ s) (payload p) (byte_offset h) w with
        | (w, inl written) =>
            if negb (written =? length (payload p))%nat
            then fail Status.kInternalError kFileWriteFailed (sequence_number h) s w
            else
              let s := set_stored (sequence_number h) size s in
              let s := set_stats (count_chunk (bytes_written_ s)) s in
              (w, s, reply_with kAck (sequence_number h))
        | (w, inr _) =>
            fail Status.kInternalError kFileWriteFailed (sequence_number h) s w
        end
  end.

(** The [while] that hashes the file back, 64 KiB at a time; [None] when a
    read fails or comes up short.  Each iteration advances [offset] by a whole
    block or to the end, so one more than the number of blocks is enough. *)
Fixpoint hash_back (fuel : nat) (f : File) (bytes offset : Z) (hasher : Sha256) (w : W) :
    W * option Sha256 :=
  match fuel with
  | O => (w, Some hasher)
  | S fuel =>
      if negb (offset <? bytes) then (w, Some hasher)
      else
        let remaining := bytes - offset in
        let want := if remaining <? kHashBlock then remaining else kHashBlock in
        match read_at f (Z.to_nat want) offset w with
        | (w, inl buffer) =>
            if negb (length buffer =? Z.to_nat want)%nat then (w, None)
            else hash_back fuel f bytes (u64 (offset + want)) (update hasher buffer) w
        | (w, inr _) => (w, None)
        end
  end.

Definition hash_fuel (bytes : Z) : nat := S (S (Z.to_nat (bytes / kHashBlock))).

Definition on_fin (p : Packet) (s : ReceiverSession) (w : W) : W * ReceiverSession * Reply :=
  let h := header p in
  let seq := sequence_number h in
  if negb (byte_offset h =? bytes_written_ s)
  then fail Status.kSizeMismatch kSizeMismatch seq s w
  else
    let '(w, ok) := sync (file_ s) w in
    if negb ok then fail Status.kInternalError kFileWriteFailed seq s w
    else
      match hash_back (hash_fuel (bytes_written_ s)) (file_ s) (bytes_written_ s) 0 new_hasher w with
      | (w, None) => fail Status.kInternalError kFileWriteFailed seq s w
      | (w, Some hasher) =>
          let computed := finish hasher in
          if negb (length (payload p) =? kSha256DigestSize)%nat
          then fail Status.kIntegrityCheckFailed kIntegrityFailed seq s w
          else if negb (bool_decide (computed = payload p))
          then fail Status.kIntegrityCheckFailed kIntegrityFailed seq s w
          else
            let '(w, ok) := sys_rename (temp_path_ s) (output_path_ s) w in
            if negb ok then fail Status.kInternalError kFileWriteFailed seq s w
            else
              let r := reply_with kFinAck seq in
              (w, set_settled (error_ s) r (set_published s), r)
      end.

Definition handle_packet (p : Packet) (s : ReceiverSession) (w : W) : W * ReceiverSession * Reply :=
  let h := header p in
  let s := set_stats count_received s in
  let is_control := bool_decide (packet_type h = kFin) || bool_decide (packet_type h = kStart) in
  let matches :=
    if bool_decide (type (final_reply_ s) = kError) then is_control
    else bool_decide (packet_type h = kFin) in
  if finished_ s && (session_id h =? session_id_ s) && send (final_reply_ s) && matches
  then (w, set_stats count_duplicate s, final_reply_ s)
  else if finished_ s then (w, s, no_reply)
  else if bool_decide (packet_type h = kStart) then on_start p s w
  else if negb (started_ s)
  then fail Status.kUnknownSession kProtocolViolation (sequence_number h) s w
  else if negb (session_id h =? session_id_ s)
  then fail Status.kUnknownSession kProtocolViolation (sequence_number h) s w
  else if bool_decide (packet_type h = kData) then on_data p s w
  else if bool_decide (packet_type h = kFin) then on_fin p s w
  else (w, s, no_reply).

Definition close_file (s : ReceiverSession) (w : W) : W * ReceiverSession :=
  let '(w, f) := close (file_ s) w in (w, set_file f s).

(** [~ReceiverSession], and the destructor of its file. *)
Definition destroy (s : ReceiverSession) (w : W) : W :=
  if negb (published_ s) && negb (bool_decide (temp_path_ s = []))
  then
    let '(w, f) := close (file_ s) w in
    let '(w, _) := sys_unlink (temp_path_ s) w in
    (close f w).1
  else (close (file_ s) w).1.
End Handlers.

Fixpoint handle_all `{OS : Posix W} (ps : list Packet) (s : ReceiverSession) (w : W) :
    W * ReceiverSession * list Reply :=
  match ps with
  | [] => (w, s, [])
  | p :: ps =>
      let '(w, s, r) := handle_packet p s w in
      let '(w, s, rs) := handle_all ps s w in (w, s, r :: rs)
  end.

(** ** The temporary name *)

Lemma to_hex_permitted d : Forall (fun c => is_permitted c = true) (to_hex d).
Proof.
  unfold to_hex. induction d as [|b d IH] using rev_ind; [done|]. rewrite foldl_snoc.
  apply Forall_app. split; [done|]. destruct b; by repeat constructor.
Qed.
Lemma length_to_hex d : length (to_hex d) = (2 * length d)%nat.
Proof.
  unfold to_hex. induction d as [|b d IH] using rev_ind; [done|].
  rewrite foldl_snoc, !length_app, IH. simpl. lia.
Qed.

Lemma temp_name_safe sid : safe_name (temp_name sid).
Proof.
  unfold temp_name. split; try done.
  - rewrite !length_app, length_to_hex, length_be_bytes. vm_compute. lia.
  - apply Forall_app. split; [by repeat constructor|]. apply Forall_app.
    split; [apply to_hex_permitted|by repeat constructor].
Qed.

(** ** Hashing the file back *)

Section Facts.
Context `{OSL : PosixLaws W}.
Implicit Types (w : W) (s : ReceiverSession).

Lemma hash_back_spec fuel f bytes offset hasher w i c :
  opened (view w) (fd_ f) i c -> 0 <= fd_ f -> 0 <= offset <= bytes -> bytes < 2 ^ 64 ->
  bytes - offset <= (Z.of_nat fuel - 1) * kHashBlock -> (Z.to_nat offset <= length c)%nat ->
  represents hasher (take (Z.to_nat offset) c) ->
  let '(w', r) := hash_back fuel f bytes offset hasher w in
  view w' = view w /\
  match r with
  | Some h => bytes <= Z.of_nat (length c) /\ represents h (take (Z.to_nat bytes) c)
  | None => True
  end.
Proof.
  revert offset hasher w. induction fuel as [|fuel IH]; intros offset hasher w Ho Hf Hoff Hb Hfuel Hlen Hr; [unfold kHashBlock in *; lia|].
  simpl. destruct (offset <? bytes) eqn:Hlt; simpl; bool_to_prop.
  2:{ assert (offset = bytes) as -> by lia. split_and!; [done|lia|done]. }
  unfold kHashBlock in *.
  set (want := if bytes - offset <? 64 * 1024 then bytes - offset else 64 * 1024).
  assert (0 < want <= 64 * 1024 /\ offset + want <= bytes /\
          (offset + want = bytes \/ want = 64 * 1024)) as (Hw & Hob & Hcase).
  { subst want. destruct (bytes - offset <? 64 * 1024) eqn:E; bool_to_prop; lia. }
  clearbody want.
  pose proof (read_at_opened f (Z.to_nat want) offset w i c Ho Hf ltac:(lia) ltac:(lia)) as Hread.
  destruct (read_at f (Z.to_nat want) offset w) as [w1 [buffer|e]]; destruct Hread as [Hv Hread]; [|done].
  destruct (length buffer =? Z.to_nat want)%nat eqn:Hl; simpl; bool_to_prop; [|done].
  rewrite wrap_small by (unfold fits; lia).
  specialize (IH (offset + want) (update hasher buffer) w1). rewrite Hv in IH.
  apply IH; try done; try lia.
  - rewrite Hread, length_take, length_drop in Hl. lia.
  - replace (Z.to_nat (offset + want)) with (Z.to_nat offset + Z.to_nat want)%nat by lia.
    rewrite <- take_take_drop, <- Hread. by apply update_represents.
Qed.

(** *** What a session holds of the file system *)

(** The file system as a session that stores file [i] under its temporary name
    leaves it, and what publishing makes of that. *)
Definition session_view (v0 : View) (f : File) (temp : path) (i : nat) (c : list byte) : View :=
  {| names := <[temp := i]> (names v0); data := <[i := c]> (data v0);
     handles := if valid f then <[fd_ f := i]> (handles v0) else handles v0 |}.
Definition publish (output temp : path) (i : nat) (m : gmap path nat) : gmap path nat :=
  if decide (m !! output = Some i) then m else <[output := i]> (delete temp m).

(** The file is either the one the temporary name already had, or a new one. *)
Definition owned (v0 : View) (temp : path) (i : nat) : Prop :=
  names v0 !! temp = Some i \/
  names v0 !! temp = None /\ data v0 !! i = None /\ (forall q, names v0 !! q <> Some i).

Definition packet_wf (p : Packet) : Prop :=
  header_wf (header p) /\ Z.of_nat (length (payload p)) <= kMaxPayloadSize.

(** The FIN packet that made the session publish. *)
Definition verified_by (p : Packet) s (c : list byte) : Prop :=
  packet_type (header p) = kFin /\ session_id (header p) = session_id_ s /\
  byte_offset (header p) = bytes_written_ s /\ bytes_written_ s <= Z.of_nat (length c) /\
  payload p = sha256 (take (Z.to_nat (bytes_written_ s)) c).

Record holds_file (hist : list Packet) (v0 v : View) s (i : nat) (c : list byte) (name : path) : Prop := {
  hold_view : v = set_names (if published_ s then publish (output_path_ s) (temp_path_ s) i else id)
                    (session_view v0 (file_ s) (temp_path_ s) i c);
  hold_fd : valid (file_ s) = true -> handles v0 !! fd_ (file_ s) = None;
  hold_valid : finished_ s = false -> valid (file_ s) = true;
  hold_owned : owned v0 (temp_path_ s) i;
  hold_temp : temp_path_ s = join_path (output_directory_ s) (temp_name (session_id_ s));
  hold_output : output_path_ s = join_path (output_directory_ s) name;
  hold_name : safe_name name;
  hold_size : Z.of_nat (length c) <= declared_size_ s < 2 ^ 64;
  hold_bytes : fits 64 (bytes_written_ s);
  hold_published : published_ s = true ->
    finished_ s = true /\ exists p, p ∈ hist /\ verified_by p s c
}.

Inductive holding (dir : path) (hist : list Packet) (v0 v : View) s : Prop :=
| holds_none :
    output_directory_ s = dir -> v = v0 -> file_ s = closed_file -> started_ s = false ->
    published_ s = false -> bytes_written_ s = 0 ->
    temp_path_ s = [] \/ (exists sid, temp_path_ s = join_path (output_directory_ s) (temp_name sid)) ->
    holding dir hist v0 v s
| holds_some i c name :
    output_directory_ s = dir -> started_ s = true ->
    holds_file hist v0 v s i c name -> holding dir hist v0 v s.

Lemma holding_start w cap dir : holding dir [] (view w) (view w) (new_session cap dir).
Proof. by apply holds_none; [..|left]. Qed.

Lemma holding_stats dir hist v0 v s f :
  holding dir hist v0 v s -> holding dir hist v0 v (set_stats f s).
Proof. intros [|i c name ? ? []]; [by apply holds_none|by apply (holds_some _ _ _ _ _ i c name)]. Qed.

Lemma holding_settled dir hist v0 v s e r :
  holding dir hist v0 v s -> published_ s = false -> holding dir hist v0 v (set_settled e r s).
Proof.
  intros [|i c name ? ? []] Hp; [by apply holds_none|].
  apply (holds_some _ _ _ _ _ i c name); [done..|]. split; try done; simpl. by rewrite Hp.
Qed.

Lemma holding_mono dir hist hist' v0 v s :
  holding dir hist v0 v s -> hist ⊆ hist' -> holding dir hist' v0 v s.
Proof.
  intros [|i c name ? ? []] Hsub; [by apply holds_none|].
  apply (holds_some _ _ _ _ _ i c name); [done..|]. split; try done.
  intros Hp. destruct (hold_published0 Hp) as (? & p & ? & ?). split; [done|]. exists p. by split; [apply Hsub|].
Qed.

(** A session that is still running has not published. *)
Lemma holding_running dir hist v0 v s :
  holding dir hist v0 v s -> finished_ s = false -> published_ s = false.
Proof.
  intros [|i c name ? ? []] Hf; [done|]. destruct (published_ s); [|done].
  destruct (hold_published0 eq_refl) as [? _]. congruence.
Qed.

Lemma session_opened v0 f temp i c :
  valid f = true -> opened (session_view v0 f temp i c) (fd_ f) i c.
Proof. intros Hv. split; simpl; [rewrite Hv|]; by rewrite lookup_insert_eq. Qed.

Lemma session_content v0 f temp i c c' :
  set_content i c' (session_view v0 f temp i c) = session_view v0 f temp i c'.
Proof. unfold set_content, session_view; simpl. by rewrite insert_insert_eq. Qed.

Lemma set_names_id v : set_names id v = v.
Proof. by destruct v. Qed.

(** *** The handlers keep it *)

Lemma on_start_holding dir hist v0 p s w :
  holding dir hist v0 (view w) s -> finished_ s = false -> packet_wf p ->
  let '(w', s', _) := on_start p s w in holding dir hist v0 (view w') s'.
Proof.
  intros Hh Hrun [Hwf _]. pose proof (holding_running _ _ _ _ _ Hh Hrun) as Hpub. unfold on_start.
  destruct (started_ s) eqn:Hs.
  { destruct (_ =? _); [by apply holding_stats|by apply holding_settled]. }
  destruct Hh as [Hdir Hv Hfile _ _ Hbytes Htemp|]; [|congruence].
  destruct (sanitize_filename (payload p)) as [rej name] eqn:Hsan.
  destruct rej; try (by apply holding_settled; [apply holds_none|]).
  apply sanitize_accepts in Hsan as (Hname & _ & _).
  set (s1 := set_paths _ _ _).
  pose proof (open_write_opened (temp_path_ s1) (file_ s1) w) as Hopen.
  destruct (open_write (temp_path_ s1) (file_ s1) w) as [[w1 f] ok].
  replace (valid (file_ s1)) with false in Hopen by (simpl; by rewrite Hfile). destruct ok; simpl negb; cbv iota.
  - destruct Hopen as (Hfd & Hfree & i & Hv1 & Hown).
    apply (holds_some _ _ _ _ _ i [] name); [done..|]. rewrite Hv in *.
    assert (valid f = true) as Hvalid by (by apply Z.leb_le).
    split; try done; simpl.
    + rewrite Hv1, Hpub, set_names_id. unfold session_view. by rewrite Hvalid.
    + pose proof (wf_byte_offset _ Hwf) as []. lia.
    + rewrite Hbytes. done.
    + by rewrite Hpub.
  - destruct Hopen as [Hv1 ->]. apply holding_settled; [|done]. apply holds_none; try done; [by rewrite Hv1|]. right. by eexists.
Qed.

(** A chunk that is written stays within the declared size, wherever the peer
    asked for it to go. *)
Lemma chunk_within c offset bs k size :
  0 <= offset < 2 ^ 64 -> Z.of_nat (length bs) <= kMaxPayloadSize ->
  u64 (offset + Z.of_nat (length bs)) <= size -> (k <= length bs)%nat ->
  ((0 < k)%nat -> offset < 2 ^ 63) -> Z.of_nat (length c) <= size ->
  Z.of_nat (length (overwrite c (Z.to_nat offset) (take k bs))) <= size.
Proof.
  intros Hoff Hlen Hsize Hk Hsmall Hc. unfold kMaxPayloadSize in *.
  destruct (decide (take k bs = [])) as [->|Hne]; [done|].
  assert (0 < k)%nat by (destruct k; [done|lia]).
  rewrite wrap_small in Hsize by (unfold fits; lia).
  rewrite length_overwrite, length_take by done. lia.
Qed.

Lemma on_data_holding dir hist v0 p s w :
  holding dir hist v0 (view w) s -> finished_ s = false -> started_ s = true -> packet_wf p ->
  let '(w', s', _) := on_data p s w in holding dir hist v0 (view w') s'.
Proof.
  intros Hh Hrun Hst [Hwf Hlen]. pose proof (holding_running _ _ _ _ _ Hh Hrun) as Hpub. unfold on_data.
  destruct (classify _ _); [|by apply holding_stats..].
  rewrite Z.gtb_ltb. destruct (_ <? _) eqn:Hsize; [by apply holding_settled|]. bool_to_prop.
  set (s1 := if negb _ then _ else s).
  assert (holding dir hist v0 (view w) s1 /\ finished_ s1 = false /\ published_ s1 = false /\
          started_ s1 = true /\ declared_size_ s1 = declared_size_ s) as (Hh1 & Hrun1 & Hpub1 & Hst1 & Hd1).
  { subst s1. destruct (negb _); [|done]. split_and!; [by apply holding_stats|done..]. }
  clearbody s1. rewrite <- Hd1 in Hsize. clear Hh Hrun Hpub Hst Hd1 s.
  destruct Hh1 as [? ? ? ? ?|i c name Hdir _ Hf]; [congruence|]. pose proof Hf as [].
  specialize (hold_valid0 Hrun1). rewrite Hpub1, set_names_id in hold_view0.
  assert (0 <= fd_ (file_ s1)) as Hfd by (by apply Z.leb_le).
  pose proof (wf_byte_offset _ Hwf) as Hoff.
  pose proof (write_at_opened (file_ s1) (payload p) (byte_offset (header p)) w i c) as Hw.
  destruct (write_at _ _ _ w) as [w1 r].
  destruct Hw as (k & Hk & Hv1 & Hsmall & Hr); [rewrite hold_view0; by apply session_opened|done..| |].
  { unfold kMaxPayloadSize in Hlen. lia. }
  rewrite hold_view0, session_content in Hv1.
  assert (holding dir hist v0 (view w1) s1) as Hh1.
  { apply (holds_some _ _ _ _ _ i (overwrite c (Z.to_nat (byte_offset (header p))) (take k (payload p))) name);
      [done..|]. split; [|exact hold_fd0|done|exact hold_owned0|exact hold_temp0|exact hold_output0
                        |exact hold_name0| |exact hold_bytes0|].
    - by rewrite Hv1, Hpub1, set_names_id.
    - split; [|lia]. apply chunk_within; [done|done|lia|done|done|lia].
    - by rewrite Hpub1. }
  destruct r as [n|e]; [|by apply holding_settled].
  destruct (negb _); [by apply holding_settled|]. apply holding_stats.
  destruct Hh1 as [? ? ? ? ?|i' c' name' ? _ []]; [congruence|].
  apply (holds_some _ _ _ _ _ i' c' name'); [done..|]. split; try done; simpl.
  - by apply wrap_fits.
  - by rewrite Hpub1.
Qed.

Lemma on_fin_holding dir hist v0 p s w :
  holding dir hist v0 (view w) s -> finished_ s = false -> started_ s = true ->
  packet_type (header p) = kFin -> session_id (header p) = session_id_ s ->
  let '(w', s', _) := on_fin p s w in holding dir (p :: hist) v0 (view w') s'.
Proof.
  intros Hh Hrun Hst Hfin Hsid. pose proof (holding_running _ _ _ _ _ Hh Hrun) as Hpub.
  apply (holding_mono _ _ (p :: hist)) in Hh; [|by apply list_subseteq_skip_r || set_solver].
  unfold on_fin. destruct (byte_offset (header p) =? bytes_written_ s) eqn:Hoff; simpl negb; cbv iota;
    [|by apply holding_settled]. bool_to_prop.
  pose proof (sync_view (file_ s) w) as Hsync. destruct (sync (file_ s) w) as [w1 ok]. simpl in Hsync.
  rewrite <- Hsync in Hh. destruct ok; simpl negb; cbv iota; [|by apply holding_settled].
  pose proof Hh as Hh1. destruct Hh1 as [? ? ? ? ?|i c name Hdir _ Hf]; [congruence|]. pose proof Hf as [].
  specialize (hold_valid0 Hrun). rewrite Hpub, set_names_id in hold_view0.
  pose proof (hash_back_spec (hash_fuel (bytes_written_ s)) (file_ s) (bytes_written_ s) 0 new_hasher w1 i c) as Hash.
  destruct (hash_back _ _ _ _ _ w1) as [w2 r].
  destruct Hash as [Hv2 Hr]; [rewrite hold_view0; by apply session_opened|by apply Z.leb_le|unfold fits in *; lia|apply hold_bytes0| |simpl; lia|apply new_hasher_represents|].
  { unfold hash_fuel, kHashBlock. pose proof (Z.mul_succ_div_gt (bytes_written_ s) (64 * 1024) ltac:(lia)).
    pose proof (Z.div_pos (bytes_written_ s) (64 * 1024)). destruct hold_bytes0. lia. }
  rewrite <- Hv2 in Hh. destruct r as [hasher|]; [|by apply holding_settled].
  destruct Hr as [Hlen Hrep]. apply finish_represents in Hrep. rewrite <- sha256_spec in Hrep. rewrite Hrep.
  destruct (negb (length _ =? _)%nat); [by apply holding_settled|].
  case_bool_decide as Hdig; simpl negb; cbv iota; [|by apply holding_settled].
  pose proof (law_rename (temp_path_ s) (output_path_ s) w2) as Hren.
  destruct (sys_rename _ _ w2) as [w3 ok]. destruct ok; simpl negb; cbv iota.
  2:{ rewrite <- Hren in Hh. by apply holding_settled. }
  destruct Hren as (j & Hj & Hv3). rewrite Hv2, hold_view0 in Hj, Hv3. simpl in Hj.
  rewrite lookup_insert_eq in Hj. simplify_eq.
  apply (holds_some _ _ _ _ _ j c name); [done..|]. split; try done; simpl.
  - rewrite Hv3. unfold publish, set_names. simpl. repeat case_decide; done.
  - intros _. split; [done|]. exists p. split; [by apply elem_of_cons; left|]. split_and!; try done; simpl.
Qed.

Lemma handle_packet_holding dir hist v0 p s w :
  holding dir hist v0 (view w) s -> packet_wf p ->
  let '(w', s', _) := handle_packet p s w in holding dir (p :: hist) v0 (view w') s'.
Proof.
  intros Hh Hwf. apply (holding_stats _ _ _ _ _ count_received) in Hh. unfold handle_packet.
  revert Hh. generalize (set_stats count_received s) as s1. clear s. intros s Hh.
  assert (holding dir (p :: hist) v0 (view w) s) as Hh' by (eapply holding_mono; [done|set_solver]).
  destruct (_ && _ && _ && _); [by apply holding_stats|].
  destruct (finished_ s) eqn:Hrun; [done|].
  pose proof (holding_running _ _ _ _ _ Hh Hrun) as Hpub.
  destruct (bool_decide (packet_type (header p) = kStart)); [by apply on_start_holding|].
  destruct (started_ s) eqn:Hst; simpl; [|by apply holding_settled].
  destruct (session_id (header p) =? session_id_ s) eqn:Hsid; simpl; [|by apply holding_settled]. bool_to_prop.
  destruct (bool_decide (packet_type (header p) = kData)); [by apply on_data_holding|].
  destruct (bool_decide (packet_type (header p) = kFin)) eqn:Hfin; [|done]. bool_to_prop.
  by apply on_fin_holding.
Qed.

Lemma handle_all_holding dir hist v0 ps s w :
  holding dir hist v0 (view w) s -> Forall packet_wf ps ->
  let '(w', s', _) := handle_all ps s w in holding dir (reverse ps ++ hist) v0 (view w') s'.
Proof.
  revert hist s w. induction ps as [|p ps IH]; intros hist s w Hh Hps; simpl; [done|].
  inversion_clear Hps as [|? ? Hp Hps'].
  pose proof (handle_packet_holding dir hist v0 p s w Hh Hp) as H1.
  destruct (handle_packet p s w) as [[w1 s1] r]. specialize (IH _ _ _ H1 Hps').
  destruct (handle_all ps s1 w1) as [[w2 s2] rs].
  by rewrite reverse_cons, <- app_assoc.
Qed.

(** What the destructor leaves of a session. *)
Lemma destroy_holding dir hist v0 s w :
  holding dir hist v0 (view w) s ->
  (sys_unlink (temp_path_ s) (close (file_ s) w).1).2 = true ->
  handles (view (destroy s w)) = handles v0 /\
  names (view (destroy s w)) =
    (if published_ s then names (view w)
     else if decide (temp_path_ s = []) then names v0
     else delete (temp_path_ s) (names v0)).
Proof.
  intros Hh Hun.
  assert (forall f, valid (close f w).2 = false) as Hinv.
  { intros f. unfold close. destruct (valid f) eqn:E; [done|exact E]. }
  pose proof (close_view (file_ s) w) as Hclose.
  assert (handles (view (close (file_ s) w).1) = handles v0 /\
          names (view (close (file_ s) w).1) = names (view w)) as [Hhd Hn].
  { rewrite Hclose. destruct Hh as [? Hv Hfile|i c name ? ? []].
    - by rewrite Hfile, Hv.
    - rewrite hold_view0. destruct (valid (file_ s)) eqn:Hv; simpl; rewrite Hv; [|done].
      rewrite delete_insert_id; [done|]. by apply hold_fd0. }
  unfold destroy. destruct (published_ s) eqn:Hpub; simpl; [done|].
  case_bool_decide as Ht; simpl.
  - rewrite decide_True by done. split; [done|]. rewrite Hn.
    destruct Hh as [? -> |i c name ? ? []]; [done|].
    exfalso. rewrite hold_temp0 in Ht. unfold join_path in Ht. apply app_eq_nil in Ht as [_ Ht].
    by apply (safe_nonempty _ (temp_name_safe (session_id_ s))).
  - rewrite decide_False by done. specialize (Hinv (file_ s)).
    destruct (close (file_ s) w) as [w1 f1] eqn:E1. simpl in *.
    pose proof (law_unlink (temp_path_ s) w1) as Hlaw.
    destruct (sys_unlink (temp_path_ s) w1) as [w2 ok]. simpl in Hun. subst ok.
    unfold close. rewrite Hinv. simpl. rewrite Hlaw. simpl. split; [done|]. rewrite Hn.
    destruct Hh as [? -> |i c name ? ? []]; [done|].
    rewrite hold_view0, Hpub. simpl. by rewrite delete_insert_eq.
Qed.

(** Even when the temporary name cannot be removed, the descriptor is closed and
    no other name and no content is touched. *)
Lemma destroy_contained dir hist v0 s w :
  holding dir hist v0 (view w) s ->
  handles (view (destroy s w)) = handles v0 /\ data (view (destroy s w)) = data (view w) /\
  (forall q, published_ s = true \/ q <> temp_path_ s -> names (view (destroy s w)) !! q = names (view w) !! q).
Proof.
  intros Hh.
  assert (forall f, valid (close f w).2 = false) as Hinv.
  { intros f. unfold close. destruct (valid f) eqn:E; [done|exact E]. }
  pose proof (close_view (file_ s) w) as Hclose.
  assert (handles (view (close (file_ s) w).1) = handles v0 /\
          names (view (close (file_ s) w).1) = names (view w) /\
          data (view (close (file_ s) w).1) = data (view w)) as (Hhd & Hn & Hd).
  { rewrite Hclose. destruct Hh as [? Hv Hfile|i c name ? ? []].
    - by rewrite Hfile, Hv.
    - rewrite hold_view0. destruct (valid (file_ s)) eqn:Hv; simpl; rewrite Hv; [|done].
      rewrite delete_insert_id; [done|]. by apply hold_fd0. }
  unfold destroy. destruct (published_ s) eqn:Hpub; simpl; [by rewrite Hn|].
  case_bool_decide as Ht; simpl; [by rewrite Hn|]. specialize (Hinv (file_ s)).
  destruct (close (file_ s) w) as [w1 f1] eqn:E1. simpl in *.
  pose proof (law_unlink (temp_path_ s) w1) as Hlaw. destruct (sys_unlink (temp_path_ s) w1) as [w2 ok].
  unfold close. rewrite Hinv. simpl. rewrite Hlaw. destruct ok; simpl; (split_and!; [done..|]); intros q Hq.
  - rewrite lookup_delete_ne, Hn; [done|]. intros <-. by destruct Hq.
  - by rewrite Hn.
Qed.

(** *** Verdicts *)

(** A session has an error, or has published, exactly when it has settled, and
    then it has a reply to repeat. *)
Definition verdict s : Prop :=
  if finished_ s then
    send (final_reply_ s) = true /\ (published_ s = true <-> error_ s = Transfer.kNone) /\
    type (final_reply_ s) = (if published_ s then kFinAck else kError)
  else error_ s = Transfer.kNone /\ published_ s = false.

Lemma verdict_fail code e seq s w :
  verdict s -> finished_ s = false -> e <> Transfer.kNone ->
  let '(_, s', _) := fail code e seq s w in verdict s'.
Proof. unfold verdict. intros Hv Hf He. rewrite Hf in Hv. simpl. destruct Hv as [_ ->]. split; [done|]. by split. Qed.

Lemma on_start_verdict p s w :
  verdict s -> finished_ s = false -> let '(_, s', _) := on_start p s w in verdict s'.
Proof.
  intros Hv Hf. unfold on_start. destruct (started_ s).
  { destruct (_ =? _); [exact Hv|by apply (verdict_fail _ _ _ s)]. }
  destruct (sanitize_filename _) as [[] name]; try (by apply (verdict_fail _ _ _ (set_session_id _ s))).
  destruct (open_write _ _ w) as [[w1 f] ok]. destruct ok; simpl negb; cbv iota.
  - unfold verdict in *. simpl. rewrite Hf in *. done.
  - apply (verdict_fail _ _ _ (set_file f _)); [exact Hv|exact Hf|done].
Qed.

Lemma on_data_verdict p s w :
  verdict s -> finished_ s = false -> let '(_, s', _) := on_data p s w in verdict s'.
Proof.
  intros Hv Hf. unfold on_data. destruct (classify _ _); [|exact Hv..].
  destruct (_ >? _); [by apply (verdict_fail _ _ _ s)|].
  set (s1 := if negb _ then _ else s).
  assert (verdict s1 /\ finished_ s1 = false) as [Hv1 Hf1] by (subst s1; by destruct (negb _)).
  clearbody s1. destruct (write_at _ _ _ w) as [w1 [n|e]]; [|by apply (verdict_fail _ _ _ s1)].
  destruct (negb _); [by apply (verdict_fail _ _ _ s1)|]. exact Hv1.
Qed.

Lemma on_fin_verdict p s w :
  verdict s -> finished_ s = false -> let '(_, s', _) := on_fin p s w in verdict s'.
Proof.
  intros Hv Hf. unfold on_fin. destruct (negb (_ =? _)); [by apply (verdict_fail _ _ _ s)|].
  destruct (sync _ w) as [w1 ok]. destruct ok; simpl negb; cbv iota; [|by apply (verdict_fail _ _ _ s)].
  destruct (hash_back _ _ _ _ _ w1) as [w2 [h|]]; [|by apply (verdict_fail _ _ _ s)].
  destruct (negb (_ =? _)%nat); [by apply (verdict_fail _ _ _ s)|].
  destruct (negb _); [by apply (verdict_fail _ _ _ s)|].
  destruct (sys_rename _ _ w2) as [w3 ok]. destruct ok; simpl negb; cbv iota; [|by apply (verdict_fail _ _ _ s)].
  unfold verdict in *. rewrite Hf in Hv. simpl. by destruct Hv as [-> _].
Qed.

Lemma handle_packet_verdict p s w : verdict s -> let '(_, s', _) := handle_packet p s w in verdict s'.
Proof.
  intros Hv. unfold handle_packet. change (verdict (set_stats count_received s)) in Hv. revert Hv.
  generalize (set_stats count_received s) as s1. clear s. intros s Hv.
  destruct (_ && _ && _ && _); [exact Hv|]. destruct (finished_ s) eqn:Hf; [exact Hv|].
  destruct (bool_decide (packet_type _ = kStart)); [by apply on_start_verdict|].
  destruct (negb (started_ s)); [by apply (verdict_fail _ _ _ s)|].
  destruct (negb _); [by apply (verdict_fail _ _ _ s)|].
  destruct (bool_decide _); [by apply on_data_verdict|]. destruct (bool_decide _); [by apply on_fin_verdict|exact Hv].
Qed.
End Facts.

(** ** Claims *)

Section Claims.
Context `{OSL : PosixLaws W}.
Implicit Types (w : W) (s : ReceiverSession).

Lemma handle_all_session cap dir ps w w' s rs :
  Forall packet_wf ps -> handle_all ps (new_session cap dir) w = (w', s, rs) ->
  holding dir (reverse ps) (view w) (view w') s.
Proof.
  intros Hps Hrun. pose proof (handle_all_holding dir [] (view w) ps _ w (holding_start w cap dir) Hps) as Hh.
  rewrite Hrun in Hh. by rewrite app_nil_r in Hh.
Qed.

(** C6: nothing unverified is published.  Whatever packets a peer sends, in
    whatever order, if the session has put a file at its output path then a FIN
    packet of this session carried, as its payload, the SHA-256 of the bytes
    the file on disk holds, for exactly the number of bytes the session
    counted and that FIN declared; and the file is no longer than the size
    declared at START. *)
Theorem published_is_verified cap dir ps w w' s rs :
  Forall packet_wf ps -> handle_all ps (new_session cap dir) w = (w', s, rs) ->
  published_ s = true ->
  exists i c fin,
    names (view w') !! output_path_ s = Some i /\ data (view w') !! i = Some c /\
    fin ∈ ps /\ packet_type (header fin) = kFin /\ session_id (header fin) = session_id_ s /\
    byte_offset (header fin) = bytes_written_ s /\
    bytes_written_ s <= Z.of_nat (length c) <= declared_size_ s /\
    payload fin = sha256 (take (Z.to_nat (bytes_written_ s)) c).
Proof.
  intros Hps Hrun Hpub. apply handle_all_session in Hrun as [|i c name _ _ []]; [congruence| |done].
  destruct (hold_published0 Hpub) as (_ & p & Hp & Ht & Hsid & Hoff & Hlen & Hdig).
  exists i, c, p. rewrite hold_view0, Hpub. simpl. split_and!; try done.
  - unfold publish. case_decide; [done|]. by rewrite lookup_insert_eq.
  - by rewrite lookup_insert_eq.
  - by rewrite elem_of_reverse in Hp.
  - lia.
Qed.

(** C7: a session touches two names of its output directory and one file.
    Both names resolve to direct children of the directory; every other
    directory entry, and the content of every file that was there before and
    was not the one under the temporary name, stays as it was; and until it
    publishes, the output path too names whatever it named before. *)
Theorem session_contained cap dir ps w w' s rs :
  Forall packet_wf ps -> handle_all ps (new_session cap dir) w = (w', s, rs) ->
  (started_ s = true -> exists name,
     resolve (output_path_ s) = resolve dir ++ [name] /\
     resolve (temp_path_ s) = resolve dir ++ [temp_name (session_id_ s)]) /\
  (forall q, q <> temp_path_ s -> q <> output_path_ s \/ published_ s = false ->
     names (view w') !! q = names (view w) !! q) /\
  (forall j c, data (view w) !! j = Some c -> names (view w) !! temp_path_ s <> Some j ->
     data (view w') !! j = Some c) /\
  (started_ s = false -> view w' = view w).
Proof.
  intros Hps Hrun. apply handle_all_session in Hrun as [_ Hv _ Hst _ _ _|i c name Hdir Hst []]; [|split_and!|done].
  { rewrite Hv. split_and!; [congruence|done..]. }
  - intros _. exists name. rewrite hold_output0, hold_temp0, Hdir.
    split; apply join_path_safe; [done|apply temp_name_safe].
  - intros q Hq Ho. rewrite hold_view0. simpl.
    destruct (published_ s); [|simpl; by rewrite lookup_insert_ne].
    destruct Ho as [Ho|]; [|done]. unfold publish. case_decide.
    + by rewrite lookup_insert_ne.
    + by rewrite lookup_insert_ne, lookup_delete_ne, lookup_insert_ne.
  - intros j c0 Hj Hne. rewrite hold_view0. simpl. rewrite lookup_insert_ne; [done|].
    intros ->. destruct hold_owned0 as [|(_ & ? & _)]; congruence.
  - congruence.
Qed.

(** C33: a settled session is inert.  Once it has published or failed, no
    further packets change the file system, the verdict or the error; each is
    answered with the stored final reply or not at all, and a retransmitted FIN
    of the session always gets the stored reply. *)
Theorem settled_session_inert ps s w :
  finished_ s = true -> send (final_reply_ s) = true ->
  let '(w', s', rs) := handle_all ps s w in
  w' = w /\ finished_ s' = true /\ published_ s' = published_ s /\ error_ s' = error_ s /\
  final_reply_ s' = final_reply_ s /\ session_id_ s' = session_id_ s /\
  Forall2 (fun p r =>
    (r = final_reply_ s \/ r = no_reply) /\
    (packet_type (header p) = kFin -> session_id (header p) = session_id_ s -> r = final_reply_ s))
    ps rs.
Proof.
  revert s w. induction ps as [|p ps IH]; intros s w Hf Hs; simpl; [by split_and!|].
  unfold handle_packet. simpl. rewrite Hf, Hs. simpl. rewrite andb_true_r.
  set (matches := if bool_decide _ then _ else _).
  assert (packet_type (header p) = kFin -> matches = true) as Hmatch.
  { intros Hfin. subst matches. rewrite Hfin. by destruct (bool_decide (type _ = kError)). }
  destruct ((_ =? _) && matches) eqn:Hm.
  - specialize (IH (set_stats count_duplicate (set_stats count_received s)) w Hf Hs).
    destruct (handle_all ps _ w) as [[w' s'] rs]. destruct IH as (? & ? & ? & ? & ? & ? & IH).
    split_and!; try done. constructor; [|done]. split; [by left|done].
  - specialize (IH (set_stats count_received s) w Hf Hs).
    destruct (handle_all ps _ w) as [[w' s'] rs]. destruct IH as (? & ? & ? & ? & ? & ? & IH).
    split_and!; try done. constructor; [|done]. split; [by right|].
    intros Hfin Hsid. rewrite Hsid, Z.eqb_refl, Hmatch in Hm by done. done.
Qed.

(** C34: abandoned means nothing left behind.  Destroying a session that never
    published closes its descriptor and, when the system's unlink succeeds, removes
    its temporary name, so that
    every directory entry is what it was when the session was created; and
    destroying one that did publish leaves the published file alone. *)
Theorem destroyed_session_cleans_up cap dir ps w w' s rs :
  Forall packet_wf ps -> handle_all ps (new_session cap dir) w = (w', s, rs) ->
  (sys_unlink (temp_path_ s) (close (file_ s) w').1).2 = true ->
  handles (view (destroy s w')) = handles (view w) /\
  names (view (destroy s w')) =
    (if published_ s then names (view w')
     else if decide (temp_path_ s = []) then names (view w)
     else delete (temp_path_ s) (names (view w))).
Proof.
  intros Hps Hrun Hun. apply handle_all_session in Hrun; [|done]. by eapply destroy_holding.
Qed.
End Claims.
