(* ===== verification/Offline.v ===== *)
(** * File operations leave the network alone

    The laws of [NetworkLaws] say so of the system calls; here of the operations
    of [File] and of the session's handlers, which the receiving drivers run
    between two datagrams. *)

From S2P Require Import Prelude Words Packet Sha256 Filename Transfer ReceiverWindow FileIO Net ReceiverSession.
Import Packet.Packet.
Open Scope Z_scope.

Section Offline.
Context {W : Type} `{NL : NetworkLaws W}.
Implicit Types (w : W) (s : ReceiverSession).

Definition offline w w' : Prop := outbox w' = outbox w /\ inbox w' = inbox w.

#[export] Instance offline_preorder : PreOrder offline.
Proof. split; [done|]. intros w1 w2 w3 [] []. split; congruence. Qed.

Lemma close_offline f w : offline w (close f w).1.
Proof. unfold close. destruct (valid f); [apply law_close_net|done]. Qed.

Lemma open_with_offline mode p f w : offline w (open_with mode p f w).1.1.
Proof.
  unfold open_with. pose proof (close_offline f w) as Hc. destruct (close f w) as [w1 f1].
  pose proof (law_open_net p mode w1) as Ho. destruct (sys_open p mode w1) as [w2 [fd|e]]; by etrans.
Qed.

Lemma write_loop_offline fuel fd n rest off w : offline w (write_loop fuel fd n rest off w).1.
Proof.
  revert n rest w. induction fuel as [|fuel IH]; intros n rest w; simpl; [done|].
  destruct (length rest =? 0)%nat; [done|].
  pose proof (law_pwrite_net fd rest (s64 (off + Z.of_nat n)) w) as Hw.
  destruct (sys_pwrite _ _ _ w) as [w1 [[|k]|e]]; simpl in Hw; [done| |].
  - etrans; [exact Hw|apply IH].
  - destruct (e =? EINTR); [|exact Hw]. etrans; [exact Hw|apply IH].
Qed.

Lemma write_at_offline f bs off w : offline w (write_at f bs off w).1.
Proof. unfold write_at. destruct (valid f); [apply write_loop_offline|done]. Qed.

Lemma sync_offline f w : offline w (sync f w).1.
Proof. unfold sync. destruct (valid f); [apply law_fsync_net|done]. Qed.

Lemma hash_back_offline fuel f size off hasher w : offline w (hash_back fuel f size off hasher w).1.
Proof.
  revert off hasher w. induction fuel as [|fuel IH]; intros off hasher w; simpl; [done|].
  destruct (off <? size); simpl; [|done].
  set (want := if _ <? _ then _ else _). pose proof (read_at_net f (Z.to_nat want) off w) as Hr.
  destruct (read_at f _ off w) as [w1 [bs|e]]; simpl in *; [|exact Hr].
  destruct (negb _); [exact Hr|]. etrans; [exact Hr|apply IH].
Qed.

Lemma handle_packet_offline p s w : offline w (handle_packet p s w).1.1.
Proof.
  unfold handle_packet. generalize (set_stats count_received s) as s1. clear s. intros s.
  destruct (_ && _ && _ && _); [done|]. destruct (finished_ s); [done|].
  destruct (bool_decide (packet_type _ = kStart)).
  { unfold on_start. destruct (started_ s); [by destruct (_ =? _)|].
    destruct (sanitize_filename _) as [[] name]; try done.
    set (s1 := set_paths _ _ _). pose proof (open_with_offline O_RDWR_CREAT_TRUNC (temp_path_ s1) (file_ s1) w) as Ho.
    unfold open_write. destruct (open_with _ _ _ w) as [[w1 f] ok]. destruct ok; exact Ho. }
  destruct (negb (started_ s)); [done|]. destruct (negb _); [done|].
  destruct (bool_decide _).
  { unfold on_data. destruct (classify _ _); [|done..]. destruct (_ >? _); [done|].
    set (s1 := if negb _ then _ else s). pose proof (write_at_offline (file_ s1) (payload p) (byte_offset (header p)) w) as Hw.
    destruct (write_at _ _ _ w) as [w1 [n|e]]; [|exact Hw]. clearbody s1. destruct (negb (n =? _)%nat); exact Hw. }
  destruct (bool_decide _); [|done]. unfold on_fin. destruct (negb _); [done|].
  pose proof (sync_offline (file_ s) w) as Hs. destruct (sync _ w) as [w1 ok]. destruct ok; [|exact Hs]. simpl negb. cbv iota.
  pose proof (hash_back_offline (hash_fuel (bytes_written_ s)) (file_ s) (bytes_written_ s) 0 new_hasher w1) as Hh.
  simpl in Hs. destruct (hash_back _ _ _ _ _ w1) as [w2 [h|]]; simpl in Hh; [|by etrans].
  assert (offline w w2) as H2 by (by etrans). destruct (negb _); [done|]. destruct (negb _); [done|].
  pose proof (law_rename_net (temp_path_ s) (output_path_ s) w2) as Hr.
  destruct (sys_rename _ _ w2) as [w3 ok]. destruct ok; by etrans.
Qed.

Lemma destroy_offline s w : offline w (destroy s w).
Proof.
  unfold destroy. pose proof (close_offline (file_ s) w) as Hc.
  destruct (_ && _); [|exact Hc]. destruct (close (file_ s) w) as [w1 f].
  pose proof (law_unlink_net (temp_path_ s) w1) as Hu. destruct (sys_unlink _ w1) as [w2 ok].
  etrans; [exact Hc|]. etrans; [exact Hu|]. apply close_offline.
Qed.
End Offline.
