(* ===== verification/Health.v ===== *)
(** * A system in good health

    The laws of FileIO.v and Net.v say what a call has done when it succeeds; here
    the calls of a system that is [healthy] do succeed.  Signals may still interrupt
    reads and writes and these may still come up short; nothing else goes wrong, so
    that neither do the operations of FileIO.v. *)

From S2P Require Import Prelude Words FileIO Net Disk.
Open Scope Z_scope.

Class HealthyFiles (W : Type) `{OSL : PosixLaws W} := {
  healthy : W -> Prop;
  ok_open p mode w :
    healthy w -> (mode = O_RDONLY -> is_Some (names (view w) !! p)) ->
    let '(w', r) := sys_open p mode w in healthy w' /\ exists fd, r = inl fd;
  ok_close fd w : healthy w -> healthy (sys_close fd w);
  ok_fstat fd i c w :
    healthy w -> opened (view w) fd i c ->
    let '(w', r) := sys_fstat_size fd w in healthy w' /\ exists n, r = inl n;
  ok_pread fd n off i c w :
    healthy w -> opened (view w) fd i c -> 0 <= off ->
    let '(w', r) := sys_pread fd n off w in healthy w' /\ (forall e, r = inr e -> e = EINTR);
  ok_pwrite fd bs off i c w :
    healthy w -> opened (view w) fd i c -> 0 <= off -> bs <> [] ->
    let '(w', r) := sys_pwrite fd bs off w in
    healthy w' /\ match r with inl k => k <> O | inr e => e = EINTR end;
  ok_fsync fd i c w :
    healthy w -> opened (view w) fd i c -> let '(w', ok) := sys_fsync fd w in healthy w' /\ ok = true;
  ok_rename p q w :
    healthy w -> is_Some (names (view w) !! p) -> let '(w', ok) := sys_rename p q w in healthy w' /\ ok = true
}.

(** The sockets and the clock. *)
Class HealthyNetwork (W : Type) `{HF : HealthyFiles W} `{NET : !Network W} := {
  ok_now w : healthy w -> healthy (sys_now w).1;
  ok_sendto fd bytes a w :
    healthy w -> let '(w', r) := sys_sendto fd bytes a w in healthy w' /\ exists n, r = inl n /\ 0 <= n
}.

(** ** Files *)

Section Files.
Context {W : Type} `{HF : HealthyFiles W}.
Implicit Types (w : W).

Lemma close_ok f w : healthy w -> healthy (close f w).1.
Proof. intros Hw. unfold close. destruct (valid f); [by apply ok_close|done]. Qed.

Lemma open_with_ok mode p f w :
  healthy w -> (mode = O_RDONLY -> is_Some (names (view w) !! p)) -> valid f = false ->
  let '(w', f', ok) := open_with mode p f w in healthy w' /\ ok = true /\ valid f' = true.
Proof.
  intros Hw Hp Hf. unfold open_with, close. rewrite Hf.
  pose proof (ok_open p mode w Hw Hp) as Ho. pose proof (law_open p mode w) as Hl.
  destruct (sys_open p mode w) as [w' r]. destruct Ho as [Hw' [fd ->]]. destruct Hl as [Hfd _].
  apply Z.leb_le in Hfd. done.
Qed.

Lemma size_ok f i c w :
  healthy w -> opened (view w) (fd_ f) i c -> 0 <= fd_ f -> Z.of_nat (length c) < 2 ^ 63 ->
  let '(w', r) := size f w in healthy w' /\ view w' = view w /\ r = inl (Z.of_nat (length c)).
Proof.
  intros Hw Ho Hf Hc. unfold size, valid. rewrite (proj2 (Z.leb_le _ _)) by done. simpl.
  pose proof (ok_fstat (fd_ f) i c w Hw Ho) as Hs. pose proof (law_fstat (fd_ f) w) as Hl.
  destruct (sys_fstat_size (fd_ f) w) as [w' r]. destruct Hs as [Hw' [n ->]]. destruct Hl as (Hv & i' & c' & Ho' & ->).
  split_and!; [done..|]. destruct Ho, Ho'. simplify_eq. by rewrite wrap_small by (unfold fits; lia).
Qed.

Lemma read_loop_ok fuel fd got want offset i c w :
  healthy w -> opened (view w) fd i c -> 0 <= offset -> offset + Z.of_nat (length got + want) < 2 ^ 63 ->
  let '(w', r) := read_loop fuel fd got want offset w in healthy w' /\ exists bs, r = inl bs.
Proof.
  revert got want w. induction fuel as [|fuel IH]; intros got want w Hw Ho Hoff Hlt; simpl; [by eauto|].
  destruct (want =? 0)%nat; [by eauto|]. rewrite s64_small by lia.
  pose proof (ok_pread fd want (offset + Z.of_nat (length got)) i c w Hw Ho ltac:(lia)) as Hr.
  pose proof (law_pread fd want (offset + Z.of_nat (length got)) w) as Hl.
  destruct (sys_pread _ _ _ w) as [w1 r]. destruct Hr as [Hw1 Hr], Hl as [Hv Hl]. rewrite <- Hv in Ho.
  destruct r as [[|b bs]|e]; [by eauto| |].
  - destruct Hl as (_ & _ & _ & _ & _ & _ & Hle & _). simpl in Hle.
    apply IH; [done..|]. rewrite length_app. simpl in *. lia.
  - rewrite (Hr e eq_refl), Z.eqb_refl. by apply IH.
Qed.

Lemma read_at_ok f want offset i c w :
  healthy w -> opened (view w) (fd_ f) i c -> 0 <= fd_ f -> 0 <= offset -> offset + Z.of_nat want < 2 ^ 63 ->
  let '(w', r) := read_at f want offset w in
  healthy w' /\ view w' = view w /\ r = inl (take want (drop (Z.to_nat offset) c)).
Proof.
  intros Hw Ho Hf Hoff Hlt. pose proof (read_at_opened f want offset w i c Ho Hf ltac:(lia) ltac:(lia)) as Hr.
  unfold read_at, valid in *. rewrite (proj2 (Z.leb_le _ _)) in * by done. simpl negb in *. cbv iota in *.
  pose proof (read_loop_ok (S (want + interruptions w)) (fd_ f) [] want offset i c w Hw Ho Hoff ltac:(simpl; lia)) as Hok.
  destruct (read_loop _ _ _ _ _ w) as [w' r]. destruct Hok as [Hw' [bs ->]], Hr as [Hv ->]. done.
Qed.

Lemma write_loop_ok fuel fd n rest offset i c w :
  healthy w -> opened (view w) fd i c -> 0 <= offset -> offset + Z.of_nat (n + length rest) < 2 ^ 63 ->
  let '(w', r) := write_loop fuel fd n rest offset w in healthy w' /\ exists k, r = inl k.
Proof.
  revert n rest c w. induction fuel as [|fuel IH]; intros n rest c w Hw Ho Hoff Hlt; simpl; [by eauto|].
  destruct rest as [|b rest]; simpl; [by eauto|]. set (bs := b :: rest) in *. rewrite s64_small by lia.
  pose proof (ok_pwrite fd bs (offset + Z.of_nat n) i c w Hw Ho ltac:(lia) ltac:(done)) as Hr.
  pose proof (law_pwrite fd bs (offset + Z.of_nat n) w) as Hl.
  destruct (sys_pwrite _ _ _ w) as [w1 r]. destruct Hr as [Hw1 Hr]. destruct r as [[|k]|e]; [done| |].
  - destruct Hl as (_ & Hk & _ & i' & c' & Ho' & Hv).
    eapply (IH _ _ (overwrite c' (Z.to_nat (offset + Z.of_nat n)) (take (S k) bs))); [done| |done|rewrite length_drop; lia].
    destruct Ho, Ho'. simplify_eq. rewrite Hv. split; [done|simpl; by rewrite lookup_insert_eq].
  - subst e. destruct Hl as [Hv _]. rewrite <- Hv in Ho. simpl. by eapply IH.
Qed.

Lemma write_at_ok f bs offset i c w :
  healthy w -> opened (view w) (fd_ f) i c -> 0 <= fd_ f -> 0 <= offset -> offset + Z.of_nat (length bs) < 2 ^ 63 ->
  let '(w', r) := write_at f bs offset w in healthy w' /\ exists k, r = inl k.
Proof.
  intros Hw Ho Hf Hoff Hlt. unfold write_at, valid. rewrite (proj2 (Z.leb_le _ _)) by done. simpl negb. cbv iota.
  by eapply write_loop_ok.
Qed.

Lemma sync_ok f i c w :
  healthy w -> opened (view w) (fd_ f) i c -> 0 <= fd_ f ->
  let '(w', ok) := sync f w in healthy w' /\ ok = true.
Proof.
  intros Hw Ho Hf. unfold sync, valid. rewrite (proj2 (Z.leb_le _ _)) by done. by eapply ok_fsync.
Qed.
End Files.

(** ** Disks that do not break *)

Lemma opened_file_at v fd i c : opened v fd i c -> file_at v fd = Some (i, c).
Proof. intros [Hh Hd]. unfold file_at. by rewrite Hh, Hd. Qed.

Lemma spend_whole d : Broken ∉ glitches d -> (Broken ∉ glitches (spend d)) /\ next_glitch d <> Broken.
Proof.
  unfold spend, next_glitch. simpl. destruct (glitches d) as [|g l]; [by split|].
  intros [Hg Hl]%not_elem_of_cons. split; [done|]. simpl. congruence.
Qed.

#[export] Instance disk_healthy : HealthyFiles Disk.
Proof.
  refine {| healthy d := (Broken ∉ glitches d) |}.
  - intros p mode d Hd Hp. simpl. unfold disk_open. destruct mode; simpl; [|by eauto].
    destruct (Hp eq_refl) as [i Hi]. simpl in Hi. rewrite Hi. by eauto.
  - done.
  - intros fd i c d Hd Ho. apply (opened_file_at (disk_view d)) in Ho. simpl. rewrite Ho. by eauto.
  - intros fd n off i c d Hd Ho Hoff. apply (opened_file_at (disk_view d)) in Ho. simpl. unfold disk_pread. destruct (spend_whole d Hd) as [Hs Hg].
    rewrite (proj2 (Z.ltb_ge _ _)), Ho by done.
    destruct (next_glitch d); (split; [done|]); intros e; congruence.
  - intros fd bs off i c d Hd Ho Hoff Hbs. apply (opened_file_at (disk_view d)) in Ho. simpl. unfold disk_pwrite. destruct (spend_whole d Hd) as [Hs Hg].
    rewrite (proj2 (Z.ltb_ge _ _)), Ho by done.
    assert (length bs <> O) as Hlen by (by destruct bs).
    destruct (next_glitch d); (split; [done|]); try done; lia.
  - done.
  - intros p q d Hd [i Hi]. simpl in *. rewrite Hi. by case_decide.
Defined.
