(* ===== verification/Footprint.v ===== *)
(** * What a session does to the file system

    The five kinds of change a packet handled by ReceiverSession.v can make to the
    view of the file system, whatever state the session is in, and where its two
    paths come from.  The theorems on the server, where many sessions share one
    file system, are proved against this. *)

From S2P Require Import Prelude Words Packet Sha256 Filename Transfer ReceiverWindow FileIO ReceiverSession.
Import Packet.Packet.
Open Scope Z_scope.

(** The view once the file is closed, and the descriptor it has. *)
Definition shut (f : File) (v : View) : View := if valid f then drop_handle (fd_ f) v else v.
Definition fd_of (s : ReceiverSession) : option Z := if valid (file_ s) then Some (fd_ (file_ s)) else None.

(** The names of a session after a packet: as they were, or as START asks. *)
Inductive repath (p : Packet) (s s' : ReceiverSession) : Prop :=
| repath_same :
    output_directory_ s' = output_directory_ s -> temp_path_ s' = temp_path_ s -> output_path_ s' = output_path_ s ->
    (started_ s' = true -> started_ s = true) -> repath p s s'
| repath_start name :
    output_directory_ s' = output_directory_ s ->
    packet_type (header p) = kStart -> sanitize_filename (payload p) = (Filename.kNone, name) ->
    temp_path_ s' = join_path (output_directory_ s) (temp_name (session_id (header p))) ->
    output_path_ s' = join_path (output_directory_ s) name -> repath p s s'.

(** The view after it. *)
Inductive changes (s s' : ReceiverSession) (v v' : View) : Prop :=
| chg_none : v' = v -> file_ s' = file_ s -> published_ s' = published_ s -> changes s s' v v'
| chg_shut : v' = shut (file_ s) v -> file_ s' = closed_file -> published_ s' = published_ s -> changes s s' v v'
| chg_open i :
    0 <= fd_ (file_ s') -> handles (shut (file_ s) v) !! fd_ (file_ s') = None ->
    v' = set_names <[temp_path_ s' := i]> (set_content i [] (set_handle (fd_ (file_ s')) i (shut (file_ s) v))) ->
    names v !! temp_path_ s' = Some i \/ (data v !! i = None /\ forall q, names v !! q <> Some i) ->
    published_ s' = published_ s -> started_ s' = true -> started_ s = false -> changes s s' v v'
| chg_write i c :
    valid (file_ s) = true -> handles v !! fd_ (file_ s) = Some i -> v' = set_content i c v ->
    file_ s' = file_ s -> published_ s' = published_ s -> changes s s' v v'
| chg_rename i :
    started_ s = true -> names v !! temp_path_ s = Some i ->
    v' = (if decide (names v !! output_path_ s = Some i) then v
          else set_names (fun m => <[output_path_ s := i]> (delete (temp_path_ s) m)) v) ->
    file_ s' = file_ s -> published_ s' = true -> changes s s' v v'.

Lemma shut_names f v : names (shut f v) = names v /\ data (shut f v) = data v.
Proof. unfold shut. by destruct (valid f). Qed.

Section Steps.
Context {W : Type} `{OSL : PosixLaws W}.
Implicit Types (w : W) (s : ReceiverSession).

Lemma close_shut f w : view (close f w).1 = shut f (view w) /\ valid (close f w).2 = false.
Proof. split; [apply close_view|]. unfold close. by destruct (valid f) eqn:E. Qed.

Lemma read_loop_view fuel fd got want off w : view (read_loop fuel fd got want off w).1 = view w.
Proof.
  revert got want w. induction fuel as [|fuel IH]; intros got want w; cbn [read_loop]; [done|].
  destruct (want =? 0)%nat; [done|]. pose proof (law_pread fd want (s64 (off + Z.of_nat (length got))) w) as Hv.
  destruct (sys_pread _ _ _ w) as [w1 [[|b bs]|e]]; destruct Hv as [Hv _]; [done|by rewrite IH, Hv|].
  destruct (e =? EINTR); [by rewrite IH, Hv|done].
Qed.

Lemma read_at_view f want off w : view (read_at f want off w).1 = view w.
Proof. unfold read_at. destruct (negb _); [done|apply read_loop_view]. Qed.

Lemma hash_back_view fuel f bytes off hasher w : view (hash_back fuel f bytes off hasher w).1 = view w.
Proof.
  revert off hasher w. induction fuel as [|fuel IH]; intros off hasher w; cbn [hash_back]; [done|].
  destruct (negb _); [done|]. set (want := if _ <? _ then _ else _).
  pose proof (read_at_view f (Z.to_nat want) off w) as Hr. destruct (read_at f _ off w) as [w1 [bs|e]]; [|done].
  simpl in Hr. destruct (negb _); [done|]. by rewrite IH, Hr.
Qed.

(** Writing reaches one file, the one that is open. *)
Lemma write_loop_view fuel fd n bs off w :
  let v' := view (write_loop fuel fd n bs off w).1 in
  v' = view w \/ exists i c, handles (view w) !! fd = Some i /\ v' = set_content i c (view w).
Proof.
  revert n bs w. induction fuel as [|fuel IH]; intros n bs w; cbn [write_loop]; [by left|].
  destruct (length bs =? 0)%nat; [by left|]. pose proof (law_pwrite fd bs (s64 (off + Z.of_nat n)) w) as Hl.
  destruct (sys_pwrite _ _ _ w) as [w1 [k|e]].
  - destruct Hl as (_ & _ & _ & i & c & [Hh _] & Hv). set (c' := overwrite _ _ _) in Hv.
    destruct k as [|k]; [right; by exists i, c'|]. specialize (IH (n + Datatypes.S k)%nat (drop (Datatypes.S k) bs) w1). simpl in IH. rewrite Hv in IH.
    destruct IH as [->|(j & d & Hj & ->)]; right; [by exists i, c'|]. simpl in Hj. exists i, d. assert (j = i) as -> by congruence.
    split; [done|]. unfold set_content. simpl. by rewrite insert_insert_eq.
  - destruct Hl as [Hv _]. destruct (e =? EINTR); [|by left]. specialize (IH n bs w1). by rewrite Hv in IH.
Qed.

Lemma write_at_view f bs off w :
  let v' := view (write_at f bs off w).1 in
  v' = view w \/ exists i c, valid f = true /\ handles (view w) !! fd_ f = Some i /\ v' = set_content i c (view w).
Proof.
  unfold write_at. destruct (valid f) eqn:Hf; simpl negb; cbv iota; [|by left].
  destruct (write_loop_view (S (length bs + interruptions w)) (fd_ f) 0 bs off w) as [?|(i & c & ? & ?)]; [by left|].
  right. by exists i, c.
Qed.

(** A packet handled: the state, and the view. *)
Definition steps p s w (r : W * ReceiverSession * Reply) : Prop :=
  repath p s r.1.2 /\ changes s r.1.2 (view w) (view r.1.1).

Lemma steps_view p s s' w w' r :
  view w' = view w -> file_ s' = file_ s -> published_ s' = published_ s -> output_directory_ s' = output_directory_ s ->
  temp_path_ s' = temp_path_ s -> output_path_ s' = output_path_ s -> started_ s' = started_ s -> steps p s w (w', s', r).
Proof. intros. split; [apply repath_same; cbn [fst snd]; intros; congruence|by apply chg_none]. Qed.

Lemma on_start_steps p s w : packet_type (header p) = kStart -> steps p s w (on_start p s w).
Proof.
  intros Ht. unfold on_start. destruct (started_ s) eqn:Hst; [destruct (_ =? _); by apply steps_view|].
  destruct (sanitize_filename (payload p)) as [rej name] eqn:Hsan. destruct rej; try by apply steps_view.
  set (s1 := set_paths _ _ _). pose proof (open_write_opened (temp_path_ s1) (file_ s1) w) as Ho.
  destruct (open_write _ _ w) as [[w1 f] ok]. fold (shut (file_ s1) (view w)) in Ho.
  destruct ok; simpl negb; cbv iota; (split; [by eapply repath_start|]).
  - destruct Ho as (Hfd & Hfree & i & Hv & Hi). destruct (shut_names (file_ s1) (view w)) as [Hn Hd]. rewrite Hn, Hd in Hi.
    apply (chg_open _ _ _ _ i); try done. destruct Hi as [?|(_ & ? & ?)]; [by left|by right].
  - destruct Ho as [Hv ->]. by apply chg_shut.
Qed.

Lemma on_data_steps p s w : steps p s w (on_data p s w).
Proof.
  unfold on_data. destruct (classify _ _); [|by apply steps_view..]. destruct (_ >? _); [by apply steps_view|].
  set (s1 := if negb _ then _ else s).
  assert (exists f, s1 = set_stats f s) as [f ->] by (subst s1; destruct (negb _); [by eexists|exists (fun t => t); by destruct s]).
  pose proof (write_at_view (file_ s) (payload p) (byte_offset (header p)) w) as Hw. cbn [file_ set_stats].
  destruct (write_at _ _ _ w) as [w1 r]. simpl in Hw.
  assert (forall s' r, file_ s' = file_ s -> published_ s' = published_ s -> output_directory_ s' = output_directory_ s ->
    temp_path_ s' = temp_path_ s -> output_path_ s' = output_path_ s -> started_ s' = started_ s -> steps p s w (w1, s', r)) as Hdone.
  { intros. destruct Hw as [Hw|(i & c & Hf & Hi & Hw)]; [by apply steps_view|].
    split; [apply repath_same; cbn [fst snd]; intros; congruence|by eapply chg_write]. }
  destruct r as [n|e]; [destruct (negb (n =? _)%nat)|]; by apply Hdone.
Qed.

Lemma on_fin_steps p s w : started_ s = true -> steps p s w (on_fin p s w).
Proof.
  intros Hst. unfold on_fin. destruct (negb _); [by apply steps_view|]. pose proof (sync_view (file_ s) w) as H1.
  destruct (sync (file_ s) w) as [w1 ok]. simpl in H1. destruct ok; simpl negb; cbv iota; [|by apply steps_view].
  pose proof (hash_back_view (hash_fuel (bytes_written_ s)) (file_ s) (bytes_written_ s) 0 new_hasher w1) as H2.
  destruct (hash_back _ _ _ _ _ w1) as [w2 r]. simpl in H2. assert (view w2 = view w) as H3 by congruence.
  destruct r as [h|]; [|by apply steps_view]. do 2 (destruct (negb _); [by apply steps_view|]).
  pose proof (law_rename (temp_path_ s) (output_path_ s) w2) as Hr. rewrite H3 in Hr.
  destruct (sys_rename _ _ w2) as [w3 ok]. destruct ok; simpl negb; cbv iota; [|by apply steps_view; [congruence|..]].
  destruct Hr as (i & Hi & Hv). split; [by apply repath_same|]. by apply (chg_rename _ _ _ _ i).
Qed.

Lemma handle_packet_steps p s w : steps p s w (handle_packet p s w).
Proof.
  unfold handle_packet. assert (forall r, steps p (set_stats count_received s) w r -> steps p s w r) as Hst.
  { intros [[w' s'] r] [Hp Hc]. split; [destruct Hp; by econstructor|].
    destruct Hc; [by apply chg_none|by apply chg_shut|by eapply chg_open|by eapply chg_write|by eapply chg_rename]. }
  apply Hst. clear Hst. generalize (set_stats count_received s) as s1. clear s. intros s.
  destruct (_ && _ && _ && _); [by apply steps_view|]. destruct (finished_ s); [by apply steps_view|].
  destruct (bool_decide (packet_type _ = kStart)) eqn:Ht; bool_to_prop; [by apply on_start_steps|].
  destruct (started_ s) eqn:Hst; simpl negb; cbv iota; [|by apply steps_view].
  destruct (negb _); [by apply steps_view|]. destruct (bool_decide _); [apply on_data_steps|].
  destruct (bool_decide _); [by apply on_fin_steps|by apply steps_view].
Qed.

(** The destructor closes the file and may remove the temporary name. *)
Lemma destroy_view s w :
  let v := shut (file_ s) (view w) in
  view (destroy s w) = v \/
  (published_ s = false /\ temp_path_ s <> [] /\ view (destroy s w) = set_names (delete (temp_path_ s)) v).
Proof.
  unfold destroy. destruct (close_shut (file_ s) w) as [Hc Hinv]. destruct (published_ s); simpl; [by left|].
  case_bool_decide as Ht; simpl; [by left|]. destruct (close (file_ s) w) as [w1 f]. simpl in Hc, Hinv.
  pose proof (law_unlink (temp_path_ s) w1) as Hu. destruct (sys_unlink _ w1) as [w2 ok].
  destruct (close_shut f w2) as [-> _]. unfold shut at 1 3. rewrite Hinv. rewrite <- Hc.
  destruct ok; [right; by split_and!|by left].
Qed.
End Steps.

(** ** Temporary names are told apart *)

Lemma to_hex_snoc d b : to_hex (d ++ [b]) = to_hex d ++ to_hex [b].
Proof. unfold to_hex. by rewrite foldl_snoc. Qed.

Lemma to_hex_byte_inj b1 b2 : to_hex [b1] = to_hex [b2] -> b1 = b2.
Proof.
  set (digit c := default 0%nat (fst <$> list_find (fun x => x = c) kHex)).
  set (decode l := match l with [h; u] => byte_of_Z (Z.of_nat (16 * digit h + digit u)) | _ => Byte.x00 end).
  assert (forall b, decode (to_hex [b]) = b) as Hd by (intros b; destruct b; vm_compute; reflexivity).
  intros He. by rewrite <- (Hd b1), He.
Qed.

Lemma to_hex_inj d1 d2 : length d1 = length d2 -> to_hex d1 = to_hex d2 -> d1 = d2.
Proof.
  revert d2. induction d1 as [|b1 d1 IH] using rev_ind; intros d2.
  - by destruct d2.
  - destruct d2 as [|b2 d2 _] using rev_ind; rewrite !length_app; simpl; [lia|]. intros Hl.
    rewrite !to_hex_snoc. intros [H1 H2]%app_inj_2; [|done]. f_equal; [apply IH; [lia|done]|]. f_equal. by apply to_hex_byte_inj.
Qed.

Lemma temp_name_inj a b : fits 64 a -> fits 64 b -> temp_name a = temp_name b -> a = b.
Proof.
  intros Ha Hb He%app_inv_head%app_inv_tail. apply to_hex_inj in He; [|by rewrite !length_be_bytes].
  pose proof (be_value_be_bytes 8 a) as H1. pose proof (be_value_be_bytes 8 b) as H2. rewrite He, H2 in H1.
  change (8 * Z.of_nat 8) with 64 in H1. by rewrite !wrap_small in H1.
Qed.

Lemma join_path_inj dir a b : join_path dir a = join_path dir b -> a = b.
Proof. apply app_inv_head. Qed.

Lemma join_path_nonempty dir a : safe_name a -> join_path dir a <> [].
Proof. intros Ha [_ He]%app_nil. by apply safe_nonempty in Ha. Qed.

(** ** A file that has one name *)

(** [q] is the only name of the file [i], and only [own] descriptors are open on
    it. *)
Record sole (own : Z -> Prop) (v : View) (q : path) (i : nat) : Prop := {
  sole_name : names v !! q = Some i;
  sole_only q' : names v !! q' = Some i -> q' = q;
  sole_open fd : handles v !! fd = Some i -> own fd
}.

(** Descriptors are open on files. *)
Definition clean (v : View) : Prop := forall fd i, handles v !! fd = Some i -> is_Some (data v !! i).

Lemma sole_frame (own own' : Z -> Prop) v v' q i :
  sole own v q i -> names v' !! q = Some i ->
  (forall q', names v' !! q' = Some i -> names v !! q' = Some i) ->
  (forall fd, handles v' !! fd = Some i -> handles v !! fd = Some i /\ (own fd -> own' fd)) -> sole own' v' q i.
Proof.
  intros [] Hq Hn Hh. split; [done|auto|]. intros fd Hfd. destruct (Hh fd Hfd) as [Hfd' H]. auto.
Qed.

Lemma clean_changes s s' v v' : changes s s' v v' -> clean v -> clean v'.
Proof.
  assert (forall f, clean v -> clean (shut f v)) as Hshut.
  { intros f Hv fd i. unfold shut. destruct (valid f); [|apply Hv]. simpl. intros [_ ?]%lookup_delete_Some. by apply (Hv fd). }
  assert (forall i c v1, clean v1 -> clean (set_content i c v1)) as Hset.
  { intros i c v1 Hv fd j Hj. simpl. destruct (decide (j = i)) as [->|]; [rewrite lookup_insert_eq; by eexists|].
    rewrite lookup_insert_ne by done. by apply (Hv fd). }
  intros [-> _ _| -> _ _|i _ _ -> _ _ _ _|i c _ _ -> _ _|i _ _ -> _ _] Hv; [done|by apply Hshut| |by apply Hset|by case_decide].
  intros fd j. simpl. intros [[_ <-]|[_ Hj]]%lookup_insert_Some; [rewrite lookup_insert_eq; by eexists|].
  by apply (Hset i [] _ (Hshut (file_ s) Hv) fd j).
Qed.

Section Foreign.
Context (own : Z -> Prop) (s s' : ReceiverSession) (v v' : View) (Hc : changes s s' v v').

(** What a session does elsewhere leaves a file that has one name alone. *)
Lemma foreign_names q :
  temp_path_ s <> q -> output_path_ s <> q -> temp_path_ s' <> q -> names v' !! q = names v !! q.
Proof.
  intros Ht Ho Ht'. destruct (shut_names (file_ s) v) as [Hn _].
  destruct Hc as [-> _ _| -> _ _|i _ _ -> _ _ _ _|i c _ _ -> _ _|i _ _ -> _ _]; simpl; rewrite ?Hn; try done.
  - by rewrite lookup_insert_ne.
  - case_decide; [done|]. simpl. by rewrite lookup_insert_ne, lookup_delete_ne.
Qed.

Lemma foreign_handles fd :
  fd_of s <> Some fd -> is_Some (handles v !! fd) -> handles v' !! fd = handles v !! fd.
Proof.
  intros Hfd Hopen. assert (handles (shut (file_ s) v) !! fd = handles v !! fd) as Hs.
  { unfold shut, fd_of in *. destruct (valid (file_ s)); [|done]. simpl. apply lookup_delete_ne. congruence. }
  destruct Hc as [-> _ _| -> _ _|i _ Hfree -> _ _ _ _|i c _ _ -> _ _|i _ _ -> _ _]; [done|done| |done|by case_decide].
  simpl. rewrite lookup_insert_ne; [done|]. intros <-. rewrite <- Hs, Hfree in Hopen. by destruct Hopen.
Qed.

Lemma foreign_sole q i :
  temp_path_ s <> q -> output_path_ s <> q -> temp_path_ s' <> q -> (forall fd, fd_of s = Some fd -> ~ own fd) ->
  sole own v q i -> sole own v' q i /\ data v' !! i = data v !! i.
Proof.
  intros Ht Ho Ht' Hown Hs. pose proof (foreign_names q Ht Ho Ht') as Hq. rewrite (sole_name _ _ _ _ Hs) in Hq.
  destruct (shut_names (file_ s) v) as [Hn Hd].
  assert (forall fd j, handles (shut (file_ s) v) !! fd = Some j -> handles v !! fd = Some j) as Hh.
  { intros fd j. unfold shut. destruct (valid _); [|done]. simpl. by intros [_ ?]%lookup_delete_Some. }
  destruct Hc as [-> _ _| -> _ _|j Hfd _ -> Hj _ _ _|j c Hf Hj -> _ _|j _ Hj -> _ _].
  - done.
  - rewrite Hd. split; [|done]. apply (sole_frame own own v); try done; [by rewrite Hn|]. intros fd Hfd. split; [by apply Hh|done].
  - assert (j <> i) as Hne.
    { intros ->. destruct Hj as [Hj|[_ Hj]]; [by apply Ht', (sole_only _ _ _ _ Hs)|exact (Hj q (sole_name _ _ _ _ Hs))]. }
    simpl. rewrite lookup_insert_ne, Hd by done. split; [|done]. apply (sole_frame own own v); simpl; try done.
    + intros q'. rewrite Hn. by intros [[_ ?]|[_ ?]]%lookup_insert_Some.
    + intros fd [[_ ?]|[_ ?]]%lookup_insert_Some; [done|]. split; [by apply Hh|done].
  - assert (j <> i) as Hne.
    { intros ->. apply (Hown (fd_ (file_ s))); [unfold fd_of; by rewrite Hf|]. by apply (sole_open _ _ _ _ Hs). }
    simpl. rewrite lookup_insert_ne by done. split; [|done]. by apply (sole_frame own own v).
  - assert (j <> i) as Hne by (intros ->; by apply Ht, (sole_only _ _ _ _ Hs)).
    case_decide; [done|]. split; [|done]. apply (sole_frame own own v); simpl; try done.
    intros q' [[_ ?]|[_ [_ ?]%lookup_delete_Some]]%lookup_insert_Some; done.
Qed.
End Foreign.

Section Shut.
Context (s : ReceiverSession) (v : View).
Abbreviation own := (fun fd => fd_of s = Some fd).

(** Once its own descriptor is closed, no other is open on it. *)
Lemma own_shut q' i : sole own v q' i -> forall fd, handles (shut (file_ s) v) !! fd <> Some i.
Proof.
  intros Hs fd Hfd. assert (handles v !! fd = Some i /\ fd_of s <> Some fd) as [Hv Hn].
  { unfold shut, fd_of in *. destruct (valid (file_ s)); [|done]. simpl in Hfd. apply lookup_delete_Some in Hfd as [? ?].
    split; [done|congruence]. }
  by apply Hn, (sole_open _ _ _ _ Hs).
Qed.

Lemma shut_sole own1 q' i : sole own v q' i -> sole own1 (shut (file_ s) v) q' i.
Proof.
  intros Hs. destruct (shut_names (file_ s) v) as [Hn _]. split; rewrite ?Hn; [apply Hs..|].
  intros fd Hfd. by destruct (own_shut q' i Hs fd).
Qed.

End Shut.

Section Own.
Context (s s' : ReceiverSession) (v v' : View) (Hc : changes s s' v v').
Context (t q : path) (Hne : q <> t) (Hclean : clean v).
Context (Hstart : started_ s = true -> temp_path_ s = t /\ output_path_ s = q).
Context (Hstart' : started_ s' = true -> temp_path_ s' = t).
Context (Hlink : forall i, valid (file_ s) = true -> handles v !! fd_ (file_ s) = Some i -> names v !! t = Some i).

Abbreviation own := (fun fd => fd_of s = Some fd).
Abbreviation own' := (fun fd => fd_of s' = Some fd).

Context (Hprivate : forall i, names v !! t = Some i -> sole own v t i).

Lemma own_apart i : names v !! t = Some i -> names v !! q <> Some i.
Proof. intros Ht Hq. apply Hne. exact (sole_only _ _ _ _ (Hprivate i Ht) q Hq). Qed.

(** A file opened under the temporary name, made or made empty. *)
Lemma own_opened fd i :
  names v !! t = Some i \/ (data v !! i = None /\ forall p, names v !! p <> Some i) ->
  let v1 := set_names <[t := i]> (set_content i [] (set_handle fd i (shut (file_ s) v))) in
  (forall i', names v1 !! t = Some i' -> sole (eq fd) v1 t i') /\
  (forall j, sole own v q j -> sole (eq fd) v1 q j /\ data v1 !! j = data v !! j).
Proof.
  intros Hi v1. destruct (shut_names (file_ s) v) as [Hn Hd]. subst v1. simpl. rewrite Hn, Hd.
  assert (forall fd, handles (shut (file_ s) v) !! fd <> Some i) as Hnone.
  { intros fd' Hh. destruct Hi as [Hi|[Hi _]]; [by destruct (own_shut s v t i (Hprivate i Hi) fd')|].
    destruct (Hclean fd' i) as [c Hcl]; [|congruence]. unfold shut in Hh. destruct (valid _); [|done]. simpl in Hh.
    by apply lookup_delete_Some in Hh as []. }
  split.
  - intros i' [[_ <-]|[? _]]%lookup_insert_Some; [|done]. split; simpl; rewrite ?Hn; [by rewrite lookup_insert_eq|..].
    + intros q' [[<- _]|[_ Hq']]%lookup_insert_Some; [done|]. destruct Hi as [Hi|[_ Hi]]; [|by destruct (Hi q')].
      exact (sole_only _ _ _ _ (Hprivate i Hi) q' Hq').
    + intros fd' [[<- _]|[_ Hh]]%lookup_insert_Some; [done|by destruct (Hnone fd')].
  - intros j Hj. assert (j <> i) as Hji.
    { intros ->. pose proof (sole_name _ _ _ _ Hj) as Hq. destruct Hi as [Hi|[_ Hi]]; [by apply (own_apart i)|by apply (Hi q)]. }
    rewrite lookup_insert_ne by done. split; [|done]. split; simpl; rewrite ?Hn.
    + rewrite lookup_insert_ne by done. apply Hj.
    + intros q' [[_ ?]|[_ Hq']]%lookup_insert_Some; [done|by apply (sole_only _ _ _ _ Hj)].
    + intros fd' [[_ ?]|[_ Hh]]%lookup_insert_Some; [done|by destruct (own_shut s v q j Hj fd')].
Qed.

(** The file moved from the temporary name to the final one. *)
Lemma own_renamed i :
  names v !! t = Some i ->
  let v1 := if decide (names v !! q = Some i) then v else set_names (fun m => <[q := i]> (delete t m)) v in
  names v1 !! t = None /\ sole own v1 q i.
Proof.
  intros Hi. pose proof (Hprivate i Hi) as Hs. cbv zeta. rewrite decide_False by (by apply own_apart). simpl.
  split; [by rewrite lookup_insert_ne, lookup_delete_eq|]. split; simpl; [by rewrite lookup_insert_eq| |apply Hs].
  intros q' [[<- _]|[_ [Hq' Hn']%lookup_delete_Some]]%lookup_insert_Some; [done|]. destruct Hq'. symmetry.
  exact (sole_only _ _ _ _ Hs q' Hn').
Qed.

(** The temporary name keeps its file to itself, and the final one too: either its
    file is as it was, or the temporary one has taken its place. *)
Lemma own_changes :
  (forall i, names v' !! t = Some i -> sole own' v' t i) /\
  ((published_ s' = published_ s /\ forall j, sole own v q j -> sole own' v' q j /\ data v' !! j = data v !! j) \/
   (published_ s' = true /\ exists i, sole own' v' q i)).
Proof.
  assert (file_ s' = file_ s -> fd_of s' = fd_of s) as Hsame by (intros Hf; unfold fd_of; by rewrite Hf).
  destruct (shut_names (file_ s) v) as [Hn Hd].
  destruct Hc as [-> Hf Hp| -> Hf Hp|i Hfd Hfree -> Hi Hp Hst' Hst|i c Hf Hi -> Hf' Hp|i Hst Hi -> Hf Hp].
  - rewrite (Hsame Hf). split; [done|left; by split].
  - rewrite Hn, Hd. split; [intros i Hi; by apply shut_sole, Hprivate|left; split; [done|]; intros j Hj; split; [by apply shut_sole|done]].
  - rewrite (Hstart' Hst') in *. destruct (own_opened (fd_ (file_ s')) i Hi) as [Ht Hq].
    assert (forall v q i, sole (eq (fd_ (file_ s'))) v q i -> sole own' v q i) as Hown.
    { intros v1 q1 i1 []. split; [done..|]. intros fd <-%sole_open0. unfold fd_of, valid. by rewrite (proj2 (Z.leb_le _ _) Hfd). }
    split; [intros i' Hi'; by apply Hown, Ht|left; split; [done|]]. intros j Hj. destruct (Hq j Hj) as [? ?]. by split; [apply Hown|].
  - rewrite (Hsame Hf'). pose proof (Hlink i Hf Hi) as Ht.
    split; [intros j Hj; destruct (Hprivate j Hj); by split|left; split; [done|]].
    intros j Hj. simpl. rewrite lookup_insert_ne; [destruct Hj; by split|]. intros <-. by apply (own_apart i), (sole_name _ _ _ _ Hj).
  - rewrite (Hsame Hf). destruct (Hstart Hst) as [Htp Hop]. rewrite Htp, Hop in *. destruct (own_renamed i Hi) as [Ht Hs].
    split; [intros j; by rewrite Ht|]. right. split; [done|]. by exists i.
Qed.
End Own.
