(* ===== verification/Delivery.v ===== *)
(** * What an honest sender's packets produce

    The receiving session of ReceiverSession.v, driven by the packets a sender of
    this program makes of one file: chunk [k] travels as DATA number [k] with byte
    offset [k * chunk_size], the file size as the offset of START and FIN, the
    digest as the payload of FIN.  The network may lose, duplicate and reorder
    them at will. *)

From S2P Require Import Prelude Words Packet Sha256 Filename Transfer ReceiverWindow FileIO ReceiverSession.
Import Packet.Packet.
Open Scope Z_scope.

Section Chunks.
Context (F : list byte) (cs : nat).

(** Chunk [k] of the file: what [send_file] reads at [k * chunk_size]. *)
Definition chunk (k : nat) : list byte := take cs (drop (k * cs) F).
Definition chunk_total : nat := ((length F + cs - 1) / cs)%nat.

Lemma length_chunk k : length (chunk k) = Nat.min cs (length F - k * cs).
Proof. unfold chunk. by rewrite length_take, length_drop. Qed.

(** The bytes of the chunks of [S] among the first [m]. *)
Fixpoint stored (S : gset Z) (m : nat) : Z :=
  match m with
  | O => 0
  | Datatypes.S m => stored S m + (if decide (Z.of_nat m ∈ S) then Z.of_nat (length (chunk m)) else 0)
  end.

Lemma stored_bound S m :
  (0 < cs)%nat ->
  0 <= stored S m <= Z.of_nat (Nat.min (m * cs) (length F)) /\
  (stored S m = Z.of_nat (Nat.min (m * cs) (length F)) ->
   forall k, (k < m)%nat -> (k * cs < length F)%nat -> Z.of_nat k ∈ S).
Proof.
  intros Hcs. induction m as [|m [IHb IHf]]; simpl stored; [split; [simpl; lia|intros; lia]|].
  pose proof (length_chunk m) as Hl. pose proof (Nat.mul_succ_l m cs) as Hsucc.
  split; [case_decide; lia|].
  case_decide as Hm.
  - intros He k Hk Hlt. destruct (decide (k = m)) as [->|]; [done|]. apply IHf; lia.
  - intros He k Hk Hlt. destruct (decide (k = m)) as [->|]; [exfalso; lia|]. apply IHf; lia.
Qed.

Lemma stored_all S m :
  (forall k, (k < m)%nat -> Z.of_nat k ∈ S) ->
  stored S m = Z.of_nat (Nat.min (m * cs) (length F)).
Proof.
  induction m as [|m IH]; simpl stored; [done|]. intros Hall.
  pose proof (length_chunk m). pose proof (Nat.mul_succ_l m cs).
  rewrite IH, decide_True by (intros; apply Hall; lia). lia.
Qed.

Lemma stored_add S m k :
  (k < m)%nat -> Z.of_nat k ∉ S ->
  stored ({[Z.of_nat k]} ∪ S) m = stored S m + Z.of_nat (length (chunk k)).
Proof.
  assert (forall m, (m <= k)%nat -> stored ({[Z.of_nat k]} ∪ S) m = stored S m) as Hbelow.
  { induction m0 as [|m0 IH]; intros Hle; simpl; [done|]. rewrite IH by lia. f_equal.
    rewrite (decide_ext _ (Z.of_nat m0 ∈ S)); [done|].
    rewrite elem_of_union, elem_of_singleton. split; [intros [?|?]; [lia|done]|by right]. }
  intros Hk Hn. induction m as [|m IH]; [lia|]. simpl.
  destruct (decide (k = m)) as [->|].
  - rewrite Hbelow by lia. rewrite decide_True by set_solver. rewrite decide_False by done. lia.
  - rewrite IH by lia. rewrite (decide_ext _ (Z.of_nat m ∈ S)); [lia|].
    rewrite elem_of_union, elem_of_singleton. split; [intros [?|?]; [lia|done]|by right].
Qed.

Lemma chunk_total_covers : (0 < cs)%nat -> (length F <= chunk_total * cs)%nat.
Proof.
  intros Hcs. unfold chunk_total.
  pose proof (Nat.div_mod_eq (length F + cs - 1) cs). pose proof (Nat.mod_upper_bound (length F + cs - 1) cs). nia.
Qed.

Lemma chunk_total_tight k : (0 < cs)%nat -> (k < chunk_total)%nat -> (k * cs < length F)%nat.
Proof.
  intros Hcs Hk. unfold chunk_total in Hk.
  pose proof (Nat.div_mod_eq (length F + cs - 1) cs). nia.
Qed.

(** The content [c] agrees with the file on the chunks of [S]. *)
Definition agrees (c : list byte) (S : gset Z) : Prop :=
  (length c <= length F)%nat /\
  forall k j, Z.of_nat k ∈ S -> (k * cs <= j < k * cs + length (chunk k))%nat -> c !! j = F !! j.

Lemma agrees_write c S k :
  agrees c S -> agrees (overwrite c (k * cs) (chunk k)) ({[Z.of_nat k]} ∪ S).
Proof.
  intros [Hlen Hin]. destruct (decide (chunk k = [])) as [He|Hne].
  { rewrite He. split; [done|]. intros k' j [Hk|Hk]%elem_of_union Hj.
    - apply elem_of_singleton in Hk. assert (k' = k) as -> by lia. rewrite He in Hj. simpl in Hj. lia.
    - by apply (Hin k'). }
  pose proof (length_chunk k) as Hl. split; [rewrite length_overwrite by done|].
  { destruct (chunk k); [done|]. simpl in *. lia. }
  intros k' j Hk' Hj. rewrite lookup_overwrite by done.
  assert (forall j, (k * cs <= j < k * cs + length (chunk k))%nat -> chunk k !! (j - k * cs)%nat = F !! j) as Hchunk.
  { intros x Hx. unfold chunk. rewrite lookup_take_lt, lookup_drop by lia. f_equal. lia. }
  destruct (decide (k * cs <= j < k * cs + length (chunk k))%nat) as [Hr|Hr].
  { rewrite decide_False, decide_True by lia. by apply Hchunk. }
  assert (Z.of_nat k' ∈ S) as HS.
  { apply elem_of_union in Hk' as [->%elem_of_singleton%Nat2Z.inj|]; [lia|done]. }
  specialize (Hin k' j HS Hj).
  case_decide; [|by rewrite decide_False by lia].
  rewrite <- Hin, nth_lookup. destruct (c !! j) eqn:E; [done|]. exfalso.
  symmetry in Hin. apply lookup_ge_None in Hin. rewrite length_chunk in Hj. lia.
Qed.

Lemma agrees_all c S :
  (0 < cs)%nat -> agrees c S -> (forall k, (k < chunk_total)%nat -> Z.of_nat k ∈ S) -> c = F.
Proof.
  intros Hcs [Hlen Hin] Hall. apply list_eq. intros j.
  destruct (decide (j < length F)%nat) as [Hj|Hj].
  - pose proof (Nat.div_mod_eq j cs) as Hd. pose proof (Nat.mod_upper_bound j cs ltac:(lia)) as Hm.
    pose proof (chunk_total_covers Hcs) as Hcov.
    apply (Hin (j / cs)%nat); [apply Hall; nia|]. rewrite length_chunk. nia.
  - rewrite !lookup_ge_None_2 by lia. done.
Qed.
End Chunks.

Section Honest.
Context `{OSL : PosixLaws W}.
Context (F : list byte) (cs : nat) (sid : Z) (cap : Z).
Implicit Types (w : W) (s : ReceiverSession) (p : Packet) (S : gset Z).

Abbreviation n := (chunk_total F cs).

(** The packets that do this transfer no harm, on the receiver's side.  This is wider
    than what [send_file] sends (see [transfer_packet] of SenderSpec.v): the session
    does not look at the number of START or FIN, and it ignores the types that only
    a receiver sends ([honest_other]), so the theorems need not exclude them. *)
Inductive honest p : Prop :=
| honest_start :
    packet_type (header p) = kStart -> session_id (header p) = sid ->
    byte_offset (header p) = Z.of_nat (length F) -> honest p
| honest_data k :
    packet_type (header p) = kData -> session_id (header p) = sid -> (k < n)%nat ->
    sequence_number (header p) = Z.of_nat k -> byte_offset (header p) = Z.of_nat (k * cs) ->
    payload p = chunk F cs k -> honest p
| honest_fin :
    packet_type (header p) = kFin -> session_id (header p) = sid ->
    byte_offset (header p) = Z.of_nat (length F) -> payload p = sha256 F -> honest p
| honest_other :
    packet_type (header p) <> kStart -> packet_type (header p) <> kData ->
    packet_type (header p) <> kFin -> session_id (header p) = sid -> honest p.

(** The bounds of the transfer: positive chunks, a file [chunk_count] admits
    with room for the window in 32 bits. *)
Record bounded : Prop := {
  bnd_chunk : (0 < cs)%nat;
  bnd_cap : 0 <= cap < 2 ^ 32;
  bnd_window : Z.of_nat n + Z.max 1 cap < 2 ^ 32;
  bnd_size : Z.of_nat (length F) < 2 ^ 63;
  bnd_payload : Z.of_nat cs <= kMaxPayloadSize
}.

(** A session in progress that has stored the chunks [S]. *)
Record running w s S : Prop := {
  run_started : started_ s = true;
  run_unfinished : finished_ s = false;
  run_unpublished : published_ s = false;
  run_sid : session_id_ s = sid;
  run_size : declared_size_ s = Z.of_nat (length F);
  run_window : refines (window_ s) S;
  run_capacity : capacity_ (window_ s) = Z.max 1 cap;
  run_range k : k ∈ S -> 0 <= k < Z.of_nat n;
  run_bytes : bytes_written_ s = stored F cs S n;
  run_file : exists i c, opened (view w) (fd_ (file_ s)) i c /\ 0 <= fd_ (file_ s) /\
    agrees F cs c S /\ names (view w) !! temp_path_ s = Some i
}.

(** A session that has given up over a file operation.  In good health there is
    none (Answers.v). *)
Definition broken s : Prop :=
  finished_ s = true /\ published_ s = false /\
  (ReceiverSession.error_ s = kFileOpenFailed \/ ReceiverSession.error_ s = kFileWriteFailed).

Lemma running_stats w s S f : running w s S -> running w (set_stats f s) S.
Proof. by intros []. Qed.

Context (Hb : bounded).

Lemma running_classify w s S k :
  running w s S -> (k < n)%nat ->
  classify (window_ s) (Z.of_nat k) = disposition S (base_ (window_ s)) (capacity_ (window_ s)) (Z.of_nat k) /\
  base_ (window_ s) + capacity_ (window_ s) < 2 ^ 32.
Proof.
  intros [] Hk. destruct Hb.
  assert (base_ (window_ s) <= Z.of_nat n) as Hbase.
  { apply (mex_bounded S); [|lia|by apply refines_mex]. intros x Hx%run_range0. lia. }
  assert (base_ (window_ s) + capacity_ (window_ s) < 2 ^ 32) by lia.
  split; [|done]. apply classify_spec; [done|done|lia].
Qed.

Lemma stored_small S : 0 <= stored F cs S n < 2 ^ 63.
Proof. destruct Hb. pose proof (stored_bound F cs S n bnd_chunk0) as [? _]. lia. Qed.

(** A chunk arrives: it is stored and acknowledged, or was stored before and
    is acknowledged, or is too far ahead and ignored. *)
Lemma on_data_honest w s S p k :
  running w s S -> (k < n)%nat -> sequence_number (header p) = Z.of_nat k ->
  byte_offset (header p) = Z.of_nat (k * cs) -> payload p = chunk F cs k ->
  let '(w', s', r) := on_data p s w in
  broken s' \/
  exists S', running w' s' S' /\ S ⊆ S' /\ (r = no_reply \/ r = reply_with kAck (Z.of_nat k) /\ Z.of_nat k ∈ S').
Proof.
  intros Hr Hk Hseq Hoff Hpay. destruct (running_classify w s S k Hr Hk) as [Hcl Hbase].
  pose proof Hb as []. unfold on_data. rewrite Hseq. rewrite Hcl. unfold disposition.
  destruct (decide (Z.of_nat k ∈ S)) as [Hin|Hnew].
  { right. exists S. split_and!; [by apply running_stats|done|by right]. }
  destruct (decide _) as [Hlt|].
  2:{ right. exists S. split_and!; [by apply running_stats|done|by left]. }
  assert (classify (window_ s) (Z.of_nat k) = kAccepted) as Hacc.
  { rewrite Hcl. unfold disposition. by rewrite decide_False, decide_True by done. }
  pose proof (chunk_total_tight F cs k bnd_chunk0 Hk) as Htight. pose proof (length_chunk F cs k) as Hlen.
  rewrite Hoff, Hpay, Z.gtb_ltb. rewrite wrap_small by (unfold fits; lia).
  destruct (_ <? _) eqn:E; bool_to_prop; [rewrite (run_size _ _ _ Hr) in E; lia|]. clear E.
  set (s1 := if negb _ then _ else s).
  assert (running w s1 S /\ window_ s1 = window_ s) as [Hr1 Hw1].
  { subst s1. destruct (negb _); [split; [by apply running_stats|done]|done]. }
  clearbody s1. pose proof Hr1 as []. destruct run_file0 as (i & c & Hopen & Hfd & Hag & Hname).
  pose proof (write_at_opened (file_ s1) (chunk F cs k) (Z.of_nat (k * cs)) w i c Hopen Hfd
    ltac:(lia) ltac:(lia)) as Hwrite.
  destruct (write_at _ _ _ w) as [w1 [m|e]]; destruct Hwrite as (l & Hl & Hv & _ & Hres);
    [|left; by split_and!; [..|right]].
  destruct Hres as [-> ->]. rewrite Nat.eqb_refl. simpl negb. cbv iota.
  rewrite firstn_all, Nat2Z.id in Hv.
  right. exists ({[Z.of_nat k]} ∪ S). split_and!; [|set_solver|right; split; [done|set_solver]].
  destruct (mark_received_refines (window_ s1) S (Z.of_nat k)) as [Hmark Hcap]; [done|by rewrite Hw1|lia|].
  rewrite Hw1, decide_True in Hmark by done. rewrite Hw1 in Hcap.
  apply running_stats. split; simpl; try done.
  - by rewrite Hw1.
  - by rewrite Hw1, Hcap, <- Hw1.
  - intros x [->%elem_of_singleton|Hx%run_range0]%elem_of_union; lia.
  - rewrite run_bytes0, stored_add by done. apply wrap_small.
    pose proof (stored_small ({[Z.of_nat k]} ∪ S)) as Hsm. rewrite stored_add in Hsm by done. unfold fits. lia.
  - exists i, (overwrite c (k * cs) (chunk F cs k)). rewrite Hv. destruct Hopen as [Hh _].
    split_and!; [by split; [|simpl; rewrite lookup_insert_eq]|done|by apply agrees_write|done].
Qed.

(** The published file is the file. *)
Definition delivered w s : Prop :=
  exists i, names (view w) !! output_path_ s = Some i /\ data (view w) !! i = Some F.

Lemma length_sha256 m : length (sha256 m) = kSha256DigestSize.
Proof. rewrite sha256_spec. apply length_digest_spec. Qed.

Ltac file_failed := split_and!; simpl; [done|congruence|intros _; left; by split_and!; [..|right]|intros []].

(** FIN: refused while a chunk is missing; otherwise the file read back is
    [F], so only the file system can still fail it. *)
Lemma on_fin_honest w s S p :
  running w s S -> byte_offset (header p) = Z.of_nat (length F) -> payload p = sha256 F ->
  let '(w', s', r) := on_fin p s w in
  finished_ s' = true /\
  (published_ s' = true -> delivered w' s' /\ r = reply_with kFinAck (sequence_number (header p))) /\
  ((forall k, (k < n)%nat -> Z.of_nat k ∈ S) -> broken s' \/ published_ s' = true) /\
  (~ (forall k, (k < n)%nat -> Z.of_nat k ∈ S) -> published_ s' = false /\ ReceiverSession.error_ s' = kSizeMismatch).
Proof.
  intros Hr Hoff Hpay. pose proof Hr as []. pose proof Hb as [].
  pose proof (chunk_total_covers F cs bnd_chunk0) as Hcov.
  unfold on_fin. rewrite Hoff.
  destruct (Z.of_nat (length F) =? bytes_written_ s) eqn:Hbytes; simpl negb; cbv iota; bool_to_prop.
  2:{ split_and!; simpl; [done|congruence| |done]. intros Hall. exfalso.
      apply (stored_all F cs) in Hall. lia. }
  assert (forall k, (k < n)%nat -> Z.of_nat k ∈ S) as Hall.
  { intros k Hk. pose proof (stored_bound F cs S n bnd_chunk0) as [_ Hfull].
    apply Hfull; [lia|done|by apply chunk_total_tight]. }
  destruct run_file0 as (i & c & Hopen & Hfd & Hag & Hname).
  apply (agrees_all F cs) in Hag; [|done..]. subst c.
  pose proof (sync_view (file_ s) w) as Hsync. destruct (sync (file_ s) w) as [w1 ok]. simpl in Hsync.
  rewrite <- Hsync in Hopen, Hname.
  destruct ok; simpl negb; cbv iota; [|by file_failed].
  pose proof (hash_back_spec (hash_fuel (bytes_written_ s)) (file_ s) (bytes_written_ s) 0 new_hasher w1 i F
    Hopen Hfd ltac:(lia) ltac:(lia)) as Hash.
  destruct (hash_back _ _ _ _ _ w1) as [w2 res].
  destruct Hash as [Hv2 Hres]; [|simpl; lia|apply new_hasher_represents|].
  { unfold hash_fuel, kHashBlock. pose proof (Z.mul_succ_div_gt (bytes_written_ s) (64 * 1024) ltac:(lia)).
    pose proof (Z.div_pos (bytes_written_ s) (64 * 1024)). lia. }
  destruct res as [hasher|]; [|by file_failed]. destruct Hres as [_ Hrep].
  rewrite <- Hbytes, Nat2Z.id, firstn_all in Hrep. apply finish_represents in Hrep.
  rewrite <- sha256_spec, <- Hpay in Hrep. rewrite Hrep.
  assert (length (payload p) = kSha256DigestSize) as -> by (rewrite Hpay; apply length_sha256). simpl negb. cbv iota. rewrite bool_decide_true by done.
  simpl negb. cbv iota.
  pose proof (law_rename (temp_path_ s) (output_path_ s) w2) as Hren.
  destruct (sys_rename _ _ w2) as [w3 ok]. destruct ok; simpl negb; cbv iota; [|by file_failed].
  split_and!; [done| |by right|by intros []].
  intros _. split; [|done]. exists i. destruct Hren as (i' & Hi' & Hv3). rewrite Hv2 in Hi', Hv3.
  assert (i' = i) as -> by congruence. destruct Hopen as [_ Hd]. simpl. rewrite Hv3.
  case_decide; [done|]. simpl. by rewrite lookup_insert_eq.
Qed.

(** *** Whole transfers *)

Record fresh s : Prop := {
  fresh_started : started_ s = false;
  fresh_finished : finished_ s = false;
  fresh_published : published_ s = false;
  fresh_window : window_ s = new_receiver_window cap;
  fresh_bytes : bytes_written_ s = 0;
  fresh_file : file_ s = closed_file
}.

Lemma start_honest w s p :
  fresh s -> packet_type (header p) = kStart -> session_id (header p) = sid ->
  byte_offset (header p) = Z.of_nat (length F) ->
  let '(w', s', r) := handle_packet p s w in
  (forall k, r <> reply_with kAck k) /\
  (running w' s' ∅ \/ broken s' \/
   (finished_ s' = true /\ published_ s' = false /\ (sanitize_filename (payload p)).1 <> Filename.kNone)).
Proof.
  intros [] Ht Hsid Hoff. unfold handle_packet, on_start. simpl.
  rewrite fresh_finished0, fresh_started0, Ht. simpl.
  destruct (sanitize_filename (payload p)) as [rej name].
  destruct rej; try (by split; [|right; right]).
  rewrite fresh_file0. set (temp := join_path _ (temp_name _)).
  pose proof (open_write_opened temp closed_file w) as Hopen.
  destruct (open_write temp closed_file w) as [[w1 f] ok]. simpl in Hopen.
  destruct ok; simpl negb; cbv iota; (split; [done|]); [|right; left; by split_and!; [..|left]].
  left. destruct Hopen as (Hfd & _ & i & Hv & _). destruct Hb. split; simpl; try done.
  - rewrite fresh_window0. by apply new_receiver_window_refines.
  - rewrite fresh_window0. apply new_capacity. lia.
  - rewrite fresh_bytes0. symmetry. clear. induction n as [|m IH]; simpl; [done|]. by rewrite IH.
  - exists i, []. rewrite Hv. split_and!; simpl; [by split; simpl; rewrite lookup_insert_eq|done| |by rewrite lookup_insert_eq].
    split; [simpl; lia|]. intros k j Hk. by apply elem_of_empty in Hk.
Qed.

Lemma handle_running w s S p :
  running w s S -> honest p -> packet_type (header p) <> kFin ->
  let '(w', s', r) := handle_packet p s w in
  broken s' \/
  exists S', running w' s' S' /\ S ⊆ S' /\ forall k, r = reply_with kAck k -> k ∈ S'.
Proof.
  intros Hr Hp Hnf. unfold handle_packet. apply (running_stats w s S count_received) in Hr.
  revert Hr. generalize (set_stats count_received s) as s1. clear s. intros s Hr. pose proof Hr as [].
  rewrite run_unfinished0, run_started0. simpl.
  destruct Hp as [Ht Hsid _|k Ht Hsid Hk Hseq Hoff Hpay|Ht _|Hn1 Hn2 _ Hsid]; [| |done|].
  - rewrite Ht. simpl. unfold on_start. rewrite run_started0, Hsid, run_sid0, Z.eqb_refl.
    right. exists S. by split_and!; [apply running_stats|..].
  - rewrite Ht, Hsid, run_sid0, Z.eqb_refl. simpl.
    pose proof (on_data_honest w s S p k Hr Hk Hseq Hoff Hpay) as Hd.
    destruct (on_data p s w) as [[w' s'] r]. destruct Hd as [|(S' & Hr' & Hsub & Hack)]; [by left|].
    right. exists S'. split_and!; [done..|]. intros k' ->.
    destruct Hack as [|[[= ->] ?]]; done.
  - rewrite !bool_decide_false by done. rewrite Hsid, run_sid0, Z.eqb_refl. simpl.
    right. exists S. by split_and!.
Qed.

Lemma handle_fin w s S p :
  running w s S -> packet_type (header p) = kFin -> session_id (header p) = sid ->
  handle_packet p s w = on_fin p (set_stats count_received s) w.
Proof.
  intros [] Ht Hsid. unfold handle_packet. simpl.
  by rewrite run_unfinished0, run_started0, Ht, Hsid, run_sid0, Z.eqb_refl.
Qed.

Lemma handle_finished w s p :
  finished_ s = true ->
  let '(w', s', _) := handle_packet p s w in w' = w /\ exists f, s' = set_stats f s.
Proof.
  intros Hf. unfold handle_packet. simpl. rewrite Hf. simpl.
  destruct (_ && _ && _); (split; [done|]); [|by exists count_received].
  by exists (fun t => count_duplicate (count_received t)).
Qed.

(** Where a transfer can be. *)
Definition outcome w s : Prop :=
  fresh s \/ (exists S, running w s S) \/ (finished_ s = true /\ (published_ s = true -> delivered w s)).

Lemma handle_outcome w s p :
  outcome w s -> honest p -> let '(w', s', _) := handle_packet p s w in outcome w' s'.
Proof.
  intros [Hf|[[S Hr]|[Hf Hd]]] Hp.
  - destruct (decide (packet_type (header p) = kStart)) as [Ht|Ht].
    + destruct Hp as [_ Hsid Hoff|k Ht'|Ht'|Ht']; try congruence.
      pose proof (start_honest w s p Hf Ht Hsid Hoff) as Hs.
      destruct (handle_packet p s w) as [[w' s'] r].
      destruct Hs as [_ [Hr|[(Hfin & Hpub & _)|(Hfin & Hpub & _)]]]; right; [left; by exists ∅|right..]; split; congruence.
    + unfold handle_packet. destruct Hf. simpl. rewrite fresh_finished0, fresh_started0. simpl.
      rewrite bool_decide_false by done. simpl. right; right. split; [done|]. simpl. congruence.
  - destruct (decide (packet_type (header p) = kFin)) as [Ht|Ht].
    + destruct Hp as [Ht'|k Ht'|_ Hsid Hoff Hpay|? ? Ht']; try congruence.
      rewrite (handle_fin w s S p Hr Ht Hsid).
      pose proof (on_fin_honest w _ S p (running_stats w s S count_received Hr) Hoff Hpay) as Hfin.
      destruct (on_fin _ _ w) as [[w' s'] r]. destruct Hfin as (Hfin & Hpub & _).
      right; right. split; [done|]. intros H1. by apply Hpub.
    + pose proof (handle_running w s S p Hr Hp Ht) as Hs.
      destruct (handle_packet p s w) as [[w' s'] r].
      destruct Hs as [(Hfin & Hpub & _)|(S' & Hr' & _)]; right; [right; split; congruence|left; by exists S'].
  - pose proof (handle_finished w s p Hf) as Hs.
    destruct (handle_packet p s w) as [[w' s'] r]. destruct Hs as [-> [f ->]]. by right; right.
Qed.

Lemma new_session_fresh dir : fresh (new_session cap dir).
Proof. by split. Qed.

(** C5: what arrives is what was sent.  Let the network lose, repeat and
    reorder the packets of a transfer as it likes; if the session publishes,
    then the file at the output path is, byte for byte, the sender's file. *)
Theorem honest_transfer_delivers dir ps w w' s rs :
  Forall honest ps -> handle_all ps (new_session cap dir) w = (w', s, rs) ->
  published_ s = true -> delivered w' s.
Proof.
  intros Hps Hrun Hpub.
  assert (forall ps w s, outcome w s -> Forall honest ps ->
    let '(w', s', _) := handle_all ps s w in outcome w' s') as Hall.
  { clear -Hb. induction ps as [|p ps IH]; intros w s Ho Hps; simpl; [done|].
    inversion_clear Hps as [|? ? Hp Hps']. pose proof (handle_outcome w s p Ho Hp) as H1.
    destruct (handle_packet p s w) as [[w1 s1] r]. specialize (IH w1 s1 H1 Hps').
    by destruct (handle_all ps s1 w1) as [[w2 s2] rs]. }
  specialize (Hall ps w (new_session cap dir) (or_introl (new_session_fresh dir)) Hps).
  rewrite Hrun in Hall. destruct Hall as [[]|[[S []]|[_ Hd]]]; [congruence|congruence|by apply Hd].
Qed.
End Honest.
