(* ===== verification/Answers.v ===== *)
(** * What a receiving session answers

    In good health (Health.v) the session of ReceiverSession.v answers every packet
    of an honest sender, and with what the sender waits for: START_ACK, the ACK of
    the chunk, provided it is within the window, and FIN_ACK.  Delivery.v says what
    it has stored by then. *)

From S2P Require Import Prelude Words Packet Sha256 Filename Transfer ReceiverWindow FileIO Net Health ReceiverSession Delivery.
Import Packet.Packet.
Open Scope Z_scope.

Section HashBack.
Context {W : Type} `{HF : HealthyFiles W}.

(** Reading back what is there. *)
Lemma hash_back_ok fuel f bytes offset hasher i c (w : W) :
  healthy w -> opened (view w) (fd_ f) i c -> 0 <= fd_ f -> 0 <= offset <= bytes -> bytes <= Z.of_nat (length c) ->
  Z.of_nat (length c) < 2 ^ 63 ->
  let '(w', r) := hash_back fuel f bytes offset hasher w in healthy w' /\ is_Some r.
Proof.
  revert offset hasher w. induction fuel as [|fuel IH]; intros offset hasher w Hw Ho Hf Hoff Hb Hc; cbn [hash_back]; [by eauto|].
  destruct (offset <? bytes) eqn:Hlt; simpl negb; cbv iota; bool_to_prop; [|by eauto].
  unfold kHashBlock. set (want := if _ <? _ then _ else _).
  assert (0 < want /\ offset + want <= bytes) as [Hpos Hle].
  { subst want. destruct (bytes - offset <? 64 * 1024) eqn:E; bool_to_prop; lia. }
  clearbody want. pose proof (read_at_ok f (Z.to_nat want) offset i c w Hw Ho Hf ltac:(lia) ltac:(lia)) as Hr.
  destruct (read_at _ _ _ w) as [w1 r]. destruct Hr as (Hw1 & Hv & ->).
  assert (length (take (Z.to_nat want) (drop (Z.to_nat offset) c)) = Z.to_nat want) as -> by (rewrite length_take, length_drop; lia).
  rewrite Nat.eqb_refl. simpl negb. cbv iota. rewrite wrap_small by (unfold fits; lia).
  rewrite <- Hv in Ho. apply IH; try done; lia.
Qed.
End HashBack.

Section Answers.
Context {W : Type} `{HF : HealthyFiles W}.
Context (F : list byte) (cs : nat) (sid : Z) (cap : Z).
Context (Hb : bounded F cs cap).
Implicit Types (w : W) (s : ReceiverSession) (p : Packet) (S : gset Z).

Abbreviation n := (chunk_total F cs).
Abbreviation running := (running F cs sid cap).
Abbreviation fresh := (fresh cap).

Lemma answers_start w s p :
  healthy w -> fresh s -> packet_type (header p) = kStart -> session_id (header p) = sid ->
  byte_offset (header p) = Z.of_nat (length F) -> (sanitize_filename (payload p)).1 = Filename.kNone ->
  let '(w', s', r) := handle_packet p s w in
  healthy w' /\ running w' s' ∅ /\ r = reply_with kStartAck (sequence_number (header p)).
Proof.
  intros Hw Hf Ht Hsid Hoff Hname. pose proof (start_honest F cs sid cap Hb w s p Hf Ht Hsid Hoff) as Hs.
  destruct Hf. unfold handle_packet, on_start in *. simpl in *. rewrite fresh_finished, fresh_started, Ht in *. simpl in *.
  destruct (sanitize_filename (payload p)) as [rej name]. simpl in Hname. subst rej. cbv iota beta in *.
  rewrite fresh_file in *. unfold open_write in *.
  pose proof (open_with_ok O_RDWR_CREAT_TRUNC
    (temp_path_ (set_paths (join_path (output_directory_ s) name) (join_path (output_directory_ s) (temp_name (session_id (header p))))
      (set_session_id (session_id (header p)) (set_stats count_received s)))) closed_file w Hw ltac:(done) ltac:(done)) as Hopen.
  simpl in Hopen. destruct (open_with _ _ _ w) as [[w1 f] ok]. destruct Hopen as (Hw1 & -> & _). simpl in *.
  split; [done|]. split; [|done]. destruct Hs as [_ [Hr|[[Hfin _]|[Hfin _]]]]; [done|simpl in Hfin; congruence..].
Qed.

Lemma answers_again w s S p :
  running w s S -> packet_type (header p) = kStart -> session_id (header p) = sid ->
  let '(w', s', r) := handle_packet p s w in
  w' = w /\ running w' s' S /\ r = reply_with kStartAck (sequence_number (header p)).
Proof.
  intros Hr Ht Hsid. pose proof Hr as []. unfold handle_packet, on_start. simpl. rewrite run_unfinished, run_started, Ht. simpl.
  rewrite Hsid, run_sid, Z.eqb_refl. split; [done|]. split; [|done]. by do 2 apply running_stats.
Qed.

(** A chunk is taken, or was, or is too far ahead; nothing fails. *)
Lemma on_data_ok w s S p k :
  healthy w -> running w s S -> (k < n)%nat ->
  sequence_number (header p) = Z.of_nat k -> byte_offset (header p) = Z.of_nat (k * cs) -> payload p = chunk F cs k ->
  healthy (on_data p s w).1.1 /\ finished_ (on_data p s w).1.2 = false /\
  (Z.of_nat k < base_ (window_ s) + capacity_ (window_ s) -> (on_data p s w).2 = reply_with kAck (Z.of_nat k)).
Proof.
  intros Hw Hr Hk Hseq Hoff Hpay. destruct (running_classify F cs sid cap Hb w s S k Hr Hk) as [Hcl Hbase].
  pose proof Hr as []. unfold on_data.
  rewrite Hseq, Hcl. unfold disposition. destruct (decide (Z.of_nat k ∈ S)); [done|].
  destruct (decide (Z.of_nat k < _)) as [Hin|Hout]; [|by split_and!].
  pose proof Hb as []. pose proof (chunk_total_tight F cs k bnd_chunk Hk) as Htight. pose proof (length_chunk F cs k) as Hlen.
  rewrite Hoff, Hpay, Z.gtb_ltb. rewrite wrap_small by (unfold fits; lia).
  destruct (_ <? _) eqn:E; bool_to_prop; [lia|]. clear E. set (s1 := if negb _ then _ else s).
  assert (file_ s1 = file_ s /\ finished_ s1 = false) as [Hf1 Hfin1] by (subst s1; by destruct (negb _)).
  clearbody s1. rewrite Hf1. destruct run_file as (i & c & Hopen & Hfd & _ & _).
  pose proof (write_at_opened (file_ s) (chunk F cs k) (Z.of_nat (k * cs)) w i c Hopen Hfd ltac:(lia) ltac:(lia)) as Hwrite.
  pose proof (write_at_ok (file_ s) (chunk F cs k) (Z.of_nat (k * cs)) i c w Hw Hopen Hfd ltac:(lia) ltac:(lia)) as Hok.
  destruct (write_at _ _ _ w) as [w1 r]. destruct Hok as [Hw1 [m ->]]. destruct Hwrite as (l & Hl & _ & _ & -> & ->).
  by rewrite Nat.eqb_refl.
Qed.

(** Whatever else of the transfer arrives before FIN, all is still well. *)
Lemma answers_running w s S p :
  healthy w -> running w s S -> honest F cs sid p -> packet_type (header p) <> kFin ->
  let '(w', s', r) := handle_packet p s w in
  healthy w' /\ exists S', running w' s' S' /\ S ⊆ S' /\ forall k, r = reply_with kAck k -> k ∈ S'.
Proof.
  intros Hw Hr Hp Hnf. pose proof (handle_running F cs sid cap Hb w s S p Hr Hp Hnf) as Hd.
  assert (healthy (handle_packet p s w).1.1 /\ finished_ (handle_packet p s w).1.2 = false) as [Hw' Hfin].
  { clear Hd. unfold handle_packet. apply (running_stats F cs sid cap w s S count_received) in Hr.
    revert Hr. generalize (set_stats count_received s) as s1. clear s. intros s Hr. pose proof Hr as [].
    rewrite run_unfinished, run_started. simpl.
    destruct Hp as [Ht Hsid _|k Ht Hsid Hk Hseq Hoff Hpay|Ht _|Hn1 Hn2 _ Hsid]; [| |done|].
    - rewrite Ht. simpl. unfold on_start. by rewrite run_started, Hsid, run_sid, Z.eqb_refl.
    - rewrite Ht, Hsid, run_sid, Z.eqb_refl. simpl.
      destruct (on_data_ok w s S p k Hw Hr Hk Hseq Hoff Hpay) as (? & ? & _). done.
    - rewrite !bool_decide_false by done. by rewrite Hsid, run_sid, Z.eqb_refl. }
  destruct (handle_packet p s w) as [[w' s'] r]. simpl in *. split; [done|].
  destruct Hd as [[Hbr _]|Hd]; [congruence|done].
Qed.

Lemma answers_all w s S ps :
  healthy w -> running w s S -> Forall (honest F cs sid) ps -> Forall (fun p => packet_type (header p) <> kFin) ps ->
  let '(w', s', rs) := handle_all ps s w in
  healthy w' /\ exists S', running w' s' S' /\ S ⊆ S' /\ forall k, reply_with kAck k ∈ rs -> k ∈ S'.
Proof.
  revert w s S. induction ps as [|p ps IH]; intros w s S Hw Hr Hps Hnf; simpl.
  { split; [done|]. exists S. split_and!; [done..|]. by intros k ?%elem_of_nil. }
  inversion_clear Hps as [|? ? Hp Hps']. inversion_clear Hnf as [|? ? Hn Hnf'].
  pose proof (answers_running w s S p Hw Hr Hp Hn) as H1.
  destruct (handle_packet p s w) as [[w1 s1] r]. destruct H1 as (Hw1 & S1 & Hr1 & Hsub & Hack).
  specialize (IH w1 s1 S1 Hw1 Hr1 Hps' Hnf'). destruct (handle_all ps s1 w1) as [[w2 s2] rs].
  destruct IH as (Hw2 & S2 & Hr2 & Hsub2 & Hack2). split; [done|]. exists S2.
  split_and!; [done|by etrans|]. intros k [Hk|Hk]%elem_of_cons; [|by apply Hack2]. by apply Hsub2, Hack.
Qed.

Lemma answers_data w s S p k :
  healthy w -> running w s S -> (k < n)%nat -> packet_type (header p) = kData -> session_id (header p) = sid ->
  sequence_number (header p) = Z.of_nat k -> byte_offset (header p) = Z.of_nat (k * cs) -> payload p = chunk F cs k ->
  Z.of_nat k < base_ (window_ s) + capacity_ (window_ s) ->
  let '(w', s', r) := handle_packet p s w in
  healthy w' /\ (exists S', running w' s' S' /\ S ⊆ S' /\ Z.of_nat k ∈ S') /\ r = reply_with kAck (Z.of_nat k).
Proof.
  intros Hw Hr Hk Ht Hsid Hseq Hoff Hpay Hin. unfold handle_packet. apply (running_stats F cs sid cap w s S count_received) in Hr.
  change (window_ s) with (window_ (set_stats count_received s)) in Hin. revert Hr Hin. generalize (set_stats count_received s) as s1.
  clear s. intros s Hr Hin. pose proof Hr as []. rewrite run_unfinished, run_started, Ht, Hsid, run_sid, Z.eqb_refl. simpl.
  pose proof (on_data_honest F cs sid cap Hb w s S p k Hr Hk Hseq Hoff Hpay) as Hd.
  destruct (on_data_ok w s S p k Hw Hr Hk Hseq Hoff Hpay) as (Hw' & Hfin & Hrep). specialize (Hrep Hin).
  destruct (on_data p s w) as [[w' s'] r]. simpl in *. split; [done|]. split; [|done].
  destruct Hd as [[Hbr _]|(S' & Hr' & Hsub & [->|[_ Hk']])]; [congruence|done|by exists S'].
Qed.

(** A session that has published, and still has its final reply to give. *)
Record confirmed w s (seq : Z) : Prop := {
  cfm_finished : finished_ s = true;
  cfm_published : published_ s = true;
  cfm_sid : session_id_ s = sid;
  cfm_reply : final_reply_ s = reply_with kFinAck seq;
  cfm_delivered : delivered F w s
}.

Lemma answers_fin w s S p :
  healthy w -> running w s S -> (forall k, (k < n)%nat -> Z.of_nat k ∈ S) ->
  packet_type (header p) = kFin -> session_id (header p) = sid ->
  byte_offset (header p) = Z.of_nat (length F) -> payload p = sha256 F ->
  let '(w', s', r) := handle_packet p s w in
  healthy w' /\ confirmed w' s' (sequence_number (header p)) /\ r = reply_with kFinAck (sequence_number (header p)) /\
  valid (file_ s') = true /\ output_path_ s' = output_path_ s.
Proof.
  intros Hw Hr Hall Ht Hsid Hoff Hpay. rewrite (handle_fin F cs sid cap w s S p Hr Ht Hsid).
  change (output_path_ s) with (output_path_ (set_stats count_received s)).
  apply (running_stats F cs sid cap w s S count_received) in Hr. revert Hr. generalize (set_stats count_received s) as s1. clear s. intros s Hr.
  pose proof (on_fin_honest F cs sid cap Hb w s S p Hr Hoff Hpay) as Hfin.
  assert (healthy (on_fin p s w).1.1 /\ published_ (on_fin p s w).1.2 = true /\ session_id_ (on_fin p s w).1.2 = sid /\
    final_reply_ (on_fin p s w).1.2 = reply_with kFinAck (sequence_number (header p)) /\
    valid (file_ (on_fin p s w).1.2) = true /\ output_path_ (on_fin p s w).1.2 = output_path_ s) as (Hw' & Hpub & Hsid' & Hfr & Hval & Hout).
  { clear Hfin. pose proof Hr as []. pose proof Hb as []. pose proof (chunk_total_covers F cs bnd_chunk) as Hcov.
    assert (bytes_written_ s = Z.of_nat (length F)) as Hbytes by (rewrite run_bytes, (stored_all F cs) by done; lia).
    unfold on_fin. rewrite Hoff, Hbytes, Z.eqb_refl. simpl negb. cbv iota.
    destruct run_file as (i & c & Hopen & Hfd & Hag & Hname). apply (agrees_all F cs) in Hag; [|done..]. subst c.
    pose proof (sync_ok (file_ s) i F w Hw Hopen Hfd) as Hsync. pose proof (sync_view (file_ s) w) as Hv.
    destruct (sync (file_ s) w) as [w1 ok]. destruct Hsync as [Hw1 ->]. simpl in Hv. rewrite <- Hv in Hopen, Hname. simpl negb. cbv iota.
    pose proof (hash_back_ok (hash_fuel (Z.of_nat (length F))) (file_ s) (Z.of_nat (length F)) 0 new_hasher i F w1
      Hw1 Hopen Hfd ltac:(lia) ltac:(lia) ltac:(lia)) as Hok.
    pose proof (hash_back_spec (hash_fuel (Z.of_nat (length F))) (file_ s) (Z.of_nat (length F)) 0 new_hasher w1 i F
      Hopen Hfd ltac:(lia) ltac:(lia)) as Hash.
    destruct (hash_back _ _ _ _ _ w1) as [w2 res]. destruct Hok as [Hw2 [hasher ->]].
    destruct Hash as [Hv2 [_ Hrep]]; [|simpl; lia|apply new_hasher_represents|].
    { unfold hash_fuel, kHashBlock. pose proof (Z.mul_succ_div_gt (Z.of_nat (length F)) (64 * 1024) ltac:(lia)).
      pose proof (Z.div_pos (Z.of_nat (length F)) (64 * 1024)). lia. }
    rewrite Nat2Z.id, firstn_all in Hrep. apply finish_represents in Hrep. rewrite <- sha256_spec, <- Hpay in Hrep.
    rewrite Hrep, Hpay, length_sha256. simpl negb. cbv iota. rewrite bool_decide_true by done. simpl negb. cbv iota.
    pose proof (ok_rename (temp_path_ s) (output_path_ s) w2 Hw2 ltac:(rewrite Hv2; eauto)) as Hren.
    destruct (sys_rename _ _ w2) as [w3 ok]. destruct Hren as [Hw3 ->]. simpl.
    split_and!; try done. unfold valid. by apply Z.leb_le. }
  destruct (on_fin p s w) as [[w' s'] r]. simpl in *. destruct Hfin as (Hfin & Hdel & _). destruct (Hdel Hpub) as [Hd ->].
  by split_and!.
Qed.

Lemma answers_late w s seq p :
  confirmed w s seq -> packet_type (header p) = kFin -> session_id (header p) = sid ->
  let '(w', s', r) := handle_packet p s w in
  w' = w /\ confirmed w' s' seq /\ r = reply_with kFinAck seq /\ file_ s' = file_ s /\ output_path_ s' = output_path_ s.
Proof.
  intros [] Ht Hsid. unfold handle_packet. simpl. rewrite cfm_finished0, cfm_reply0, cfm_sid0, Ht, Hsid, Z.eqb_refl. simpl.
  by split_and!.
Qed.

(** C14: acknowledged chunks are enough.  On a healthy file system (calls may be
    interrupted and come up short, but do not fail), when START was accepted, every
    chunk has been acknowledged at least once, among whatever else of the transfer
    arrived, and then FIN arrives, the session publishes, delivers the sender's file
    and answers FIN_ACK. *)
Theorem acknowledged_transfer_completes dir start rest fin w w1 s1 rs :
  healthy w -> honest F cs sid start -> packet_type (header start) = kStart ->
  (sanitize_filename (payload start)).1 = Filename.kNone ->
  Forall (honest F cs sid) rest -> Forall (fun p => packet_type (header p) <> kFin) rest ->
  handle_all (start :: rest) (new_session cap dir) w = (w1, s1, rs) ->
  (forall k, (k < n)%nat -> reply_with kAck (Z.of_nat k) ∈ rs) ->
  honest F cs sid fin -> packet_type (header fin) = kFin ->
  let '(w2, s2, r) := handle_packet fin s1 w1 in
  published_ s2 = true /\ delivered F w2 s2 /\ r = reply_with kFinAck (sequence_number (header fin)).
Proof.
  intros Hw Hstart Ht Hname Hrest Hnofin Hrun Hacks Hfin Htf.
  destruct Hstart as [_ Hsid Hoff|k Ht'|Ht'|Ht']; try congruence.
  destruct Hfin as [Ht'|k Ht'|_ Hsidf Hofff Hpayf|? ? Ht']; try congruence.
  simpl in Hrun. pose proof (answers_start w _ start Hw (new_session_fresh cap dir) Ht Hsid Hoff Hname) as Hs.
  destruct (handle_packet start (new_session cap dir) w) as [[w0 s0] r0]. destruct Hs as (Hw0 & Hr & ->).
  pose proof (answers_all w0 s0 ∅ rest Hw0 Hr Hrest Hnofin) as Hall.
  destruct (handle_all rest s0 w0) as [[w2 s2] rs2]. injection Hrun as -> -> <-.
  destruct Hall as (Hw1 & S & HrS & _ & Hacked).
  pose proof (answers_fin w1 s1 S fin Hw1 HrS) as Hf. destruct (handle_packet fin s1 w1) as [[w3 s3] r].
  destruct Hf as (_ & [] & Hr3 & _); try done.
  intros k Hk. apply Hacked. specialize (Hacks k Hk). by apply elem_of_cons in Hacks as [?|].
Qed.
End Answers.
