(* ===== verification/Scenarios.v ===== *)
(** * Concrete transfers

    Transfers through the file system of Disk.v, evaluated: the witnesses of the
    claims of ReceiverSession.v and Delivery.v, and three behaviours of the
    session that are not what its comments promise. *)

From S2P Require Import Prelude Words Packet Sha256 Filename Transfer ReceiverWindow FileIO Disk Health ReceiverSession Delivery Answers.
Import Packet.Packet.
Open Scope Z_scope.

Definition sid : Z := 0xC0FFEE.
Definition dir : path := str "out".

Definition start_packet (name : list byte) (size : Z) : Packet :=
  {| header := make_header kStart sid 0 0 size; payload := name |}.
Definition data_packet (seq off : Z) (bytes : list byte) : Packet :=
  {| header := make_header kData sid seq 0 off; payload := bytes |}.
Definition fin_packet (size : Z) (digest : list byte) : Packet :=
  {| header := make_header kFin sid 9 0 size; payload := digest |}.

(** The directory already has a file of the name that is about to arrive, and
    another; some transfers are short or interrupted. *)
Definition disk0 : Disk := {|
  disk_view := {| names := {[str "out/a.txt" := 1%nat; str "out/b.txt" := 2%nat]};
                  data := {[1%nat := str "old"; 2%nat := str "other"]}; handles := ∅ |};
  glitches := [Interrupted; Short 0; Whole; Whole; Interrupted; Whole; Short 1] |}.

(** Five bytes in chunks of two: chunk 1 overtakes chunk 0 and is repeated, START
    is repeated, and so is FIN. *)
Definition hello : list byte := str "hello".
Definition transfer_rest : list Packet :=
  [data_packet 1 2 (str "ll"); data_packet 1 2 (str "ll"); start_packet (str "x/a.txt") 5;
   data_packet 0 0 (str "he"); data_packet 2 4 (str "o")].
Definition transfer : list Packet :=
  start_packet (str "x/a.txt") 5 :: transfer_rest ++
  [fin_packet 5 (sha256 hello); fin_packet 5 (sha256 hello)].

Definition transfer_result : Disk * ReceiverSession * list Reply :=
  handle_all transfer (new_session 2 dir) disk0.
Definition transfer_disk : Disk := transfer_result.1.1.
Definition transfer_session : ReceiverSession := transfer_result.1.2.

Example transfer_replies :
  transfer_result.2 =
  [reply_with kStartAck 0; reply_with kAck 1; reply_with kAck 1; reply_with kStartAck 0;
   reply_with kAck 0; reply_with kAck 2; reply_with kFinAck 9; reply_with kFinAck 9].
Proof. vm_compute. reflexivity. Qed.

Lemma transfer_runs :
  handle_all transfer (new_session 2 dir) disk0 = (transfer_disk, transfer_session, transfer_result.2).
Proof. unfold transfer_disk, transfer_session, transfer_result. by destruct (handle_all _ _ _) as [[? ?] ?]. Qed.

Lemma transfer_wf : Forall packet_wf transfer.
Proof. repeat constructor; vm_compute; congruence. Qed.

Lemma published_is_verified_witness :
  published_ transfer_session = true /\
  exists i c, names (disk_view transfer_disk) !! str "out/a.txt" = Some i /\
              data (disk_view transfer_disk) !! i = Some c /\ (length c = 5)%nat.
Proof.
  assert (published_ transfer_session = true) as Hpub by (vm_compute; reflexivity). split; [exact Hpub|].
  destruct (published_is_verified 2 dir transfer disk0 _ _ _ transfer_wf transfer_runs Hpub)
    as (i & c & fin & Hn & Hd & _ & _ & _ & _ & Hlen & _).
  exists i, c. split; [|split; [exact Hd|]].
  - change (view transfer_disk) with (disk_view transfer_disk) in Hn.
    replace (output_path_ transfer_session) with (str "out/a.txt") in Hn by (vm_compute; reflexivity). exact Hn.
  - replace (bytes_written_ transfer_session) with 5 in Hlen by (vm_compute; reflexivity).
    replace (declared_size_ transfer_session) with 5 in Hlen by (vm_compute; reflexivity). lia.
Defined.

(** The file of the other name is untouched. *)
Lemma session_contained_witness :
  data (disk_view transfer_disk) !! 2%nat = Some (str "other") /\
  names (disk_view transfer_disk) !! str "out/b.txt" = Some 2%nat.
Proof.
  destruct (session_contained 2 dir transfer disk0 _ _ _ transfer_wf transfer_runs) as (_ & Hn & Hd & _).
  split.
  - apply Hd; [vm_compute; reflexivity|vm_compute; discriminate].
  - change (disk_view transfer_disk) with (view transfer_disk).
    rewrite Hn; [vm_compute; reflexivity|vm_compute; discriminate|left; vm_compute; discriminate].
Defined.

Lemma settled_session_inert_witness :
  let '(w, _, rs) := handle_all [data_packet 0 0 (str "zz"); fin_packet 5 []] transfer_session transfer_disk in
  w = transfer_disk /\ rs = [no_reply; reply_with kFinAck 9].
Proof.
  pose proof (settled_session_inert [data_packet 0 0 (str "zz"); fin_packet 5 []] transfer_session transfer_disk
    ltac:(vm_compute; reflexivity) ltac:(vm_compute; reflexivity)) as Hs.
  destruct (handle_all _ transfer_session transfer_disk) as [[w s] rs] eqn:E.
  destruct Hs as (Hw & _). split; [exact Hw|]. apply (f_equal snd) in E. vm_compute in E. symmetry. exact E.
Defined.

(** Abandoned after one chunk: the temporary is gone and [a.txt] is still the
    old one. *)
Definition abandoned : Disk * ReceiverSession * list Reply :=
  handle_all (take 2 transfer) (new_session 2 dir) disk0.

Lemma abandoned_runs :
  handle_all (take 2 transfer) (new_session 2 dir) disk0 = (abandoned.1.1, abandoned.1.2, abandoned.2).
Proof. unfold abandoned. by destruct (handle_all _ _ _) as [[? ?] ?]. Qed.

Lemma destroyed_session_cleans_up_witness :
  let v := disk_view (destroy abandoned.1.2 abandoned.1.1) in
  names v !! str "out/a.txt" = Some 1%nat /\ names v !! join_path dir (temp_name sid) = None.
Proof.
  destruct (destroyed_session_cleans_up 2 dir (take 2 transfer) disk0 _ _ _
    ltac:(apply Forall_take, transfer_wf) abandoned_runs ltac:(vm_compute; reflexivity)) as [_ Hn].
  assert (published_ abandoned.1.2 = false) as Hp by (vm_compute; reflexivity).
  assert (temp_path_ abandoned.1.2 = join_path dir (temp_name sid)) as Ht by (vm_compute; reflexivity).
  rewrite Hp, Ht, decide_False in Hn by (vm_compute; discriminate).
  cbv zeta. change (disk_view (destroy abandoned.1.2 abandoned.1.1)) with (view (destroy abandoned.1.2 abandoned.1.1)).
  rewrite Hn. split; [rewrite lookup_delete_ne by (vm_compute; discriminate); vm_compute; reflexivity|].
  apply lookup_delete_eq.
Defined.

Lemma transfer_bounded : bounded hello 2 2.
Proof. split; [lia|lia|vm_compute; reflexivity|vm_compute; reflexivity|vm_compute; discriminate]. Qed.

Lemma honest_transfer : Forall (honest hello 2 sid) transfer.
Proof.
  repeat (apply Forall_cons; split); [..|apply Forall_nil; exact I].
  1, 4: apply honest_start; reflexivity.
  - apply (honest_data _ _ _ _ 1%nat); try reflexivity; vm_compute; lia.
  - apply (honest_data _ _ _ _ 1%nat); try reflexivity; vm_compute; lia.
  - apply (honest_data _ _ _ _ 0%nat); try reflexivity; vm_compute; lia.
  - apply (honest_data _ _ _ _ 2%nat); try reflexivity; vm_compute; lia.
  - apply honest_fin; reflexivity.
  - apply honest_fin; reflexivity.
Qed.

Lemma honest_transfer_delivers_witness :
  exists i, names (disk_view transfer_disk) !! str "out/a.txt" = Some i /\
            data (disk_view transfer_disk) !! i = Some hello.
Proof.
  pose proof (honest_transfer_delivers hello 2 sid 2 transfer_bounded dir transfer disk0 _ _ _
    honest_transfer transfer_runs ltac:(vm_compute; reflexivity)) as (i & Hn & Hd).
  exists i. split; [|exact Hd].
  replace (output_path_ transfer_session) with (str "out/a.txt") in Hn by (vm_compute; reflexivity). exact Hn.
Defined.

(** All three chunks acknowledged, then FIN. *)
Definition before_fin : Disk * ReceiverSession * list Reply :=
  handle_all (start_packet (str "x/a.txt") 5 :: transfer_rest) (new_session 2 dir) disk0.

Lemma before_fin_runs :
  handle_all (start_packet (str "x/a.txt") 5 :: transfer_rest) (new_session 2 dir) disk0
  = (before_fin.1.1, before_fin.1.2, before_fin.2).
Proof. unfold before_fin. by destruct (handle_all _ _ _) as [[? ?] ?]. Qed.

Lemma honest_rest : Forall (honest hello 2 sid) transfer_rest.
Proof.
  pose proof honest_transfer as Hh. apply Forall_cons in Hh as [_ Hh].
  by apply Forall_app in Hh as [Hh _].
Qed.
Lemma rest_nofin : Forall (fun p => packet_type (header p) <> kFin) transfer_rest.
Proof. by repeat constructor. Qed.

(** Reads and writes of this disk come up short, but none fails. *)
Lemma disk0_healthy : healthy disk0.
Proof. change (Broken ∉ glitches disk0). eapply bool_decide_unpack. vm_compute. exact I. Qed.

Lemma acknowledged_transfer_completes_witness :
  let '(_, s, r) := handle_packet (fin_packet 5 (sha256 hello)) before_fin.1.2 before_fin.1.1 in
  published_ s = true /\ r = reply_with kFinAck 9.
Proof.
  pose proof (acknowledged_transfer_completes hello 2 sid 2 transfer_bounded dir
    (start_packet (str "x/a.txt") 5) transfer_rest (fin_packet 5 (sha256 hello)) disk0
    before_fin.1.1 before_fin.1.2 before_fin.2) as Hc.
  specialize (Hc disk0_healthy ltac:(apply honest_start; reflexivity) eq_refl ltac:(vm_compute; reflexivity)).
  specialize (Hc honest_rest). specialize (Hc rest_nofin). specialize (Hc before_fin_runs).
  assert (forall k, (k < chunk_total hello 2)%nat -> reply_with kAck (Z.of_nat k) ∈ before_fin.2) as Hacks.
  { intros k Hk. change (chunk_total hello 2) with 3%nat in Hk.
    replace before_fin.2 with [reply_with kStartAck 0; reply_with kAck 1; reply_with kAck 1;
      reply_with kStartAck 0; reply_with kAck 0; reply_with kAck 2] by (vm_compute; reflexivity).
    destruct k as [|[|[|k]]]; [| | |lia]; rewrite !elem_of_cons; tauto. }
  specialize (Hc Hacks ltac:(apply honest_fin; reflexivity) eq_refl).
  destruct (handle_packet (fin_packet 5 (sha256 hello)) before_fin.1.2 before_fin.1.1) as [[w s] r].
  destruct Hc as (Hp & _ & Hr). split; [exact Hp|exact Hr].
Defined.

(** ** Behaviours the comments do not promise *)

Definition content_at (d : Disk) (p : path) : option (list byte) :=
  match names (disk_view d) !! p with Some i => data (disk_view d) !! i | None => None end.

(** FIN is compared with the bytes counted, never with the size START declared:
    half of a file of four bytes is published as the file. *)
Definition early_fin : list Packet :=
  [start_packet (str "a.txt") 4; data_packet 0 0 (str "he"); fin_packet 2 (sha256 (str "he"))].

Theorem early_fin_published :
  let '(d, s, _) := handle_all early_fin (new_session 4 dir) disk0 in
  published_ s = true /\ declared_size_ s = 4 /\ content_at d (str "out/a.txt") = Some (str "he").
Proof. vm_compute. repeat split. Qed.

(** The digest covers the first [bytes_written_] bytes of the file, but a chunk
    may have been stored beyond them: five bytes no digest vouches for are
    published with the five that are. *)
Definition gap : list byte := replicate 5 Byte.x00.
Definition unverified_tail : list Packet :=
  [start_packet (str "a.txt") 10; data_packet 0 5 (str "ABCDE"); fin_packet 5 (sha256 gap)].

Theorem unverified_tail_published :
  let '(d, s, _) := handle_all unverified_tail (new_session 4 dir) disk0 in
  published_ s = true /\ bytes_written_ s = 5 /\
  content_at d (str "out/a.txt") = Some (gap ++ str "ABCDE").
Proof. vm_compute. repeat split. Qed.

(** The temporary name depends on the session id alone: a second session with
    the same id, from whatever peer, truncates the file of the first. *)
Theorem same_id_truncates :
  let '(d1, s1, _) := handle_all (take 2 transfer) (new_session 2 dir) disk0 in
  let '(d2, s2, _) := handle_all (take 1 transfer) (new_session 2 dir) d1 in
  temp_path_ s2 = temp_path_ s1 /\
  content_at d1 (temp_path_ s1) = Some [Byte.x00; Byte.x00; Byte.x6c; Byte.x6c] /\
  content_at d2 (temp_path_ s1) = Some [].
Proof. vm_compute. repeat split. Qed.

(** A peer may ask for the temporary name of another session as its output. *)
Theorem temp_name_accepted :
  sanitize_filename (temp_name sid) = (Filename.kNone, temp_name sid).
Proof. vm_compute. reflexivity. Qed.
