(* ===== verification/Receiver.v ===== *)
(** * The blocking receiver

    [receive_file] of src/src/transfer/receiver.cpp: it takes datagrams off a
    blocking socket, hands what decodes to a [ReceiverSession] and sends the
    replies, until the session has settled or the peer has been silent for too
    long. *)

From S2P Require Import Prelude Words Doubles Packet Wire Sha256 Filename Transfer ReceiverWindow FileIO Net Monad ReceiverSession Offline.
Import Packet.Packet.
Open Scope Z_scope.

Record ReceiverConfig := { idle_timeout : Z; receiver_window_size : Z }.
Definition default_receiver_config : ReceiverConfig :=
  {| idle_timeout := 10000; receiver_window_size := kDefaultReceiverWindowSize |}.

Section Receive.
Context {W : Type} `{OS : !Posix W} `{NET : !Network W}.
Context (sock : UdpSocket).

Definition send_reply (peer : Endpoint) (reply : Reply) (session_id : Z) (w : W) : W * bool :=
  let h := make_header (type reply) session_id (sequence reply) (sequence reply) 0 in
  let '(w, r) := send_to sock (serialize h (reply_payload reply)) peer w in
  (w, match r with inl n => 0 <=? n | inr _ => false end).

(** [proto::kHeaderWireSize + proto::kMaxPayloadSize] *)
Definition buffer_size : nat := kHeaderWireSize + Z.to_nat kMaxPayloadSize.

(** The [while] loop, which ends with the time it started at; [Spin] while it is still waiting for packets. *)
Fixpoint receive_loop (fuel : nat) (session : ReceiverSession) (timing_started : bool) (started : Z) (w : W) :
    W * ReceiverSession * Res Z :=
  match fuel with
  | O => (w, session, Spin)
  | S fuel =>
      if finished_ session then (w, session, Val started)
      else
        match recv_from sock buffer_size w with
        | (w, inr e) =>
            if e =? EINTR then receive_loop fuel session timing_started started w
            else if (e =? EAGAIN) || (e =? EWOULDBLOCK) then (w, session, Ret kPeerUnresponsive)
            else (w, session, Ret kReceiveFailed)
        | (w, inl (bytes, peer)) =>
            let '(w, started) := if negb timing_started then sys_now w else (w, started) in
            let result := deserialize bytes in
            if negb (ok result) then receive_loop fuel session true started w
            else
              let packet := value result in
              let '(w, session, reply) := handle_packet packet session w in
              if send reply then
                let '(w, sent) := send_reply peer reply (session_id (header packet)) w in
                if negb sent then (w, session, Ret kSendFailed)
                else receive_loop fuel session true started w
              else receive_loop fuel session true started w
        end
  end.

(** The counters, the output path and the result; [None] while it is still
    running.  The session is destroyed on every return.  The conversion of the idle
    timeout to microseconds is 64-bit. *)
Definition receive_file (fuel : nat) (output_directory : path) (config : ReceiverConfig)
    (stats : TransferStats) (out_path : path) (w : W) :
    W * TransferStats * path * option TransferError :=
  let session := new_session (receiver_window_size config) output_directory in
  let '(w, armed) := set_receive_timeout sock (s64 (idle_timeout config * 1000)) w in
  if negb armed then (destroy session w, stats, out_path, Some kSocketFailed)
  else
    match receive_loop fuel session false 0 w with
    | (w, session, Spin) => (w, stats, out_path, None)
    | (w, session, Ret e) => (destroy session w, stats, out_path, Some e)
    | (w, session, Val started) =>
        let '(w, now) := sys_now w in
        (destroy session w, set_elapsed (seconds (now - started)) (stats_ session), output_path_ session,
         Some (if negb (bool_decide (ReceiverSession.error_ session = Transfer.kNone)) then ReceiverSession.error_ session else Transfer.kNone))
    end.
End Receive.

(** ** What the loop keeps *)

Section Facts.
Context {W : Type} `{NL : NetworkLaws W}.
Context (sock : UdpSocket).
Implicit Types (w : W) (s : ReceiverSession).

(** The packets decoded from what was received since [w0]. *)
Definition received_since (w0 w : W) (p : Packet) : Prop :=
  exists bytes a, (bytes, a) ∈ drop (length (inbox w0)) (inbox w) /\ deserialize bytes = success p.

(** The session holds what [holding] says, and has been fed only packets that
    were received. *)
Record serving (dir : path) (w0 : W) (v0 : View) s w : Prop := {
  srv_inbox : exists l, inbox w = inbox w0 ++ l;
  srv_hist : exists hist, holding dir hist v0 (view w) s /\ Forall (received_since w0 w) hist;
  srv_verdict : verdict s
}.

Lemma received_mono w0 w w' p l :
  received_since w0 w p -> inbox w' = inbox w ++ l -> (exists m, inbox w = inbox w0 ++ m) -> received_since w0 w' p.
Proof.
  intros (bytes & a & Hin & Hd) Hi [m Hm]. exists bytes, a. split; [|done].
  rewrite Hi, Hm in *. rewrite <- app_assoc, !drop_app_length in *. apply elem_of_app. by left.
Qed.

Lemma serving_mono dir w0 v0 s w w' l :
  serving dir w0 v0 s w -> view w' = view w -> inbox w' = inbox w ++ l -> serving dir w0 v0 s w'.
Proof.
  intros [[m Hm] (hist & Hh & Hr) Hv] Hview Hi. split; [|exists hist; split|done].
  - exists (m ++ l). by rewrite Hi, Hm, app_assoc.
  - by rewrite Hview.
  - eapply Forall_impl; [exact Hr|]. intros p Hp. eapply received_mono; [done..|by exists m].
Qed.

Lemma deserialize_wf bytes p : deserialize bytes = success p -> packet_wf p.
Proof.
  intros Hd. destruct (deserialize_ok_inv _ _ Hd) as [Ha ->]. split; simpl; [apply header_of_wf|].
  rewrite length_drop. pose proof (acc_payload_length _ _ Ha) as Hp. pose proof (field_fits bytes 32 2) as Hf.
  rewrite Hp in Hf. unfold fits in Hf. unfold kMaxPayloadSize. change (2 ^ (8 * Z.of_nat 2)) with 65536 in Hf. lia.
Qed.

Lemma serving_new dir cap w0 w :
  offline w0 w -> serving dir w0 (view w) (new_session cap dir) w.
Proof.
  intros [_ Hi]. split; [exists []; by rewrite app_nil_r|exists []; split; [apply holding_start|done]|done].
Qed.

(** A decoded datagram goes through the session. *)
Lemma serving_packet dir w0 v0 s w w1 bytes a :
  serving dir w0 v0 s w -> view w1 = view w -> inbox w1 = inbox w ++ [(bytes, a)] -> ok (deserialize bytes) = true ->
  let '(w2, s2, _) := handle_packet (value (deserialize bytes)) s w1 in serving dir w0 v0 s2 w2.
Proof.
  intros Hs Hv Hi Hok. pose proof (serving_mono _ _ _ _ _ w1 _ Hs Hv Hi) as [Hin (hist & Hh & Hr) Hverdict].
  set (p := value (deserialize bytes)).
  assert (deserialize bytes = success p) as Hd.
  { unfold ok, success, value in *. subst p. unfold value. destruct (deserialize bytes). simpl in *. bool_to_prop. by subst. }
  pose proof (handle_packet_holding dir hist v0 p s w1 Hh (deserialize_wf _ _ Hd)) as Hh2.
  pose proof (handle_packet_verdict p s w1 Hverdict) as Hv2.
  pose proof (handle_packet_offline p s w1) as [_ Hoff].
  destruct (handle_packet p s w1) as [[w2 s2] r]. simpl in Hoff.
  destruct Hs as [[m Hm] _ _]. split; [exists (m ++ [(bytes, a)]); by rewrite Hoff, Hi, Hm, app_assoc| |done].
  exists (p :: hist). split; [done|]. apply Forall_cons. split.
  - exists bytes, a. split; [|done]. rewrite Hoff, Hi, Hm, <- app_assoc, drop_app_length.
    apply elem_of_app. right. by apply list_elem_of_singleton.
  - eapply Forall_impl; [exact Hr|]. intros q Hq. apply (received_mono w0 w1 w2 q []); [done|by rewrite app_nil_r|done].
Qed.

Lemma send_reply_serving dir w0 v0 s peer r sid w :
  serving dir w0 v0 s w -> serving dir w0 v0 s (send_reply sock peer r sid w).1.
Proof.
  intros Hs. unfold send_reply. pose proof (send_to_spec sock (serialize (make_header (type r) sid (sequence r) (sequence r) 0) (reply_payload r)) peer w) as Hsend.
  destruct (send_to _ _ _ w) as [w1 x]. destruct Hsend as (Hv & Hi & _).
  apply (serving_mono _ _ _ _ w w1 []); [done..|by rewrite app_nil_r].
Qed.

(** The clock is read at most once. *)
Lemma start_clock_quiet timing (t : Z) w : quiet w (if negb timing then sys_now w else (w, t)).1.
Proof. destruct (negb timing); [apply now_quiet|done]. Qed.

Lemma receive_loop_serving dir w0 v0 fuel s timing t w :
  serving dir w0 v0 s w ->
  let '(w', s', r) := receive_loop sock fuel s timing t w in
  serving dir w0 v0 s' w' /\
  match r with Val _ => finished_ s' = true | Ret e => e <> Transfer.kNone /\ (e <> kSendFailed -> published_ s' = false) | Spin => True end.
Proof.
  revert s timing t w. induction fuel as [|fuel IH]; intros s timing t w Hs; cbn [receive_loop]; [done|].
  destruct (finished_ s) eqn:Hf; [done|].
  assert (published_ s = false) as Hpub.
  { destruct Hs as [_ _ Hv]. unfold verdict in Hv. rewrite Hf in Hv. by destruct Hv. }
  pose proof (recv_from_spec sock buffer_size w) as Hr.
  destruct (recv_from sock buffer_size w) as [w1 [[bytes peer]|e]]; destruct Hr as (Hv & _ & Hi).
  2:{ assert (serving dir w0 v0 s w1) as Hs1 by (apply (serving_mono _ _ _ _ w w1 []); [done..|by rewrite app_nil_r]).
      destruct (e =? EINTR); [by apply IH|]. destruct (_ || _); by split. }
  destruct Hi as (a & _ & Hi). pose proof (start_clock_quiet timing t w1) as Hq. destruct (if negb timing then _ else _) as [w2 t2].
  assert (view w2 = view w /\ inbox w2 = inbox w ++ [(bytes, a)]) as [Hv2 Hi2] by (destruct Hq as (Hv1 & _ & Hi1); simpl in Hv1, Hi1; split; congruence). clear Hq.
  destruct (ok (deserialize bytes)) eqn:Hok; simpl negb; cbv iota.
  2:{ apply IH. by apply (serving_mono _ _ _ _ w w2 [(bytes, a)]). }
  pose proof (serving_packet dir w0 v0 s w w2 bytes a Hs Hv2 Hi2 Hok) as Hs3.
  destruct (handle_packet _ s w2) as [[w3 s3] reply] eqn:Hhp. destruct (send reply) eqn:Hsend; [|by apply IH].
  pose proof (send_reply_serving dir w0 v0 s3 peer reply (session_id (header (value (deserialize bytes)))) w3 Hs3) as Hs4.
  destruct (send_reply _ _ _ _ w3) as [w4 sent]. simpl in Hs4. destruct sent; simpl negb; cbv iota; [by apply IH|].
  by split.
Qed.
End Facts.

(** ** Claims *)

Section Claims.
Context {W : Type} `{NL : NetworkLaws W}.
Implicit Types (w : W).

(** Where [receive_file] starts its loop, and what its session holds at the end. *)
Lemma receive_file_serving sock fuel dir config stats out w :
  let '(w', _, out', r) := receive_file sock fuel dir config stats out w in
  match r with
  | None => True
  | Some e => exists v0 s w1, v0 = view w /\ serving dir w v0 s w1 /\ view w' = view (destroy s w1) /\
      inbox w' = inbox w1 /\
      (e = Transfer.kNone -> published_ s = true /\ out' = output_path_ s) /\
      (e <> Transfer.kNone -> e <> kSendFailed -> published_ s = false)
  end.
Proof.
  unfold receive_file. pose proof (set_receive_timeout_quiet sock (s64 (idle_timeout config * 1000)) w) as Hq.
  destruct (set_receive_timeout sock _ w) as [w1 armed]. destruct Hq as (Hv & Ho & Hi).
  set (s0 := new_session _ dir).
  assert (serving dir w (view w) s0 w1) as Hs by (rewrite <- Hv; by apply serving_new).
  destruct armed; simpl negb; cbv iota.
  2:{ exists (view w), s0, w1. split_and!; try done. }
  pose proof (receive_loop_serving sock dir w (view w) fuel s0 false 0 w1 Hs) as Hloop.
  destruct (receive_loop sock fuel s0 false 0 w1) as [[w2 s] [u|e|]]; destruct Hloop as [Hs2 Hr]; [| |done].
  - pose proof (now_quiet w2) as (Hv3 & Ho3 & Hi3). destruct (sys_now w2) as [w3 t]. simpl in *.
    assert (serving dir w (view w) s w3) as Hs3 by (apply (serving_mono _ _ _ _ w2 w3 []); [done..|by rewrite app_nil_r]).
    exists (view w), s, w3. pose proof (srv_verdict _ _ _ _ _ Hs3) as Hver. unfold verdict in Hver. rewrite Hr in Hver.
    destruct Hver as [_ Hver]. split_and!; try done; [apply destroy_offline| |].
    + case_bool_decide as He; simpl; [|done]. intros _. by split; [apply Hver|].
    + case_bool_decide as He; simpl; [done|]. intros _ _. destruct (published_ s); [|done]. by destruct He; apply Hver.
  - destruct Hr as [He Hp]. exists (view w), s, w2. split_and!; try done. apply destroy_offline.
Qed.

(** [out] is a direct child of [dir] and names a file whose leading bytes, as many as
    a FIN received since [w] declared, hash to the digest of that FIN. *)
Definition verified_file w w' (dir out : path) : Prop :=
  exists i c fin name,
    received_since w w' fin /\ packet_type (header fin) = kFin /\
    names (view w') !! out = Some i /\ data (view w') !! i = Some c /\
    byte_offset (header fin) <= Z.of_nat (length c) /\
    payload fin = sha256 (take (Z.to_nat (byte_offset (header fin))) c) /\
    resolve out = resolve dir ++ [name].

(** A session that has published leaves its file behind when it is destroyed. *)
Lemma published_verified dir w s w1 w' :
  serving dir w (view w) s w1 -> published_ s = true -> view w' = view (destroy s w1) -> inbox w' = inbox w1 ->
  verified_file w w' dir (output_path_ s).
Proof.
  intros [Hin (hist & Hh & Hr) _] Hpub Hv Hi. destruct (destroy_contained _ _ _ _ _ Hh) as (_ & Hd & Hn).
  destruct Hh as [? _ _ _ ?|i c name Hdir Hst []]; [congruence|].
  destruct (hold_published Hpub) as (_ & p & Hp & Ht & Hsid & Hoff & Hlen & Hdig).
  exists i, c, p, name. rewrite Hv, Hd, Hn, hold_view, Hpub by (by left). simpl. split_and!; try done; try congruence.
  - rewrite Forall_forall in Hr. destruct (Hr p Hp) as (bytes & a & Hb & Hdec). exists bytes, a. by rewrite Hi.
  - unfold publish. case_decide; [done|]. by rewrite lookup_insert_eq.
  - by rewrite lookup_insert_eq.
  - rewrite hold_output, Hdir. by apply join_path_safe.
Qed.

(** C15: what [receive_file] reports as received is a verified file.  When it
    returns [kNone], the path it reports is a direct child of the output directory
    and names a file whose leading bytes, as many as a FIN packet received during
    the call declared, hash to the digest that packet carried; and no descriptor is
    left open. *)
Theorem received_file_is_verified sock fuel dir config stats out w :
  let '(w', _, out', r) := receive_file sock fuel dir config stats out w in
  r = Some Transfer.kNone ->
  (exists i c fin name,
    received_since w w' fin /\ packet_type (header fin) = kFin /\
    names (view w') !! out' = Some i /\ data (view w') !! i = Some c /\
    byte_offset (header fin) <= Z.of_nat (length c) /\
    payload fin = sha256 (take (Z.to_nat (byte_offset (header fin))) c) /\
    resolve out' = resolve dir ++ [name]) /\
  handles (view w') = handles (view w).
Proof.
  pose proof (receive_file_serving sock fuel dir config stats out w) as Hs.
  destruct (receive_file _ _ _ _ _ _ w) as [[[w' st] out'] r]. intros ->.
  destruct Hs as (v0 & s & w1 & -> & Hs & Hv & Hi & Hok & _). destruct (Hok eq_refl) as [Hpub ->].
  split; [by apply (published_verified dir w s w1 w')|].
  destruct Hs as [_ (hist & Hh & _) _]. rewrite Hv. apply (destroy_contained _ _ _ _ _ Hh).
Qed.

(** C23: a failed receive leaves the directory alone.  When [receive_file] gives up,
    no descriptor is left open, and every directory entry except the session's
    temporary one is what it was before the call and every file that was not behind
    that entry has the bytes it had; unless it gave up because a reply could not be
    sent, when the one other entry that may have changed is a direct child of the
    output directory that now names a verified file, the FIN_ACK for which was that
    reply. *)
Theorem failed_receive_leaves_nothing sock fuel dir config stats out w :
  let '(w', _, _, r) := receive_file sock fuel dir config stats out w in
  forall e, r = Some e -> e <> Transfer.kNone ->
  handles (view w') = handles (view w) /\
  exists temp, (temp = [] \/ exists sid, temp = join_path dir (temp_name sid)) /\
    (forall j c, data (view w) !! j = Some c -> names (view w) !! temp <> Some j -> data (view w') !! j = Some c) /\
    ((forall q, q <> temp -> names (view w') !! q = names (view w) !! q) \/
     e = kSendFailed /\ exists published, verified_file w w' dir published /\
       forall q, q <> temp -> q <> published -> names (view w') !! q = names (view w) !! q).
Proof.
  pose proof (receive_file_serving sock fuel dir config stats out w) as Hs.
  destruct (receive_file _ _ _ _ _ _ w) as [[[w' st] out'] r]. intros e -> He.
  destruct Hs as (v0 & s & w1 & -> & Hserve & Hv & Hi & _ & Hfail). specialize (Hfail He).
  pose proof (published_verified dir w s w1 w' Hserve) as Hver.
  destruct Hserve as [Hin (hist & Hh & Hr) _]. destruct (destroy_contained _ _ _ _ _ Hh) as (Hhd & Hd & Hn).
  rewrite Hv. split; [done|]. exists (temp_path_ s). rewrite Hd.
  destruct Hh as [Hdir Hv1 ? ? Hpub ? Htemp|i c name Hdir Hst []].
  { rewrite <- Hdir. split_and!; [done|by rewrite Hv1|]. left. intros q Hq. rewrite Hn, Hv1 by (by right). done. }
  rewrite hold_temp, Hdir in *. split_and!; [right; by eexists| |].
  { intros j c' Hj Hne. rewrite hold_view. simpl. rewrite lookup_insert_ne; [done|].
    intros ->. destruct hold_owned as [|(_ & ? & _)]; congruence. }
  destruct (published_ s) eqn:Hpub.
  - right. destruct (decide (e = kSendFailed)) as [->|Hne]; [|by specialize (Hfail Hne)].
    split; [done|]. exists (output_path_ s). split; [by apply Hver|]. intros q Hq Hq'.
    rewrite Hn, hold_view by (by left). simpl. unfold publish. case_decide.
    + by rewrite lookup_insert_ne by congruence.
    + by rewrite lookup_insert_ne, lookup_delete_ne, lookup_insert_ne by congruence.
  - left. intros q Hq. rewrite Hn, hold_view by (right; congruence). simpl. rewrite lookup_insert_ne; [done|congruence].
Qed.
End Claims.
