(* ===== verification/Server.v ===== *)
(** * The epoll server

    [run] of src/src/server/epoll_server.cpp: one loop over the events of one
    socket, one timer and one signal descriptor, and a table of sessions.  The
    table is the [std::map] of the source, a list ordered by [SessionKey]; erasing
    an entry runs the destructor of its session.  Printing is left out. *)

From S2P Require Import Prelude Words Packet Wire Transfer FileIO Net ReceiverSession.
Import Packet.Packet.
Open Scope Z_scope.

(** The descriptors behind epoll, signals and timers. *)
Class Epoll (W : Type) := {
  sys_epoll_create : W -> W * Z;
  sys_sigprocmask : W -> W * bool;
  sys_signalfd : W -> W * Z;
  sys_timerfd_create : W -> W * Z;
  (** [timerfd_settime(fd, 0, {interval, interval})] *)
  sys_timerfd_settime : Z -> Z -> Z -> W -> W * bool;
  sys_epoll_add : Z -> Z -> W -> W * bool;
  (** The ready descriptors, at most eight, or [errno]. *)
  sys_epoll_wait : Z -> W -> W * (list Z + Z);
  (** A read from a signal or timer descriptor that got a whole record. *)
  sys_read_event : Z -> W -> W * bool
}.

Record SessionKey := { key_address : list byte; key_port : Z; key_session_id : Z }.
#[export] Instance session_key_eq_dec : EqDecision SessionKey.
Proof. solve_decision. Defined.

(** [operator<] of strings. *)
Fixpoint bytes_less (a b : list byte) : bool :=
  match a, b with
  | _, [] => false
  | [], _ => true
  | x :: a, y :: b =>
      if bool_decide (x = y) then bytes_less a b else Z_of_byte x <? Z_of_byte y
  end.

Definition key_less (k other : SessionKey) : bool :=
  if negb (bool_decide (key_address k = key_address other)) then bytes_less (key_address k) (key_address other)
  else if negb (key_port k =? key_port other) then key_port k <? key_port other
  else key_session_id k <? key_session_id other.

Record Session := {
  receiver : ReceiverSession;
  peer : Endpoint;
  last_activity : Z;
  opened_at : Z;  (* started *)
  lingering : bool;
  completed_at : Z
}.

Definition make_session (window : Z) (directory : path) : Session := {|
  receiver := new_session window directory; peer := default_endpoint; last_activity := 0;
  opened_at := 0; lingering := false; completed_at := 0 |}.
(** [session->peer = peer; session->started = now] *)
Definition set_opened (e : Endpoint) (now : Z) (s : Session) : Session := {|
  receiver := receiver s; peer := e; last_activity := last_activity s; opened_at := now;
  lingering := lingering s; completed_at := completed_at s |}.
Definition set_activity (now : Z) (s : Session) : Session := {|
  receiver := receiver s; peer := peer s; last_activity := now; opened_at := opened_at s;
  lingering := lingering s; completed_at := completed_at s |}.
Definition set_receiver (r : ReceiverSession) (s : Session) : Session := {|
  receiver := r; peer := peer s; last_activity := last_activity s; opened_at := opened_at s;
  lingering := lingering s; completed_at := completed_at s |}.
(** [session.lingering = true; session.completed_at = now] *)
Definition set_lingering (now : Z) (s : Session) : Session := {|
  receiver := receiver s; peer := peer s; last_activity := last_activity s; opened_at := opened_at s;
  lingering := true; completed_at := now |}.

(** ** [std::map<SessionKey, std::unique_ptr<Session>>] *)

Abbreviation Table := (list (SessionKey * Session)).

Definition equivalent (k other : SessionKey) : bool := negb (key_less k other) && negb (key_less other k).

Fixpoint find (k : SessionKey) (l : Table) : option Session :=
  match l with
  | [] => None
  | (k', s) :: l => if equivalent k k' then Some s else find k l
  end.

(** Before the first greater key; an equivalent key is left alone. *)
Fixpoint emplace (k : SessionKey) (s : Session) (l : Table) : Table :=
  match l with
  | [] => [(k, s)]
  | (k', s') :: l =>
      if key_less k k' then (k, s) :: (k', s') :: l
      else if key_less k' k then (k', s') :: emplace k s l
      else (k', s') :: l
  end.

(** Writing through the iterator of [k]. *)
Fixpoint store (k : SessionKey) (s : Session) (l : Table) : Table :=
  match l with
  | [] => []
  | (k', s') :: l => if equivalent k k' then (k', s) :: l else (k', s') :: store k s l
  end.

(** [active]: the sessions that are not lingering. *)
Definition active (l : Table) : Z := Z.of_nat (length (filter (fun e => lingering e.2 = false) l)).

Record ServerConfig := {
  server_port : Z;
  server_directory : path;
  session_idle_timeout : Z;
  sweep_interval : Z;
  session_linger : Z;
  max_sessions : Z;
  server_window_size : Z
}.
Definition default_server_config : ServerConfig := {|
  server_port := 9000; server_directory := str "."; session_idle_timeout := 30000;
  sweep_interval := 1000; session_linger := 20000; max_sessions := 256;
  server_window_size := kDefaultReceiverWindowSize |}.

Record Server := {
  sessions : Table;
  completed : Z;
  failed : Z;
  expired : Z;
  refused : Z;
  running : bool
}.
Definition new_server : Server :=
  {| sessions := []; completed := 0; failed := 0; expired := 0; refused := 0; running := true |}.

Definition set_sessions (l : Table) (v : Server) : Server :=
  {| sessions := l; completed := completed v; failed := failed v; expired := expired v;
     refused := refused v; running := running v |}.
Definition set_expired (l : Table) (n : Z) (v : Server) : Server :=
  {| sessions := l; completed := completed v; failed := failed v; expired := n;
     refused := refused v; running := running v |}.
Definition count_completed (v : Server) : Server :=
  {| sessions := sessions v; completed := bump (completed v); failed := failed v; expired := expired v;
     refused := refused v; running := running v |}.
Definition count_failed (v : Server) : Server :=
  {| sessions := sessions v; completed := completed v; failed := bump (failed v); expired := expired v;
     refused := refused v; running := running v |}.
Definition count_refused (v : Server) : Server :=
  {| sessions := sessions v; completed := completed v; failed := failed v; expired := expired v;
     refused := bump (refused v); running := running v |}.
Definition stop (v : Server) : Server :=
  {| sessions := sessions v; completed := completed v; failed := failed v; expired := expired v;
     refused := refused v; running := false |}.

(** [duration_cast<milliseconds>] *)
Definition milliseconds (d : Z) : Z := Z.quot d 1000000.

Section Serve.
Context {W : Type} `{OS : !Posix W} `{NET : !Network W} `{EP : !Epoll W}.
Context (sock : UdpSocket) (config : ServerConfig).

Definition send_error (e : Endpoint) (request : PacketHeader) (code : Status.StatusCode) (w : W) : W :=
  let h := make_header kError (session_id request) (sequence_number request) (sequence_number request) 0 in
  (send_to sock (serialize h (error_payload code)) e w).1.

(** ** The sweep *)

Fixpoint sweep (now : Z) (l : Table) (expired : Z) (w : W) : W * Table * Z :=
  match l with
  | [] => (w, [], expired)
  | (k, s) :: l =>
      if lingering s then
        let held := milliseconds (now - completed_at s) in
        if held >? session_linger config then
          sweep now l expired (destroy (receiver s) w)
        else
          let '(w, l, expired) := sweep now l expired w in (w, (k, s) :: l, expired)
      else
        let idle := milliseconds (now - last_activity s) in
        if idle >? session_idle_timeout config then
          sweep now l (bump expired) (destroy (receiver s) w)
        else
          let '(w, l, expired) := sweep now l expired w in (w, (k, s) :: l, expired)
  end.

Definition on_timer (v : Server) (w : W) : W * Server :=
  let '(w, now) := sys_now w in
  let '(w, l, n) := sweep now (sessions v) (expired v) w in
  (w, set_expired l n v).

(** ** Datagrams *)

(** The scan that retires lingering sessions early. *)
Fixpoint evict (l : Table) (w : W) : W * Table :=
  match l with
  | [] => (w, [])
  | (k, s) :: l =>
      if lingering s then evict l (destroy (receiver s) w)
      else let '(w, l) := evict l w in (w, (k, s) :: l)
  end.

(** From [Session& session = *it->second] to the end of the iteration. *)
Definition serve_packet (key : SessionKey) (packet : Packet) (session : Session) (v : Server) (w : W) :
    W * Server :=
  let '(w, now) := sys_now w in
  let session := set_activity now session in
  let '(w, r, reply) := handle_packet packet (receiver session) w in
  let session := set_receiver r session in
  let w :=
    if send reply then
      let h := make_header (type reply) (session_id (header packet)) (sequence reply) (sequence reply) 0 in
      (send_to sock (serialize h (reply_payload reply)) (peer session) w).1
    else w in
  if finished_ (receiver session) && negb (lingering session) then
    let '(w, _) := sys_now w in
    let v := if bool_decide (ReceiverSession.error_ (receiver session) = Transfer.kNone)
             then count_completed v else count_failed v in
    let '(w, r) := close_file (receiver session) w in
    let '(w, now) := sys_now w in
    (w, set_sessions (store key (set_lingering now (set_receiver r session)) (sessions v)) v)
  else (w, set_sessions (store key session (sessions v)) v).

(** A START for an unknown key: the table with room made and the new session, or
    [None] when the server is busy. *)
Definition admission (key : SessionKey) (e : Endpoint) (v : Server) (w : W) : W * option (Session * Server) :=
  if max_sessions config <=? active (sessions v) then (w, None)
  else
    let '(w, l) :=
      if u64 (max_sessions config * 2) <=? Z.of_nat (length (sessions v))
      then evict (sessions v) w else (w, sessions v) in
    let '(w, now) := sys_now w in
    let session := set_opened e now (make_session (server_window_size config) (server_directory config)) in
    (w, Some (session, set_sessions (emplace key session l) v)).

Definition on_datagram (bytes : list byte) (e : Endpoint) (v : Server) (w : W) : W * Server :=
  let result := deserialize bytes in
  if negb (ok result) then (w, v)
  else
    let packet := value result in
    let key := {| key_address := address e; key_port := port e; key_session_id := session_id (header packet) |} in
    match find key (sessions v) with
    | Some session => serve_packet key packet session v w
    | None =>
        if negb (bool_decide (packet_type (header packet) = kStart)) then (w, v)
        else
          match admission key e v w with
          | (w, None) => (send_error e (header packet) Status.kServerBusy w, count_refused v)
          | (w, Some (session, v)) => serve_packet key packet session v w
          end
    end.

Definition server_buffer : nat := kHeaderWireSize + Z.to_nat kMaxPayloadSize.

(** The drain loop; [false] while datagrams keep coming. *)
Fixpoint drain (fuel : nat) (v : Server) (w : W) : W * Server * bool :=
  match fuel with
  | O => (w, v, false)
  | S fuel =>
      match recv_from sock server_buffer w with
      | (w, inr e) =>
          if (e =? EAGAIN) || (e =? EWOULDBLOCK) then (w, v, true)
          else if e =? EINTR then drain fuel v w
          else (w, v, true)
      | (w, inl (bytes, from)) =>
          let '(w, v) := on_datagram bytes from v w in drain fuel v w
      end
  end.

(** ** The event loop *)

(** [while (::read(fd, ...) == sizeof ...)] *)
Fixpoint consume (fuel : nat) (fd : Z) (w : W) : W * bool :=
  match fuel with
  | O => (w, false)
  | S fuel => match sys_read_event fd w with
              | (w, true) => consume fuel fd w
              | (w, false) => (w, true)
              end
  end.

Context (epoll_fd signal_fd timer_fd : Z).

Definition on_event (fuel : nat) (fd : Z) (v : Server) (w : W) : W * Server * bool :=
  if fd =? signal_fd then
    let '(w, finished) := consume fuel signal_fd w in (w, stop v, finished)
  else if fd =? timer_fd then
    let '(w, finished) := consume fuel timer_fd w in
    if negb finished then (w, v, false)
    else let '(w, v) := on_timer v w in (w, v, true)
  else if negb (fd =? sock_fd sock) then (w, v, true)
  else drain fuel v w.

Fixpoint on_events (fuel : nat) (fds : list Z) (v : Server) (w : W) : W * Server * bool :=
  match fds with
  | [] => (w, v, true)
  | fd :: fds =>
      match on_event fuel fd v w with
      | (w, v, true) => on_events fuel fds v w
      | stuck => stuck
      end
  end.

(** The [while (running)] loop: an exit code, or [None] while it runs on. *)
Fixpoint serve (fuel : nat) (v : Server) (w : W) : W * Server * option Z :=
  match fuel with
  | O => (w, v, None)
  | S fuel =>
      if running v then
        match sys_epoll_wait epoll_fd w with
        | (w, inr e) => if e =? EINTR then serve fuel v w else (w, v, Some 1)
        | (w, inl fds) =>
            match on_events fuel fds v w with
            | (w, v, true) => serve fuel v w
            | (w, v, false) => (w, v, None)
            end
        end
      else (w, v, Some 0)
  end.
End Serve.

(** ** [run] *)

Section Run.
Context {W : Type} `{OS : !Posix W} `{NET : !Network W} `{EP : !Epoll W}.

Definition make_signal_fd (w : W) : W * Z :=
  let '(w, blocked) := sys_sigprocmask w in
  if negb blocked then (w, -1) else sys_signalfd w.

(** [~UniqueFd] *)
Definition close_unique (fd : Z) (w : W) : W := if 0 <=? fd then sys_close fd w else w.

Definition make_timer_fd (interval : Z) (w : W) : W * Z :=
  let '(w, fd) := sys_timerfd_create w in
  if negb (0 <=? fd) then (w, fd)
  else
    let seconds := Z.quot interval 1000 in
    let nanos := (interval - seconds * 1000) * 1000000 in
    let '(w, armed) := sys_timerfd_settime fd seconds nanos w in
    if negb armed then (close_unique fd w, -1) else (w, fd).

(** The sessions of the table are destroyed. *)
Fixpoint destroy_sessions (l : Table) (w : W) : W :=
  match l with
  | [] => w
  | (_, s) :: l => destroy_sessions l (destroy (receiver s) w)
  end.

(** The exit code and the counters reported at shutdown; [None] while it runs. *)
Definition run (fuel : nat) (config : ServerConfig) (w : W) : W * option (Z * Server) :=
  let '(w, sock, made) := socket_open closed_socket w in
  let shut w := (socket_close sock w).1 in
  if negb made then (shut w, Some (1, new_server))
  else
    let '(w, bound) := bind sock (server_port config) w in
    if negb bound then (shut w, Some (1, new_server))
    else
      let '(w, nonblocking) := set_nonblocking sock true w in
      if negb nonblocking then (shut w, Some (1, new_server))
      else
        let '(w, epoll_fd) := sys_epoll_create w in
        let '(w, signal_fd) := make_signal_fd w in
        let '(w, timer_fd) := make_timer_fd (sweep_interval config) w in
        let shut w := shut (close_unique epoll_fd (close_unique signal_fd (close_unique timer_fd w))) in
        if negb (0 <=? epoll_fd) || negb (0 <=? signal_fd) || negb (0 <=? timer_fd)
        then (shut w, Some (1, new_server))
        else
          let '(w, a) := sys_epoll_add epoll_fd (sock_fd sock) w in
          let '(w, b) := if a then sys_epoll_add epoll_fd signal_fd w else (w, false) in
          let '(w, c) := if b then sys_epoll_add epoll_fd timer_fd w else (w, false) in
          if negb c then (shut w, Some (1, new_server))
          else
            match serve sock config epoll_fd signal_fd timer_fd fuel new_server w with
            | (w, v, None) => (w, None)
            | (w, v, Some code) => (shut (destroy_sessions (sessions v) w), Some (code, v))
            end.

(** [abandoned]: the sessions still open at shutdown. *)
Definition abandoned (v : Server) : Z := active (sessions v).
End Run.
