(* ===== verification/ServerSpec.v ===== *)
(** * What the server keeps, whatever arrives

    Invariants of the session table of Server.v under any datagrams and ticks, by
    induction on the states the loop can reach, and what one datagram or one sweep
    does to the table. *)

From Stdlib Require Import Sorting.Sorted.
From S2P Require Import Prelude Words Packet Wire Transfer FileIO Net Filename ReceiverWindow ReceiverSession Server.
Import Packet.Packet.
Open Scope Z_scope.

(** ** The order of the keys *)

Lemma bytes_less_irrefl a : bytes_less a a = false.
Proof. induction a as [|x a IH]; [done|]. simpl. by rewrite bool_decide_true. Qed.

Lemma bytes_less_total a b : bytes_less a b = false -> bytes_less b a = false -> a = b.
Proof.
  revert b. induction a as [|x a IH]; intros [|y b]; simpl; try done.
  destruct (decide (x = y)) as [->|Hne].
  - rewrite !bool_decide_true by done. intros. f_equal. by apply IH.
  - rewrite !bool_decide_false by congruence. intros. bool_to_prop. destruct Hne. apply Z_of_byte_inj. lia.
Qed.

Lemma bytes_less_trans a b c : bytes_less a b = true -> bytes_less b c = true -> bytes_less a c = true.
Proof.
  revert b c. induction a as [|x a IH]; intros [|y b] [|z c]; simpl; try done.
  destruct (decide (x = y)) as [->|Hxy].
  - rewrite (bool_decide_true (y = y)) by done. destruct (bool_decide (y = z)); [apply IH|done].
  - rewrite (bool_decide_false (x = y)) by done. intros Hx. destruct (decide (y = z)) as [->|Hyz].
    + by rewrite (bool_decide_false (x = z)).
    + rewrite (bool_decide_false (y = z)) by done. intros Hy. bool_to_prop.
      rewrite bool_decide_false; [apply Z.ltb_lt; lia|]. intros ->. lia.
Qed.

Lemma key_less_irrefl k : key_less k k = false.
Proof. unfold key_less. rewrite bool_decide_true, Z.eqb_refl by done. simpl. apply Z.ltb_irrefl. Qed.

Lemma key_less_total k1 k2 : key_less k1 k2 = false -> key_less k2 k1 = false -> k1 = k2.
Proof.
  destruct k1 as [a1 p1 s1], k2 as [a2 p2 s2]. unfold key_less. simpl.
  destruct (decide (a1 = a2)) as [->|Hne].
  - rewrite !(bool_decide_true (a2 = a2)) by done. simpl.
    destruct (Z.eqb_spec p1 p2) as [->|Hp].
    + rewrite Z.eqb_refl. simpl. intros. bool_to_prop. f_equal. lia.
    + rewrite (proj2 (Z.eqb_neq p2 p1)) by congruence. simpl. intros. bool_to_prop. lia.
  - rewrite !bool_decide_false by congruence. simpl. intros H1 H2. by destruct Hne; apply bytes_less_total.
Qed.

Lemma key_less_trans k1 k2 k3 : key_less k1 k2 = true -> key_less k2 k3 = true -> key_less k1 k3 = true.
Proof.
  destruct k1 as [a1 p1 s1], k2 as [a2 p2 s2], k3 as [a3 p3 s3]. unfold key_less. simpl.
  destruct (decide (a1 = a2)) as [->|H12]; [rewrite (bool_decide_true (a2 = a2)) by done; simpl|].
  - destruct (bool_decide (a2 = a3)); simpl; [|by destruct (p1 =? p2)].
    destruct (Z.eqb_spec p1 p2) as [->|Hp12]; simpl.
    + destruct (p2 =? p3); simpl; [|done]. intros. bool_to_prop. apply Z.ltb_lt. lia.
    + destruct (Z.eqb_spec p2 p3) as [->|Hp23]; simpl; intros; bool_to_prop.
      * rewrite (proj2 (Z.eqb_neq p1 p3)) by done. simpl. by apply Z.ltb_lt.
      * rewrite (proj2 (Z.eqb_neq p1 p3)) by lia. simpl. apply Z.ltb_lt. lia.
  - rewrite (bool_decide_false (a1 = a2)) by done. simpl. intros Hl.
    destruct (decide (a2 = a3)) as [->|H23]; [by rewrite (bool_decide_false (a1 = a3))|].
    rewrite (bool_decide_false (a2 = a3)) by done. simpl. intros Hl2.
    pose proof (bytes_less_trans _ _ _ Hl Hl2) as H13. rewrite bool_decide_false; [done|].
    intros ->. by rewrite bytes_less_irrefl in H13.
Qed.

Lemma equivalent_eq k1 k2 : equivalent k1 k2 = bool_decide (k1 = k2).
Proof.
  unfold equivalent. case_bool_decide as Hk.
  - subst. by rewrite key_less_irrefl.
  - destruct (key_less k1 k2) eqn:E1; [done|]. destruct (key_less k2 k1) eqn:E2; [done|].
    by destruct Hk; apply key_less_total.
Qed.

(** ** The table *)

Definition before (a b : SessionKey * Session) : Prop := key_less a.1 b.1 = true.
#[local] Instance before_trans : Transitive before.
Proof. intros [a ?] [b ?] [c ?]. apply key_less_trans. Qed.

Abbreviation ordered := (StronglySorted before).

Lemma ordered_app l1 e l2 :
  ordered (l1 ++ e :: l2) <-> ordered l1 /\ ordered l2 /\ Forall (fun a => before a e) l1 /\ Forall (before e) l2 /\
    (forall a b, a ∈ l1 -> b ∈ l2 -> before a b).
Proof.
  induction l1 as [|a l1 IH]; simpl.
  - split; [intros Ho; inversion_clear Ho; split_and!; [constructor|done|constructor|done|by intros ? ? ?%elem_of_nil]|].
    intros (_ & ? & _ & ? & _). by constructor.
  - split.
    + intros Ho. inversion_clear Ho as [|? ? Ho' Hf]. apply IH in Ho' as (? & ? & ? & ? & Hc).
      apply Forall_app in Hf as [? Hf]. inversion_clear Hf as [|? ? ? Hf2]. split_and!; [by constructor|done|by constructor|done|].
      intros x y [->|Hx]%elem_of_cons Hy; [by eapply Forall_forall in Hf2|by apply Hc].
    + intros (Ho1 & Ho2 & Hf1 & Hf2 & Hc). inversion_clear Ho1. inversion_clear Hf1. constructor.
      * apply IH. split_and!; try done. intros x y Hx Hy. apply Hc; [by right|done].
      * apply Forall_app. split; [done|]. constructor; [done|]. apply Forall_forall. intros y Hy. apply Hc; [by left|done].
Qed.

Lemma ordered_nodup l : ordered l -> NoDup l.*1.
Proof.
  induction 1 as [|[k s] l _ IH Hf]; simpl; constructor; [|done].
  intros ([k' s'] & -> & Hin)%list_elem_of_fmap. eapply Forall_forall in Hf; [|done].
  unfold before in Hf. simpl in Hf. by rewrite key_less_irrefl in Hf.
Qed.

Lemma find_split k l s :
  find k l = Some s -> exists l1 l2, l = l1 ++ (k, s) :: l2 /\
    forall s', store k s' l = l1 ++ (k, s') :: l2.
Proof.
  induction l as [|[k' s0] l IH]; simpl; [done|]. rewrite equivalent_eq. case_bool_decide as Hk.
  - intros [= ->]. subst k'. by exists [], l.
  - intros (l1 & l2 & -> & Hst)%IH. exists ((k', s0) :: l1), l2. split; [done|]. intros s'. simpl. by rewrite Hst.
Qed.

Lemma find_None k l : find k l = None <-> k ∉ l.*1.
Proof.
  induction l as [|[k' s'] l IH]; simpl; [split; [intros _; apply not_elem_of_nil|done]|].
  rewrite equivalent_eq, not_elem_of_cons. case_bool_decide; [by split; [|intros []]|]. rewrite IH. by split; [|intros []].
Qed.

Lemma emplace_split k s l :
  ordered l -> k ∉ l.*1 -> exists l1 l2, l = l1 ++ l2 /\ emplace k s l = l1 ++ (k, s) :: l2 /\ ordered (emplace k s l).
Proof.
  induction 1 as [|[k' s'] l Ho IH Hf]; simpl.
  - intros _. exists [], []. split_and!; [done..|]. by repeat constructor.
  - rewrite not_elem_of_cons. intros [Hne Hk]. destruct (key_less k k') eqn:E1.
    { exists [], ((k', s') :: l). split_and!; [done..|]. constructor; [by constructor|].
      constructor; [done|]. eapply Forall_impl; [exact Hf|]. intros e He. by eapply key_less_trans. }
    destruct (key_less k' k) eqn:E2; [|by destruct Hne; apply key_less_total].
    destruct (IH Hk) as (l1 & l2 & -> & Heq & Ho'). exists ((k', s') :: l1), l2. rewrite Heq in *. split_and!; [done..|].
    constructor; [done|]. apply Forall_app in Hf as [? ?]. apply Forall_app. split; [done|]. by constructor.
Qed.

Lemma store_at k s s' l1 l2 : ordered (l1 ++ (k, s) :: l2) -> store k s' (l1 ++ (k, s) :: l2) = l1 ++ (k, s') :: l2.
Proof.
  intros Ho%ordered_nodup. induction l1 as [|[k1 s1] l1 IH]; simpl in *; rewrite equivalent_eq.
  - by rewrite bool_decide_true.
  - apply NoDup_cons in Ho as [Hn Ho]. rewrite bool_decide_false; [by rewrite IH|]. intros <-.
    apply Hn. rewrite fmap_app. apply elem_of_app. right. by left.
Qed.

Lemma count_one_settled (b : bool) v :
  let v1 := if b then count_completed v else count_failed v in
  sessions v1 = sessions v /\ refused v1 = refused v /\ running v1 = running v /\
  forall x, u64 (completed v1 + failed v1 + expired v1 + x) = u64 (completed v + failed v + expired v + (1 + x)).
Proof.
  destruct b; simpl; (split_and!; [done..|]); intros x; unfold bump.
  - rewrite <- !Z.add_assoc, wrap_add_l. f_equal. lia.
  - replace (completed v + u64 (failed v + 1) + expired v + x) with (u64 (failed v + 1) + (completed v + expired v + x)) by lia.
    rewrite wrap_add_l. f_equal. lia.
Qed.

Lemma ordered_filter P `{!forall x, Decision (P x)} l : ordered l -> ordered (filter P l).
Proof.
  induction 1 as [|e l _ IH Hf]; [constructor|]. rewrite filter_cons. case_decide; [|done].
  constructor; [done|]. apply Forall_forall. intros x [_ Hx]%list_elem_of_filter. by eapply Forall_forall in Hf.
Qed.

Lemma active_app l1 l2 : active (l1 ++ l2) = active l1 + active l2.
Proof. unfold active. rewrite filter_app, length_app. lia. Qed.
Lemma active_cons e l : active (e :: l) = (if lingering e.2 then 0 else 1) + active l.
Proof. unfold active. rewrite filter_cons. destruct (lingering e.2); [by rewrite decide_False|]. rewrite decide_True by done. simpl. lia. Qed.
Lemma active_length l : 0 <= active l <= Z.of_nat (length l).
Proof. unfold active. pose proof (length_filter (fun e : SessionKey * Session => lingering e.2 = false) l). lia. Qed.

(** ** One session *)

Section Sessions.
Context {W : Type} `{OS : !Posix W} `{NET : !Network W}.
Context (sock : UdpSocket) (config : ServerConfig).
Implicit Types (w : W) (s : Session) (r : ReceiverSession).

Lemma handle_packet_settled p r w :
  finished_ r = true -> exists f reply, handle_packet p r w = (w, set_stats f r, reply) /\
    (send (final_reply_ r) = true -> packet_type (header p) = kFin -> session_id (header p) = session_id_ r ->
     reply = final_reply_ r).
Proof.
  intros Hf. unfold handle_packet. simpl. rewrite Hf. simpl. set (matches := if bool_decide (type _ = _) then _ else _).
  destruct ((session_id (header p) =? session_id_ r) && send (final_reply_ r) && matches) eqn:Hm.
  - exists (fun t => count_duplicate (count_received t)), (final_reply_ r). by split.
  - exists count_received, no_reply. split; [done|]. intros Hs Ht Hid. exfalso. revert Hm. subst matches.
    rewrite Ht, Hid, Hs, Z.eqb_refl. by destruct (bool_decide (type _ = _)).
Qed.

(** FIN again: the stored reply, and two counters. *)
Lemma handle_packet_fin_again p r w :
  finished_ r = true -> send (final_reply_ r) = true -> packet_type (header p) = kFin -> session_id (header p) = session_id_ r ->
  handle_packet p r w = (w, set_stats (fun t => count_duplicate (count_received t)) r, final_reply_ r).
Proof.
  intros Hf Hs Ht Hid. unfold handle_packet. simpl. rewrite Hf, Ht, Hid, Hs, Z.eqb_refl. simpl.
  by destruct (bool_decide (type _ = _)).
Qed.

Lemma on_data_id p r w : session_id_ (on_data p r w).1.2 = session_id_ r.
Proof.
  unfold on_data. destruct (classify _ _); [|done..]. destruct (_ >? _); [done|].
  set (r1 := if negb _ then _ else r).
  assert (session_id_ r1 = session_id_ r) as <- by (subst r1; by destruct (negb _)). clearbody r1.
  destruct (write_at _ _ _ w) as [w1 [n|e]]; [|done]. by destruct (negb (n =? _)%nat).
Qed.

Lemma on_fin_id p r w : session_id_ (on_fin p r w).1.2 = session_id_ r.
Proof.
  unfold on_fin. destruct (negb _); [done|]. destruct (sync _ w) as [w1 []]; simpl negb; cbv iota; [|done].
  destruct (hash_back _ _ _ _ _ w1) as [w2 [h|]]; [|done]. destruct (negb _); [done|]. destruct (negb _); [done|].
  by destruct (sys_rename _ _ w2) as [w3 []].
Qed.

(** The session's id is the one in the packets its key lets through. *)
Lemma handle_packet_id p r w :
  session_id_ r = session_id (header p) \/
    (finished_ r = false /\ started_ r = false /\ packet_type (header p) = kStart) ->
  session_id_ (handle_packet p r w).1.2 = session_id (header p).
Proof.
  intros Hid. unfold handle_packet. set (r1 := set_stats count_received r).
  assert (session_id_ r1 = session_id (header p) \/
    (finished_ r1 = false /\ started_ r1 = false /\ packet_type (header p) = kStart)) as Hid1 by exact Hid.
  clearbody r1. clear r Hid. destruct (_ && _ && _ && _) eqn:Hm.
  { bool_to_prop. simpl. destruct Hid1 as [|(? & _)]; [done|congruence]. }
  destruct (finished_ r1) eqn:Hf; [by destruct Hid1 as [|(? & _)]|].
  destruct (bool_decide (packet_type _ = kStart)) eqn:Ht; bool_to_prop.
  { unfold on_start. destruct (started_ r1) eqn:Hst.
    - destruct Hid1 as [Hid1|(_ & ? & _)]; [|done]. by destruct (_ =? _).
    - destruct (sanitize_filename _) as [[] name]; try done. by destruct (open_write _ _ w) as [[w1 f] []]. }
  destruct Hid1 as [Hid1|(_ & _ & ?)]; [|done]. destruct (negb (started_ _)); [done|]. destruct (negb _); [done|].
  destruct (bool_decide (packet_type (header p) = kData)); [by rewrite on_data_id|].
  destruct (bool_decide (packet_type (header p) = kFin)); [by rewrite on_fin_id|done].
Qed.

(** ** What the table holds *)

Record session_ok (k : SessionKey) (s : Session) : Prop := {
  ok_linger : lingering s = finished_ (receiver s);
  ok_closed : lingering s = true -> valid (file_ (receiver s)) = false;
  ok_verdict : verdict (receiver s);
  ok_id : session_id_ (receiver s) = key_session_id k;
  ok_peer : peer s = {| address := key_address k; port := key_port k |}
}.

(** [others]: nothing is said of the session under [k]. *)
Record table_ok (l : Table) : Prop := {
  tab_ordered : ordered l;
  tab_active : active l <= max_sessions config;
  tab_length : Z.of_nat (length l) <= 2 * max_sessions config;
  tab_sessions : Forall (fun e => session_ok e.1 e.2) l
}.

Definition load (v : Server) : Z := completed v + failed v + expired v + active (sessions v).

(** What [serve_packet] does to the entry of its key. *)
Lemma serve_packet_spec key p s v w l1 l2 :
  sessions v = l1 ++ (key, s) :: l2 -> ordered (sessions v) ->
  session_id (header p) = key_session_id key ->
  (session_ok key s \/ (s = set_opened (peer s) (opened_at s) (make_session (server_window_size config) (server_directory config)) /\
     peer s = {| address := key_address key; port := key_port key |} /\ packet_type (header p) = kStart)) ->
  let '(_, v') := serve_packet sock key p s v w in
  exists s', sessions v' = l1 ++ (key, s') :: l2 /\ session_ok key s' /\
    u64 (load v') = u64 (load v) /\ refused v' = refused v /\ running v' = running v /\
    (lingering s = true -> lingering s' = true).
Proof.
  intros Hl Ho Hsid Hs.
  assert (verdict (receiver s) /\ lingering s = finished_ (receiver s) /\
    peer s = {| address := key_address key; port := key_port key |} /\
    (lingering s = true -> valid (file_ (receiver s)) = false) /\
    (session_id_ (receiver s) = session_id (header p) \/
     (finished_ (receiver s) = false /\ started_ (receiver s) = false /\ packet_type (header p) = kStart)))
    as (Hver & Hling & Hpeer & Hclosed & Hid).
  { destruct Hs as [[]|(-> & Hpeer & Ht)]; [split_and!; try done; left; congruence|].
    simpl in *. split_and!; try done. by right. }
  clear Hs. unfold serve_packet. destruct (sys_now w) as [w1 now].
  pose proof (handle_packet_verdict p (receiver s) w1 Hver) as Hver'.
  pose proof (handle_packet_id p (receiver s) w1 Hid) as Hid'.
  assert (lingering s = true -> finished_ (handle_packet p (receiver s) w1).1.2 = true /\
    valid (file_ (handle_packet p (receiver s) w1).1.2) = false) as Hstay.
  { intros Hl'. destruct (handle_packet_settled p (receiver s) w1 ltac:(congruence)) as (f & reply & -> & _).
    simpl. split; [congruence|auto]. }
  change (receiver (set_activity now s)) with (receiver s).
  destruct (handle_packet p (receiver s) w1) as [[w2 r] reply]. simpl in Hid', Hstay. cbv zeta.
  set (w3 := if send reply then _ else w2). clearbody w3. cbn [receiver set_receiver lingering set_activity].
  assert (forall s', store key s' (sessions v) = l1 ++ (key, s') :: l2) as Hstore.
  { intros s'. rewrite Hl in *. by apply store_at. }
  destruct (finished_ r && negb (lingering s)) eqn:Hend.
  - bool_to_prop. destruct (sys_now w3) as [w4 t]. unfold close_file.
    assert (forall f, valid (close f w4).2 = false) as Hinv.
    { intros f. unfold close. destruct (valid f) eqn:E; [done|exact E]. }
    specialize (Hinv (file_ r)). destruct (close (file_ r) w4) as [w5 f]. destruct (sys_now w5) as [w6 now'].
    pose proof (count_one_settled (bool_decide (ReceiverSession.error_ r = Transfer.kNone)) v) as (Hl1 & Href & Hrun & Hcount).
    set (v1 := if bool_decide _ then _ else _) in *.
    clearbody v1. exists (set_lingering now' (set_receiver (set_file f r) (set_receiver r (set_activity now s)))).
    cbn [sessions set_sessions refused running]. rewrite Hl1. split_and!; [apply Hstore| | |done..].
    + split; simpl; try done. by rewrite Hid'.
    + unfold load. simpl. rewrite Hstore, Hl, !active_app, !active_cons, Hcount. simpl. rewrite H0. f_equal. lia.
  - eexists. split; [apply Hstore|]. split_and!; [..|done].
    + split; simpl; try done; [|tauto|by rewrite Hid'].
      destruct (finished_ r), (lingering s); simpl in *; try done. by destruct Hstay.
    + unfold load. simpl. rewrite Hstore, Hl, !active_app, !active_cons. done.
    + done.
    + done.
Qed.

(** ** The scans *)

Lemma evict_spec l w : (evict l w).2 = filter (fun e => lingering e.2 = false) l.
Proof.
  revert w. induction l as [|[k s] l IH]; intros w; simpl; [done|]. rewrite filter_cons. simpl.
  destruct (lingering s) eqn:E; [by rewrite decide_False, IH|]. rewrite decide_True by done.
  specialize (IH w). destruct (evict l w) as [w' l']. simpl in *. by rewrite IH.
Qed.

(** A session the sweep keeps. *)
Definition kept (now : Z) (s : Session) : bool :=
  if lingering s then milliseconds (now - completed_at s) <=? session_linger config
  else milliseconds (now - last_activity s) <=? session_idle_timeout config.

Lemma sweep_spec now l n w :
  let '(_, l', n') := sweep config now l n w in
  l' = filter (fun e => kept now e.2 = true) l /\ u64 (n' + active l') = u64 (n + active l).
Proof.
  revert n w. induction l as [|[k s] l IH]; intros n w; cbn [sweep]; [done|]. rewrite filter_cons, active_cons. cbn [snd].
  destruct (lingering s) eqn:E; rewrite Z.gtb_ltb.
  - destruct (session_linger config <? _) eqn:Hh; bool_to_prop.
    + assert (kept now s = false) as Hk by (unfold kept; rewrite E; apply Z.leb_gt; lia).
      rewrite decide_False by congruence. apply IH.
    + assert (kept now s = true) as Hk by (unfold kept; rewrite E; apply Z.leb_le; lia).
      specialize (IH n w). destruct (sweep config now l n w) as [[w' l'] n']. destruct IH as [-> IH].
      rewrite decide_True by done. split; [done|]. rewrite active_cons. cbn [snd]. by rewrite E.
  - destruct (session_idle_timeout config <? _) eqn:Hh; bool_to_prop.
    + assert (kept now s = false) as Hk by (unfold kept; rewrite E; apply Z.leb_gt; lia).
      rewrite decide_False by congruence. specialize (IH (bump n) (destroy (receiver s) w)).
      destruct (sweep config now l (bump n) _) as [[w' l'] n']. destruct IH as [-> IH]. split; [done|].
      rewrite IH. unfold bump. rewrite wrap_add_l. f_equal. lia.
    + assert (kept now s = true) as Hk by (unfold kept; rewrite E; apply Z.leb_le; lia).
      specialize (IH n w). destruct (sweep config now l n w) as [[w' l'] n']. destruct IH as [-> IH].
      rewrite decide_True by done. split; [done|]. rewrite active_cons. cbn [snd]. rewrite E.
      rewrite (Z.add_comm 1), !Z.add_assoc, <- (wrap_add_l 64 (n' + _)), IH, wrap_add_l. f_equal. lia.
Qed.

Lemma table_filter P `{!forall x, Decision (P x)} l : table_ok l -> table_ok (filter P l).
Proof.
  intros []. split.
  - by apply ordered_filter.
  - enough (active (filter P l) <= active l) by lia. clear. induction l as [|e l IH]; [done|].
    rewrite filter_cons, active_cons. case_decide; [rewrite active_cons|]; destruct (lingering e.2); lia.
  - pose proof (length_filter P l). lia.
  - apply Forall_forall. intros e [_ He]%list_elem_of_filter. by eapply Forall_forall in tab_sessions0.
Qed.

(** ** One datagram *)

(** The datagram opens a session, or is turned away because the server is full. *)
Definition key_of (bytes : list byte) (e : Endpoint) : SessionKey :=
  {| key_address := address e; key_port := port e; key_session_id := session_id (header (value (deserialize bytes))) |}.
Definition knocks (bytes : list byte) (e : Endpoint) (v : Server) : bool :=
  ok (deserialize bytes) && negb (bool_decide (is_Some (find (key_of bytes e) (sessions v)))) &&
  bool_decide (packet_type (header (value (deserialize bytes))) = kStart).
Definition opens (bytes : list byte) (e : Endpoint) (v : Server) : bool :=
  knocks bytes e v && (active (sessions v) <? max_sessions config).

(** The table once room was made for a newcomer. *)
Definition roomy (l : Table) : Table :=
  if u64 (max_sessions config * 2) <=? Z.of_nat (length l)
  then filter (fun e => lingering e.2 = false) l else l.

Lemma roomy_ok l : 0 <= max_sessions config < 2 ^ 63 -> table_ok l -> active l < max_sessions config ->
  table_ok (roomy l) /\ active (roomy l) = active l /\ Z.of_nat (length (roomy l)) < 2 * max_sessions config.
Proof.
  intros Hm Hl Ha. unfold roomy. rewrite wrap_small by (unfold fits; lia).
  destruct (_ <=? _) eqn:E; bool_to_prop; [|split_and!; [done..|lia]].
  assert (active (filter (fun e : SessionKey * Session => lingering e.2 = false) l) = active l) as Hact.
  { unfold active. by rewrite list_filter_filter_l. }
  split_and!; [by apply table_filter|done|]. unfold active in *. lia.
Qed.

(** Replacing the session of one entry. *)
Lemma table_replace k s s' l1 l2 :
  ordered (l1 ++ (k, s) :: l2) -> active (l1 ++ (k, s) :: l2) <= max_sessions config ->
  Z.of_nat (length (l1 ++ (k, s) :: l2)) <= 2 * max_sessions config ->
  Forall (fun e => session_ok e.1 e.2) (l1 ++ l2) -> session_ok k s' ->
  (lingering s = true -> lingering s' = true) -> table_ok (l1 ++ (k, s') :: l2).
Proof.
  intros Ho Ha Hlen Hf Hs' Hmono. apply ordered_app in Ho as (? & ? & H1 & H2 & ?). split.
  - apply ordered_app. split_and!; [done..| | |done].
    + eapply Forall_impl; [exact H1|]. done.
    + eapply Forall_impl; [exact H2|]. done.
  - rewrite active_app, active_cons in *. simpl in *. destruct (lingering s), (lingering s'); (lia || by specialize (Hmono eq_refl)).
  - rewrite !length_app in *. simpl in *. lia.
  - apply Forall_app in Hf as [? ?]. apply Forall_app. by split; [|constructor].
Qed.

(** What one datagram does. *)
Record step_ok (bytes : list byte) (e : Endpoint) (v v' : Server) : Prop := {
  step_table : table_ok (sessions v');
  step_load : u64 (load v') = u64 (load v + Z.b2z (opens bytes e v));
  step_refused : refused v' = if knocks bytes e v && negb (opens bytes e v) then bump (refused v) else refused v;
  step_others k s : k <> key_of bytes e ->
    (k, s) ∈ sessions v' <-> (k, s) ∈ (if opens bytes e v then roomy (sessions v) else sessions v)
}.

Lemma other_entries k s key s1 s2 (l1 l2 : Table) :
  k <> key -> (k, s) ∈ l1 ++ (key, s1) :: l2 <-> (k, s) ∈ l1 ++ (key, s2) :: l2.
Proof.
  intros Hne. rewrite !elem_of_app, !elem_of_cons. split; (intros [?|[[= ? ?]|?]]; [by left|congruence|by right; right]).
Qed.

Lemma known_key_step bytes e v w s :
  table_ok (sessions v) -> find (key_of bytes e) (sessions v) = Some s -> opens bytes e v = false ->
  knocks bytes e v = false ->
  step_ok bytes e v (serve_packet sock (key_of bytes e) (value (deserialize bytes)) s v w).2.
Proof.
  intros Ht Hfind Hop Hkn. destruct (find_split _ _ _ Hfind) as (l1 & l2 & Hl & _). pose proof Ht as [].
  assert (session_ok (key_of bytes e) s) as Hok.
  { pose proof tab_sessions0 as Hf. rewrite Hl in Hf. apply Forall_app in Hf as [_ Hf]. by inversion_clear Hf. }
  pose proof (serve_packet_spec (key_of bytes e) (value (deserialize bytes)) s v w l1 l2 Hl tab_ordered0 eq_refl (or_introl Hok)) as Hs.
  destruct (serve_packet _ _ _ _ _ _) as [w' v']. destruct Hs as (s' & Hl' & Hok' & Hload & Href & _ & Hmono).
  rewrite Hl in *. split; simpl.
  - rewrite Hl'. apply (table_replace _ s); try done. apply Forall_app in tab_sessions0 as [? Hf].
    inversion_clear Hf. by apply Forall_app.
  - rewrite Hload, Hop. simpl. by rewrite Z.add_0_r.
  - by rewrite Hkn, Href.
  - intros k t Hk. rewrite Hop, Hl, Hl'. by apply other_entries.
Qed.

Lemma new_key_step bytes e v w now :
  0 <= max_sessions config < 2 ^ 63 -> table_ok (sessions v) -> find (key_of bytes e) (sessions v) = None ->
  packet_type (header (value (deserialize bytes))) = kStart -> opens bytes e v = true ->
  let s := set_opened e now (make_session (server_window_size config) (server_directory config)) in
  step_ok bytes e v (serve_packet sock (key_of bytes e) (value (deserialize bytes)) s
    (set_sessions (emplace (key_of bytes e) s (roomy (sessions v))) v) w).2.
Proof.
  intros Hmax Ht Hfind Hstart Hop s. unfold opens in Hop. apply andb_true_iff in Hop as [Hkn Hact]. bool_to_prop.
  destruct (roomy_ok (sessions v) Hmax Ht Hact) as ([] & Hact' & Hlen'). apply find_None in Hfind.
  assert (key_of bytes e ∉ (roomy (sessions v)).*1) as Hnew.
  { intros ([k t] & Hk & Hin)%list_elem_of_fmap. apply Hfind. apply list_elem_of_fmap. exists (k, t). split; [done|].
    unfold roomy in Hin. destruct (_ <=? _) in Hin; [by apply list_elem_of_filter in Hin as [_ ?]|done]. }
  destruct (emplace_split (key_of bytes e) s _ tab_ordered0 Hnew) as (l1 & l2 & Hr & He & Ho).
  set (v1 := set_sessions _ v).
  assert (sessions v1 = l1 ++ (key_of bytes e, s) :: l2) as Hl by exact He.
  pose proof (serve_packet_spec (key_of bytes e) (value (deserialize bytes)) s v1 w l1 l2 Hl) as Hs.
  rewrite Hl in Hs. rewrite He in Ho.
  specialize (Hs Ho eq_refl). destruct (serve_packet _ _ _ _ _ _) as [w' v'].
  destruct Hs as (s' & Hl' & Hok' & Hload & Href & _ & Hmono); [right; by destruct e|].
  assert (active (l1 ++ (key_of bytes e, s) :: l2) = active (sessions v) + 1) as Hone.
  { rewrite active_app, active_cons, <- Hact', Hr, active_app. simpl. lia. }
  split; simpl.
  - rewrite Hl'. apply (table_replace _ s); try done; [lia| |by rewrite <- Hr].
    rewrite Hr in Hlen'. rewrite length_app in *. simpl. lia.
  - rewrite Hload. unfold opens. rewrite Hkn, (proj2 (Z.ltb_lt _ _)) by done. unfold load, v1. cbn [sessions set_sessions completed failed expired].
    rewrite He, Hone. f_equal. simpl. lia.
  - rewrite Href. unfold opens. by rewrite Hkn, (proj2 (Z.ltb_lt _ _)).
  - intros k t Hk. unfold opens. rewrite Hkn, (proj2 (Z.ltb_lt _ _)) by done. simpl. rewrite Hl', Hr.
    rewrite !elem_of_app, elem_of_cons. split; [intros [?|[[= ? ?]|?]]; [by left|congruence|by right]|].
    intros [?|?]; [by left|by right; right].
Qed.

Lemma on_datagram_step bytes e v w :
  0 <= max_sessions config < 2 ^ 63 -> table_ok (sessions v) -> step_ok bytes e v (on_datagram sock config bytes e v w).2.
Proof.
  intros Hmax Ht.
  assert (forall v', sessions v' = sessions v -> load v' = load v -> opens bytes e v = false ->
    refused v' = (if knocks bytes e v then bump (refused v) else refused v) -> step_ok bytes e v v') as Hsame.
  { intros v' Hl Hload Hop Href. split; [by rewrite Hl|by rewrite Hload, Hop, Z.add_0_r| |].
    - rewrite Hop, Href. by rewrite andb_true_r.
    - intros. by rewrite Hop, Hl. }
  unfold on_datagram. destruct (ok (deserialize bytes)) eqn:Hok; simpl negb; cbv iota.
  2:{ assert (knocks bytes e v = false) as Hkn by (unfold knocks; by rewrite Hok).
      apply Hsame; simpl; unfold opens; by rewrite ?Hkn. }
  fold (key_of bytes e). destruct (find (key_of bytes e) (sessions v)) as [s|] eqn:Hfind.
  { assert (knocks bytes e v = false) as Hkn by (unfold knocks; by rewrite Hfind, bool_decide_true, andb_false_r).
    apply known_key_step; try done. unfold opens. by rewrite Hkn. }
  destruct (bool_decide (packet_type _ = kStart)) eqn:Hstart; simpl negb; cbv iota.
  2:{ assert (knocks bytes e v = false) as Hkn by (unfold knocks; by rewrite Hstart, andb_false_r).
      apply Hsame; simpl; unfold opens; by rewrite ?Hkn. }
  assert (knocks bytes e v = true) as Hkn.
  { unfold knocks. rewrite Hok, Hfind, Hstart, bool_decide_false; [done|]. by intros [? ?]. }
  unfold admission. destruct (max_sessions config <=? active (sessions v)) eqn:Hfull; bool_to_prop.
  { apply Hsame; simpl; [done..| |by rewrite Hkn]. unfold opens. rewrite Hkn. apply Z.ltb_ge. lia. }
  pose proof (evict_spec (sessions v) w) as Hev. assert (opens bytes e v = true) as Hop.
  { unfold opens. rewrite Hkn. apply Z.ltb_lt. lia. }
  assert (exists w1, (if u64 (max_sessions config * 2) <=? Z.of_nat (length (sessions v))
    then evict (sessions v) w else (w, sessions v)) = (w1, roomy (sessions v))) as [w1 ->].
  { unfold roomy. destruct (_ <=? _); [|by exists w]. destruct (evict (sessions v) w) as [w1 l]. simpl in Hev. subst. by exists w1. }
  destruct (sys_now w1) as [w2 now]. by apply new_key_step.
Qed.
End Sessions.

(** ** The states of the loop *)

Section Loop.
Context {W : Type} `{OS : !Posix W} `{NET : !Network W} `{EP : !Epoll W}.
Context (sock : UdpSocket) (config : ServerConfig).

(** [reaches v n m]: the server can get to [v], after opening [n] sessions and
    turning [m] away; the system may do anything in between. *)
Inductive reaches : Server -> Z -> Z -> Prop :=
| reach_start : reaches new_server 0 0
| reach_datagram v n m bytes e (w : W) :
    reaches v n m ->
    reaches (on_datagram sock config bytes e v w).2 (n + Z.b2z (opens config bytes e v))
      (m + Z.b2z (knocks bytes e v && negb (opens config bytes e v)))
| reach_tick v n m (w : W) : reaches v n m -> reaches (on_timer config v w).2 n m
| reach_stop v n m : reaches v n m -> reaches (stop v) n m.

Definition reachable (v : Server) : Prop := exists n m, reaches v n m.

Lemma drain_reachable fuel v (w : W) : reachable v -> reachable (drain sock config fuel v w).1.2.
Proof.
  revert v w. induction fuel as [|fuel IH]; intros v w Hv; cbn [drain]; [done|].
  destruct (recv_from sock server_buffer w) as [w1 [[bytes e]|err]].
  - destruct Hv as (n & m & Hv). pose proof (reach_datagram v n m bytes e w1 Hv) as Hd.
    destruct (on_datagram sock config bytes e v w1) as [w2 v2]. apply IH. by do 2 eexists.
  - destruct (_ || _); [done|]. destruct (err =? EINTR); [by apply IH|done].
Qed.

Lemma on_events_reachable sfd tfd fuel fds v (w : W) :
  reachable v -> reachable (on_events sock config sfd tfd fuel fds v w).1.2.
Proof.
  revert v w. induction fds as [|fd fds IH]; intros v w Hv; cbn [on_events]; [done|].
  assert (reachable (on_event sock config sfd tfd fuel fd v w).1.2) as Hev.
  { unfold on_event. destruct (fd =? sfd).
    { destruct (consume fuel sfd w) as [w1 b]. destruct Hv as (n & m & Hv). exists n, m. by constructor. }
    destruct (fd =? tfd).
    { destruct (consume fuel tfd w) as [w1 b]. destruct b; [|done]. simpl. destruct Hv as (n & m & Hv).
      pose proof (reach_tick v n m w1 Hv) as Ht. destruct (on_timer config v w1). by exists n, m. }
    destruct (negb _); [done|by apply drain_reachable]. }
  destruct (on_event _ _ _ _ _ _ _ _) as [[w1 v1] []]; [by apply IH|done].
Qed.

Lemma serve_reachable efd sfd tfd fuel v (w : W) :
  reachable v -> reachable (serve sock config efd sfd tfd fuel v w).1.2.
Proof.
  revert v w. induction fuel as [|fuel IH]; intros v w Hv; cbn [serve]; [done|].
  destruct (running v); [|done]. destruct (sys_epoll_wait efd w) as [w1 [fds|e]].
  - pose proof (on_events_reachable sfd tfd fuel fds v w1 Hv) as Hev.
    destruct (on_events _ _ _ _ _ _ _ w1) as [[w2 v2] []]; [by apply IH|done].
  - destruct (e =? EINTR); [by apply IH|done].
Qed.

Lemma on_timer_step v (w : W) : table_ok config (sessions v) ->
  let v' := (on_timer config v w).2 in
  table_ok config (sessions v') /\ u64 (load v') = u64 (load v) /\ refused v' = refused v /\
  sessions v' = filter (fun e => kept config (sys_now w).2 e.2 = true) (sessions v).
Proof.
  intros Ht. unfold on_timer. destruct (sys_now w) as [w1 now].
  pose proof (sweep_spec config now (sessions v) (expired v) w1) as Hs.
  destruct (sweep _ _ _ _ w1) as [[w2 l] n]. destruct Hs as [-> Hn]. cbv zeta. unfold load. simpl. split_and!; [by apply table_filter| |done..].
  rewrite <- !(Z.add_assoc (_ + _)). rewrite <- (wrap_add_r 64 _ (n + _)), Hn, wrap_add_r. done.
Qed.

Lemma reaches_ok v n m : 0 <= max_sessions config < 2 ^ 63 -> reaches v n m ->
  table_ok config (sessions v) /\ u64 (load v) = u64 n /\ refused v = u64 m.
Proof.
  intros Hmax. induction 1 as [|v n m bytes e w _ (IHt & IHn & IHm)|v n m w _ (IHt & IHn & IHm)|]; [|..|done].
  - split; [|done]. split; [constructor|unfold active; simpl; lia|simpl; lia|constructor].
  - destruct (on_datagram_step sock config bytes e v w Hmax IHt) as [Hl Hload Href _]. split_and!; [done| |].
    + by rewrite Hload, <- (wrap_add_l 64 (load v)), IHn, wrap_add_l.
    + rewrite Href. destruct (knocks bytes e v && negb _); simpl; [|by rewrite Z.add_0_r].
      unfold bump. by rewrite IHm, wrap_add_l.
  - destruct (on_timer_step v w IHt) as (? & Hload & Href & _). split_and!; [done|congruence|congruence].
Qed.
End Loop.

(** ** Claims *)

Section Claims.
Context {W : Type} `{OS : !Posix W} `{NET : !Network W} `{EP : !Epoll W}.
Implicit Types (w : W).

(** C16: the session table is bounded and sound.  Whatever datagrams, ticks and
    signals the loop meets, and however long it runs, at most [max_sessions]
    sessions are in progress and at most twice that are held, the keys are in
    order and so distinct, and every session answers to its own key, lingers
    exactly when it has settled, has then closed its file, and has the one verdict
    its final reply announces. *)
Theorem server_table_bounded sock config efd sfd tfd fuel w :
  0 <= max_sessions config < 2 ^ 63 ->
  table_ok config (sessions (serve sock config efd sfd tfd fuel new_server w).1.2).
Proof.
  intros Hmax. assert (reachable (W:=W) sock config new_server) as Hstart by (exists 0, 0; constructor).
  destruct (serve_reachable sock config efd sfd tfd fuel new_server w Hstart) as (n & m & Hr).
  by destruct (reaches_ok _ _ _ _ _ Hmax Hr).
Qed.

(** C20: the shutdown report adds up.  In every state the loop can reach, the
    sessions completed, failed, timed out and still open are together the sessions
    ever opened, and [refused] counts the STARTs turned away (all modulo the 64
    bits of the counters). *)
Theorem server_accounts sock config v n m :
  0 <= max_sessions config < 2 ^ 63 -> reaches (W:=W) sock config v n m ->
  u64 (completed v + failed v + expired v + abandoned v) = u64 n /\ refused v = u64 m.
Proof. intros Hmax Hr. by destruct (reaches_ok _ _ _ _ _ Hmax Hr) as (_ & ? & ?). Qed.

(** C17: one datagram, one session.  A datagram never adds, removes or alters a
    session of another key, except that a newcomer may evict lingering ones when
    the table holds twice the limit; and one that does not decode, or belongs to no
    session and is not a START, changes nothing at all. *)
Theorem datagrams_are_isolated sock config bytes e v w :
  0 <= max_sessions config < 2 ^ 63 -> table_ok config (sessions v) ->
  (ok (deserialize bytes) = false \/
     (find (key_of bytes e) (sessions v) = None /\ packet_type (header (value (deserialize bytes))) <> kStart) ->
   on_datagram sock config bytes e v w = (w, v)) /\
  forall k s, k <> key_of bytes e ->
    let v' := (on_datagram sock config bytes e v w).2 in
    ((k, s) ∈ sessions v' -> (k, s) ∈ sessions v) /\
    ((k, s) ∈ sessions v -> (k, s) ∈ sessions v' \/
       (opens config bytes e v = true /\ lingering s = true /\ 2 * max_sessions config <= Z.of_nat (length (sessions v)))).
Proof.
  intros Hmax Ht. split.
  - unfold on_datagram. intros [->|[Hf Hs]]; [done|]. destruct (negb _); [done|]. fold (key_of bytes e).
    by rewrite Hf, bool_decide_false.
  - intros k s Hk. cbv zeta. destruct (on_datagram_step sock config bytes e v w Hmax Ht) as [_ _ _ Ho]. rewrite (Ho k s Hk).
    destruct (opens config bytes e v); [|by split; [|left]]. unfold roomy. rewrite wrap_small by (unfold fits; lia).
    destruct (_ <=? _) eqn:E; bool_to_prop; [|by split; [|left]]. rewrite list_elem_of_filter. simpl.
    split; [by intros [_ ?]|]. intros Hin. destruct (lingering s) eqn:El; [|by left]. right. split_and!; [done..|lia].
Qed.

(** C22: the sweep retires exactly what has run out.  After a tick, a session is
    in the table just if it was before and its clock, the linger clock of a settled
    session or the idle clock of any other, is within its limit; it is then the
    very session it was. *)
Theorem sweep_retires_exactly sock config v w n m :
  0 <= max_sessions config < 2 ^ 63 -> reaches (W:=W) sock config v n m ->
  let now := (sys_now w).2 in
  forall k s, (k, s) ∈ sessions (on_timer config v w).2 <->
    (k, s) ∈ sessions v /\
    (if lingering s then milliseconds (now - completed_at s) <= session_linger config
     else milliseconds (now - last_activity s) <= session_idle_timeout config).
Proof.
  intros Hmax Hr now k s. destruct (reaches_ok _ _ _ _ _ Hmax Hr) as (Ht & _).
  destruct (on_timer_step config v w Ht) as (_ & _ & _ & ->). rewrite list_elem_of_filter. simpl. unfold kept.
  subst now. destruct (lingering s); rewrite Z.leb_le; tauto.
Qed.

(** The session after a retransmitted FIN at [now]: it was active, and its counters
    of received packets and of duplicates moved. *)
Definition refreshed (now : Z) (s : Session) : Session :=
  set_receiver (set_stats (fun t => count_duplicate (count_received t)) (receiver s)) (set_activity now s).

(** C21: a retransmitted FIN is answered.  When a FIN arrives for a session that
    has settled and lingers, the server sends its peer the final reply once more
    (FIN_ACK if the file was published, ERROR if not), and does nothing else: it
    makes no other call than to read the clock, the server's counters stand, and in
    the table only this session's entry changes, in its place, and only by its time
    of activity and its counters of received and of duplicate packets. *)
Theorem retransmitted_fin_answered sock config bytes e v w s :
  table_ok config (sessions v) -> ok (deserialize bytes) = true ->
  find (key_of bytes e) (sessions v) = Some s -> lingering s = true ->
  let p := value (deserialize bytes) in
  packet_type (header p) = kFin ->
  let r := final_reply_ (receiver s) in
  let wire := serialize (make_header (type r) (session_id (header p)) (sequence r) (sequence r) 0) (reply_payload r) in
  type r = (if published_ (receiver s) then kFinAck else kError) /\
  exists l1 l2, sessions v = l1 ++ (key_of bytes e, s) :: l2 /\
    on_datagram sock config bytes e v w =
      ((send_to sock wire e (sys_now w).1).1,
       set_sessions (l1 ++ (key_of bytes e, refreshed (sys_now w).2 s) :: l2) v).
Proof.
  intros Ht Hok Hfind Hling p Hfin r wire. destruct (find_split _ _ _ Hfind) as (l1 & l2 & Hl & Hstore).
  pose proof (tab_sessions _ _ Ht) as Hf. rewrite Hl in Hf. apply Forall_app in Hf as [_ Hf].
  inversion_clear Hf as [|? ? Hs _]. destruct Hs as [Hl1 _ Hver Hid Hpeer]. simpl in *.
  rewrite Hling in Hl1. symmetry in Hl1. unfold verdict in Hver. rewrite Hl1 in Hver. destruct Hver as (Hsend & _ & Htype).
  split; [exact Htype|]. exists l1, l2. split; [exact Hl|].
  unfold on_datagram. rewrite Hok. simpl negb. cbv iota. fold (key_of bytes e). fold p.
  rewrite Hfind. unfold serve_packet. destruct (sys_now w) as [w1 now].
  change (receiver (set_activity now s)) with (receiver s).
  rewrite (handle_packet_fin_again p (receiver s) w1 Hl1 Hsend Hfin) by (by rewrite Hid).
  fold r. fold r in Hsend. rewrite Hsend. cbv zeta. cbn [receiver set_receiver lingering set_activity peer].
  rewrite Hling, andb_false_r, Hpeer. replace {| address := address e; port := port e |} with e by (by destruct e).
  by rewrite Hstore.
Qed.
End Claims.
