(* ===== verification/ServerRule.v ===== *)
(** * A proof rule for the server

    What a client of Server.v has to show of an assertion [I] on the receiving
    sessions and the system, so that it holds through every run: the record
    [preserved], one field for each thing the loop does to a session.  The order of
    the table, the scans over it and the event loop are dealt with here, once.
    The datagrams that arrive are assumed to be [Fine]; what the peers may send is
    for the client to say. *)

From S2P Require Import Prelude Words Packet Wire Sha256 Filename Transfer ReceiverWindow FileIO Net ReceiverSession Offline Server ServerSpec.
Import Packet.Packet.
Open Scope Z_scope.

(** The calls that set the server up and wait for events leave files and
    datagrams alone. *)
Class SetupLaws (W : Type) `{NL : NetworkLaws W} `{EP : !Epoll W} : Prop := {
  law_socket_quiet w : quiet w (sys_socket w).1;
  law_bind_quiet fd a w : quiet w (sys_bind fd a w).1;
  law_getfl_quiet fd w : quiet w (sys_getfl fd w).1;
  law_setfl_quiet fd f w : quiet w (sys_setfl fd f w).1;
  law_epoll_create_quiet w : quiet w (sys_epoll_create w).1;
  law_sigprocmask_quiet w : quiet w (sys_sigprocmask w).1;
  law_signalfd_quiet w : quiet w (sys_signalfd w).1;
  law_timerfd_create_quiet w : quiet w (sys_timerfd_create w).1;
  law_timerfd_settime_quiet fd s n w : quiet w (sys_timerfd_settime fd s n w).1;
  law_epoll_add_quiet e fd w : quiet w (sys_epoll_add e fd w).1;
  law_epoll_wait_quiet e w : quiet w (sys_epoll_wait e w).1;
  law_read_event_quiet fd w : quiet w (sys_read_event fd w).1
}.

(** The sessions of a table, under their keys. *)
Definition held (l : Table) : list (SessionKey * ReceiverSession) := map (fun e => (e.1, receiver e.2)) l.

Lemma held_app l1 l2 : held (l1 ++ l2) = held l1 ++ held l2.
Proof. apply map_app. Qed.

Lemma held_keys l : (held l).*1 = l.*1.
Proof. unfold held. by rewrite <- list_fmap_compose. Qed.

Lemma find_emplace k s l : find k l = None -> find k (emplace k s l) = Some s /\ emplace k s l ≡ₚ (k, s) :: l.
Proof.
  assert (equivalent k k = true) as Hk by (rewrite equivalent_eq; by apply bool_decide_eq_true).
  induction l as [|[k' s'] l IH]; simpl; [by rewrite Hk|]. destruct (equivalent k k') eqn:E; [done|]. intros Hf.
  destruct (key_less k k') eqn:E1; simpl; [by rewrite Hk|].
  destruct (key_less k' k) eqn:E2; simpl; [|unfold equivalent in E; by rewrite E1, E2 in E].
  rewrite E. destruct (IH Hf) as [-> ->]. split; [done|apply Permutation_swap].
Qed.

Lemma find_store k s l :
  find k l = Some s -> exists l', held l ≡ₚ (k, receiver s) :: held l' /\
    forall s', held (store k s' l) ≡ₚ (k, receiver s') :: held l'.
Proof.
  intros (l1 & l2 & -> & Hst)%find_split. exists (l1 ++ l2).
  assert (forall s', held (l1 ++ (k, s') :: l2) ≡ₚ (k, receiver s') :: held (l1 ++ l2)) as H.
  { intros s'. rewrite !held_app. simpl. by rewrite <- Permutation_middle. }
  split; [apply H|]. intros s'. rewrite Hst. apply H.
Qed.

Section Rule.
Context {W : Type} `{SL : SetupLaws W}.
Context (sock : UdpSocket) (config : ServerConfig).
Implicit Types (w : W) (v : Server) (l : Table) (h : list (SessionKey * ReceiverSession)).

(** A packet handed to a session, and the reply. *)
Definition answer (to : Endpoint) (p : Packet) (s : ReceiverSession) w : W * ReceiverSession :=
  let '(w, s, r) := handle_packet p s w in
  (if send r
   then (send_to sock (serialize (make_header (type r) (session_id (header p)) (sequence r) (sequence r) 0)
                                 (reply_payload r)) to w).1
   else w, s).

Context (Fine : list byte * sockaddr_in -> Prop) (I : list (SessionKey * ReceiverSession) -> W -> Prop).

Abbreviation fresh_session := (new_session (server_window_size config) (server_directory config)).

Record preserved : Prop := {
  pre_perm h h' w : h ≡ₚ h' -> I h w -> I h' w;
  pre_quiet h w w' : view w' = view w -> outbox w' = outbox w -> I h w -> I h w';
  pre_open k h w : k ∉ h.*1 -> I h w -> I ((k, fresh_session) :: h) w;
  pre_answer bytes a to s h w :
    Fine (bytes, a) -> ok (deserialize bytes) = true ->
    I ((key_of bytes (from_sockaddr a), s) :: h) w ->
    let '(w', s') := answer to (value (deserialize bytes)) s w in
    I ((key_of bytes (from_sockaddr a), s') :: h) w';
  pre_refuse bytes to h w :
    ok (deserialize bytes) = true -> I h w ->
    I h (send_error sock to (header (value (deserialize bytes))) Status.kServerBusy w);
  pre_close k s h w : finished_ s = true -> I ((k, s) :: h) w -> let '(w', s') := close_file s w in I ((k, s') :: h) w';
  pre_destroy k s h w : I ((k, s) :: h) w -> I h (destroy s w)
}.

Context (Pre : preserved).

(** From one state to another without receiving anything. *)
Definition leads h w h' w' : Prop := inbox w' = inbox w /\ (I h w -> I h' w').

Lemma leads_refl h w : leads h w h w.
Proof. done. Qed.

Lemma leads_trans h1 w1 h2 w2 h3 w3 : leads h1 w1 h2 w2 -> leads h2 w2 h3 w3 -> leads h1 w1 h3 w3.
Proof. intros [] []. split; [congruence|auto]. Qed.

Lemma leads_quiet h w w' : quiet w w' -> leads h w h w'.
Proof. intros (? & ? & ?). split; [done|by apply (pre_quiet Pre)]. Qed.

Lemma destroy_leads acc k s h w : leads (acc ++ (k, s) :: h) w (acc ++ h) (destroy s w).
Proof.
  split; [apply destroy_offline|]. intros Hw. apply (pre_destroy Pre k).
  by apply (pre_perm Pre (acc ++ (k, s) :: h)); [rewrite <- Permutation_middle|].
Qed.

(** *** The scans *)

Lemma held_snoc acc k s l : (acc ++ [(k, receiver s)]) ++ held l = acc ++ held ((k, s) :: l).
Proof. by rewrite <- app_assoc. Qed.

Lemma sweep_leads acc now l n w :
  let '(w', l', _) := sweep config now l n w in leads (acc ++ held l) w (acc ++ held l') w'.
Proof.
  revert acc n w. induction l as [|[k s] l IH]; intros acc n w; cbn [sweep]; [apply leads_refl|].
  pose proof (destroy_leads acc k (receiver s) (held l) w) as Hd.
  assert (forall m, let '(w', l', _) := sweep config now l m (destroy (receiver s) w) in
    leads (acc ++ held ((k, s) :: l)) w (acc ++ held l') w') as Hgone.
  { intros m. specialize (IH acc m (destroy (receiver s) w)). destruct (sweep _ _ _ _ _) as [[w' l'] m'].
    by eapply leads_trans. }
  assert (let '(w', l', _) := (let '(w, l, expired) := sweep config now l n w in (w, (k, s) :: l, expired)) in
    leads (acc ++ held ((k, s) :: l)) w (acc ++ held l') w') as Hkept.
  { specialize (IH (acc ++ [(k, receiver s)]) n w). destruct (sweep _ _ _ _ _) as [[w' l'] m'].
    by rewrite !held_snoc in IH. }
  destruct (lingering s); destruct (_ >? _); (apply Hgone || exact Hkept).
Qed.

Lemma evict_leads acc l w : let '(w', l') := evict l w in leads (acc ++ held l) w (acc ++ held l') w'.
Proof.
  revert acc w. induction l as [|[k s] l IH]; intros acc w; cbn [evict]; [apply leads_refl|]. destruct (lingering s).
  - specialize (IH acc (destroy (receiver s) w)). destruct (evict _ _) as [w' l'].
    eapply leads_trans; [apply destroy_leads|exact IH].
  - specialize (IH (acc ++ [(k, receiver s)]) w). destruct (evict _ _) as [w' l']. by rewrite !held_snoc in IH.
Qed.

Lemma destroy_sessions_leads l w : leads (held l) w [] (destroy_sessions l w).
Proof.
  revert w. induction l as [|[k s] l IH]; intros w; simpl; [apply leads_refl|].
  eapply leads_trans; [apply (destroy_leads [] k)|apply IH].
Qed.

Lemma evict_find key l w : find key l = None -> find key (evict l w).2 = None.
Proof.
  rewrite evict_spec, !find_None. intros Hk Hin. apply Hk.
  apply list_elem_of_fmap in Hin as (e & -> & [_ He]%list_elem_of_filter). by apply list_elem_of_fmap_2.
Qed.

(** *** Datagrams *)

(** One datagram has its effect if it is fine; the inbox is left alone. *)
Definition serves (d : list byte * sockaddr_in) h w (r : W * Server) : Prop :=
  inbox r.1 = inbox w /\ (Fine d -> I h w -> I (held (sessions r.2)) r.1).

Lemma answer_inbox to p s w : inbox (answer to p s w).1 = inbox w.
Proof.
  unfold answer. pose proof (handle_packet_offline p s w) as [_ Hi]. destruct (handle_packet p s w) as [[w1 s1] r].
  simpl in Hi. destruct (send r); [|done]. set (bytes := serialize _ _).
  pose proof (send_to_spec sock bytes to w1) as Hs. destruct (send_to _ _ _ w1). destruct Hs as (_ & Hs & _). simpl. congruence.
Qed.

Lemma serve_packet_serves bytes a s v w :
  ok (deserialize bytes) = true -> find (key_of bytes (from_sockaddr a)) (sessions v) = Some s ->
  serves (bytes, a) (held (sessions v)) w
    (serve_packet sock (key_of bytes (from_sockaddr a)) (value (deserialize bytes)) s v w).
Proof.
  intros Hok Hf. set (k := key_of _ _) in *. set (p := value _).
  destruct (find_store k s (sessions v) Hf) as (l & Hl & Hst). unfold serve_packet.
  pose proof (now_quiet w) as (Hv & Ho & Hi). destruct (sys_now w) as [w1 now]. simpl in Hv, Ho, Hi.
  change (receiver (set_activity now s)) with (receiver s).
  assert (I (held (sessions v)) w -> I ((k, receiver s) :: held l) w1) as H0
    by (intros H; apply (pre_perm Pre _ _ _ Hl), (pre_quiet Pre _ w); done).
  pose proof (answer_inbox (peer s) p (receiver s) w1) as Hi2.
  pose proof (pre_answer Pre bytes a (peer s) (receiver s) (held l) w1) as H2. fold k p in H2. revert Hi2 H2.
  unfold answer. destruct (handle_packet p (receiver s) w1) as [[w2 r] reply]. set (w3 := if send reply then _ else w2).
  cbn [fst]. intros Hi2 H2. cbn [peer set_receiver set_activity]. fold w3.
  cbn [receiver set_receiver lingering set_activity]. clearbody w3.
  assert (forall s' v', sessions v' = sessions v -> receiver s' = r ->
    serves (bytes, a) (held (sessions v)) w (w3, set_sessions (store k s' (sessions v')) v')) as Hdone.
  { intros s' v' Hv' Hr. split; [simpl; congruence|]. intros HF H. simpl. rewrite Hv'.
    apply (pre_perm Pre ((k, r) :: held l)); [rewrite <- Hr; symmetry; apply Hst|]. by apply H2; [..|apply H0]. }
  destruct (finished_ r && negb (lingering s)) eqn:Hend; [|by apply Hdone]. apply andb_true_iff in Hend as [Hfin _].
  pose proof (now_quiet w3) as (Hv4 & Ho4 & Hi4). destruct (sys_now w3) as [w4 t]. simpl in Hv4, Ho4, Hi4.
  set (v1 := if bool_decide _ then _ else _).
  assert (sessions v1 = sessions v) as Hv1 by (subst v1; by case_bool_decide). clearbody v1.
  pose proof (close_offline (file_ r) w4) as [_ Hi5]. pose proof (pre_close Pre k r (held l) w4 Hfin) as H5.
  unfold close_file in *. destruct (close (file_ r) w4) as [w5 f]. simpl in Hi5.
  pose proof (now_quiet w5) as (Hv6 & Ho6 & Hi6). destruct (sys_now w5) as [w6 now']. simpl in Hv6, Ho6, Hi6.
  split; [simpl; congruence|]. intros HF H. simpl. rewrite Hv1.
  apply (pre_perm Pre ((k, set_file f r) :: held l)); [symmetry; apply Hst|].
  apply (pre_quiet Pre _ w5); [done..|]. apply H5, (pre_quiet Pre _ w3); [done..|]. by apply H2; [..|apply H0].
Qed.

Lemma on_datagram_serves bytes a v w :
  serves (bytes, a) (held (sessions v)) w (on_datagram sock config bytes (from_sockaddr a) v w).
Proof.
  unfold on_datagram. destruct (ok (deserialize bytes)) eqn:Hok; simpl negb; cbv iota; [|done].
  change ({| key_address := _ |}) with (key_of bytes (from_sockaddr a)). set (k := key_of _ _).
  destruct (find k (sessions v)) as [s|] eqn:Hf; [by apply serve_packet_serves|].
  destruct (negb _); [done|]. unfold admission. destruct (_ <=? _).
  { split; [|intros _; by apply (pre_refuse Pre)]. unfold send_error. simpl. set (m := serialize _ _).
    pose proof (send_to_spec sock m (from_sockaddr a) w) as Hs. destruct (send_to _ _ _ w). by destruct Hs as (_ & ? & _). }
  set (made := if _ <=? _ then _ else _).
  assert (inbox made.1 = inbox w /\ (I (held (sessions v)) w -> I (held made.2) made.1) /\ find k made.2 = None) as (Hi & H & Hnew).
  { subst made. destruct (_ <=? _); [|done]. pose proof (evict_find k (sessions v) w Hf) as He.
    pose proof (evict_leads [] (sessions v) w) as Hl. destruct (evict (sessions v) w) as [w1 l]. by destruct Hl. }
  destruct made as [w1 l]. cbn [fst snd] in Hi, H, Hnew.
  pose proof (now_quiet w1) as (Hv2 & Ho2 & Hi2). destruct (sys_now w1) as [w2 now]. cbn [fst] in Hv2, Ho2, Hi2.
  set (s := set_opened _ _ _). destruct (find_emplace k s l Hnew) as [Hfind Hperm].
  pose proof (serve_packet_serves bytes a s (set_sessions (emplace k s l) v) w2 Hok Hfind) as [Hi3 H3].
  split; [exact (eq_trans Hi3 (eq_trans Hi2 Hi))|]. intros HF Hw. apply H3; [done|]. simpl.
  apply (pre_perm Pre (held ((k, s) :: l))); [unfold held; by rewrite Hperm|].
  apply (pre_open Pre); [by rewrite held_keys, <- find_None|]. apply (pre_quiet Pre _ w1); [done..|]. by apply H.
Qed.

(** *** The loop *)

(** From one state of the server to another, if only fine datagrams arrive. *)
Definition carries v w (r : W * Server) : Prop :=
  exists ext, inbox r.1 = inbox w ++ ext /\ (Forall Fine ext -> I (held (sessions v)) w -> I (held (sessions r.2)) r.1).

Lemma carries_leads v w v' w' : leads (held (sessions v)) w (held (sessions v')) w' -> carries v w (w', v').
Proof. intros [Hi H]. exists []. by rewrite app_nil_r. Qed.

Lemma carries_trans v1 w1 v2 w2 r : carries v1 w1 (w2, v2) -> carries v2 w2 r -> carries v1 w1 r.
Proof.
  intros (e1 & Hi1 & H1) (e2 & Hi2 & H2). simpl in *. exists (e1 ++ e2). split; [by rewrite Hi2, Hi1, app_assoc|].
  intros [? ?]%Forall_app Hw. by apply H2, H1.
Qed.

Lemma carries_quiet v w w' : quiet w w' -> carries v w (w', v).
Proof. intros. by apply carries_leads, leads_quiet. Qed.

Lemma drain_carries fuel v w : carries v w (drain sock config fuel v w).1.
Proof.
  revert v w. induction fuel as [|fuel IH]; intros v w; cbn [drain]; [by apply carries_quiet|].
  pose proof (recv_from_spec sock server_buffer w) as Hr.
  destruct (recv_from _ _ w) as [w1 [[bytes e]|err]]; destruct Hr as (Hv & Ho & Hi).
  - destruct Hi as (a & <- & Hi). pose proof (on_datagram_serves bytes a v w1) as [Hi2 H2].
    destruct (on_datagram _ _ _ _ _ w1) as [w2 v2]. simpl in Hi2, H2. apply (carries_trans _ _ v2 w2); [|apply IH].
    exists [(bytes, a)]. split; [simpl; congruence|]. intros HF%Forall_inv H. apply H2; [done|]. by apply (pre_quiet Pre _ w).
  - assert (carries v w (w1, v)) as H1 by (by apply carries_quiet).
    destruct (_ || _); [done|]. destruct (err =? EINTR); [|done]. eapply carries_trans; [exact H1|apply IH].
Qed.

Lemma consume_quiet fuel fd w : quiet w (consume fuel fd w).1.
Proof.
  revert w. induction fuel as [|fuel IH]; intros w; cbn [consume]; [done|].
  pose proof (law_read_event_quiet fd w) as (Hv & Ho & Hi). destruct (sys_read_event fd w) as [w1 []]; [|done].
  simpl in *. destruct (IH w1) as (? & ? & ?). split_and!; congruence.
Qed.

Lemma on_events_carries sfd tfd fuel fds v w : carries v w (on_events sock config sfd tfd fuel fds v w).1.
Proof.
  revert v w. induction fds as [|fd fds IH]; intros v w; cbn [on_events]; [by apply carries_quiet|].
  assert (carries v w (on_event sock config sfd tfd fuel fd v w).1) as H1.
  { unfold on_event. destruct (fd =? sfd).
    { pose proof (consume_quiet fuel sfd w). destruct (consume fuel sfd w) as [w1 b]. by apply (carries_quiet v). }
    destruct (fd =? tfd); [|destruct (negb _); [by apply carries_quiet|apply drain_carries]].
    pose proof (consume_quiet fuel tfd w) as H1. destruct (consume fuel tfd w) as [w1 []]; [|by apply carries_quiet].
    simpl negb. cbv iota. apply (carries_trans _ _ v w1); [by apply carries_quiet|].
    unfold on_timer. pose proof (now_quiet w1) as H2. destruct (sys_now w1) as [w2 now].
    apply (carries_trans _ _ v w2); [by apply carries_quiet|].
    pose proof (sweep_leads [] now (sessions v) (expired v) w2) as Hs. destruct (sweep _ _ _ _ w2) as [[w3 l] n].
    by apply (carries_leads v). }
  destruct (on_event _ _ _ _ _ _ _ w) as [[w1 v1] []]; [|done]. eapply carries_trans; [exact H1|apply IH].
Qed.

Lemma serve_carries efd sfd tfd fuel v w : carries v w (serve sock config efd sfd tfd fuel v w).1.
Proof.
  revert v w. induction fuel as [|fuel IH]; intros v w; cbn [serve]; [by apply carries_quiet|].
  destruct (running v); [|by apply carries_quiet].
  pose proof (law_epoll_wait_quiet efd w) as H1. destruct (sys_epoll_wait efd w) as [w1 [fds|e]].
  - pose proof (on_events_carries sfd tfd fuel fds v w1) as H2.
    assert (carries v w (w1, v)) as H0 by (by apply carries_quiet).
    destruct (on_events _ _ _ _ _ _ _ w1) as [[w2 v2] []]; [|by eapply carries_trans].
    eapply carries_trans; [exact H0|]. eapply carries_trans; [exact H2|apply IH].
  - assert (carries v w (w1, v)) as H0 by (by apply carries_quiet).
    destruct (e =? EINTR); [|done]. eapply carries_trans; [exact H0|apply IH].
Qed.
End Rule.

(** ** The whole program *)

Section Run.
Context {W : Type} `{SL : SetupLaws W}.
Context (config : ServerConfig) (Fine : list byte * sockaddr_in -> Prop).
Context (I : list (SessionKey * ReceiverSession) -> W -> Prop) (Pre : forall sock, preserved sock config Fine I).
Implicit Types (w : W).

(** What is left when no session is: closing descriptors must not spoil it. *)
Context (Over : W -> Prop) (over_none : forall w, I [] w -> Over w).
Context (over_quiet : forall w w', quiet w w' -> Over w -> Over w') (over_close : forall fd w, Over w -> Over (sys_close fd w)).

(** The state of a server that runs on is in [I], that of one that is gone in
    [Over]. *)
Definition ends w (r : W * option (Z * Server)) : Prop :=
  exists ext, inbox r.1 = inbox w ++ ext /\ (Forall Fine ext -> I [] w ->
    match r.2 with
    | None => exists sock v, reachable (W:=W) sock config v /\ I (held (sessions v)) r.1
    | Some _ => Over r.1
    end).

(** Closing time: no datagram arrives any more. *)
Definition closes w w' : Prop := inbox w' = inbox w /\ (Over w -> Over w').

Lemma closes_close fd w : closes w (sys_close fd w).
Proof. split; [apply law_close_net|apply over_close]. Qed.

Lemma closes_unique fd w : closes w (close_unique fd w).
Proof. unfold close_unique. destruct (0 <=? fd); [apply closes_close|done]. Qed.

Lemma closes_socket s w : closes w (socket_close s w).1.
Proof. unfold socket_close. destruct (socket_valid s); [apply closes_close|done]. Qed.

Lemma closes_trans w1 w2 w3 : closes w1 w2 -> closes w2 w3 -> closes w1 w3.
Proof. intros [] []. split; [congruence|auto]. Qed.

Lemma quiet_trans w1 w2 w3 : quiet w1 w2 -> quiet w2 w3 -> quiet w1 w3.
Proof. intros (? & ? & ?) (? & ? & ?). split_and!; congruence. Qed.

Lemma socket_open_quiet w : quiet w (socket_open closed_socket w).1.1.
Proof.
  unfold socket_open. simpl. pose proof (law_socket_quiet w) as H. by destruct (sys_socket w) as [w1 [fd|e]].
Qed.

Lemma bind_quiet s p w : quiet w (bind s p w).1.
Proof. unfold bind. destruct (negb _); [done|apply law_bind_quiet]. Qed.

Lemma set_nonblocking_quiet s b w : quiet w (set_nonblocking s b w).1.
Proof.
  unfold set_nonblocking. destruct (negb _); [done|].
  pose proof (law_getfl_quiet (sock_fd s) w) as H1. destruct (sys_getfl _ w) as [w1 flags].
  destruct (flags <? 0); [exact H1|]. eapply quiet_trans; [exact H1|apply law_setfl_quiet].
Qed.

Lemma make_signal_fd_quiet w : quiet w (make_signal_fd w).1.
Proof.
  unfold make_signal_fd. pose proof (law_sigprocmask_quiet w) as H1.
  destruct (sys_sigprocmask w) as [w1 []]; [|exact H1]. eapply quiet_trans; [exact H1|apply law_signalfd_quiet].
Qed.

Lemma make_timer_fd_closes interval w :
  let '(w', fd) := make_timer_fd interval w in closes w w' /\ (0 <= fd -> quiet w w').
Proof.
  unfold make_timer_fd. pose proof (law_timerfd_create_quiet w) as H1. destruct (sys_timerfd_create w) as [w1 fd].
  assert (forall w', quiet w w' -> closes w w') as Hc by (intros w' Hq; split; [apply Hq|by apply over_quiet]).
  destruct (negb _); [by split; [apply Hc|]|]. set (s := Z.quot _ _). set (n := _ * 1000000).
  pose proof (law_timerfd_settime_quiet fd s n w1) as H2. destruct (sys_timerfd_settime _ _ _ w1) as [w2 ok].
  assert (quiet w w2) as H3 by (eapply quiet_trans; [exact H1|exact H2]).
  destruct ok; simpl negb; cbv iota; [by split; [apply Hc|]|]. split; [|lia].
  eapply closes_trans; [by apply Hc|apply closes_unique].
Qed.
Lemma quiet_closes w w' : quiet w w' -> closes w w'.
Proof. intros Hq. split; [apply Hq|by apply over_quiet]. Qed.

Lemma closes_ends w w' x : closes w w' -> ends w (w', Some x).
Proof. intros [Hi H]. exists []. split; [by rewrite app_nil_r|]. intros _ H0. by apply H, over_none. Qed.

(** The loop and the destructors after it. *)
Lemma serve_ends sock efd sfd tfd fuel w w' g :
  quiet w w' -> (forall w, closes w (g w)) ->
  ends w (match serve sock config efd sfd tfd fuel new_server w' with
          | (w, v, None) => (w, None)
          | (w, v, Some code) => (g (destroy_sessions (sessions v) w), Some (code, v))
          end).
Proof.
  intros Hq Hg. pose proof (serve_carries sock config Fine I (Pre sock) efd sfd tfd fuel new_server w') as (ext & Hi & H).
  assert (reachable (W:=W) sock config new_server) as Hreach by (exists 0, 0; constructor).
  apply (serve_reachable sock config efd sfd tfd fuel _ w') in Hreach.
  assert (I [] w -> I [] w') as H0 by (destruct Hq as (? & ? & _); by apply (pre_quiet _ _ _ _ (Pre sock))).
  destruct (serve _ _ _ _ _ _ _ w') as [[w2 v] [code|]]; cbn [fst snd] in *; exists ext.
  - destruct (destroy_sessions_leads sock config Fine I (Pre sock) (sessions v) w2) as [Hi2 H2].
    destruct (Hg (destroy_sessions (sessions v) w2)) as [Hi3 H3]. split; [simpl; destruct Hq as (_ & _ & ?); congruence|].
    intros Hf Hw. apply H3, over_none, H2, H; [done|by apply H0].
  - split; [simpl; destruct Hq as (_ & _ & ?); congruence|]. intros Hf Hw. exists sock, v. split; [done|]. by apply H; [|apply H0].
Qed.

Lemma run_ends fuel w : ends w (run fuel config w).
Proof.
  unfold run. pose proof (socket_open_quiet w) as H1. destruct (socket_open _ w) as [[w1 sock] made]. cbn [fst] in H1.
  assert (forall w' x, quiet w w' -> ends w ((socket_close sock w').1, Some x)) as Hshut.
  { intros w' x Hq. apply closes_ends. eapply closes_trans; [by apply quiet_closes|apply closes_socket]. }
  destruct made; simpl negb; cbv iota; [|by apply Hshut].
  pose proof (bind_quiet sock (server_port config) w1) as H2. destruct (bind _ _ w1) as [w2 bound].
  assert (quiet w w2) as G2 by (by eapply quiet_trans). destruct bound; simpl negb; cbv iota; [|by apply Hshut].
  pose proof (set_nonblocking_quiet sock true w2) as H3. destruct (set_nonblocking _ _ w2) as [w3 nb].
  assert (quiet w w3) as G3 by (by eapply quiet_trans). destruct nb; simpl negb; cbv iota; [|by apply Hshut].
  pose proof (law_epoll_create_quiet w3) as H4. destruct (sys_epoll_create w3) as [w4 efd].
  pose proof (make_signal_fd_quiet w4) as H5. destruct (make_signal_fd w4) as [w5 sfd].
  assert (quiet w w5) as G5 by (eapply quiet_trans; [exact G3|]; by eapply quiet_trans).
  pose proof (make_timer_fd_closes (sweep_interval config) w5) as H6. destruct (make_timer_fd _ w5) as [w6 tfd].
  destruct H6 as [Hc6 Hq6].
  set (shut w := (socket_close sock (close_unique efd (close_unique sfd (close_unique tfd w)))).1).
  assert (forall w', closes w' (shut w')) as Hclose.
  { intros w'. eapply closes_trans; [|apply closes_socket]. do 2 (eapply closes_trans; [|apply closes_unique]).
    apply closes_unique. }
  cbv zeta. destruct (_ || _) eqn:Hbad.
  { apply (closes_ends w (shut w6)). eapply closes_trans; [by apply quiet_closes|]. by eapply closes_trans. }
  apply orb_false_iff in Hbad as [_ Hbad]. assert (quiet w w6) as G6.
  { eapply quiet_trans; [exact G5|]. apply Hq6. apply negb_false_iff, Z.leb_le in Hbad. exact Hbad. }
  assert (forall (b : bool) fd w', quiet w w' -> quiet w (if b then sys_epoll_add efd fd w' else (w', false)).1) as Hadd.
  { intros b fd w' Hq. destruct b; [|done]. eapply quiet_trans; [exact Hq|apply law_epoll_add_quiet]. }
  pose proof (Hadd true (sock_fd sock) w6 G6) as H7. cbv iota in H7. destruct (sys_epoll_add efd _ w6) as [w7 a].
  pose proof (Hadd a sfd w7 H7) as H8. destruct (if a then _ else _) as [w8 b].
  pose proof (Hadd b tfd w8 H8) as H9. destruct (if b then _ else _) as [w9 c].
  destruct c; simpl negb; cbv iota.
  - by apply (serve_ends sock efd sfd tfd fuel w w9 shut).
  - apply (closes_ends w (shut w9)). eapply closes_trans; [by apply quiet_closes|apply Hclose].
Qed.
End Run.
