(* ===== verification/ServerFiles.v ===== *)
(** * What the server can do to the file system

    Whatever peers send, alone or together, the server changes nothing but entries
    directly in its output directory and files that had no other name: every step
    of a session is [confined], and the rule of ServerRule.v does the rest. *)

From S2P Require Import Prelude Words Packet Wire Sha256 Filename Transfer ReceiverWindow FileIO Net ReceiverSession Offline Footprint Server ServerSpec ServerRule.
Import Packet.Packet.
Open Scope Z_scope.

(** ** Confinement *)

Section Confined.
Context (dir : path).

(** A bare name joined to the directory. *)
Definition inside (q : path) : Prop := exists name, safe_name name /\ q = join_path dir name.

(** A file that has no name in the directory and is not open. *)
Definition sheltered (v : View) (i : nat) : Prop :=
  (forall q, inside q -> names v !! q <> Some i) /\ (forall fd, handles v !! fd <> Some i).

Record confined (v v' : View) : Prop := {
  conf_names q : names v' !! q = names v !! q \/ inside q;
  conf_files i c : data v !! i = Some c -> sheltered v i -> data v' !! i = Some c /\ sheltered v' i
}.

#[export] Instance confined_preorder : PreOrder confined.
Proof.
  split; [by split; [left|]|]. intros v1 v2 v3 [Hn Hd] [Hn' Hd']. split.
  - intros q. destruct (Hn q), (Hn' q); [left; congruence|by right..].
  - intros i c Hc Hs. destruct (Hd i c Hc Hs). by apply Hd'.
Qed.

Lemma confined_drop fd v : confined v (drop_handle fd v).
Proof.
  split; [by left|]. intros i c Hc [Hn Hh]. split; [done|]. split; [done|]. intros fd'. simpl.
  intros [_ ?]%lookup_delete_Some. by apply (Hh fd').
Qed.

(** Renaming entries within the directory. *)
Lemma confined_names g v :
  (forall q, g (names v) !! q = names v !! q \/ inside q) ->
  (forall q i, inside q -> g (names v) !! q = Some i -> exists q', inside q' /\ names v !! q' = Some i) ->
  confined v (set_names g v).
Proof.
  intros Hout Hin. split; [done|]. intros i c Hc [Hn Hh]. split; [done|]. split; [|done]. simpl.
  intros q Hq Hi. destruct (Hin q i Hq Hi) as (q' & ? & ?). by apply (Hn q').
Qed.

(** Writing to a file that is open. *)
Lemma confined_write fd i c v : handles v !! fd = Some i -> confined v (set_content i c v).
Proof.
  intros Hi. split; [by left|]. intros j c' Hj [Hn Hh]. simpl. rewrite lookup_insert_ne; [done|]. intros ->. by apply (Hh fd).
Qed.

(** Creating or truncating a file under a name of the directory. *)
Lemma confined_open p fd i v :
  inside p -> names v !! p = Some i \/ data v !! i = None ->
  confined v (set_names <[p := i]> (set_content i [] (set_handle fd i v))).
Proof.
  intros Hp Hi. split; simpl.
  - intros q. destruct (decide (q = p)) as [->|]; [by right|left]. by rewrite lookup_insert_ne.
  - intros j c Hj [Hn Hh]. assert (j <> i) as Hne.
    { intros ->. destruct Hi as [Hi|Hi]; [by apply (Hn p)|congruence]. }
    rewrite lookup_insert_ne by done. split; [done|]. split; simpl.
    + intros q Hq [[_ ?]|[_ ?]]%lookup_insert_Some; [done|by apply (Hn q)].
    + intros fd' [[_ ?]|[_ ?]]%lookup_insert_Some; [done|by apply (Hh fd')].
Qed.

(** ** Files and sessions *)

Section Sessions.
Context {W : Type} `{OSL : PosixLaws W}.
Implicit Types (w : W) (s : ReceiverSession).

Definition within w w' : Prop := confined (view w) (view w').

#[export] Instance within_preorder : PreOrder within.
Proof. split; [intros w; apply confined_preorder|]. intros w1 w2 w3. apply confined_preorder. Qed.

Lemma within_same w w' : view w' = view w -> within w w'.
Proof. unfold within. by intros ->. Qed.

Lemma confined_shut f v : confined v (shut f v).
Proof. unfold shut. destruct (valid f); [apply confined_drop|done]. Qed.

Lemma close_within f w : within w (close f w).1.
Proof. unfold within. rewrite close_view. apply confined_shut. Qed.

(** The paths of a session are bare names in the directory. *)
Record rooted s : Prop := {
  root_dir : output_directory_ s = dir;
  root_temp : temp_path_ s = [] \/ inside (temp_path_ s);
  root_started : started_ s = true -> inside (temp_path_ s) /\ inside (output_path_ s)
}.

Lemma rooted_new cap : rooted (new_session cap dir).
Proof. split; [done|by left|done]. Qed.

Lemma repath_rooted p s s' : rooted s -> repath p s s' -> rooted s'.
Proof.
  intros [] [Hd Ht Ho Hst|name Hd _ Hsan Ht Ho].
  - split; rewrite ?Hd, ?Ht, ?Ho; [done..|auto].
  - apply sanitize_accepts in Hsan as (Hname & _). rewrite root_dir0 in *.
    assert (inside (temp_path_ s') /\ inside (output_path_ s')) as [].
    { rewrite Ht, Ho. split; eexists; (split; [|done]); [apply temp_name_safe|done]. }
    split; [done|by right|done].
Qed.

Lemma changes_confined p s s' v v' : rooted s -> repath p s s' -> changes s s' v v' -> confined v v'.
Proof.
  intros Hs Hp Hc. pose proof (repath_rooted _ _ _ Hs Hp) as Hs'. destruct (shut_names (file_ s) v) as [Hn Hd].
  destruct Hc as [-> _ _| -> _ _|i _ _ -> Hi _ Hst' _|i c _ Hi -> _ _|i Hst Hi -> _ _]; [done|apply confined_shut|..].
  - destruct (root_started _ Hs' Hst') as [Ht _]. etrans; [apply (confined_shut (file_ s))|].
    apply confined_open; [done|]. rewrite Hn, Hd. destruct Hi as [|[]]; auto.
  - by eapply confined_write.
  - destruct (root_started _ Hs Hst) as [Ht Ho]. case_decide; [done|]. apply confined_names.
    + intros x. destruct (decide (x = output_path_ s)) as [->|]; [by right|].
      destruct (decide (x = temp_path_ s)) as [->|]; [by right|left]. by rewrite lookup_insert_ne, lookup_delete_ne.
    + intros x j Hx [[_ <-]|[_ [_ Hj]%lookup_delete_Some]]%lookup_insert_Some; [by exists (temp_path_ s)|by exists x].
Qed.

Lemma handle_packet_within p s w :
  rooted s -> let '(w', s', _) := handle_packet p s w in within w w' /\ rooted s'.
Proof.
  intros Hs. pose proof (handle_packet_steps p s w) as [Hp Hc]. destruct (handle_packet p s w) as [[w' s'] r].
  split; [by eapply changes_confined|by eapply repath_rooted].
Qed.

Lemma destroy_within s w : rooted s -> within w (destroy s w).
Proof.
  intros []. unfold within. destruct (destroy_view s w) as [->|(_ & Ht & ->)]; [apply confined_shut|].
  destruct root_temp0 as [?|Hin]; [done|]. etrans; [apply (confined_shut (file_ s))|]. apply confined_names.
  - intros x. destruct (decide (x = temp_path_ s)) as [->|]; [by right|left]. by rewrite lookup_delete_ne.
  - intros x j Hx [_ Hj]%lookup_delete_Some. by exists x.
Qed.
End Sessions.
End Confined.

(** ** The server *)

Section Server.
Context {W : Type} `{SL : SetupLaws W}.
Context (config : ServerConfig).
Implicit Types (w : W).

Abbreviation dir := (server_directory config).

(** Every session keeps to its two names, and nothing outside was touched. *)
Definition kept_in w0 (h : list (SessionKey * ReceiverSession)) w : Prop :=
  within dir w0 w /\ Forall (fun e => rooted dir e.2) h.

Lemma kept_in_preserved sock w0 : preserved sock config (fun _ => True) (kept_in w0).
Proof.
  split.
  - intros h h' w Hp [Hw Hh]. by rewrite Hp in Hh.
  - intros h w w' Hv _ [Hw Hh]. split; [|done]. etrans; [exact Hw|by apply within_same].
  - intros k h w _ [Hw Hh]. split; [done|]. constructor; [apply rooted_new|done].
  - intros bytes a to s h w _ _ [Hw Hh]. inversion_clear Hh as [|? ? Hs Hh']. unfold answer.
    set (p := value _). pose proof (handle_packet_within dir p s w Hs) as H1.
    destruct (handle_packet p s w) as [[w1 s1] r]. destruct H1 as [H1 Hs']. split; [|by constructor].
    etrans; [exact Hw|]. etrans; [exact H1|]. destruct (send r); [|done]. set (m := serialize _ _).
    pose proof (send_to_spec sock m to w1) as Hsend. destruct (send_to _ _ _ w1). destruct Hsend. by apply within_same.
  - intros bytes to h w _ [Hw Hh]. split; [|done]. etrans; [exact Hw|]. unfold send_error. set (m := serialize _ _).
    pose proof (send_to_spec sock m to w) as Hsend. destruct (send_to _ _ _ w). destruct Hsend. by apply within_same.
  - intros k s h w _ [Hw Hh]. unfold close_file. pose proof (close_within dir (file_ s) w) as Hc.
    destruct (close (file_ s) w) as [w1 f]. split; [by etrans|]. inversion_clear Hh as [|? ? []]. by constructor.
  - intros k s h w [Hw Hh]. inversion_clear Hh. split; [|done]. etrans; [exact Hw|by apply destroy_within].
Qed.

Lemma run_within fuel w : within dir w (run fuel config w).1.
Proof.
  destruct (run_ends config (fun _ => True) (kept_in w) (fun sock => kept_in_preserved sock w) (within dir w))
    with (fuel:=fuel) (w:=w) as (ext & _ & H).
  - by intros w' [].
  - intros w1 w2 (Hv & _) Hw. etrans; [exact Hw|by apply within_same].
  - intros fd w1 Hw. etrans; [exact Hw|]. unfold within. rewrite law_close. apply confined_drop.
  - specialize (H ltac:(by apply Forall_true) ltac:(by split)). destruct (run fuel config w) as [w' [r|]]; [exact H|].
    by destruct H as (sock & v & _ & []).
Qed.
End Server.

(** ** Claims *)

Section Claims.
Context {W : Type} `{SL : SetupLaws W}.
Implicit Types (w : W).

(** C18: the server stays in its directory.  Whatever any number of peers send,
    whatever ids and names they choose, whatever fails, and whether the server has
    stopped or is still running: the only directory entries that differ from those
    at its start are bare names directly in the output directory, and every file
    that then had no name there and was not open holds what it held. *)
Theorem server_stays_in_directory fuel config w :
  let dir := server_directory config in
  let w' := (run fuel config w).1 in
  (forall q, names (view w') !! q <> names (view w) !! q ->
     exists name, safe_name name /\ q = join_path dir name /\ resolve q = resolve dir ++ [name]) /\
  (forall i c, data (view w) !! i = Some c ->
     (forall name, safe_name name -> names (view w) !! join_path dir name <> Some i) ->
     (forall fd, handles (view w) !! fd <> Some i) -> data (view w') !! i = Some c).
Proof.
  intros dir w'. pose proof (run_within config fuel w) as [Hn Hd]. split.
  - intros q Hq. destruct (Hn q) as [|(name & Hs & ->)]; [done|].
    exists name. split_and!; [done..|by apply join_path_safe].
  - intros i c Hc Hnames Hh. apply (Hd i c Hc). split; [|done]. intros q (name & Hs & ->). by apply Hnames.
Qed.
End Claims.
