(* ===== verification/ServerFds.v ===== *)
(** * The server's descriptors

    Which files are open, at any time, in terms of the sessions of the table: each
    open file of the server is that of one session, and the rest is as it was when
    the server started. *)

From S2P Require Import Prelude Words Packet Wire Sha256 Filename Transfer ReceiverWindow FileIO Net ReceiverSession Offline Footprint Server ServerSpec ServerRule.
Import Packet.Packet.
Open Scope Z_scope.

(** The descriptors of the sessions. *)
Definition fds (h : list (SessionKey * ReceiverSession)) : list Z := omap (fun e => fd_of e.2) h.

Lemma fds_cons k s h : fds ((k, s) :: h) = match fd_of s with Some fd => fd :: fds h | None => fds h end.
Proof. done. Qed.

(** They are distinct and open, they were free at the start, and no other
    descriptor has been opened or closed since. *)
Record ledger (start : gmap Z nat) (h : list (SessionKey * ReceiverSession)) (v : View) : Prop := {
  led_nodup : NoDup (fds h);
  led_own fd : fd ∈ fds h -> start !! fd = None /\ is_Some (handles v !! fd);
  led_base fd : fd ∉ fds h -> handles v !! fd = start !! fd
}.

Section Ledger.
Context (start : gmap Z nat).
Implicit Types (v : View) (s : ReceiverSession) (h : list (SessionKey * ReceiverSession)).

Lemma ledger_perm h h' v : h ≡ₚ h' -> ledger start h v -> ledger start h' v.
Proof.
  intros Hp []. assert (fds h ≡ₚ fds h') as Hf by (unfold fds; by rewrite Hp).
  split; intros *; rewrite <- ?Hf; auto.
Qed.

Lemma ledger_same k s s' h v v' :
  file_ s' = file_ s -> handles v' = handles v -> ledger start ((k, s) :: h) v -> ledger start ((k, s') :: h) v'.
Proof.
  intros Hf Hv []. assert (fds ((k, s') :: h) = fds ((k, s) :: h)) as He by (rewrite !fds_cons; unfold fd_of; by rewrite Hf).
  split; rewrite ?He, ?Hv; done.
Qed.

Lemma ledger_none k s h v : fd_of s = None -> ledger start h v <-> ledger start ((k, s) :: h) v.
Proof.
  intros Hs. assert (fds ((k, s) :: h) = fds h) as He by (by rewrite fds_cons, Hs).
  split; intros []; split; rewrite ?He in *; done.
Qed.

Lemma ledger_shut k s h v : ledger start ((k, s) :: h) v -> ledger start h (shut (file_ s) v).
Proof.
  intros Hl. unfold shut. destruct (valid (file_ s)) eqn:Hf; [|eapply ledger_none; [|exact Hl]; unfold fd_of; by rewrite Hf].
  destruct Hl as [Hn Ho Hb]. rewrite fds_cons in *. unfold fd_of in *. rewrite Hf in *.
  apply NoDup_cons in Hn as [Hnin Hn]. split; [done|..]; intros fd Hfd; simpl.
  - rewrite lookup_delete_ne by (intros <-; done). apply Ho. by right.
  - destruct (decide (fd = fd_ (file_ s))) as [->|].
    + rewrite lookup_delete_eq. symmetry. apply Ho. by left.
    + rewrite lookup_delete_ne by done. apply Hb. by intros [?|?]%elem_of_cons.
Qed.

Lemma ledger_opened k s h v i v' :
  0 <= fd_ (file_ s) -> handles v !! fd_ (file_ s) = None -> handles v' = <[fd_ (file_ s) := i]> (handles v) ->
  ledger start h v -> ledger start ((k, s) :: h) v'.
Proof.
  intros Hfd Hfree Hv [Hn Ho Hb].
  assert (fds ((k, s) :: h) = fd_ (file_ s) :: fds h) as He.
  { rewrite fds_cons. unfold fd_of, valid. by rewrite (proj2 (Z.leb_le _ _) Hfd). }
  assert (fd_ (file_ s) ∉ fds h) as Hnin by (intros Hin; destruct (Ho _ Hin) as [_ [? ?]]; congruence).
  split; rewrite He; [by constructor|..]; intros fd; rewrite Hv, elem_of_cons.
  - intros [->|Hin]; [rewrite lookup_insert_eq; split; [|done]; by rewrite <- Hb|].
    rewrite lookup_insert_ne; [by apply Ho|]. by intros <-.
  - intros Hne. rewrite lookup_insert_ne by (intros <-; tauto). apply Hb. tauto.
Qed.

Lemma ledger_changes k s s' h v v' :
  changes s s' v v' -> ledger start ((k, s) :: h) v -> ledger start ((k, s') :: h) v'.
Proof.
  intros Hc Hl. pose proof (ledger_shut k s h v Hl) as Hs.
  destruct Hc as [-> Hf _| -> Hf _|i Hfd Hfree -> _ _ _ _|i c _ _ -> Hf _|i _ _ -> Hf _].
  - by apply (ledger_same k s s' h v).
  - apply ledger_none; [unfold fd_of; by rewrite Hf|done].
  - by apply (ledger_opened k s' h (shut (file_ s) v) i).
  - by apply (ledger_same k s s' h v).
  - apply (ledger_same k s s' h v); [done| |done]. by case_decide.
Qed.

Lemma ledger_close k s h v f :
  valid f = false -> ledger start ((k, s) :: h) v -> ledger start ((k, set_file f s) :: h) (shut (file_ s) v).
Proof. intros Hf Hl. apply ledger_none; [unfold fd_of; simpl; by rewrite Hf|by eapply ledger_shut]. Qed.
End Ledger.

Section Server.
Context {W : Type} `{SL : SetupLaws W}.
Context (config : ServerConfig).
Implicit Types (w : W).

Lemma ledger_preserved sock start :
  preserved sock config (fun _ => True) (fun h w => ledger start h (view w)).
Proof.
  split.
  - intros h h' w Hp. by apply ledger_perm.
  - intros h w w' Hv _ Hl. by rewrite Hv.
  - intros k h w _ Hl. by apply ledger_none.
  - intros bytes a to s h w _ _ Hl. unfold answer. set (p := value _). pose proof (handle_packet_steps p s w) as [_ Hc].
    destruct (handle_packet p s w) as [[w1 s1] r]. simpl in Hc. apply (ledger_changes start _ _ _ _ _ _ Hc) in Hl.
    destruct (send r); [|done]. set (m := serialize _ _).
    pose proof (send_to_spec sock m to w1) as Hs. destruct (send_to _ _ _ w1). destruct Hs as [Hv _]. simpl. by rewrite Hv.
  - intros bytes to h w _ Hl. unfold send_error. set (m := serialize _ _).
    pose proof (send_to_spec sock m to w) as Hs. destruct (send_to _ _ _ w). destruct Hs as [Hv _]. simpl. by rewrite Hv.
  - intros k s h w _ Hl. unfold close_file. destruct (close_shut (file_ s) w) as [Hv Hf].
    destruct (close (file_ s) w) as [w1 f]. simpl in Hv, Hf. rewrite Hv. by apply ledger_close.
  - intros k s h w Hl. apply ledger_shut in Hl. destruct (destroy_view s w) as [->|(_ & _ & ->)]; [done|].
    destruct Hl. by split.
Qed.

(** Lingering sessions have closed their files. *)
Lemma fds_active l : table_ok config l -> Z.of_nat (length (fds (held l))) <= max_sessions config.
Proof.
  intros []. etrans; [|exact tab_active]. clear -tab_sessions.
  induction tab_sessions as [|[k s] l Hs _ IH]; [done|]. rewrite active_cons. change (held ((k, s) :: l)) with ((k, receiver s) :: held l).
  rewrite fds_cons. pose proof (ok_closed _ _ Hs) as Hc. unfold fd_of. simpl in *.
  destruct (valid (file_ (receiver s))), (lingering s); simpl length; try lia; discriminate (Hc eq_refl).
Qed.
End Server.

(** ** Claims *)

Section Claims.
Context {W : Type} `{SL : SetupLaws W}.
Implicit Types (w : W).

(** C19: no descriptor leaks.  Whatever peers send and whatever fails, the files a
    running server has open, beyond those open when it started, are never more than
    [max_sessions]; and when [run] returns, every file that is open was open on the
    same descriptor when it started. *)
Theorem server_descriptors_bounded fuel config w :
  0 <= max_sessions config < 2 ^ 63 ->
  let '(w', r) := run fuel config w in
  match r with
  | None => exists l, Z.of_nat (length l) <= max_sessions config /\
      forall fd, fd ∉ l -> handles (view w') !! fd = handles (view w) !! fd
  | Some _ => forall fd i, handles (view w') !! fd = Some i -> handles (view w) !! fd = Some i
  end.
Proof.
  intros Hmax. set (start := handles (view w)).
  destruct (run_ends config (fun _ => True) (fun h w' => ledger start h (view w')) (fun sock => ledger_preserved config sock start)
    (fun w' => forall fd i, handles (view w') !! fd = Some i -> start !! fd = Some i)) with (fuel:=fuel) (w:=w) as (ext & _ & H).
  - intros w1 [_ _ Hb] fd i. by rewrite Hb by apply not_elem_of_nil.
  - intros w1 w2 (-> & _). done.
  - intros fd w1 Hw fd' i. rewrite law_close. simpl. intros [_ ?]%lookup_delete_Some. by apply Hw.
  - specialize (H ltac:(by apply Forall_true)). destruct (run fuel config w) as [w' [r|]]; cbn [fst snd] in H.
    + apply H. split; [constructor|by intros fd ?%elem_of_nil|done].
    + destruct H as (sock & v & (n & m & Hr) & [_ _ Hb]); [split; [constructor|by intros fd ?%elem_of_nil|done]|].
      exists (fds (held (sessions v))). split; [|done]. apply fds_active. by destruct (reaches_ok _ _ _ _ _ Hmax Hr).
Qed.
End Claims.
