(* ===== verification/Sender.v ===== *)
(** * The sender

    [send_file] of src/src/transfer/sender.cpp and the functions it is made of, in
    the monad of Monad.v, over the windows of SenderWindow.v, the files of FileIO.v
    and the sockets of Net.v, with the generator of Mt19937.v behind the simulated
    loss.  A [TimePoint] is in nanoseconds. *)

From Stdlib Require Import Floats.SpecFloat.
From S2P Require Import Prelude Words Doubles Mt19937 Packet Wire Sha256 Transfer PriorityQueue SenderWindow FileIO Net Monad ReceiverSession.
Import Packet.Packet.
Open Scope Z_scope.
Open Scope swl_scope.

Record SenderConfig := {
  chunk_size : Z;
  rto : Z;
  max_retries : Z;
  window_size : Z;
  loss_probability : Double;
  seed : Z;
  config_session_id : Z;
  remote_name : list byte
}.

Definition default_config (sid : Z) (name : list byte) : SenderConfig := {|
  chunk_size := kDefaultChunkSize; rto := kDefaultRto; max_retries := kMaxRetriesPerChunk;
  window_size := kDefaultWindowSize; loss_probability := dzero; seed := 0; config_session_id := sid; remote_name := name |}.

(** The counters the sender touches. *)
Definition count_sent (t : TransferStats) : TransferStats := {|
  bytes_transferred := bytes_transferred t; chunks := chunks t; packets_sent := bump (packets_sent t);
  retransmissions := retransmissions t; simulated_drops := simulated_drops t;
  packets_received := packets_received t; duplicates_received := duplicates_received t;
  out_of_order_received := out_of_order_received t; timeouts := timeouts t;
  elapsed_seconds := elapsed_seconds t; remote_status := remote_status t |}.
Definition count_drop (t : TransferStats) : TransferStats := {|
  bytes_transferred := bytes_transferred t; chunks := chunks t; packets_sent := packets_sent t;
  retransmissions := retransmissions t; simulated_drops := bump (simulated_drops t);
  packets_received := packets_received t; duplicates_received := duplicates_received t;
  out_of_order_received := out_of_order_received t; timeouts := timeouts t;
  elapsed_seconds := elapsed_seconds t; remote_status := remote_status t |}.
Definition count_retransmission (t : TransferStats) : TransferStats := {|
  bytes_transferred := bytes_transferred t; chunks := chunks t; packets_sent := packets_sent t;
  retransmissions := bump (retransmissions t); simulated_drops := simulated_drops t;
  packets_received := packets_received t; duplicates_received := duplicates_received t;
  out_of_order_received := out_of_order_received t; timeouts := timeouts t;
  elapsed_seconds := elapsed_seconds t; remote_status := remote_status t |}.
Definition count_timeout (t : TransferStats) : TransferStats := {|
  bytes_transferred := bytes_transferred t; chunks := chunks t; packets_sent := packets_sent t;
  retransmissions := retransmissions t; simulated_drops := simulated_drops t;
  packets_received := packets_received t; duplicates_received := duplicates_received t;
  out_of_order_received := out_of_order_received t; timeouts := bump (timeouts t);
  elapsed_seconds := elapsed_seconds t; remote_status := remote_status t |}.
Definition set_remote_status (c : Status.StatusCode) (t : TransferStats) : TransferStats := {|
  bytes_transferred := bytes_transferred t; chunks := chunks t; packets_sent := packets_sent t;
  retransmissions := retransmissions t; simulated_drops := simulated_drops t;
  packets_received := packets_received t; duplicates_received := duplicates_received t;
  out_of_order_received := out_of_order_received t; timeouts := timeouts t;
  elapsed_seconds := elapsed_seconds t; remote_status := c |}.
Definition set_totals (n bytes : Z) (t : TransferStats) : TransferStats := {|
  bytes_transferred := bytes; chunks := n; packets_sent := packets_sent t;
  retransmissions := retransmissions t; simulated_drops := simulated_drops t;
  packets_received := packets_received t; duplicates_received := duplicates_received t;
  out_of_order_received := out_of_order_received t; timeouts := timeouts t;
  elapsed_seconds := elapsed_seconds t; remote_status := remote_status t |}.

Record InFlight := { wire : list byte; attempts : Z }.
Definition no_packet : InFlight := {| wire := []; attempts := 0 |}.

(** [proto::kHeaderWireSize + proto::kMaxPayloadSize] *)
Definition receive_size : nat := kHeaderWireSize + Z.to_nat kMaxPayloadSize.

(** [config.rto] on the clock: the conversion to its nanoseconds is 64-bit. *)
Definition rto_ticks (c : SenderConfig) : Z := s64 (rto c * 1000000).

(** [LossSimulator] *)
Record LossSimulator := { probability_ : Double; rng_ : Mt19937 }.
Definition new_loss (probability : Double) (seed : Z) : LossSimulator :=
  {| probability_ := probability; rng_ := mt_seed seed |}.

Definition should_drop (l : LossSimulator) : LossSimulator * bool :=
  if SFleb (probability_ l) dzero then (l, false)
  else
    let '(rng, value) := uniform_real (rng_ l) in
    ({| probability_ := probability_ l; rng_ := rng |}, SFltb value (probability_ l)).

(** The objects [send_file] passes to its helpers by reference. *)
Record Locals := { stats : TransferStats; loss : LossSimulator }.

Definition with_stats (f : TransferStats -> TransferStats) (s : Locals) : Locals :=
  {| stats := f (stats s); loss := loss s |}.

Definition locals (config : SenderConfig) (st : TransferStats) : Locals :=
  {| stats := st; loss := new_loss (loss_probability config) (seed config) |}.

Section Send.
Context {W : Type} `{OS : !Posix W} `{NET : !Network W}.
Context {Q : Type} `{PQ : !PriorityQueue Entry entry_less Q}.
Context (sock : UdpSocket) (destination : Endpoint) (config : SenderConfig).

Abbreviation Run := (Run W Locals).

Definition count (f : TransferStats -> TransferStats) : Run unit := local (fun s => (with_stats f s, tt)).

Definition send_packet (wire : list byte) : Run bool :=
  let! _ := count count_sent in
  let! drop := local (fun s => let '(l, drop) := should_drop (loss s) in ({| stats := stats s; loss := l |}, drop)) in
  if drop then
    let! _ := count count_drop in ret true
  else
    let! r := sys (send_to sock wire destination) in
    ret (match r with inl n => 0 <=? n | inr _ => false end).

(** [None] when a read fails or comes up short; the loop is the one of
    [ReceiverSession::on_fin]. *)
Definition hash_file (f : File) (size : Z) (w : W) : W * option (list byte) :=
  match hash_back (hash_fuel size) f size 0 new_hasher w with
  | (w, Some hasher) => (w, Some (finish hasher))
  | (w, None) => (w, None)
  end.

(** The status an ERROR payload names, if it names one. *)
Definition error_status (payload : list byte) : option Status.StatusCode :=
  match payload with
  | [] => None
  | b :: _ => Status.StatusCode_of_raw (Z_of_byte b)
  end.

(** The inner [for (;;)]: [Some e] when [exchange_control] returns [e], [None]
    when it breaks out to the next attempt. *)
Fixpoint await_reply (fuel : nat) (expected_reply : PacketType) (expected_ack deadline : Z) :
    Run (option TransferError) :=
  match fuel with
  | O => spin
  | S fuel =>
      let! now := sys sys_now in
      let wait := deadline - now in
      if wait <=? 0 then
        let! _ := count count_timeout in ret None
      else
        let! armed := sys (set_receive_timeout sock (Z.quot wait 1000)) in
        if negb armed then ret (Some kSocketFailed)
        else
          let! r := sys (recv_from sock receive_size) in
          match r with
          | inr e =>
              if (e =? EAGAIN) || (e =? EWOULDBLOCK) then
                let! _ := count count_timeout in ret None
              else if e =? EINTR then await_reply fuel expected_reply expected_ack deadline
              else ret (Some kReceiveFailed)
          | inl (bytes, _) =>
              let! _ := count count_received in
              let result := deserialize bytes in
              if negb (ok result) then await_reply fuel expected_reply expected_ack deadline
              else
                let h := header (value result) in
                if bool_decide (packet_type h = kError) then
                  let! _ := count (fun t =>
                    match error_status (payload (value result)) with
                    | Some c => set_remote_status c t | None => t end) in
                  ret (Some kRemoteError)
                else if negb (session_id h =? config_session_id config)
                then await_reply fuel expected_reply expected_ack deadline
                else if bool_decide (packet_type h = expected_reply) &&
                        (acknowledgement_number h =? expected_ack)
                then ret (Some Transfer.kNone)
                else await_reply fuel expected_reply expected_ack deadline
          end
  end.

(** The [for (attempt ...)]: [tries] attempts remain. *)
Fixpoint control_attempts (fuel tries : nat) (first : bool) (bytes : list byte)
    (expected_reply : PacketType) (expected_ack : Z) : Run TransferError :=
  match tries with
  | O => ret kPeerUnresponsive
  | S tries =>
      let! _ := (if first then ret tt else count count_retransmission) in
      let! ok := send_packet bytes in
      if negb ok then ret kSendFailed
      else
        let! now := sys sys_now in
        let! r := await_reply fuel expected_reply expected_ack (now + rto_ticks config) in
        match r with
        | Some e => ret e
        | None => control_attempts fuel tries false bytes expected_reply expected_ack
        end
  end.

Definition exchange_control (fuel : nat) (bytes : list byte) (expected_reply : PacketType)
    (expected_ack : Z) : Run TransferError :=
  control_attempts fuel (Z.to_nat (max_retries config + 1)) true bytes expected_reply expected_ack.

Definition in_flight_index (window : SenderWindow Q) (seq : Z) : nat :=
  Z.to_nat (seq mod capacity_ window).

(** Step 1 of the main loop: fill the window.  Every iteration puts one more
    packet in flight, so the capacity is fuel enough. *)
Fixpoint fill (fuel : nat) (f : File) (file_size total : Z) (window : SenderWindow Q)
    (ring : list InFlight) : Run (SenderWindow Q * list InFlight) :=
  match fuel with
  | O => spin
  | S fuel =>
      if can_send window && (next_sequence_ window <? total) then
        let seq := next_sequence_ window in
        let offset := u64 (seq * chunk_size config) in
        let remaining := u64 (file_size - offset) in
        let want := if remaining <? chunk_size config then remaining else chunk_size config in
        let! r := sys (read_at f (Z.to_nat want) offset) in
        match r with
        | inr _ => throw kFileReadFailed
        | inl chunk =>
            if negb (length chunk =? Z.to_nat want)%nat then throw kFileReadFailed
            else
              let h := make_header kData (config_session_id config) seq 0 offset in
              let slot := {| wire := serialize h chunk; attempts := 1 |} in
              let ring := <[in_flight_index window seq := slot]> ring in
              let! ok := send_packet (wire slot) in
              if negb ok then throw kSendFailed
              else
                let! now := sys sys_now in
                fill fuel f file_size total (on_sent (now + rto_ticks config) window) ring
        end
      else ret (window, ring)
  end.

(** Step 3: retransmit what has timed out. *)
Fixpoint retransmit (expired : list Z) (window : SenderWindow Q) (ring : list InFlight) :
    Run (SenderWindow Q * list InFlight) :=
  match expired with
  | [] => ret (window, ring)
  | seq :: expired =>
      let slot := nth (in_flight_index window seq) ring no_packet in
      if max_retries config <=? attempts slot then throw kPeerUnresponsive
      else
        let slot := {| wire := wire slot; attempts := attempts slot + 1 |} in
        let ring := <[in_flight_index window seq := slot]> ring in
        let! _ := count count_retransmission in
        let! _ := count count_timeout in
        let! ok := send_packet (wire slot) in
        if negb ok then throw kSendFailed
        else
          let! now := sys sys_now in
          retransmit expired (reschedule seq (now + rto_ticks config) window) ring
  end.

(** Step 2's receive: the window after the datagram, if one came. *)
Definition take_ack (window : SenderWindow Q) : Run (SenderWindow Q) :=
  let! r := sys (recv_from sock receive_size) in
  match r with
  | inl (bytes, _) =>
      let! _ := count count_received in
      let result := deserialize bytes in
      if ok result && bool_decide (packet_type (header (value result)) = kAck) then
        let '(window, retired) := on_ack (acknowledgement_number (header (value result))) window in
        if negb retired then let! _ := count count_duplicate in ret window else ret window
      else ret window
  | inr e =>
      if negb (e =? EAGAIN) && negb (e =? EWOULDBLOCK) && negb (e =? EINTR)
      then throw kReceiveFailed else ret window
  end.

Fixpoint main_loop (fuel : nat) (f : File) (file_size total : Z) (window : SenderWindow Q)
    (ring : list InFlight) : Run unit :=
  match fuel with
  | O => spin
  | S fuel =>
      if base_ window <? total then
        let! filled := fill (S (Z.to_nat (capacity_ window))) f file_size total window ring in
        let '(window, ring) := filled in
        let '(window, deadline) := earliest_deadline window in
        match deadline with
        | None => ret tt
        | Some deadline =>
            let! now := sys sys_now in
            let wait := Z.max 0 (deadline - now) in
            let! armed := sys (set_receive_timeout sock (Z.quot wait 1000)) in
            if negb armed then throw kSocketFailed
            else
              let! window := take_ack window in
              let! now := sys sys_now in
              let '(window, expired) := expire now window in
              let! resent := retransmit expired window ring in
              let '(window, ring) := resent in
              main_loop fuel f file_size total window ring
        end
      else ret tt
  end.

(** What follows the main loop: FIN with the digest, and the time it all took. *)
Definition conclude (fuel : nat) (file_size total : Z) (digest : list byte) (started : Z) : Run TransferError :=
  let! _ := count (set_totals total file_size) in
  let fin := make_header kFin (config_session_id config) (u32 total) 0 file_size in
  let! error := exchange_control fuel (serialize fin digest) kFinAck (u32 total) in
  if negb (bool_decide (error = Transfer.kNone)) then throw error
  else
    let! now := sys sys_now in
    let! _ := count (set_elapsed (seconds (now - started))) in
    ret Transfer.kNone.

(** The part of [send_file] after the file is open. *)
Definition send_opened (fuel : nat) (f : File) : Run TransferError :=
  let! size := sys (size f) in
  match size with
  | inr _ => throw kFileOpenFailed
  | inl file_size =>
      match chunk_count file_size (chunk_size config) with
      | None => throw kProtocolViolation
      | Some total =>
          let! digest := sys (hash_file f file_size) in
          match digest with
          | None => throw kFileReadFailed
          | Some digest =>
              let! started := sys sys_now in
              let start := make_header kStart (config_session_id config) 0 0 file_size in
              let! error := exchange_control fuel (serialize start (remote_name config)) kStartAck 0 in
              if bool_decide (error = kPeerUnresponsive) then throw kHandshakeFailed
              else if negb (bool_decide (error = Transfer.kNone)) then throw error
              else
                let window := new_sender_window (window_size config) in
                let ring := replicate (Z.to_nat (capacity_ window)) no_packet in
                let! _ := main_loop fuel f file_size total window ring in
                conclude fuel file_size total digest started
          end
      end
  end.

(** [send_file]: [None] while it is still running; the file is closed however
    the body ends.  The [LossSimulator] is made before the first datagram. *)
Definition send_file (fuel : nat) (p : path) (w : W) (st : TransferStats) :
    W * TransferStats * option TransferError :=
  let '(w, f, opened) := open_read p closed_file w in
  if negb opened then (w, st, Some kFileOpenFailed)
  else
    let '(w, s, r) := send_opened fuel f w (locals config st) in
    match r with
    | Val e | Ret e => ((close f w).1, stats s, Some e)
    | Spin => (w, stats s, None)
    end.
End Send.
