(* ===== verification/SenderLoss.v ===== *)
(** * Simulated loss is a lossy network

    [LossSimulator] of Sender.v throws datagrams away before they reach the socket.
    [Losing] is a system around another one whose network throws datagrams away
    instead, by the same probability and seed and by nothing else; a sender with
    simulated loss on a system is, call for call, a sender without it on the losing
    one. *)

From Stdlib Require Import Floats.SpecFloat.
From S2P Require Import Prelude Words Doubles Mt19937 Packet Wire Sha256 Transfer PriorityQueue SenderWindow FileIO Net Monad ReceiverSession Sender.
Import Packet.Packet.
Open Scope Z_scope.

(** ** A system whose network loses *)

(** The system inside, the generator of the losses and their probability, and the
    datagrams lost so far. *)
Record Losing (W : Type) := {
  system : W;
  generator : Mt19937;
  odds : Double;
  swallowed : list (list byte * sockaddr_in)
}.
Arguments system {W}.
Arguments generator {W}.
Arguments odds {W}.
Arguments swallowed {W}.

Section Losing.
Context {W : Type} `{OS : !Posix W} `{NET : !Network W}.
Implicit Types (d : Losing W).

Definition set_system (w : W) d : Losing W :=
  {| system := w; generator := generator d; odds := odds d; swallowed := swallowed d |}.
Definition set_generator (g : Mt19937) d : Losing W :=
  {| system := system d; generator := g; odds := odds d; swallowed := swallowed d |}.
Definition swallow (x : list byte * sockaddr_in) d : Losing W :=
  {| system := system d; generator := generator d; odds := odds d; swallowed := swallowed d ++ [x] |}.

(** A call of the system inside. *)
Definition inside {A} (f : W -> W * A) d : Losing W * A :=
  let '(w, a) := f (system d) in (set_system w d, a).

#[export] Instance losing_posix : Posix (Losing W) := {
  sys_open p mode := inside (sys_open p mode);
  sys_close fd d := set_system (sys_close fd (system d)) d;
  sys_pread fd n offset := inside (sys_pread fd n offset);
  sys_pwrite fd bytes offset := inside (sys_pwrite fd bytes offset);
  sys_fsync fd := inside (sys_fsync fd);
  sys_fstat_size fd := inside (sys_fstat_size fd);
  sys_rename p q := inside (sys_rename p q);
  sys_unlink p := inside (sys_unlink p);
  interruptions d := interruptions (system d)
}.

(** The fate of one datagram: with a positive probability, the next draw of the
    generator below it loses the datagram, and the caller is none the wiser. *)
Definition lossy_sendto (fd : Z) (bytes : list byte) (a : sockaddr_in) d : Losing W * (Z + Z) :=
  if SFleb (odds d) dzero then inside (sys_sendto fd bytes a) d
  else
    let '(g, draw) := uniform_real (generator d) in
    let d := set_generator g d in
    if SFltb draw (odds d) then (swallow (bytes, a) d, inl (Z.of_nat (length bytes)))
    else inside (sys_sendto fd bytes a) d.

#[export] Instance losing_network : Network (Losing W) := {
  sys_socket := inside sys_socket;
  sys_bind fd a := inside (sys_bind fd a);
  sys_set_rcvtimeo fd sec usec := inside (sys_set_rcvtimeo fd sec usec);
  sys_getfl fd := inside (sys_getfl fd);
  sys_setfl fd flags := inside (sys_setfl fd flags);
  sys_sendto := lossy_sendto;
  sys_recvfrom fd n := inside (sys_recvfrom fd n);
  sys_now := inside sys_now
}.

(** *** Calls that send nothing go inside *)

Lemma inside_ret {A} (a : A) d : (d, a) = inside (fun w => (w, a)) d.
Proof. by destruct d. Qed.

Lemma timeout_inside sock t d : set_receive_timeout sock t d = inside (set_receive_timeout sock t) d.
Proof.
  unfold set_receive_timeout. destruct (socket_valid sock); [|apply inside_ret].
  by destruct (timeval_of t).
Qed.

Lemma recv_inside sock n d : recv_from sock n d = inside (recv_from sock n) d.
Proof.
  unfold recv_from. destruct (socket_valid sock); [|apply inside_ret]. unfold inside. simpl.
  unfold inside. by destruct (sys_recvfrom (sock_fd sock) n (system d)) as [w [[bytes a]|e]].
Qed.

Lemma read_loop_inside fuel fd got want offset d :
  read_loop fuel fd got want offset d = inside (read_loop fuel fd got want offset) d.
Proof.
  revert got want d. induction fuel as [|fuel IH]; intros got want d; cbn [read_loop]; [apply inside_ret|].
  unfold inside at 1. cbn [read_loop]. destruct (want =? 0)%nat; [by destruct d|]. simpl. unfold inside at 1.
  destruct (sys_pread fd want _ (system d)) as [w [[|b bs]|e]]; [done|by rewrite IH; unfold inside|].
  destruct (e =? EINTR); [|done]. by rewrite IH; unfold inside.
Qed.

Lemma read_inside f want offset d : read_at f want offset d = inside (read_at f want offset) d.
Proof. unfold read_at. destruct (valid f); [|apply inside_ret]. apply read_loop_inside. Qed.

Lemma size_inside f d : size f d = inside (size f) d.
Proof.
  unfold size. destruct (valid f); [|apply inside_ret]. unfold inside. simpl. unfold inside.
  by destruct (sys_fstat_size (fd_ f) (system d)) as [w []].
Qed.

Lemma hash_back_inside fuel f bytes offset hasher d :
  hash_back fuel f bytes offset hasher d = inside (hash_back fuel f bytes offset hasher) d.
Proof.
  revert offset hasher d. induction fuel as [|fuel IH]; intros offset hasher d; cbn [hash_back]; [apply inside_ret|].
  unfold inside at 1. cbn [hash_back]. destruct (offset <? bytes); simpl negb; cbv iota zeta; [|by destruct d].
  rewrite read_inside. unfold inside at 1.
  destruct (read_at f _ offset (system d)) as [w [buffer|e]]; [|done].
  destruct (negb _); [done|]. rewrite IH. by unfold inside.
Qed.

Lemma hash_inside f n d : hash_file f n d = inside (hash_file f n) d.
Proof.
  unfold hash_file. rewrite hash_back_inside. unfold inside.
  by destruct (hash_back _ f n 0 new_hasher (system d)) as [w [h|]].
Qed.
End Losing.

(** ** One sender mirrors the other *)

(** [n] more simulated drops on the counter. *)
Definition with_drops (n : nat) (t : TransferStats) : TransferStats := {|
  bytes_transferred := bytes_transferred t; chunks := chunks t; packets_sent := packets_sent t;
  retransmissions := retransmissions t; simulated_drops := Nat.iter n bump (simulated_drops t);
  packets_received := packets_received t; duplicates_received := duplicates_received t;
  out_of_order_received := out_of_order_received t; timeouts := timeouts t;
  elapsed_seconds := elapsed_seconds t; remote_status := remote_status t |}.

Section Mirror.
Context {W : Type} `{OS : !Posix W} `{NET : !Network W}.
Context {Q : Type} `{PQ : !PriorityQueue Entry entry_less Q}.
Context (sock : UdpSocket) (destination : Endpoint) (config : SenderConfig).
Context (a : sockaddr_in) (Hsock : socket_valid sock = true) (Hdest : to_sockaddr destination = Some a).

(** The sender with simulated loss on [w], and the one without it on [d]. *)
Record mirror (w : W) (s : Locals) (d : Losing W) (s' : Locals) : Prop := {
  mir_system : system d = w;
  mir_generator : generator d = rng_ (loss s);
  mir_odds : odds d = probability_ (loss s);
  mir_lossless : probability_ (loss s') = dzero;
  mir_stats : stats s = with_drops (length (swallowed d)) (stats s')
}.

Definition mirrors {A} (m : Run W Locals A) (m' : Run (Losing W) Locals A) : Prop :=
  forall w s d s', mirror w s d s' ->
  let '(w1, s1, r1) := m w s in let '(d1, s1', r1') := m' d s' in mirror w1 s1 d1 s1' /\ r1' = r1.

Lemma mirrors_ret {A} (x : A) : mirrors (ret x) (ret x).
Proof. by intros w s d s' Hm. Qed.

Lemma mirrors_throw {A} e : mirrors (throw (A:=A) e) (throw e).
Proof. by intros w s d s' Hm. Qed.

Lemma mirrors_spin {A} : mirrors (spin (A:=A)) spin.
Proof. by intros w s d s' Hm. Qed.

Lemma mirrors_bind {A B} m m' (k : A -> Run W Locals B) k' :
  mirrors m m' -> (forall x, mirrors (k x) (k' x)) -> mirrors (seq_bind m k) (seq_bind m' k').
Proof.
  intros Hm Hk w s d s' H. specialize (Hm w s d s' H). unfold seq_bind.
  destruct (m w s) as [[w1 s1] r1], (m' d s') as [[d1 s1'] r1']. destruct Hm as [Hm ->].
  destruct r1 as [x|e|]; [by apply Hk|done..].
Qed.

Lemma mirrors_sys {A} (f : W -> W * A) f' : (forall d, f' d = inside f d) -> mirrors (sys f) (sys f').
Proof.
  intros Hf w s d s' []. unfold sys. rewrite Hf. unfold inside. rewrite mir_system0.
  destruct (f w) as [w1 x]. by repeat split.
Qed.

Lemma mirrors_count f : (forall n t, f (with_drops n t) = with_drops n (f t)) -> mirrors (count f) (count f).
Proof. intros Hf w s d s' []. unfold count, local. split; [|done]. split; try done. simpl. by rewrite mir_stats0, Hf. Qed.

(** A datagram that is dropped on one side is swallowed on the other. *)
Lemma mirrors_send bytes : mirrors (send_packet sock destination bytes) (send_packet sock destination bytes).
Proof.
  intros w s d s' []. unfold send_packet, count, seq_bind, local, with_stats, ret, sys. cbn [loss stats].
  assert (should_drop (loss s') = (loss s', false)) as -> by (unfold should_drop; by rewrite mir_lossless0).
  unfold send_to. rewrite Hsock, Hdest. simpl negb. cbv iota. simpl sys_sendto. unfold lossy_sendto, should_drop.
  rewrite mir_odds0. destruct (SFleb (probability_ (loss s)) dzero).
  { unfold inside. rewrite mir_system0. destruct (sys_sendto (sock_fd sock) bytes a w) as [w1 r].
    split; [|done]. split; try done. simpl. by rewrite mir_stats0. }
  rewrite mir_generator0. destruct (uniform_real (rng_ (loss s))) as [g draw]. cbn [odds set_generator].
  rewrite mir_odds0. destruct (SFltb draw (probability_ (loss s))).
  - split; [|by rewrite (proj2 (Z.leb_le _ _)) by lia]. split; try done. simpl.
    by rewrite length_app, Nat.add_1_r, mir_stats0.
  - unfold inside. cbn [system set_generator]. rewrite mir_system0.
    destruct (sys_sendto (sock_fd sock) bytes a w) as [w1 r].
    split; [|done]. split; try done. simpl. by rewrite mir_stats0.
Qed.

(** A function's steps, one by one. *)
Ltac mirrors :=
  repeat match goal with
  | IH : forall _, _ |- mirrors _ _ => apply IH
  | |- mirrors (ret _) _ => apply mirrors_ret
  | |- mirrors (throw _) _ => apply mirrors_throw
  | |- mirrors spin _ => apply mirrors_spin
  | |- mirrors (send_packet _ _ _) _ => apply mirrors_send
  | |- mirrors (count _) _ => apply mirrors_count; intros; repeat case_match; done
  | |- mirrors (sys _) _ =>
      apply mirrors_sys; first [done|apply timeout_inside|apply recv_inside|apply read_inside|apply size_inside|apply hash_inside]
  | |- mirrors (seq_bind _ _) _ => apply mirrors_bind; [|intros]
  | |- mirrors (match ?x with _ => _ end) _ => destruct x
  end.

Lemma mirrors_await fuel reply ack deadline :
  mirrors (await_reply sock config fuel reply ack deadline) (await_reply sock config fuel reply ack deadline).
Proof. induction fuel as [|fuel IH]; cbn [await_reply]; cbv zeta; mirrors; apply IH. Qed.

Lemma mirrors_control fuel bytes reply ack :
  mirrors (exchange_control sock destination config fuel bytes reply ack)
    (exchange_control sock destination config fuel bytes reply ack).
Proof.
  unfold exchange_control. generalize true as first. pose proof (mirrors_await fuel reply ack) as Ha.
  induction (Z.to_nat (max_retries config + 1)) as [|tries IH]; intros first; cbn [control_attempts]; mirrors.
Qed.

Lemma mirrors_fill fuel f file_size total (window : SenderWindow Q) ring :
  mirrors (fill sock destination config fuel f file_size total window ring)
    (fill sock destination config fuel f file_size total window ring).
Proof. revert window ring. induction fuel as [|fuel IH]; intros; cbn [fill]; cbv zeta; mirrors. Qed.

Lemma mirrors_retransmit expired (window : SenderWindow Q) ring :
  mirrors (retransmit sock destination config expired window ring) (retransmit sock destination config expired window ring).
Proof. revert window ring. induction expired as [|k expired IH]; intros; cbn [retransmit]; cbv zeta; mirrors. Qed.

Lemma mirrors_take_ack (window : SenderWindow Q) : mirrors (take_ack sock window) (take_ack sock window).
Proof. unfold take_ack. cbv zeta. mirrors. Qed.

Lemma mirrors_main_loop fuel f file_size total (window : SenderWindow Q) ring :
  mirrors (main_loop sock destination config fuel f file_size total window ring)
    (main_loop sock destination config fuel f file_size total window ring).
Proof.
  pose proof mirrors_fill as Hf. pose proof mirrors_retransmit as Hr. pose proof mirrors_take_ack as Ht.
  revert window ring. induction fuel as [|fuel IH]; intros; cbn [main_loop]; cbv zeta; mirrors.
Qed.

Lemma mirrors_send_opened fuel f :
  mirrors (send_opened (Q:=Q) sock destination config fuel f) (send_opened (Q:=Q) sock destination config fuel f).
Proof.
  pose proof mirrors_control as Hc. pose proof mirrors_main_loop as Hm.
  unfold send_opened, conclude. cbv zeta. mirrors.
Qed.
End Mirror.

(** ** Claims *)

Section Claims.
Context {W : Type} `{OS : !Posix W} `{NET : !Network W}.
Context {Q : Type} `{PQ : !PriorityQueue Entry entry_less Q}.
Implicit Types (config : SenderConfig) (w : W).

(** The network that loses what [config] asks for, and [config] without the loss. *)
Definition losing config w : Losing W :=
  {| system := w; generator := mt_seed (seed config); odds := loss_probability config; swallowed := [] |}.

Definition without_loss config : SenderConfig := {|
  chunk_size := chunk_size config; rto := rto config; max_retries := max_retries config;
  window_size := window_size config; loss_probability := dzero; seed := seed config;
  config_session_id := config_session_id config; remote_name := remote_name config |}.

(** C13: simulated loss is a lossy network.  With an open socket and a destination
    that has an address, a run with simulated loss is, call for call, the run of the
    sender without it, where the network loses datagram [n] exactly if the [n]th
    draw of a generator seeded with [seed] is below the loss probability: the same
    result, the same calls and so the same state of the system, which never sees a
    lost datagram, and the same counters, but for [simulated_drops], which counts
    the lost ones.  So which datagrams are dropped depends on the probability, the
    seed and the position of the datagram among those sent, and on nothing else. *)
Theorem loss_is_reproducible sock destination config a fuel p w st :
  socket_valid sock = true -> to_sockaddr destination = Some a ->
  let '(w1, st1, r1) := send_file (Q:=Q) sock destination config fuel p w st in
  let '(d, st2, r2) := send_file (Q:=Q) sock destination (without_loss config) fuel p (losing config w) st in
  w1 = system d /\ r1 = r2 /\ st1 = with_drops (length (swallowed d)) st2.
Proof.
  intros Hsock Hdest. unfold send_file, open_read, open_with, close. simpl.
  unfold inside. simpl. destruct (sys_open p O_RDONLY w) as [w1 [fd|e]]; cbn [set_system]; [|by destruct st].
  simpl. destruct (0 <=? fd); simpl; [|by destruct st].
  pose proof (mirrors_send_opened (Q:=Q) sock destination config a Hsock Hdest fuel {| fd_ := fd |} w1 (locals config st)
    (set_system w1 (losing config w)) (locals (without_loss config) st)) as Hm.
  assert (send_opened (W:=Losing W) (Q:=Q) sock destination (without_loss config) fuel {| fd_ := fd |}
    = send_opened (W:=Losing W) (Q:=Q) sock destination config fuel {| fd_ := fd |}) as -> by reflexivity.
  destruct (send_opened sock destination config fuel _ w1 _) as [[w2 s2] r].
  destruct (send_opened sock destination config fuel _ (set_system _ _) _) as [[d s2'] r'].
  destruct Hm as [[] ->]; [split; try done; by destruct st|].
  destruct r as [e|e|]; simpl; rewrite ?mir_system0; try done;
    unfold valid; simpl; destruct (0 <=? fd); simpl; by rewrite ?mir_system0.
Qed.
End Claims.
