(* ===== verification/SenderSpec.v ===== *)
(** * What the sender puts on the wire, and what its success means

    Two groups of facts about [send_file] of Sender.v, proved against the laws of
    the file system, the network and the priority queue: every datagram it sends
    is one of the transfer's packets, field by field (so one an honest sender of
    Delivery.v may send), and it reports success only after having heard an acknowledgement of every single
    chunk and of FIN. *)

From S2P Require Import Prelude Words Packet Wire Sha256 Transfer PriorityQueue SenderWindow FileIO Net Monad ReceiverSession Offline Delivery Sender.
Import Packet.Packet.
Open Scope Z_scope.

Abbreviation triple := (Monad.triple (S:=Locals) any).

Section Sending.
Context {W : Type} `{NL : NetworkLaws W}.
Context {Q : Type} `{PQL : PriorityQueueLaws Entry entry_less Q}.
Context (sock : UdpSocket) (destination : Endpoint) (config : SenderConfig).
(** The file being sent, open at [f]. *)
Context (F : list byte) (f : File) (inode : nat).

Abbreviation cs := (Z.to_nat (chunk_size config)).
Abbreviation sid := (config_session_id config).
Abbreviation total := (Z.of_nat (chunk_total F cs)).

(** The configurations the front end produces, and files the protocol can
    address. *)
Record sendable : Prop := {
  snd_chunk : 0 < chunk_size config <= kMaxPayloadSize;
  snd_size : Z.of_nat (length F) < 2 ^ 63;
  snd_total : total < 2 ^ 32;
  snd_window : 0 <= window_size config < 2 ^ 32;
  snd_sid : fits 64 sid;
  snd_name : Z.of_nat (length (remote_name config)) <= kMaxPayloadSize
}.
Context (Hs : sendable).

(** The packets [send_file] sends, field by field: START with number 0, the size
    and the name; chunk [k] under number [k] at its offset; FIN with the number of
    chunks, the size and the digest.  Nothing is acknowledged. *)
Inductive transfer_packet (p : Packet) : Prop :=
| transfer_start :
    packet_type (header p) = kStart -> sequence_number (header p) = 0 ->
    byte_offset (header p) = Z.of_nat (length F) -> payload p = remote_name config ->
    session_id (header p) = sid -> acknowledgement_number (header p) = 0 -> transfer_packet p
| transfer_data k :
    packet_type (header p) = kData -> 0 <= k < total -> sequence_number (header p) = k ->
    byte_offset (header p) = k * chunk_size config -> payload p = chunk F cs (Z.to_nat k) ->
    session_id (header p) = sid -> acknowledgement_number (header p) = 0 -> transfer_packet p
| transfer_fin :
    packet_type (header p) = kFin -> sequence_number (header p) = total ->
    byte_offset (header p) = Z.of_nat (length F) -> payload p = sha256 F ->
    session_id (header p) = sid -> acknowledgement_number (header p) = 0 -> transfer_packet p.

(** The datagram decodes to one of them. *)
Definition transfer_wire (bytes : list byte) : Prop :=
  exists p, deserialize bytes = success p /\ transfer_packet p /\ packet_wf p.

(** What the receiver's theorems ask of a datagram of the transfer; they allow more
    than the sender sends. *)
Definition honest_wire (bytes : list byte) : Prop :=
  exists p, deserialize bytes = success p /\ honest F cs sid p /\ packet_wf p /\
    (packet_type (header p) = kStart -> payload p = remote_name config).

Lemma transfer_wire_honest bytes : transfer_wire bytes -> honest_wire bytes.
Proof.
  intros (p & Hd & Hp & Hwf). destruct Hs. exists p. split; [done|]. split; [|split; [done|]].
  - destruct Hp as [| k Ht Hk Hq Ho Hpay Hid _|].
    + by apply honest_start.
    + apply (honest_data _ _ _ _ (Z.to_nat k)); try done; lia.
    + by apply honest_fin.
  - by destruct Hp as [|k Ht|Ht]; [|rewrite Ht|rewrite Ht].
Qed.

(** [w'] is later than [w]: the files are as they were, the datagrams sent in
    between are packets of the transfer and go to the destination. *)
Definition later (w w' : W) : Prop :=
  view w' = view w /\
  (exists l, outbox w' = outbox w ++ l /\
     Forall (fun d => transfer_wire d.1 /\ to_sockaddr destination = Some d.2) l) /\
  (exists l, inbox w' = inbox w ++ l).

#[local] Instance later_preorder : PreOrder later.
Proof.
  split.
  - intros w. split_and!; [done|exists []; by rewrite app_nil_r|exists []; by rewrite app_nil_r].
  - intros w1 w2 w3 (Hv & (l & Ho & Hl) & (m & Hi)) (Hv' & (l' & Ho' & Hl') & (m' & Hi')).
    split_and!; [congruence| |].
    + exists (l ++ l'). split; [by rewrite Ho', Ho, app_assoc|by apply Forall_app].
    + exists (m ++ m'). by rewrite Hi', Hi, app_assoc.
Qed.

Lemma quiet_later w w' : quiet w w' -> later w w'.
Proof. intros (? & Ho & Hi). split_and!; [done|exists []; by rewrite app_nil_r|exists []; by rewrite app_nil_r]. Qed.

(** Conditions that last. *)
Definition stable (P : W -> Prop) : Prop := forall w w', later w w' -> P w -> P w'.

Lemma triple_quiet {A} (g : W -> W * A) (P : W -> Prop) E L :
  stable P -> (forall w, quiet w (g w).1) -> triple P (sys g) (fun _ => P) E L.
Proof.
  intros Hst Hq. apply triple_sys. intros w Hw. specialize (Hq w). destruct (g w) as [w' a].
  eapply Hst; [by apply quiet_later|done].
Qed.

Lemma triple_now P E L : stable P -> triple P (sys sys_now) (fun _ => P) E L.
Proof. intros. apply triple_quiet; [done|apply now_quiet]. Qed.

Lemma triple_timeout t P E L : stable P -> triple P (sys (set_receive_timeout sock t)) (fun _ => P) E L.
Proof. intros. apply triple_quiet; [done|intros; apply set_receive_timeout_quiet]. Qed.

Lemma triple_send bytes P E L :
  stable P -> transfer_wire bytes -> triple P (send_packet sock destination bytes) (fun _ => P) E L.
Proof.
  intros Hst Hb. unfold send_packet.
  apply triple_counting, triple_locally. intros drop. destruct drop.
  { apply triple_counting. by apply triple_ret. }
  apply (triple_bind _ _ _ (fun _ => P)); [|by intros r; apply triple_ret].
  apply triple_sys. intros w Hw. pose proof (send_to_spec sock bytes destination w) as Hsend.
  destruct (send_to sock bytes destination w) as [w' r]. destruct Hsend as (Hv & Hi & Ho).
  eapply Hst; [|exact Hw]. split_and!; [done| |exists []; by rewrite app_nil_r].
  destruct Ho as [Ho|(a & Ha & Ho)]; [exists []; by rewrite app_nil_r|].
  exists [(bytes, a)]. split; [done|]. by apply Forall_singleton.
Qed.

(** *** What has been heard *)

(** A datagram that was received since [w0] decodes to a packet with [phi]. *)
Definition heard (w0 : W) (phi : PacketHeader -> Prop) (w : W) : Prop :=
  exists bytes a p, (bytes, a) ∈ drop (length (inbox w0)) (inbox w) /\ deserialize bytes = success p /\ phi (header p).

Lemma heard_stable w0 phi : stable (fun w => later w0 w /\ heard w0 phi w).
Proof.
  intros w w' Hl [Hw (bytes & a & p & Hin & Hd & Hp)]. split; [by etrans|].
  exists bytes, a, p. split_and!; [|done..]. destruct Hl as (_ & _ & l & ->). destruct Hw as (_ & _ & m & Hm).
  rewrite Hm in *. rewrite <- app_assoc, !drop_app_length in *. apply elem_of_app. by left.
Qed.

Lemma ok_success bytes : ok (deserialize bytes) = true -> deserialize bytes = success (value (deserialize bytes)).
Proof.
  unfold ok, success, value. destruct (deserialize bytes) as [p e]. simpl. intros He. bool_to_prop. by subst.
Qed.

(** Receiving: either an error, or a datagram that has now been heard. *)
Lemma triple_recv w0 (P : W -> Prop) E L :
  stable P -> (forall w, P w -> later w0 w) ->
  triple P (sys (recv_from sock receive_size))
    (fun r w => P w /\ match r with
                       | inl (bytes, _) => ok (deserialize bytes) = true ->
                           forall phi : PacketHeader -> Prop, phi (header (value (deserialize bytes))) -> heard w0 phi w
                       | inr _ => True end) E L.
Proof.
  intros Hst Hl0. apply triple_sys. intros w Hw. pose proof (recv_from_spec sock receive_size w) as Hr.
  destruct (recv_from sock receive_size w) as [w' r]. destruct Hr as (Hv & Ho & Hi).
  assert (later w w') as Hlater.
  { split_and!; [done|exists []; by rewrite app_nil_r|]. destruct r as [[bytes e]|];
      [destruct Hi as (a & _ & Hi); by exists [(bytes, a)]|exists []; by rewrite app_nil_r]. }
  split; [by eapply Hst|]. destruct r as [[bytes e]|]; [|done]. destruct Hi as (a & _ & Hi). intros Hok phi Hphi.
  exists bytes, a, (value (deserialize bytes)). split_and!; [|by apply ok_success|done].
  rewrite Hi. destruct (Hl0 w Hw) as (_ & _ & m & ->). rewrite <- app_assoc, drop_app_length.
  apply elem_of_app. right. by apply list_elem_of_singleton.
Qed.

(** *** Control packets *)

(** The reply [exchange_control] waits for. *)
Definition expected (reply : PacketType) (ack : Z) (h : PacketHeader) : Prop :=
  packet_type h = reply /\ session_id h = sid /\ acknowledgement_number h = ack.

Lemma triple_await w0 fuel reply ack deadline P E L :
  stable P -> (forall w, P w -> later w0 w) -> (forall w, P w -> L w) ->
  triple P (await_reply sock config fuel reply ack deadline)
    (fun r w => P w /\ (r = Some Transfer.kNone -> heard w0 (expected reply ack) w)) E L.
Proof.
  intros Hst Hl0 HL. induction fuel as [|fuel IH]; simpl; [by apply triple_spin|].
  apply (triple_bind _ _ _ (fun _ => P)); [by apply triple_now|]. intros now.
  assert (forall g (o : option TransferError), o <> Some Transfer.kNone ->
    triple P (seq_bind (count g) (fun _ => ret o))
      (fun r w => P w /\ (r = Some Transfer.kNone -> heard w0 (expected reply ack) w)) E L) as Hcount.
  { intros g o Ho. apply triple_counting, triple_ret. by intros. }
  destruct (deadline - now <=? 0); [by apply Hcount|].
  apply (triple_bind _ _ _ (fun _ => P)); [by apply triple_timeout|]. intros armed.
  destruct armed; simpl; [|by apply triple_ret].
  eapply triple_bind; [by apply (triple_recv w0)|]. intros [[bytes from]|e]; simpl.
  2:{ eapply triple_pre; [|intros w [Hw _]; exact Hw].
      destruct (_ || _); [by apply Hcount|]. destruct (e =? EINTR); [done|by apply triple_ret]. }
  apply triple_counting.
  destruct (ok (deserialize bytes)) eqn:Hok; simpl; [|eapply triple_pre; [exact IH|by intros w [? _]]].
  destruct (bool_decide (packet_type _ = kError)).
  { eapply triple_pre; [by apply Hcount|by intros w [? _]]. }
  destruct (session_id _ =? sid) eqn:Hsid; simpl; [|eapply triple_pre; [exact IH|by intros w [? _]]].
  destruct (bool_decide _ && _) eqn:Hexp; [|eapply triple_pre; [exact IH|by intros w [? _]]].
  bool_to_prop. apply triple_ret. intros w [Hw Hheard]. split; [done|]. intros _. by apply Hheard.
Qed.

Lemma triple_control w0 fuel bytes reply ack P E L :
  stable P -> (forall w, P w -> later w0 w) -> (forall w, P w -> L w) -> transfer_wire bytes ->
  triple P (exchange_control sock destination config fuel bytes reply ack)
    (fun e w => P w /\ (e = Transfer.kNone -> heard w0 (expected reply ack) w)) E L.
Proof.
  intros Hst Hl0 HL Hb. unfold exchange_control. generalize true as first.
  induction (Z.to_nat (max_retries config + 1)) as [|tries IH]; intros first; simpl; [by apply triple_ret|].
  apply (triple_bind _ _ _ (fun _ => P)).
  { destruct first; [by apply triple_ret|by apply triple_count]. }
  intros _. apply (triple_bind _ _ _ (fun _ => P)); [by apply triple_send|]. intros sent.
  destruct sent; simpl; [|by apply triple_ret].
  apply (triple_bind _ _ _ (fun _ => P)); [by apply triple_now|]. intros now.
  eapply triple_bind; [by apply (triple_await w0)|]. intros [e|]; simpl.
  - apply triple_ret. intros w [Hw Hh]. split; [done|]. intros ->. by apply Hh.
  - eapply triple_pre; [apply IH|by intros w [? _]].
Qed.

(** *** The packets of the transfer, encoded *)

Lemma wire_decodes h p :
  header_wf h -> speaks h -> Z.of_nat (length p) <= kMaxPayloadSize ->
  deserialize (serialize h p) = success {| header := sent_header h p; payload := p |} /\
  packet_wf {| header := sent_header h p; payload := p |}.
Proof.
  intros Hwf Hsp Hp. destruct (serialize_fields h p Hwf Hp) as (Hf & Hd & _ & _). split.
  - rewrite (deserialize_accepted _ (packet_type h)) by (by apply serialize_accepted). by rewrite Hf, Hd.
  - split; [|done]. simpl. rewrite <- Hf. apply header_of_wf.
Qed.

Definition data_wire (k : Z) : list byte :=
  serialize (make_header kData sid k 0 (k * chunk_size config)) (chunk F cs (Z.to_nat k)).

Lemma chunk_position k : 0 <= k < total -> 0 <= k * chunk_size config < Z.of_nat (length F).
Proof.
  intros Hk. destruct Hs. pose proof (chunk_total_tight F cs (Z.to_nat k) ltac:(lia) ltac:(lia)). nia.
Qed.

Lemma data_wire_sent k : 0 <= k < total -> transfer_wire (data_wire k).
Proof.
  intros Hk. pose proof (chunk_position k Hk) as Hpos. destruct Hs.
  destruct (wire_decodes (make_header kData sid k 0 (k * chunk_size config)) (chunk F cs (Z.to_nat k))) as [Hd Hwf].
  - apply make_header_wf; unfold fits; [done|lia|done|lia].
  - done.
  - rewrite length_chunk. lia.
  - eexists. split_and!; [exact Hd| |done]. by apply (transfer_data _ k).
Qed.

Lemma start_wire_sent :
  transfer_wire (serialize (make_header kStart sid 0 0 (Z.of_nat (length F))) (remote_name config)).
Proof.
  destruct Hs. destruct (wire_decodes (make_header kStart sid 0 0 (Z.of_nat (length F))) (remote_name config)) as [Hd Hwf];
    [apply make_header_wf; unfold fits; [done|lia|done|lia]|done|done|].
  eexists. split_and!; [exact Hd| |done]. by apply transfer_start.
Qed.

Lemma fin_wire_sent :
  transfer_wire (serialize (make_header kFin sid total 0 (Z.of_nat (length F))) (sha256 F)).
Proof.
  destruct Hs. destruct (wire_decodes (make_header kFin sid total 0 (Z.of_nat (length F))) (sha256 F)) as [Hd Hwf].
  - apply make_header_wf; unfold fits; [done|lia|done|lia].
  - done.
  - by rewrite length_sha256.
  - eexists. split_and!; [exact Hd| |done]. by apply transfer_fin.
Qed.

(** *** The window, the ring and what was heard *)

Definition acked (k : Z) (h : PacketHeader) : Prop :=
  packet_type h = kAck /\ acknowledgement_number h = k.

Abbreviation cap := (if window_size config =? 0 then 1 else window_size config).

(** [pending] are the packets taken from the timers and not yet sent again. *)
Record sinv (n : Z) (pending : list Z) (window : SenderWindow Q) (ring : list InFlight) (a : Window) : Prop := {
  sinv_window : refines n window a;
  sinv_span : span a = cap;
  sinv_ring : length ring = Z.to_nat cap;
  sinv_total : upcoming a <= total;
  sinv_wire k : k ∈ unacked a -> wire (nth (in_flight_index window k) ring no_packet) = data_wire k;
  sinv_armed k : k ∈ unacked a -> k ∉ pending -> is_Some (armed a !! k)
}.

(** Everything below the next sequence number is outstanding or was heard to be
    acknowledged. *)
Definition settled (w0 : W) (a : Window) (w : W) : Prop :=
  later w0 w /\ opened (view w) (fd_ f) inode F /\
  forall k, 0 <= k < upcoming a -> k ∉ unacked a -> heard w0 (acked k) w.

Lemma settled_stable w0 a : stable (settled w0 a).
Proof.
  intros w w' Hl (Hw & Hop & Hk). split_and!; [by etrans|by destruct Hl as (-> & _)|].
  intros k Hr Hu. apply (heard_stable w0 (acked k) w w' Hl). split; [done|by apply Hk].
Qed.

Lemma sinv_capacity n pending window ring a :
  sinv n pending window ring a -> capacity_ window = cap /\ 1 <= cap < 2 ^ 32.
Proof.
  intros []. rewrite (ref_span _ _ _ sinv_window0), sinv_span0. split; [done|].
  destruct Hs. destruct (window_size config =? 0) eqn:E; bool_to_prop; lia.
Qed.

Lemma sinv_unacked n pending window ring a k :
  sinv n pending window ring a -> k ∈ unacked a -> 0 <= base_ window <= k /\ k < upcoming a /\ k < total.
Proof.
  intros [] Hk. pose proof sinv_window0 as [Ht _]. apply (ref_unacked _ _ _ Ht) in Hk as [Hk _].
  pose proof (ref_range _ _ _ Ht). pose proof (ref_next _ _ _ Ht). lia.
Qed.

(** Two outstanding packets never share a slot of the ring. *)
Lemma ring_distinct c base x y : 0 < c -> base <= x < base + c -> base <= y < base + c ->
  x mod c = y mod c -> x = y.
Proof. intros. apply (mod_inj x y c); lia. Qed.

(** *** Filling the window *)

Lemma read_chunk w k :
  opened (view w) (fd_ f) inode F -> 0 <= fd_ f -> 0 <= k < total ->
  let offset := u64 (k * chunk_size config) in
  let remaining := u64 (Z.of_nat (length F) - offset) in
  let want := if remaining <? chunk_size config then remaining else chunk_size config in
  let '(w', r) := read_at f (Z.to_nat want) offset w in
  quiet w w' /\ offset = k * chunk_size config /\ Z.to_nat want = length (chunk F cs (Z.to_nat k)) /\
  match r with inl bs => bs = chunk F cs (Z.to_nat k) | inr _ => True end.
Proof.
  intros Hop Hfd Hk. pose proof (chunk_position k Hk) as Hpos. pose proof (length_chunk F cs (Z.to_nat k)) as Hlen.
  destruct Hs. cbv zeta. rewrite (wrap_small 64 (k * chunk_size config)) by (unfold fits; lia).
  rewrite (wrap_small 64) by (unfold fits; lia).
  assert (k * chunk_size config = Z.of_nat (Z.to_nat k * cs)) as Hmul by lia.
  set (want := if _ <? _ then _ else _).
  assert (Z.to_nat want = length (chunk F cs (Z.to_nat k)) /\ 0 <= want <= kMaxPayloadSize) as [Hwant Hw].
  { subst want. destruct (_ <? _) eqn:E; bool_to_prop; lia. }
  clearbody want.
  pose proof (read_at_opened f (Z.to_nat want) (k * chunk_size config) w inode F Hop Hfd ltac:(lia)
    ltac:(unfold kMaxPayloadSize in *; lia)) as Hr.
  pose proof (read_at_net f (Z.to_nat want) (k * chunk_size config) w) as Hn.
  destruct (read_at f (Z.to_nat want) (k * chunk_size config) w) as [w' r]. destruct Hr as [Hv Hr].
  split; [by split; [|apply Hn]|]. split; [done|]. split; [done|]. destruct r; [|done].
  rewrite Hr, Hwant, Hmul, Nat2Z.id. unfold chunk. rewrite length_take, length_drop.
  destruct (Nat.min_spec cs (length F - Z.to_nat k * cs)) as [[_ ->]|[? ->]]; [done|].
  rewrite !take_ge; [done|rewrite length_drop; lia..].
Qed.

Lemma sinv_sent n window ring a dl :
  sinv n [] window ring a -> can_send window = true -> next_sequence_ window < total -> n + 1 < 2 ^ 64 ->
  let k := next_sequence_ window in
  sinv (n + 1) [] (on_sent dl window)
    (<[in_flight_index window k := {| wire := data_wire k; attempts := 1 |}]> ring) (window_sent dl a).
Proof.
  intros Hi Hc Hn Hg k. destruct (sinv_capacity _ _ _ _ _ Hi) as [Hcap Hr].
  pose proof Hi as []. pose proof sinv_window0 as [Ht Hb]. pose proof Ht as [].
  destruct Hs. assert (k = upcoming a) as Hk by done.
  assert (k < base_ window + capacity_ window) as Hroom.
  { rewrite (can_send_spec _ _ _ sinv_window0) in Hc. bool_to_prop. rewrite <- Hb in Hc. lia. }
  split.
  - apply on_sent_refines; [done|done|lia|done].
  - done.
  - by rewrite length_insert.
  - simpl. lia.
  - intros x Hx. unfold in_flight_index. cbn [capacity_ on_sent set_next set_timers set_slot].
    rewrite nth_ring by lia. simpl in Hx. rewrite <- Hk in Hx.
    destruct (decide (x = k)) as [->|Hne]; [by rewrite decide_True|].
    assert (x ∈ unacked a) as Hx' by (apply elem_of_union in Hx as [?%elem_of_singleton|]; done).
    rewrite decide_False; [by apply sinv_wire0|]. apply ref_unacked in Hx' as [? _].
    intros Hm. apply Hne. symmetry. apply (ring_distinct (capacity_ window) (base_ window)); [lia|lia|lia|done].
  - intros x Hx _. simpl in *. destruct (decide (x = upcoming a)) as [->|]; [rewrite lookup_insert_eq; done|].
    rewrite lookup_insert_ne by done. apply sinv_armed0; [|apply not_elem_of_nil].
    apply elem_of_union in Hx as [?%elem_of_singleton|]; done.
Qed.

Lemma settled_sent w0 a dl w : settled w0 a w -> 0 <= upcoming a -> settled w0 (window_sent dl a) w.
Proof.
  intros (Hl & Hop & Hk) H0. split_and!; [done..|]. simpl. intros k Hr Hu.
  apply not_elem_of_union in Hu as [Hne Hu]. rewrite not_elem_of_singleton in Hne. apply Hk; [lia|done].
Qed.

Lemma triple_fill w0 fuel n window ring a E L :
  sinv n [] window ring a -> 0 <= fd_ f ->
  (forall e w, e <> Transfer.kNone -> later w0 w -> E e w) ->
  (Z.to_nat (cap - (next_sequence_ window - base_ window)) < fuel)%nat -> n + Z.of_nat fuel < 2 ^ 64 ->
  triple (settled w0 a) (fill sock destination config fuel f (Z.of_nat (length F)) total window ring)
    (fun wr w => exists a', sinv (n + Z.of_nat fuel) [] wr.1 wr.2 a' /\ settled w0 a' w /\
       (can_send wr.1 = true -> total <= next_sequence_ wr.1)) E L.
Proof.
  intros Hi Hfd HE. revert n window ring a Hi. induction fuel as [|fuel IH]; intros n window ring a Hi Hf Hn; [lia|].
  simpl. destruct (sinv_capacity _ _ _ _ _ Hi) as [Hcap Hr]. pose proof Hi as [].
  pose proof sinv_window0 as [Ht Hb]. pose proof Ht as [].
  destruct (can_send window) eqn:Hc; simpl.
  2:{ apply triple_ret. intros w Hw. exists a. split_and!; [|done|simpl; congruence].
      split; try done. eapply refines_mono; [done|lia]. }
  destruct (next_sequence_ window <? total) eqn:Hlt; bool_to_prop.
  2:{ apply triple_ret. intros w Hw. exists a. split_and!; [|done|simpl; lia].
      split; try done. eapply refines_mono; [done|lia]. }
  set (k := next_sequence_ window) in *.
  eapply (triple_bind _ _ _ (fun r w => settled w0 a w /\ match r with inl bs =>
      bs = chunk F cs (Z.to_nat k) /\ u64 (k * chunk_size config) = k * chunk_size config | inr _ => True end)).
  { apply triple_sys. intros w Hw. pose proof (read_chunk w k (proj1 (proj2 Hw)) Hfd ltac:(lia)) as Hread.
    cbv zeta in Hread. destruct (read_at _ _ _ w) as [w' r]. destruct Hread as (Hq & Hoff & _ & Hbs).
    split; [eapply settled_stable; [by apply quiet_later|done]|]. by destruct r. }
  intros [bs|e].
  2:{ apply triple_throw. intros w [(Hl & _) _]. by apply HE. }
  destruct (negb _); [apply triple_throw; intros w [(Hl & _) _]; by apply HE|].
  eapply triple_pre; [|intros w [Hw [Hbs Hoff]]; exact (conj (conj Hbs Hoff) Hw)]. apply triple_prop.
  intros [-> Hoff]. rewrite Hoff. change (serialize _ _) with (data_wire k).
  apply (triple_bind _ _ _ (fun _ => settled w0 a)).
  { apply triple_send; [apply settled_stable|apply data_wire_sent; lia]. }
  intros sent. destruct sent; simpl; [|apply triple_throw; intros w (Hl & _); by apply HE].
  apply (triple_bind _ _ _ (fun _ => settled w0 a)); [apply triple_now, settled_stable|]. intros now.
  pose proof (sinv_sent n window ring a (now + rto_ticks config) Hi Hc Hlt ltac:(lia)) as Hi'.
  eapply triple_pre; [|intros w Hw; apply (settled_sent _ _ (now + rto_ticks config) _ Hw); lia].
  replace (n + Z.of_nat (S fuel)) with (n + 1 + Z.of_nat fuel) by lia.
  apply IH; [exact Hi'| |lia]. cbn [on_sent next_sequence_ base_ set_next set_timers set_slot].
  destruct Hs. rewrite wrap_small by (unfold fits; lia).
  rewrite (can_send_spec _ _ _ sinv_window0), <- Hb in Hc. bool_to_prop. lia.
Qed.

(** *** Acknowledgements, timeouts, and the loop *)

Lemma sinv_mono n m pending window ring a :
  sinv n pending window ring a -> n <= m -> sinv m pending window ring a.
Proof. intros [] ?. split; try done. by eapply refines_mono. Qed.

Lemma sinv_acked n window ring a s :
  sinv n [] window ring a -> n + 1 < 2 ^ 64 ->
  sinv (n + 1) [] (on_ack s window).1 ring (if bool_decide (s ∈ unacked a) then window_ack s a else a).
Proof.
  intros Hi Hn. destruct (sinv_capacity _ _ _ _ _ Hi) as [Hcap _]. pose proof Hi as [].
  pose proof (on_ack_refines n window a s sinv_window0 Hn) as Ha.
  destruct (on_ack s window) as [window' b]. destruct Ha as [_ Ha]. cbn [fst].
  assert (capacity_ window' = capacity_ window) as Hc'.
  { rewrite (ref_span _ _ _ Ha), Hcap, <- sinv_span0. by case_bool_decide. }
  split; [exact Ha|by case_bool_decide|done|by case_bool_decide|..].
  - intros k Hk. unfold in_flight_index. rewrite Hc'. apply sinv_wire0.
    case_bool_decide; [|done]. simpl in Hk. by apply elem_of_difference in Hk as [? _].
  - intros k Hk Hp. case_bool_decide; [|by apply sinv_armed0]. simpl in *.
    apply elem_of_difference in Hk as [Hk Hne]. rewrite elem_of_singleton in Hne.
    rewrite lookup_delete_ne by done. by apply sinv_armed0.
Qed.

Lemma triple_take_ack w0 n window ring a E L :
  sinv n [] window ring a -> n + 1 < 2 ^ 64 -> (forall e w, e <> Transfer.kNone -> later w0 w -> E e w) ->
  triple (settled w0 a) (take_ack sock window)
    (fun window' w => exists a', sinv (n + 1) [] window' ring a' /\ settled w0 a' w) E L.
Proof.
  intros Hi Hn HE. unfold take_ack.
  eapply triple_bind; [apply (triple_recv w0); [apply settled_stable|by intros w (? & _)]|].
  assert (sinv (n + 1) [] window ring a) as Hi1 by (eapply sinv_mono; [done|lia]).
  intros [[bytes from]|e]; simpl.
  2:{ destruct (_ && _); [apply triple_throw; intros w [(? & _) _]; by apply HE|].
      apply triple_ret. intros w [Hw _]. by exists a. }
  apply triple_counting. destruct (ok (deserialize bytes)) eqn:Hok; simpl.
  2:{ apply triple_ret. intros w [Hw _]. by exists a. }
  destruct (bool_decide _) eqn:Hack; [|apply triple_ret; intros w [Hw _]; by exists a]. bool_to_prop.
  set (s := acknowledgement_number _).
  pose proof (sinv_acked n window ring a s Hi Hn) as Hi'. destruct (on_ack s window) as [window' b]. cbn [fst] in Hi'.
  set (a' := if bool_decide _ then _ else _) in Hi'.
  assert (forall w, settled w0 a w /\ (ok (deserialize bytes) = true -> forall phi : PacketHeader -> Prop,
    phi (header (value (deserialize bytes))) -> heard w0 phi w) -> settled w0 a' w) as Hset.
  { intros w [(Hl & Hop & Hk) Hh]. split_and!; [done..|]. intros k Hr Hu. subst a'.
    destruct (decide (k = s)) as [->|Hne]; [by apply Hh|]. apply Hk; [by case_bool_decide|].
    case_bool_decide; [|done]. set_solver. }
  rewrite Hok in Hset.
  destruct b; simpl; [|apply triple_counting]; apply triple_ret; intros w Hw; exists a'; (split; [done|by apply Hset]).
Qed.

Lemma sinv_resent n window ring a k expired dl :
  sinv n (k :: expired) window ring a -> k ∈ unacked a -> n + 1 < 2 ^ 64 ->
  let slot := nth (in_flight_index window k) ring no_packet in
  sinv (n + 1) expired (reschedule k dl window)
    (<[in_flight_index window k := {| wire := wire slot; attempts := attempts slot + 1 |}]> ring) (window_arm k dl a).
Proof.
  intros Hi Hk Hn. destruct (sinv_capacity _ _ _ _ _ Hi) as [Hcap Hr]. pose proof Hi as [].
  pose proof (reschedule_refines n window a k dl sinv_window0 Hn) as Hre. rewrite bool_decide_true in Hre by done.
  assert (capacity_ (reschedule k dl window) = capacity_ window) as Hc'.
  { by rewrite (ref_span _ _ _ Hre), Hcap, <- sinv_span0. }
  cbv zeta. rewrite (sinv_wire0 k Hk). split; [done|done|by rewrite length_insert|done| |].
  - intros x Hx. unfold in_flight_index. rewrite Hc', nth_ring by lia.
    case_decide as Hm; [|by apply sinv_wire0]. simpl. f_equal.
    pose proof (sinv_unacked _ _ _ _ _ k Hi Hk). pose proof (sinv_unacked _ _ _ _ _ x Hi Hx).
    pose proof (ref_range _ _ _ sinv_window0). pose proof (ref_next _ _ _ sinv_window0).
    apply (ring_distinct (capacity_ window) (base_ window)); [lia|lia|lia|done].
  - intros x Hx Hp. simpl. destruct (decide (x = k)) as [->|]; [by rewrite lookup_insert_eq|].
    rewrite lookup_insert_ne by done. apply sinv_armed0; [done|]. by apply not_elem_of_cons.
Qed.

Lemma triple_retransmit w0 expired n window ring a E L :
  sinv n expired window ring a -> Forall (fun k => k ∈ unacked a) expired ->
  n + Z.of_nat (length expired) < 2 ^ 64 -> (forall e w, e <> Transfer.kNone -> later w0 w -> E e w) ->
  triple (settled w0 a) (retransmit sock destination config expired window ring)
    (fun wr w => exists a', sinv (n + Z.of_nat (length expired)) [] wr.1 wr.2 a' /\ settled w0 a' w) E L.
Proof.
  intros Hi Hex Hn HE. revert n window ring a Hi Hex Hn.
  induction expired as [|k expired IH]; intros n window ring a Hi Hex Hn; simpl.
  { apply triple_ret. intros w Hw. exists a. rewrite Z.add_0_r. done. }
  inversion_clear Hex as [|? ? Hk Hex']. destruct (_ <=? _); [apply triple_throw; intros w (? & _); by apply HE|].
  do 2 apply triple_counting. simpl in Hn.
  apply (triple_bind _ _ _ (fun _ => settled w0 a)).
  { rewrite (sinv_wire _ _ _ _ _ Hi k Hk). apply triple_send; [apply settled_stable|]. apply data_wire_sent.
    pose proof (sinv_unacked _ _ _ _ _ k Hi Hk). lia. }
  intros sent. destruct sent; simpl; [|apply triple_throw; intros w (? & _); by apply HE].
  apply (triple_bind _ _ _ (fun _ => settled w0 a)); [apply triple_now, settled_stable|]. intros now.
  replace (n + Z.of_nat (S (length expired))) with (n + 1 + Z.of_nat (length expired)) by lia.
  apply (triple_pre _ (settled w0 (window_arm k (now + rto_ticks config) a))); [|by intros w Hw].
  apply IH; [by apply sinv_resent; [..|lia]|done|lia].
Qed.

Lemma sinv_expired n window ring a now :
  sinv n [] window ring a -> n + cap < 2 ^ 64 ->
  let '(window', l) := expire now window in
  sinv (n + cap) l window' ring (window_expired now a) /\ Forall (fun k => k ∈ unacked a) l /\
  Z.of_nat (length l) <= cap /\ due now a l.
Proof.
  intros Hi Hn. destruct (sinv_capacity _ _ _ _ _ Hi) as [Hcap Hr]. pose proof Hi as [].
  pose proof (expire_refines n window a now sinv_window0 ltac:(lia)) as He.
  destruct (expire now window) as [window' l]. destruct He as [Hd He]. rewrite Hcap in He.
  assert (capacity_ window' = capacity_ window) as Hc' by (rewrite (ref_span _ _ _ He), Hcap; done).
  split_and!.
  - split; [done|done|done|done| |].
    + intros k Hk. unfold in_flight_index. rewrite Hc'. by apply sinv_wire0.
    + intros k Hk Hp. simpl in *. destruct (sinv_armed0 k Hk ltac:(apply not_elem_of_nil)) as [d Hkd].
      exists d. apply map_lookup_filter_Some. split; [done|]. simpl.
      destruct (decide (now < d)); [done|]. exfalso. apply Hp, Hd. exists d. split; [done|lia].
  - apply Forall_forall. intros k Hk. apply Hd in Hk as (d & Hkd & _).
    exact (armed_unacked n window a k d (ref_tracks _ _ _ sinv_window0) Hkd).
  - pose proof (due_length now a l Hd). pose proof (armed_size n window a sinv_window0). lia.
  - done.
Qed.

(** Once the loop's window has nothing outstanding below [total], every chunk
    has been acknowledged. *)
Definition all_acked (w0 w : W) : Prop := forall k, 0 <= k < total -> heard w0 (acked k) w.

Lemma settled_all w0 a w :
  settled w0 a w -> total <= upcoming a -> (forall k, 0 <= k < total -> k ∉ unacked a) -> all_acked w0 w.
Proof. intros (_ & _ & Hk) Hup Hu k Hr. apply Hk; [lia|by apply Hu]. Qed.

Lemma sinv_same n window window' ring a :
  sinv n [] window ring a -> refines n window' a -> sinv n [] window' ring a.
Proof.
  intros Hi Hr. pose proof Hi as []. split; try done. intros k Hk. unfold in_flight_index.
  rewrite (ref_span _ _ _ Hr), <- (ref_span _ _ _ sinv_window0). by apply sinv_wire0.
Qed.

Lemma triple_main_loop w0 fuel n window ring a E (L : W -> Prop) :
  sinv n [] window ring a -> 0 <= fd_ f -> n + Z.of_nat fuel * (3 * cap + 3) < 2 ^ 64 ->
  (forall e w, e <> Transfer.kNone -> later w0 w -> E e w) -> (forall w, later w0 w -> L w) ->
  triple (settled w0 a) (main_loop sock destination config fuel f (Z.of_nat (length F)) total window ring)
    (fun _ w => later w0 w /\ all_acked w0 w) E L.
Proof.
  intros Hi Hfd Hn HE HL. revert n window ring a Hi Hn.
  induction fuel as [|fuel IH]; intros n window ring a Hi Hn; cbn [main_loop].
  { apply triple_spin. intros w (? & _). by apply HL. }
  destruct (sinv_capacity _ _ _ _ _ Hi) as [Hcap Hr].
  destruct (base_ window <? total) eqn:Hbase; bool_to_prop.
  2:{ apply triple_ret. intros w Hw. split; [exact (proj1 Hw)|]. pose proof Hi as [].
      pose proof (ref_range _ _ _ sinv_window0). pose proof (ref_next _ _ _ sinv_window0).
      apply (settled_all w0 a w Hw); [lia|]. intros k Hk Hu.
      pose proof (sinv_unacked _ _ _ _ _ k Hi Hu). lia. }
  rewrite Hcap. set (c := cap) in *.
  eapply triple_bind.
  { apply (triple_fill w0 (S (Z.to_nat c)) n window ring a); [done|done|done| |lia].
    pose proof Hi as []. pose proof (ref_range _ _ _ sinv_window0). lia. }
  intros [window1 ring1]. cbv beta iota.
  apply (triple_pre _ (fun w => exists a', (sinv (n + Z.of_nat (S (Z.to_nat c))) [] window1 ring1 a' /\
    (can_send window1 = true -> total <= next_sequence_ window1)) /\ settled w0 a' w));
    [|intros w (a1 & ? & ? & ?); by exists a1].
  apply triple_ex. intros a1 [Hi1 Hfull].
  pose proof Hi1 as Hi1'. destruct Hi1' as [].
  pose proof (earliest_deadline_refines _ window1 a1 sinv_window0) as Hd.
  destruct (earliest_deadline window1) as [window2 o]. destruct Hd as [Ho Hr2].
  pose proof (sinv_same _ _ window2 _ _ Hi1 Hr2) as Hi2.
  destruct o as [dl|].
  2:{ apply triple_ret. intros w Hw. split; [exact (proj1 Hw)|].
      assert (unacked a1 = ∅) as Hempty.
      { apply set_eq. intros k. split; [|set_solver]. intros Hk.
        destruct (sinv_armed0 k Hk ltac:(apply not_elem_of_nil)) as [d Hkd]. by rewrite Ho in Hkd. }
      pose proof (ref_next _ _ _ sinv_window0) as Hnext.
      apply (settled_all w0 a1 w Hw); [|intros k _; rewrite Hempty; set_solver].
      rewrite <- Hnext. apply Hfull. rewrite (can_send_spec _ _ _ sinv_window0). apply bool_decide_eq_true.
      rewrite Hempty. unfold lowest. rewrite elements_empty. simpl. rewrite sinv_span0. lia. }
  apply (triple_bind _ _ _ (fun _ => settled w0 a1)); [apply triple_now, settled_stable|]. intros now. cbv zeta.
  apply (triple_bind _ _ _ (fun _ => settled w0 a1)); [apply triple_timeout, settled_stable|]. intros armed.
  destruct armed; simpl; [|apply triple_throw; intros w (? & _); by apply HE].
  eapply triple_bind; [apply (triple_take_ack w0 _ window2 ring1 a1 _ _ Hi2); [lia|done]|].
  intros window3. apply triple_ex. intros a3 Hi3.
  apply (triple_bind _ _ _ (fun _ => settled w0 a3)); [apply triple_now, settled_stable|]. intros now'.
  pose proof (sinv_expired _ window3 ring1 a3 now' Hi3 ltac:(lia)) as Hx.
  destruct (expire now' window3) as [window4 expired]. destruct Hx as (Hi4 & Hun & Hlen & _).
  apply (triple_pre _ (settled w0 (window_expired now' a3))); [|by intros w Hw].
  eapply triple_bind; [apply (triple_retransmit w0 expired _ window4 ring1 _ _ _ Hi4); [done|lia|done]|].
  intros [window5 ring5]. cbv beta iota. apply triple_ex. intros a5 Hi5.
  apply (IH _ window5 ring5 a5 Hi5). lia.
Qed.

(** *** The whole of [send_file] *)

Lemma hash_file_spec w :
  opened (view w) (fd_ f) inode F -> 0 <= fd_ f ->
  let '(w', r) := hash_file f (Z.of_nat (length F)) w in
  quiet w w' /\ match r with Some d => d = sha256 F | None => True end.
Proof.
  intros Ho Hf. unfold hash_file. destruct Hs.
  pose proof (hash_back_offline (hash_fuel (Z.of_nat (length F))) f (Z.of_nat (length F)) 0 new_hasher w) as Hn.
  pose proof (hash_back_spec (hash_fuel (Z.of_nat (length F))) f (Z.of_nat (length F)) 0 new_hasher w inode F Ho Hf) as Hb.
  destruct (hash_back _ f _ 0 new_hasher w) as [w' r]. destruct Hb as [Hv Hr]; [lia|lia| |simpl; lia|apply new_hasher_represents|].
  { unfold hash_fuel, kHashBlock. pose proof (Z.mul_succ_div_gt (Z.of_nat (length F)) (64 * 1024) ltac:(lia)).
    pose proof (Z.div_pos (Z.of_nat (length F)) (64 * 1024)). lia. }
  destruct r as [h|]; (split; [split; [exact Hv|exact Hn]|]); [|done].
  destruct Hr as [_ Hr]. apply finish_represents in Hr. by rewrite Hr, <- sha256_spec, Nat2Z.id, firstn_all.
Qed.

Lemma chunk_count_total : chunk_count (Z.of_nat (length F)) (chunk_size config) = Some total.
Proof.
  destruct Hs. unfold kMaxPayloadSize in *.
  pose proof (chunk_count_spec (Z.of_nat (length F)) (chunk_size config) ltac:(lia) ltac:(lia) ltac:(lia)) as Hc.
  pose proof (chunk_total_covers F cs ltac:(lia)) as Hcov.
  assert (total = 0 \/ (total - 1) * chunk_size config < Z.of_nat (length F)) as Htight.
  { destruct (chunk_total F cs) as [|m] eqn:Ht; [by left|]. right.
    pose proof (chunk_total_tight F cs m ltac:(lia) ltac:(lia)). nia. }
  destruct (chunk_count _ _) as [n|]; [|nia]. f_equal. unfold fits in Hc. nia.
Qed.

(** Everything the other side has to confirm was confirmed. *)
Definition completed (w0 w : W) : Prop :=
  heard w0 (expected kStartAck 0) w /\ all_acked w0 w /\ heard w0 (expected kFinAck total) w.

Definition ready (w0 w : W) : Prop := later w0 w /\ opened (view w) (fd_ f) inode F.

Lemma ready_stable w0 : stable (ready w0).
Proof. intros w w' Hl [Hw Ho]. split; [by etrans|by destruct Hl as (-> & _)]. Qed.

Lemma heard_mono w0 w1 w2 phi : later w0 w1 -> later w1 w2 -> heard w0 phi w1 -> heard w0 phi w2.
Proof. intros. by apply (heard_stable w0 phi w1 w2). Qed.

Lemma heard_since w0 w1 w2 phi : later w0 w1 -> heard w1 phi w2 -> heard w0 phi w2.
Proof.
  intros (_ & _ & m & Hm) (bytes & a & p & Hin & Hd & Hp). exists bytes, a, p. split_and!; [|done..].
  rewrite Hm, length_app, <- drop_drop in Hin. apply (elem_of_submseteq _ _ _ Hin), sublist_submseteq, sublist_drop.
Qed.

Lemma new_window_sinv :
  let window := new_sender_window (window_size config) in
  sinv 0 [] window (replicate (Z.to_nat (capacity_ window)) no_packet) (idle cap).
Proof.
  destruct Hs. pose proof (new_sender_window_refines (window_size config) snd_window0) as Hr.
  split; [exact Hr|done| |simpl; lia|simpl; set_solver..].
  rewrite length_replicate, (ref_span _ _ _ Hr). done.
Qed.

Abbreviation failed w0 := (fun (e : TransferError) w => e <> Transfer.kNone /\ later w0 w).

Lemma triple_send_opened w0 fuel :
  0 <= fd_ f -> Z.of_nat fuel * (3 * cap + 3) < 2 ^ 64 ->
  triple (ready w0) (send_opened (Q:=Q) sock destination config fuel f)
    (fun e w => e = Transfer.kNone /\ later w0 w /\ completed w0 w) (failed w0) (later w0).
Proof.
  intros Hfd Hfuel. unfold send_opened, conclude. pose proof Hs as [].
  apply (triple_bind _ _ _ (fun r w => ready w0 w /\ forall n, r = inl n -> n = Z.of_nat (length F))).
  { apply triple_sys. intros w Hw. unfold size, valid. rewrite (proj2 (Z.leb_le _ _)) by done. simpl.
    pose proof (law_fstat (fd_ f) w) as Hl. pose proof (law_fstat_net (fd_ f) w) as Hn.
    destruct (sys_fstat_size (fd_ f) w) as [w' [n|e]]; destruct Hl as [Hv Hl]; simpl in Hn;
      (split; [apply (ready_stable w0 w); [apply quiet_later; by split|done]|]); [|done].
    intros ? [= <-]. destruct Hl as (i & c & Ho & ->). destruct Hw as [_ Ho'].
    unfold opened in *. destruct Ho, Ho'. simplify_eq. apply wrap_small. unfold fits. lia. }
  intros [n|e]; [|by apply triple_throw; intros w [[? _] _]].
  apply (triple_pre _ (fun w => n = Z.of_nat (length F) /\ ready w0 w)); [|intros w [? Hn]; split; [by apply Hn|done]].
  apply triple_prop. intros ->. rewrite chunk_count_total.
  apply (triple_bind _ _ _ (fun r w => (match r with Some d => d = sha256 F | None => True end) /\ ready w0 w)).
  { apply triple_sys. intros w Hw. pose proof (hash_file_spec w (proj2 Hw) Hfd) as Hh.
    destruct (hash_file f _ w) as [w' r]. destruct Hh as [Hq Hh]. split; [done|].
    apply (ready_stable w0 w); [by apply quiet_later|done]. }
  intros [d|]; [|by apply triple_throw; intros w [_ [? _]]]. apply triple_prop. intros ->.
  apply (triple_bind _ _ _ (fun _ => ready w0)); [apply triple_now, ready_stable|]. intros started.
  eapply triple_bind; [apply (triple_control w0); [apply ready_stable|by intros w [? _]..|apply start_wire_sent]|].
  intros e. cbv beta. destruct (bool_decide (e = kPeerUnresponsive)); [by apply triple_throw; intros w [[? _] _]|].
  destruct (bool_decide (e = Transfer.kNone)) eqn:He; simpl negb; cbv iota; bool_to_prop;
    [|apply triple_throw; intros w [[? _] _]; by split].
  apply triple_from. intros w1 [[Hl1 Ho1] Hstart]. specialize (Hstart He). cbv zeta.
  apply (triple_bind _ _ _ (fun _ w => later w1 w /\ all_acked w1 w)).
  { apply (triple_pre _ (settled w1 (idle cap))); [|intros w ->; split_and!; [done..|simpl; lia]].
    apply (triple_main_loop w1 fuel 0); [apply new_window_sinv|done|lia| |].
    - intros e' w Hne Hl. split; [done|by etrans].
    - intros w Hl. by etrans. }
  intros _. apply triple_counting.
  rewrite (wrap_small 32 total) by (unfold fits; lia).
  eapply triple_bind.
  { apply (triple_control w0); [| | |apply fin_wire_sent].
    - intros w w' Hl [Hw Hk]. split; [by etrans|]. intros k Hr. by apply (heard_mono _ w), Hk.
    - intros w [Hw _]. by etrans.
    - intros w [Hw _]. by etrans. }
  intros e'. cbv beta. destruct (bool_decide (e' = Transfer.kNone)) eqn:He'; simpl negb; cbv iota; bool_to_prop.
  2:{ apply triple_throw. intros w [[? _] _]. split; [done|by etrans]. }
  apply (triple_bind _ _ _ (fun _ w => later w0 w /\ completed w0 w)).
  2:{ intros now. apply triple_counting, triple_ret. by intros w [? ?]. }
  apply triple_sys. intros w [[Hl Hack] Hfin]. specialize (Hfin He').
  pose proof (quiet_later w (sys_now w).1 (now_quiet w)) as Hl'.
  destruct (sys_now w) as [w' t]. simpl in Hl'.
  assert (later w0 w) as Hl0 by (by etrans). split; [by etrans|]. split_and!.
  - apply (heard_mono _ w1); [done|by etrans|done].
  - intros k Hr. apply (heard_since _ w1); [done|]. apply (heard_mono _ w); [done..|]. by apply Hack.
  - by apply (heard_mono _ w).
Qed.
End Sending.

(** ** Claims *)

Section Claims.
Context {W : Type} `{NL : NetworkLaws W}.
Context {Q : Type} `{PQL : PriorityQueueLaws Entry entry_less Q}.
Implicit Types (w : W).

Abbreviation capacity c := (if window_size c =? 0 then 1 else window_size c).

Lemma set_drop_handle v fd i : handles v !! fd = None -> drop_handle fd (set_handle fd i v) = v.
Proof. intros Hf. unfold drop_handle, set_handle. simpl. rewrite delete_insert_id by done. by destruct v. Qed.

(** What [send_file] does to the system, and when it succeeds. *)
Lemma send_file_sends sock destination config F fuel p w st i :
  sendable config F -> names (view w) !! p = Some i -> data (view w) !! i = Some F ->
  Z.of_nat fuel * (3 * capacity config + 3) < 2 ^ 64 ->
  let '(w', _, r) := send_file (Q:=Q) sock destination config fuel p w st in
  (exists l, outbox w' = outbox w ++ l /\
     Forall (fun d => transfer_wire config F d.1 /\ to_sockaddr destination = Some d.2) l) /\
  (r <> None -> view w' = view w) /\
  (r = Some Transfer.kNone -> completed config F w w').
Proof.
  intros Hs Hp Hd Hfuel. unfold send_file, open_read, open_with, close, valid. simpl.
  pose proof (law_open p O_RDONLY w) as Hl. pose proof (law_open_net p O_RDONLY w) as [Ho Hi].
  destruct (sys_open p O_RDONLY w) as [w1 [fd|e]]; simpl in Ho, Hi.
  2:{ simpl. split_and!; [exists []; by rewrite app_nil_r|done|done]. }
  destruct Hl as (Hfd & Hfree & j & Hj & Hv). rewrite Hp in Hj. injection Hj as <-. rewrite (proj2 (Z.leb_le _ _)) by done. simpl negb. cbv iota.
  set (f := {| fd_ := fd |}).
  assert (opened (view w1) (fd_ f) i F) as Hopen by (rewrite Hv; split; [apply lookup_insert_eq|exact Hd]).
  pose proof (triple_run _ w1 (locals config st) _ _ _ _ _ (triple_send_opened (Q:=Q) sock destination config F f i Hs w1 fuel Hfd Hfuel)) as Ht.
  destruct (send_opened _ _ _ _ _ _ _) as [[w2 st2] r].
  assert (later destination config F w1 w1) as Hrefl by (by apply quiet_later).
  specialize (Ht (conj Hrefl Hopen) I).
  assert (exists e, later destination config F w1 w2 /\
    (r = Val e \/ r = Ret e \/ r = Spin) /\ (e = Transfer.kNone -> r <> Spin -> completed config F w1 w2)) as (e & Hlater & Hr & Hdone).
  { destruct r as [e|e|].
    - exists e. destruct Ht as (_ & ? & ?). split_and!; [done|by left|done].
    - exists e. split_and!; [apply Ht|right; by left|]. intros ->. by destruct Ht.
    - exists kSendFailed. split_and!; [done|by right; right|done]. }
  destruct Hlater as (Hv2 & (l & Hout & Hhonest) & (m & Hin)).
  pose proof (close_view f w2) as Hcv. pose proof (law_close_net (fd_ f) w2) as [Hco Hci].
  unfold close, valid in Hcv. rewrite (proj2 (Z.leb_le 0 (fd_ f))) in Hcv by done. simpl in Hcv.
  assert (view (sys_close fd w2) = view w) as Hview by (by rewrite Hcv, Hv2, Hv, set_drop_handle).
  assert (e = Transfer.kNone -> r <> Spin -> completed config F w (sys_close fd w2)) as Hcomplete.
  { intros He Hsp. specialize (Hdone He Hsp). clear Hr. revert Hdone.
    unfold completed, all_acked, heard. simpl in Hci. rewrite Hi, Hci. done. }
  destruct r as [e'|e'|]; destruct Hr as [Hr|[Hr|Hr]]; simplify_eq; simpl;
    rewrite ?(proj2 (Z.leb_le 0 fd) Hfd); simpl.
  all: split_and!; try done; try (exists l; split; [|done]; simpl in Hco; by rewrite ?Hco, Hout, Ho).
  all: intros [= ->]; by apply Hcomplete.
Qed.

Lemma send_file_spec sock destination config F fuel p w st i :
  sendable config F -> names (view w) !! p = Some i -> data (view w) !! i = Some F ->
  Z.of_nat fuel * (3 * capacity config + 3) < 2 ^ 64 ->
  let '(w', _, r) := send_file (Q:=Q) sock destination config fuel p w st in
  (exists l, outbox w' = outbox w ++ l /\
     Forall (fun d => honest_wire config F d.1 /\ to_sockaddr destination = Some d.2) l) /\
  (r <> None -> view w' = view w) /\
  (r = Some Transfer.kNone -> completed config F w w').
Proof.
  intros Hs Hp Hd Hfuel. pose proof (send_file_sends sock destination config F fuel p w st i Hs Hp Hd Hfuel) as Hspec.
  destruct (send_file _ _ _ _ _ _ _) as [[w' st'] r]. destruct Hspec as ((l & Ho & Hl) & Hrest).
  split; [|exact Hrest]. exists l. split; [done|]. eapply Forall_impl; [exact Hl|].
  intros d [Hd' Ha]. split; [by apply transfer_wire_honest|done].
Qed.

(** C10: only packets of the transfer.  Whatever the network does, however the
    transfer ends and while it is still running, every datagram the sender has
    handed to the system is addressed to the destination and decodes to one of
    exactly these: START with number 0, the file's size and the name; DATA with
    number [k] below the number of chunks, offset [k] times the chunk size and chunk
    [k] of the file; FIN with the number of chunks, the size and the SHA-256 of the
    file; each with the session's id and no acknowledgement.  The files are
    left as they were and the descriptor is closed whenever [send_file] returns. *)
Theorem sender_sends_only_honest_packets sock destination config F fuel p w st i :
  sendable config F -> names (view w) !! p = Some i -> data (view w) !! i = Some F ->
  Z.of_nat fuel * (3 * capacity config + 3) < 2 ^ 64 ->
  let '(w', _, r) := send_file (Q:=Q) sock destination config fuel p w st in
  (exists l, outbox w' = outbox w ++ l /\
     Forall (fun d => transfer_wire config F d.1 /\ to_sockaddr destination = Some d.2) l) /\
  (r <> None -> view w' = view w).
Proof.
  intros Hs Hp Hd Hfuel. pose proof (send_file_sends sock destination config F fuel p w st i Hs Hp Hd Hfuel) as Hspec.
  destruct (send_file _ _ _ _ _ _ _) as [[w' st'] r]. destruct Hspec as (? & ? & _). by split.
Qed.

(** C11: success is earned.  [send_file] returns [kNone] only after datagrams
    were received, since it was called, that decode to a START_ACK of the session,
    an ACK for every single chunk of the file, and a FIN_ACK of the session for
    that number of chunks. *)
Theorem success_means_acknowledged sock destination config F fuel p w st i :
  sendable config F -> names (view w) !! p = Some i -> data (view w) !! i = Some F ->
  Z.of_nat fuel * (3 * capacity config + 3) < 2 ^ 64 ->
  let '(w', _, r) := send_file (Q:=Q) sock destination config fuel p w st in
  r = Some Transfer.kNone -> completed config F w w'.
Proof.
  intros Hs Hp Hd Hfuel. pose proof (send_file_sends sock destination config F fuel p w st i Hs Hp Hd Hfuel) as Hspec.
  destruct (send_file _ _ _ _ _ _ _) as [[w' st'] r]. by destruct Hspec as (_ & _ & ?).
Qed.
End Claims.
