(* ===== verification/DelayProxy.v ===== *)
(** * The delay proxy

    src/tools/delay_proxy.cpp: a relay between a client and the server that delays,
    loses, duplicates, reorders and corrupts datagrams.  The probabilities are
    doubles (Doubles.v) compared with draws from the generator of Mt19937.v, the heap
    is the priority queue of PriorityQueue.v, the sockets and the clock are those of
    Net.v, and the wait on both sockets and the stop flag are the class [Relay].
    Printing is left out. *)

From Stdlib Require Import Floats.SpecFloat.
From S2P Require Import Prelude Words Doubles Mt19937 Text Transfer PriorityQueue FileIO Net.
Open Scope Z_scope.

Class Relay (W : Type) := {
  (** [uniform_int_distribution(0, high)(rng)], whose algorithm is the library's. *)
  uniform_int : Z -> Mt19937 -> Mt19937 * Z;
  (** [ppoll] on both sockets: which are readable, or [errno]. *)
  sys_ppoll : Z -> Z -> W -> W * (bool * bool + Z);
  (** [g_stop != 0] *)
  sys_stopped : W -> W * bool;
  (** [std::random_device{}()] *)
  sys_random_seed : W -> W * Z
}.

Definition kMaxDatagram : nat := Z.to_nat 65536.

(** ** Random decisions *)

Record CorrelatedRandom := { rho_ : Double; last_ : Double }.
Definition correlated (rho : Double) : CorrelatedRandom := {| rho_ := rho; last_ := dzero |}.

Record GilbertElliott := { to_bad_ : Double; to_good_ : Double; bad_ : bool }.
Definition gilbert_elliott (to_bad to_good : Double) : GilbertElliott :=
  {| to_bad_ := to_bad; to_good_ := to_good; bad_ := false |}.
Definition set_bad (b : bool) (g : GilbertElliott) : GilbertElliott :=
  {| to_bad_ := to_bad_ g; to_good_ := to_good_ g; bad_ := b |}.

Record Impairment := {
  loss : Double;
  loss_correlation : Double;
  burst_loss : Double;
  burst_length : Double;
  duplicate : Double;
  reorder : Double;
  reorder_correlation : Double;
  corrupt : Double
}.
Definition no_impairment : Impairment := {|
  loss := dzero; loss_correlation := dzero; burst_loss := dzero; burst_length := dint 4;
  duplicate := dzero; reorder := dzero; reorder_correlation := dzero; corrupt := dzero |}.

Definition gilbert_to_good (i : Impairment) : Double := ddiv (dint 1) (burst_length i).
Definition gilbert_to_bad (i : Impairment) : Double :=
  if SFleb (dint 1) (burst_loss i) then dint 1
  else dmul (ddiv (burst_loss i) (dsub (dint 1) (burst_loss i))) (gilbert_to_good i).

Record Generators := {
  loss_generator : CorrelatedRandom;
  reorder_generator : CorrelatedRandom;
  duplicate_generator : CorrelatedRandom;
  corrupt_generator : CorrelatedRandom;
  burst : GilbertElliott
}.
Definition make_generators (i : Impairment) : Generators := {|
  loss_generator := correlated (loss_correlation i); reorder_generator := correlated (reorder_correlation i);
  duplicate_generator := correlated dzero; corrupt_generator := correlated dzero;
  burst := gilbert_elliott (gilbert_to_bad i) (gilbert_to_good i) |}.
Definition set_loss_generator (c : CorrelatedRandom) (g : Generators) : Generators := {|
  loss_generator := c; reorder_generator := reorder_generator g; duplicate_generator := duplicate_generator g;
  corrupt_generator := corrupt_generator g; burst := burst g |}.
Definition set_reorder_generator (c : CorrelatedRandom) (g : Generators) : Generators := {|
  loss_generator := loss_generator g; reorder_generator := c; duplicate_generator := duplicate_generator g;
  corrupt_generator := corrupt_generator g; burst := burst g |}.
Definition set_duplicate_generator (c : CorrelatedRandom) (g : Generators) : Generators := {|
  loss_generator := loss_generator g; reorder_generator := reorder_generator g; duplicate_generator := c;
  corrupt_generator := corrupt_generator g; burst := burst g |}.
Definition set_corrupt_generator (c : CorrelatedRandom) (g : Generators) : Generators := {|
  loss_generator := loss_generator g; reorder_generator := reorder_generator g;
  duplicate_generator := duplicate_generator g; corrupt_generator := c; burst := burst g |}.
Definition set_burst (b : GilbertElliott) (g : Generators) : Generators := {|
  loss_generator := loss_generator g; reorder_generator := reorder_generator g;
  duplicate_generator := duplicate_generator g; corrupt_generator := corrupt_generator g; burst := b |}.

Record DirectionStats := {
  received : Z; forwarded : Z; dropped : Z; burst_dropped : Z; duplicated : Z; reordered : Z; corrupted : Z
}.
Definition no_stats : DirectionStats := {|
  received := 0; forwarded := 0; dropped := 0; burst_dropped := 0; duplicated := 0; reordered := 0; corrupted := 0 |}.
Definition count_received (s : DirectionStats) : DirectionStats := {|
  received := bump (received s); forwarded := forwarded s; dropped := dropped s; burst_dropped := burst_dropped s;
  duplicated := duplicated s; reordered := reordered s; corrupted := corrupted s |}.
Definition count_forwarded (s : DirectionStats) : DirectionStats := {|
  received := received s; forwarded := bump (forwarded s); dropped := dropped s; burst_dropped := burst_dropped s;
  duplicated := duplicated s; reordered := reordered s; corrupted := corrupted s |}.
Definition count_dropped (s : DirectionStats) : DirectionStats := {|
  received := received s; forwarded := forwarded s; dropped := bump (dropped s); burst_dropped := burst_dropped s;
  duplicated := duplicated s; reordered := reordered s; corrupted := corrupted s |}.
Definition count_burst_dropped (s : DirectionStats) : DirectionStats := {|
  received := received s; forwarded := forwarded s; dropped := dropped s; burst_dropped := bump (burst_dropped s);
  duplicated := duplicated s; reordered := reordered s; corrupted := corrupted s |}.
Definition count_duplicated (s : DirectionStats) : DirectionStats := {|
  received := received s; forwarded := forwarded s; dropped := dropped s; burst_dropped := burst_dropped s;
  duplicated := bump (duplicated s); reordered := reordered s; corrupted := corrupted s |}.
Definition count_reordered (s : DirectionStats) : DirectionStats := {|
  received := received s; forwarded := forwarded s; dropped := dropped s; burst_dropped := burst_dropped s;
  duplicated := duplicated s; reordered := bump (reordered s); corrupted := corrupted s |}.
Definition count_corrupted (s : DirectionStats) : DirectionStats := {|
  received := received s; forwarded := forwarded s; dropped := dropped s; burst_dropped := burst_dropped s;
  duplicated := duplicated s; reordered := reordered s; corrupted := bump (corrupted s) |}.

(** ** The queue *)

Record Pending := { release : Z; order : Z; to_server : bool; bytes : list byte }.
#[export] Instance pending_eq_dec : EqDecision Pending.
Proof. solve_decision. Defined.

(** [operator<], inverted for a queue with the greatest on top. *)
Definition pending_less (a other : Pending) : bool :=
  if negb (release a =? release other) then release a >? release other else order a >? order other.

#[export] Instance pending_less_order : StrictWeakOrder pending_less.
Proof.
  split; unfold pending_less; intros; rewrite ?Z.gtb_ltb in *;
    repeat match goal with |- context [?x =? ?y] => destruct (Z.eqb_spec x y) | H : context [?x =? ?y] |- _ => destruct (Z.eqb_spec x y) end;
    simpl in *; bool_to_prop; try (apply Z.ltb_lt); try (apply Z.ltb_ge); lia.
Qed.

Inductive Direction := kBoth | kToServer | kToClient.
#[export] Instance direction_eq_dec : EqDecision Direction.
Proof. solve_decision. Defined.

(** What the command line sets. *)
Record Settings := {
  listen_port : Z;
  target_port : Z;
  delay_us : Z;
  idle_exit_ms : Z;
  seed : Z;
  impairment : Impairment;
  impair_direction : Direction
}.
Definition default_settings : Settings := {|
  listen_port := 0; target_port := 0; delay_us := 0; idle_exit_ms := 15000; seed := 0;
  impairment := no_impairment; impair_direction := kBoth |}.

(** ** The relay's state *)

Record Proxy (Q : Type) := {
  rng : Mt19937;
  to_server_generators : Generators;
  to_client_generators : Generators;
  to_server_stats : DirectionStats;
  to_client_stats : DirectionStats;
  queue : Q;
  arrival_counter : Z;
  last_activity : Z;
  client_address : sockaddr_in;
  client_known : bool
}.
Arguments rng {Q}.
Arguments to_server_generators {Q}.
Arguments to_client_generators {Q}.
Arguments to_server_stats {Q}.
Arguments to_client_stats {Q}.
Arguments queue {Q}.
Arguments arrival_counter {Q}.
Arguments last_activity {Q}.
Arguments client_address {Q}.
Arguments client_known {Q}.

Section Updates.
Context {Q : Type}.
Implicit Types (p : Proxy Q).

(** The state of one direction: what [accept] calls [stats] and [generators]. *)
Definition stats_of (forward : bool) p : DirectionStats := if forward then to_server_stats p else to_client_stats p.
Definition generators_of (forward : bool) p : Generators :=
  if forward then to_server_generators p else to_client_generators p.

Definition update_stats (forward : bool) (f : DirectionStats -> DirectionStats) p : Proxy Q := {|
  rng := rng p;
  to_server_generators := to_server_generators p; to_client_generators := to_client_generators p;
  to_server_stats := if forward then f (to_server_stats p) else to_server_stats p;
  to_client_stats := if forward then to_client_stats p else f (to_client_stats p);
  queue := queue p; arrival_counter := arrival_counter p; last_activity := last_activity p;
  client_address := client_address p; client_known := client_known p |}.
Definition set_generators (forward : bool) (g : Generators) (r : Mt19937) p : Proxy Q := {|
  rng := r;
  to_server_generators := if forward then g else to_server_generators p;
  to_client_generators := if forward then to_client_generators p else g;
  to_server_stats := to_server_stats p; to_client_stats := to_client_stats p;
  queue := queue p; arrival_counter := arrival_counter p; last_activity := last_activity p;
  client_address := client_address p; client_known := client_known p |}.
Definition set_queue (q : Q) p : Proxy Q := {|
  rng := rng p;
  to_server_generators := to_server_generators p; to_client_generators := to_client_generators p;
  to_server_stats := to_server_stats p; to_client_stats := to_client_stats p;
  queue := q; arrival_counter := arrival_counter p; last_activity := last_activity p;
  client_address := client_address p; client_known := client_known p |}.
Definition count_arrival p : Proxy Q := {|
  rng := rng p;
  to_server_generators := to_server_generators p; to_client_generators := to_client_generators p;
  to_server_stats := to_server_stats p; to_client_stats := to_client_stats p;
  queue := queue p; arrival_counter := bump (arrival_counter p); last_activity := last_activity p;
  client_address := client_address p; client_known := client_known p |}.
Definition set_last_activity (now : Z) p : Proxy Q := {|
  rng := rng p;
  to_server_generators := to_server_generators p; to_client_generators := to_client_generators p;
  to_server_stats := to_server_stats p; to_client_stats := to_client_stats p;
  queue := queue p; arrival_counter := arrival_counter p; last_activity := now;
  client_address := client_address p; client_known := client_known p |}.
Definition set_client (a : sockaddr_in) p : Proxy Q := {|
  rng := rng p;
  to_server_generators := to_server_generators p; to_client_generators := to_client_generators p;
  to_server_stats := to_server_stats p; to_client_stats := to_client_stats p;
  queue := queue p; arrival_counter := arrival_counter p; last_activity := last_activity p;
  client_address := a; client_known := true |}.
End Updates.

Section Operations.
Context {W : Type} `{OS : !Posix W} `{NET : !Network W} `{RL : !Relay W}.
Context {Q : Type} `{PQ : !PriorityQueue Pending pending_less Q}.
Context (settings : Settings).
Implicit Types (w : W) (p : Proxy Q).

(** [CorrelatedRandom::next] *)
Definition next (c : CorrelatedRandom) (rng : Mt19937) : Mt19937 * CorrelatedRandom * Double :=
  let '(rng, value) := uniform_real rng in
  if SFleb (rho_ c) dzero then (rng, c, value)
  else
    let last := dadd (dmul value (dsub (dint 1) (rho_ c))) (dmul (last_ c) (rho_ c)) in
    (rng, {| rho_ := rho_ c; last_ := last |}, last).

(** [GilbertElliott::lost] *)
Definition lost (g : GilbertElliott) (rng : Mt19937) : Mt19937 * GilbertElliott * bool :=
  let '(rng, value) := uniform_real rng in
  if bad_ g then (rng, if SFltb value (to_good_ g) then set_bad false g else g, true)
  else (rng, if SFltb value (to_bad_ g) then set_bad true g else g, false).

(** [p > 0.0 && generator.next(rng) < p], for an impaired direction. *)
Definition chance (impaired : bool) (probability : Double) (c : CorrelatedRandom) (rng : Mt19937) :
    Mt19937 * CorrelatedRandom * bool :=
  if impaired && SFltb dzero probability then
    let '(rng, c, value) := next c rng in (rng, c, SFltb value probability)
  else (rng, c, false).

(** The delay on the clock: [microseconds{delay_us}] is 64-bit, and so is its
    conversion to the clock's nanoseconds. *)
Definition delay : Z := s64 (s64 (delay_us settings) * 1000).

Definition is_impaired (forward : bool) : bool :=
  bool_decide (impair_direction settings = kBoth) ||
  (forward && bool_decide (impair_direction settings = kToServer)) ||
  (negb forward && bool_decide (impair_direction settings = kToClient)).

(** [bytes[index] ^= 1U << bit] *)
Definition flip_bit (index bit : Z) (bytes : list byte) : list byte :=
  alter (fun b => byte_of_Z (Z.lxor (Z_of_byte b) (Z.shiftl 1 bit))) (Z.to_nat index) bytes.

Definition corrupted_copy (bytes : list byte) (rng : Mt19937) : Mt19937 * list byte :=
  let '(rng, index) := uniform_int (Z.of_nat (length bytes) - 1) rng in
  let '(rng, bit) := uniform_int 7 rng in
  (rng, flip_bit index bit bytes).

(** [queue.push(Pending{release, arrival_counter++, to_server, bytes})] *)
Definition push (release : Z) (forward : bool) (bytes : list byte) p : Proxy Q :=
  let item := {| release := release; order := arrival_counter p; to_server := forward; bytes := bytes |} in
  count_arrival (set_queue (pq_push item (queue p)) p).

(** The part of [accept] after the datagram has survived. *)
Definition enqueue (impaired forward : bool) (bytes : list byte) p w : W * Proxy Q :=
  let i := impairment settings in
  let g := generators_of forward p in
  let '(rng, c, hit) := chance impaired (corrupt i) (corrupt_generator g) (rng p) in
  let '(rng, bytes, p) :=
    if hit && (0 <? Z.of_nat (length bytes)) then
      let '(rng, bytes) := corrupted_copy bytes rng in (rng, bytes, update_stats forward count_corrupted p)
    else (rng, bytes, p) in
  let p := set_generators forward (set_corrupt_generator c g) rng p in
  let '(w, now) := sys_now w in
  let release := s64 (now + delay) in
  let g := generators_of forward p in
  let '(rng, c, skip) := chance impaired (reorder i) (reorder_generator g) rng in
  let p := set_generators forward (set_reorder_generator c g) rng p in
  let '(w, release, p) :=
    if skip then let '(w, now) := sys_now w in (w, now, update_stats forward count_reordered p)
    else (w, release, p) in
  let p := push release forward bytes p in
  let g := generators_of forward p in
  let '(rng, c, twice) := chance impaired (duplicate i) (duplicate_generator g) rng in
  let p := set_generators forward (set_duplicate_generator c g) rng p in
  if twice then (w, update_stats forward count_duplicated (push release forward bytes p)) else (w, p).

(** [accept] *)
Definition accept (forward : bool) (bytes : list byte) p w : W * Proxy Q :=
  let p := update_stats forward count_received p in
  let '(w, now) := sys_now w in
  let p := set_last_activity now p in
  let impaired := is_impaired forward in
  let i := impairment settings in
  let g := generators_of forward p in
  let '(r, c, hit) := chance impaired (loss i) (loss_generator g) (rng p) in
  let p := set_generators forward (set_loss_generator c g) r p in
  if hit then (w, update_stats forward count_dropped p)
  else
    let '(p, hit) :=
      if impaired && SFltb dzero (burst_loss i) then
        let g := generators_of forward p in
        let '(r, b, hit) := lost (burst g) (rng p) in
        (set_generators forward (set_burst b g) r p, hit)
      else (p, false) in
    if hit then (w, update_stats forward count_burst_dropped (update_stats forward count_dropped p))
    else enqueue impaired forward bytes p w.

Context (front back : Z) (server_address : sockaddr_in).

(** One [recvfrom] on a readable socket. *)
Definition receive_front p w : W * Proxy Q :=
  match sys_recvfrom front kMaxDatagram w with
  | (w, inl (bytes, from)) => accept true bytes (set_client from p) w
  | (w, inr _) => (w, p)
  end.
Definition receive_back p w : W * Proxy Q :=
  match sys_recvfrom back kMaxDatagram w with
  | (w, inl (bytes, from)) => accept false bytes p w
  | (w, inr _) => (w, p)
  end.

(** What is due leaves; as many turns as there are datagrams are enough. *)
Fixpoint release_due (fuel : nat) (now : Z) p w : W * Proxy Q :=
  match fuel with
  | O => (w, p)
  | S fuel =>
      match pq_top (queue p) with
      | Some item =>
          if release item <=? now then
            let '(w, p) :=
              if to_server item then
                let '(w, _) := sys_sendto back (bytes item) server_address w in
                (w, update_stats true count_forwarded p)
              else if client_known p then
                let '(w, _) := sys_sendto front (bytes item) (client_address p) w in
                (w, update_stats false count_forwarded p)
              else (w, p) in
            release_due fuel now (set_queue (pq_pop (queue p)) p) w
          else (w, p)
      | None => (w, p)
      end
  end.

(** The [timespec] to wait for. *)
Definition wait_for p w : W * (Z * Z) :=
  match pq_top (queue p) with
  | Some item =>
      let '(w, now) := sys_now w in
      let ns := if release item - now <? 0 then 0 else release item - now in
      (w, (Z.quot ns 1000000000, Z.rem ns 1000000000))
  | None => (w, (1, 0))
  end.

(** The [while] loop; [false] while it runs on. *)
Fixpoint relay (fuel : nat) p w : W * Proxy Q * bool :=
  match fuel with
  | O => (w, p, false)
  | S fuel =>
      let '(w, stopped) := sys_stopped w in
      if stopped then (w, p, true)
      else
        let '(w, (sec, nsec)) := wait_for p w in
        match sys_ppoll sec nsec w with
        | (w, inr e) => if e =? EINTR then relay fuel p w else (w, p, true)
        | (w, inl (front_ready, back_ready)) =>
            let '(w, p) := if (front_ready : bool) then receive_front p w else (w, p) in
            let '(w, p) := if (back_ready : bool) then receive_back p w else (w, p) in
            let '(w, now) := sys_now w in
            let '(w, p) := release_due (length (pq_elems (queue p))) now p w in
            match pq_top (queue p) with
            | Some _ => relay fuel p w
            | None =>
                let '(w, now) := sys_now w in
                if Z.quot (now - last_activity p) 1000000 >? s64 (idle_exit_ms settings) then (w, p, true)
                else relay fuel p w
            end
        end
  end.

Definition new_proxy (r : Mt19937) (now : Z) : Proxy Q := {|
  rng := r;
  to_server_generators := make_generators (impairment settings);
  to_client_generators := make_generators (impairment settings);
  to_server_stats := no_stats; to_client_stats := no_stats; queue := pq_empty; arrival_counter := 0;
  last_activity := now; client_address := {| sin_port := 0; sin_addr := 0 |}; client_known := false |}.
End Operations.

(** ** The command line *)

Definition with_loss (x : Double) (i : Impairment) : Impairment := {|
  loss := x; loss_correlation := loss_correlation i; burst_loss := burst_loss i; burst_length := burst_length i;
  duplicate := duplicate i; reorder := reorder i; reorder_correlation := reorder_correlation i; corrupt := corrupt i |}.
Definition with_loss_correlation (x : Double) (i : Impairment) : Impairment := {|
  loss := loss i; loss_correlation := x; burst_loss := burst_loss i; burst_length := burst_length i;
  duplicate := duplicate i; reorder := reorder i; reorder_correlation := reorder_correlation i; corrupt := corrupt i |}.
Definition with_burst_loss (x : Double) (i : Impairment) : Impairment := {|
  loss := loss i; loss_correlation := loss_correlation i; burst_loss := x; burst_length := burst_length i;
  duplicate := duplicate i; reorder := reorder i; reorder_correlation := reorder_correlation i; corrupt := corrupt i |}.
Definition with_burst_length (x : Double) (i : Impairment) : Impairment := {|
  loss := loss i; loss_correlation := loss_correlation i; burst_loss := burst_loss i; burst_length := x;
  duplicate := duplicate i; reorder := reorder i; reorder_correlation := reorder_correlation i; corrupt := corrupt i |}.
Definition with_duplicate (x : Double) (i : Impairment) : Impairment := {|
  loss := loss i; loss_correlation := loss_correlation i; burst_loss := burst_loss i; burst_length := burst_length i;
  duplicate := x; reorder := reorder i; reorder_correlation := reorder_correlation i; corrupt := corrupt i |}.
Definition with_reorder (x : Double) (i : Impairment) : Impairment := {|
  loss := loss i; loss_correlation := loss_correlation i; burst_loss := burst_loss i; burst_length := burst_length i;
  duplicate := duplicate i; reorder := x; reorder_correlation := reorder_correlation i; corrupt := corrupt i |}.
Definition with_reorder_correlation (x : Double) (i : Impairment) : Impairment := {|
  loss := loss i; loss_correlation := loss_correlation i; burst_loss := burst_loss i; burst_length := burst_length i;
  duplicate := duplicate i; reorder := reorder i; reorder_correlation := x; corrupt := corrupt i |}.
Definition with_corrupt (x : Double) (i : Impairment) : Impairment := {|
  loss := loss i; loss_correlation := loss_correlation i; burst_loss := burst_loss i; burst_length := burst_length i;
  duplicate := duplicate i; reorder := reorder i; reorder_correlation := reorder_correlation i; corrupt := x |}.
Definition set_listen_port (x : Z) (s : Settings) : Settings := {|
  listen_port := x; target_port := target_port s; delay_us := delay_us s; idle_exit_ms := idle_exit_ms s;
  seed := seed s; impairment := impairment s; impair_direction := impair_direction s |}.
Definition set_target_port (x : Z) (s : Settings) : Settings := {|
  listen_port := listen_port s; target_port := x; delay_us := delay_us s; idle_exit_ms := idle_exit_ms s;
  seed := seed s; impairment := impairment s; impair_direction := impair_direction s |}.
Definition set_delay_us (x : Z) (s : Settings) : Settings := {|
  listen_port := listen_port s; target_port := target_port s; delay_us := x; idle_exit_ms := idle_exit_ms s;
  seed := seed s; impairment := impairment s; impair_direction := impair_direction s |}.
Definition set_idle_exit_ms (x : Z) (s : Settings) : Settings := {|
  listen_port := listen_port s; target_port := target_port s; delay_us := delay_us s; idle_exit_ms := x;
  seed := seed s; impairment := impairment s; impair_direction := impair_direction s |}.
Definition set_seed (x : Z) (s : Settings) : Settings := {|
  listen_port := listen_port s; target_port := target_port s; delay_us := delay_us s; idle_exit_ms := idle_exit_ms s;
  seed := x; impairment := impairment s; impair_direction := impair_direction s |}.
Definition set_impairment (x : Impairment) (s : Settings) : Settings := {|
  listen_port := listen_port s; target_port := target_port s; delay_us := delay_us s; idle_exit_ms := idle_exit_ms s;
  seed := seed s; impairment := x; impair_direction := impair_direction s |}.
Definition set_impair_direction (x : Direction) (s : Settings) : Settings := {|
  listen_port := listen_port s; target_port := target_port s; delay_us := delay_us s; idle_exit_ms := idle_exit_ms s;
  seed := seed s; impairment := impairment s; impair_direction := x |}.

(** [parse_u64] *)
Definition parse_u64 (text : list byte) : option Z := parse_unsigned text.

(** A fraction, or a percentage. *)
Definition parse_probability (text : list byte) : option Double :=
  let percent := bool_decide (last text = Some Byte.x25) in
  let text := if percent then take (length text - 1) text else text in
  match from_chars_double text with
  | Some (value, []) =>
      let value := if percent then ddiv value (dint 100) else value in
      if outside_unit value then None else Some value
  | _ => None
  end.

(** [--burst-len]: what follows the number is not looked at. *)
Definition parse_length (text : list byte) : option Double :=
  match from_chars_double text with
  | Some (length, _) => if SFleb (dint 1) length then Some length else None
  | None => None
  end.

Definition proxy_option (name value : list byte) (s : Settings) : option Settings :=
  let probability set :=
    match parse_probability value with
    | Some x => Some (set_impairment (set x (impairment s)) s)
    | None => None
    end in
  if bool_decide (name = str "--loss") then probability with_loss
  else if bool_decide (name = str "--loss-corr") then probability with_loss_correlation
  else if bool_decide (name = str "--burst-loss") then probability with_burst_loss
  else if bool_decide (name = str "--burst-len") then
    match parse_length value with
    | Some x => Some (set_impairment (with_burst_length x (impairment s)) s)
    | None => None
    end
  else if bool_decide (name = str "--duplicate") then probability with_duplicate
  else if bool_decide (name = str "--reorder") then probability with_reorder
  else if bool_decide (name = str "--reorder-corr") then probability with_reorder_correlation
  else if bool_decide (name = str "--corrupt") then probability with_corrupt
  else if bool_decide (name = str "--seed") then
    match parse_u64 value with Some n => Some (set_seed n s) | None => None end
  else if bool_decide (name = str "--impair") then
    if bool_decide (value = str "both") then Some (set_impair_direction kBoth s)
    else if bool_decide (value = str "to-server") then Some (set_impair_direction kToServer s)
    else if bool_decide (value = str "to-client") then Some (set_impair_direction kToClient s)
    else None
  else None.

Fixpoint proxy_arguments (argv : list (list byte)) (positional : Z) (s : Settings) : option (Settings * Z) :=
  match argv with
  | [] => Some (s, positional)
  | arg :: argv =>
      if is_option arg then
        let '(name, value) := split_option arg in
        match proxy_option name value s with
        | Some s => proxy_arguments argv positional s
        | None => None
        end
      else
        match parse_u64 arg with
        | None => None
        | Some number =>
            if positional =? 0 then proxy_arguments argv 1 (set_listen_port number s)
            else if positional =? 1 then proxy_arguments argv 2 (set_target_port number s)
            else if positional =? 2 then proxy_arguments argv 3 (set_delay_us number s)
            else if positional =? 3 then proxy_arguments argv 4 (set_idle_exit_ms number s)
            else None
        end
  end.

Definition proxy_settings (argv : list (list byte)) : option Settings :=
  match proxy_arguments argv 0 default_settings with
  | Some (s, positional) =>
      if positional <? 3 then None
      else if SFltb dzero (reorder (impairment s)) && (delay_us s =? 0) then None
      else Some s
  | None => None
  end.

(** ** [main] *)

Section Main.
Context {W : Type} `{OS : !Posix W} `{NET : !Network W} `{RL : !Relay W}.
Context {Q : Type} `{PQ : !PriorityQueue Pending pending_less Q}.
Implicit Types (w : W).

(** The descriptor, or -1. *)
Definition make_socket (bind_port : Z) w : W * Z :=
  match sys_socket w with
  | (w, inr _) => (w, -1)
  | (w, inl fd) =>
      if fd <? 0 then (w, -1)
      else if negb (bind_port =? 0) then
        let '(w, bound) := sys_bind fd {| sin_port := htons bind_port; sin_addr := INADDR_ANY |} w in
        if negb bound then (sys_close fd w, -1) else (w, fd)
      else (w, fd)
  end.

(** The exit code and the counters it reports; [None] while it runs. *)
Definition proxy_main (fuel : nat) (argv : list (list byte)) w :
    W * option (Z * DirectionStats * DirectionStats) :=
  match proxy_settings argv with
  | None => (w, Some (2, no_stats, no_stats))
  | Some settings =>
      let '(w, front) := make_socket (u16 (listen_port settings)) w in
      let '(w, back) := make_socket 0 w in
      if (front <? 0) || (back <? 0) then (w, Some (1, no_stats, no_stats))
      else
        let server_address := {| sin_port := htons (u16 (target_port settings)); sin_addr := 0x7F000001 |} in
        let '(w, seed) := if seed settings =? 0 then sys_random_seed w else (w, seed settings) in
        let '(w, now) := sys_now w in
        match relay (Q:=Q) settings front back server_address fuel (new_proxy settings (mt_seed seed) now) w with
        | (w, _, false) => (w, None)
        | (w, p, true) =>
            (sys_close back (sys_close front w), Some (0, to_server_stats p, to_client_stats p))
        end
  end.
End Main.

(** A percentage is a hundredth of the fraction; the bounds are those of a
    probability, but NaN passes, and [--burst-len] takes what begins with a number. *)
Example parse_probabilities :
  parse_probability (str "5%") = parse_double (str "0.05") /\
  parse_probability (str "100%") = Some (dint 1) /\
  parse_probability (str "1.01") = None /\ parse_probability (str "-0.1") = None /\
  parse_probability (str "%") = None /\ parse_probability (str "nan%") = Some S754_nan /\
  parse_length (str "4 packets") = Some (dint 4) /\ parse_length (str "0.5") = None /\ parse_length (str "nan") = None.
Proof. by split_and!; vm_compute. Qed.

(** *** What is accepted *)

Definition probability (x : Double) : Prop :=
  x = S754_nan \/ (SFleb dzero x = true /\ SFleb x (dint 1) = true).

Lemma parse_probability_spec text x : parse_probability text = Some x -> probability x.
Proof.
  unfold parse_probability. destruct (from_chars_double _) as [[v [|b rest]]|]; try done.
  set (u := if bool_decide _ then _ else _). destruct (outside_unit u) eqn:Hu; [done|].
  intros [= <-]. by apply outside_unit_spec.
Qed.
