(* ===== verification/EndToEnd.v ===== *)
(** * From one file system to the other

    [send_file] of Sender.v on one system, [receive_file] of Receiver.v on
    another, and between them a network that may lose, repeat, reorder and
    corrupt datagrams, and to which strangers may write: what each side's result
    says about the file on the other side. *)

From S2P Require Import Prelude Words Packet Crc32 Wire Sha256 Filename Transfer PriorityQueue SenderWindow ReceiverWindow FileIO Net Monad ReceiverSession Offline Delivery Receiver Sender SenderSpec.
Import Packet.Packet.
Open Scope Z_scope.

(** ** The network between them *)

(** What may come out when [bytes] goes in: the datagram, or the datagram with bits
    altered within 32 consecutive ones, aside from the edges of the checksum. *)
Inductive conveys (bytes : list byte) : list byte -> Prop :=
| conveys_intact : conveys bytes bytes
| conveys_mangled pre d1 d2 post :
    bytes = pre ++ d1 ++ post -> length d1 = length d2 -> bit_burst d1 d2 -> d1 <> d2 ->
    aside_checksum (length pre) (length d1) -> conveys bytes (pre ++ d2 ++ post).

(** Everything that was received either was sent, and conveyed, or is not a packet
    at all. *)
Definition carried (sent received : list (list byte)) : Prop :=
  Forall (fun r => (exists s, s ∈ sent /\ conveys s r) \/ ok (deserialize r) = false) received.

(** A packet that was received is a packet that was sent. *)
Lemma carried_packet sent received r p :
  (forall s, s ∈ sent -> ok (deserialize s) = true) ->
  carried sent received -> r ∈ received -> deserialize r = success p -> r ∈ sent.
Proof.
  intros Hsent Hc Hr Hp. unfold carried in Hc. rewrite Forall_forall in Hc. destruct (Hc r Hr) as [(s & Hs & Hcv)|Hbad].
  - destruct Hcv as [|pre d1 d2 post -> Hl H4 Hne Hpos]; [done|]. exfalso.
    pose proof (corruption_rejected pre d1 d2 post (Hsent _ Hs) Hl H4 Hne Hpos) as Hrej. by rewrite Hp in Hrej.
  - by rewrite Hp in Hbad.
Qed.

Section Host.
Context {W : Type} `{NL : NetworkLaws W}.
Context (config : SenderConfig) (F : list byte) (cap : Z) (dir : path).
Context (Hb : bounded F (Z.to_nat (chunk_size config)) cap).
Implicit Types (w : W) (s : ReceiverSession).

(** The datagrams sent and received since [w0]. *)
Definition sent_since w0 w : list (list byte) := map fst (drop (length (outbox w0)) (outbox w)).
Definition taken_since w0 w : list (list byte) := map fst (drop (length (inbox w0)) (inbox w)).

(** A session that has a file has it under the name START asked for. *)
Definition named s : Prop :=
  output_directory_ s = dir /\ (published_ s = true -> started_ s = true) /\
  (started_ s = true ->
   exists name, sanitize_filename (remote_name config) = (Filename.kNone, name) /\ output_path_ s = join_path dir name).

Lemma named_start s p w :
  payload p = remote_name config -> published_ s = false -> named s ->
  let '(_, s', _) := on_start p s w in named s'.
Proof.
  intros Hp Hpub Hn. unfold on_start. destruct (started_ s) eqn:Hst; [by destruct (_ =? _)|]. rewrite Hp.
  destruct Hn as (Hd & _).
  destruct (sanitize_filename (remote_name config)) as [[] name] eqn:Hsan.
  all: try (split; [exact Hd|]; split; simpl; congruence).
  destruct (open_write _ _ w) as [[w1 f] ok]. destruct ok; (split; [exact Hd|]; split; simpl; try congruence).
  intros _. exists name. by rewrite Hd.
Qed.

Lemma named_data s p w : named s -> let '(_, s', _) := on_data p s w in named s'.
Proof.
  intros Hn. unfold on_data. destruct (classify _ _); [|exact Hn..]. destruct (_ >? _); [exact Hn|].
  set (s1 := if negb _ then _ else s). assert (named s1) as Hn1 by (subst s1; by destruct (negb _)). clearbody s1.
  destruct (write_at _ _ _ w) as [w1 [n|e]]; [|exact Hn1]. destruct (negb (n =? _)%nat); exact Hn1.
Qed.

Lemma named_fin s p w : started_ s = true -> named s -> let '(_, s', _) := on_fin p s w in named s'.
Proof.
  intros Hst Hn. unfold on_fin. destruct (negb _); [exact Hn|].
  destruct (sync _ w) as [w1 ok]. destruct ok; [|exact Hn]. simpl negb. cbv iota.
  destruct (hash_back _ _ _ _ _ w1) as [w2 [h|]]; [|exact Hn].
  destruct (negb _); [exact Hn|]. destruct (negb _); [exact Hn|].
  destruct (sys_rename _ _ w2) as [w3 ok]. destruct ok; [|exact Hn]. destruct Hn as (Hd & _ & Hn). by split_and!.
Qed.

Lemma named_handle s p w :
  (packet_type (header p) = kStart -> payload p = remote_name config) -> verdict s -> named s ->
  let '(_, s', _) := handle_packet p s w in named s'.
Proof.
  intros Hstart Hv Hn. unfold handle_packet.
  change (named (set_stats count_received s)) in Hn. change (verdict (set_stats count_received s)) in Hv.
  revert Hv Hn. generalize (set_stats count_received s) as s1. clear s. intros s Hv Hn.
  destruct (_ && _ && _ && _); [exact Hn|]. destruct (finished_ s) eqn:Hf; [exact Hn|].
  unfold verdict in Hv. rewrite Hf in Hv.
  destruct (bool_decide (packet_type _ = kStart)) eqn:Ht; bool_to_prop; [by apply named_start; [apply Hstart|apply Hv|]|].
  destruct (started_ s) eqn:Hst; [|exact Hn]. simpl negb. cbv iota. destruct (negb _); [exact Hn|].
  destruct (bool_decide _); [by apply named_data|]. destruct (bool_decide _); [by apply named_fin|exact Hn].
Qed.

(** A FIN_ACK is only ever the reply of a session that has published. *)
Lemma fin_ack_published s p w :
  verdict s -> let '(_, s', r) := handle_packet p s w in type r = kFinAck -> published_ s' = true.
Proof.
  intros Hv. pose proof (handle_packet_verdict p s w Hv) as Hv'. revert Hv'. unfold handle_packet.
  change (verdict (set_stats count_received s)) in Hv. revert Hv.
  generalize (set_stats count_received s) as s1. clear s. intros s Hv.
  destruct (finished_ s) eqn:Hf; simpl andb; cbv iota.
  { unfold verdict in *. rewrite Hf in *. destruct Hv as (_ & _ & Hty).
    destruct (_ && _ && _); simpl; [|done]. rewrite Hty. by destruct (published_ s). }
  destruct (bool_decide (packet_type _ = kStart)).
  { unfold on_start. destruct (started_ s); [by destruct (_ =? _)|]. destruct (sanitize_filename _) as [[] name]; try done.
    destruct (open_write _ _ w) as [[w1 f] ok]. by destruct ok. }
  destruct (negb (started_ s)); [done|]. destruct (negb _); [done|]. destruct (bool_decide _).
  { unfold on_data. destruct (classify _ _); try done. destruct (_ >? _); [done|].
    destruct (write_at _ _ _ w) as [w1 [n|e]]; [|done]. by destruct (negb (n =? _)%nat). }
  destruct (bool_decide _); [|done]. unfold on_fin. destruct (negb _); [done|].
  destruct (sync _ w) as [w1 ok]. destruct ok; [|done]. simpl negb. cbv iota.
  destruct (hash_back _ _ _ _ _ w1) as [w2 [h|]]; [|done]. destruct (negb _); [done|]. destruct (negb _); [done|].
  destruct (sys_rename _ _ w2) as [w3 ok]. by destruct ok.
Qed.

Lemma published_stays s p w :
  verdict s -> published_ s = true -> let '(_, s', _) := handle_packet p s w in published_ s' = true.
Proof.
  intros Hv Hp. assert (finished_ s = true) as Hf.
  { unfold verdict in Hv. destruct (finished_ s); [done|]. destruct Hv. congruence. }
  pose proof (handle_finished w s p Hf) as Hh. destruct (handle_packet p s w) as [[w' s'] r].
  by destruct Hh as [_ [f ->]].
Qed.

(** *** Replies can be encoded *)

Definition reply_wf (r : Reply) : Prop := fits 32 (sequence r) /\ Z.of_nat (length (reply_payload r)) <= kMaxPayloadSize.

Lemma error_reply_wf code seq :
  fits 32 seq -> reply_wf {| send := true; type := kError; sequence := seq; reply_payload := error_payload code |}.
Proof. intros Hs. split; [done|]. by destruct code. Qed.

Lemma plain_reply_wf t seq : fits 32 seq -> reply_wf (reply_with t seq).
Proof. by split. Qed.

#[local] Hint Resolve error_reply_wf plain_reply_wf : core.

Lemma handle_packet_reply_wf p s w :
  packet_wf p -> reply_wf (final_reply_ s) ->
  let '(_, s', r) := handle_packet p s w in reply_wf r /\ reply_wf (final_reply_ s').
Proof.
  intros [Hp _] Hs. pose proof (wf_sequence_number _ Hp) as Hseq. assert (reply_wf no_reply) as Hno by done. unfold handle_packet.
  change (reply_wf (final_reply_ (set_stats count_received s))) in Hs. revert Hs.
  generalize (set_stats count_received s) as s1. clear s. intros s Hs.
  destruct (_ && _ && _ && _); [by split|]. destruct (finished_ s); [by split|].
  destruct (bool_decide (packet_type _ = kStart)).
  { unfold on_start. destruct (started_ s); [destruct (_ =? _); split; simpl; auto|].
    destruct (sanitize_filename _) as [[] name]; try (split; simpl; auto).
    destruct (open_write _ _ w) as [[w1 f] ok]. destruct ok; split; simpl; auto. }
  destruct (negb (started_ s)); [split; simpl; auto|]. destruct (negb _); [split; simpl; auto|]. destruct (bool_decide _).
  { unfold on_data. destruct (classify _ _); [|split; simpl; auto..]. destruct (_ >? _); [split; simpl; auto|].
    set (s1 := if negb _ then _ else s). assert (reply_wf (final_reply_ s1)) by (subst s1; by destruct (negb _)). clearbody s1.
    destruct (write_at _ _ _ w) as [w1 [n|e]]; [|split; simpl; auto]. destruct (negb (n =? _)%nat); split; simpl; auto. }
  destruct (bool_decide _); [|by split]. unfold on_fin. destruct (negb _); [split; simpl; auto|].
  destruct (sync _ w) as [w1 ok]. destruct ok; [|split; simpl; auto]. simpl negb. cbv iota.
  destruct (hash_back _ _ _ _ _ w1) as [w2 [h|]]; [|split; simpl; auto].
  destruct (negb _); [split; simpl; auto|]. destruct (negb _); [split; simpl; auto|].
  destruct (sys_rename _ _ w2) as [w3 ok]. destruct ok; split; simpl; auto.
Qed.

(** *** What the receiver's loop keeps *)

Abbreviation sid := (config_session_id config).
Abbreviation cs := (Z.to_nat (chunk_size config)).

Definition welcome (bytes : list byte) : Prop := honest_wire config F bytes \/ ok (deserialize bytes) = false.

Definition fin_ack (bytes : list byte) : Prop :=
  exists p, deserialize bytes = success p /\ packet_type (header p) = kFinAck.

(** The transfer is on its way, in the session [s]: what it stored agrees with the
    file, and no FIN_ACK went out unless the file was delivered. *)
Record hosting (w0 : W) s w : Prop := {
  hst_outcome : outcome F cs sid cap w s;
  hst_named : named s;
  hst_verdict : verdict s;
  hst_reply : reply_wf (final_reply_ s);
  hst_sent : exists l, outbox w = outbox w0 ++ l /\
    Forall (fun d => ok (deserialize d.1) = true /\ (fin_ack d.1 -> published_ s = true)) l
}.

Lemma outcome_view w w' s : view w' = view w -> outcome F cs sid cap w s -> outcome F cs sid cap w' s.
Proof.
  intros Hv [?|[[S []]|[? Hd]]]; [by left|right; left; exists S; split; try done; by rewrite Hv|].
  right; right. split; [done|]. intros Hp. destruct (Hd Hp) as [i Hi]. exists i. by rewrite Hv.
Qed.

Lemma hosting_quiet w0 s w w' : view w' = view w -> outbox w' = outbox w -> hosting w0 s w -> hosting w0 s w'.
Proof. intros Hv Ho []. split; [by eapply outcome_view|done..|by rewrite Ho]. Qed.

Lemma hosting_new w0 w : offline w0 w -> hosting w0 (new_session cap dir) w.
Proof.
  intros [Ho _]. split; [left; apply new_session_fresh| |done|done|exists []; by rewrite app_nil_r].
  split_and!; simpl; [done|congruence|congruence].
Qed.

(** One packet and, if there is one, its reply. *)
Lemma hosting_packet w0 s w bytes :
  hosting w0 s w -> honest_wire config F bytes ->
  let '(w', s', r) := handle_packet (value (deserialize bytes)) s w in
  hosting w0 s' w' /\ (type r = kFinAck -> published_ s' = true) /\ reply_wf r.
Proof.
  intros [] (p & Hd & Hp & Hwf & Hname). rewrite Hd. change (value (success p)) with p.
  pose proof (handle_outcome F cs sid cap Hb w s p hst_outcome0 Hp) as H1.
  pose proof (named_handle s p w Hname hst_verdict0 hst_named0) as H2.
  pose proof (handle_packet_verdict p s w hst_verdict0) as H3.
  pose proof (fin_ack_published s p w hst_verdict0) as H4.
  pose proof (published_stays s p w hst_verdict0) as H5.
  pose proof (handle_packet_reply_wf p s w Hwf hst_reply0) as H6.
  pose proof (handle_packet_offline p s w) as [Ho _].
  destruct (handle_packet p s w) as [[w' s'] r]. simpl in Ho. destruct H6 as [Hr H6].
  split_and!; [|done..]. split; [done..|].
  destruct hst_sent0 as (l & Hl & Hpub). exists l. split; [by rewrite Ho|].
  eapply Forall_impl; [exact Hpub|]. intros d [Hok Hf]. split; [done|]. intros Hack. by apply H5, Hf.
Qed.

Lemma hosting_reply w0 s sock peer r n w :
  hosting w0 s w -> (type r = kFinAck -> published_ s = true) -> reply_wf r -> fits 64 n ->
  let w' := (send_reply sock peer r n w).1 in hosting w0 s w' /\ inbox w' = inbox w.
Proof.
  intros [] Hr [Hseq Hlen] Hn. unfold send_reply. set (h := make_header (type r) n (sequence r) (sequence r) 0).
  pose proof (send_to_spec sock (serialize h (reply_payload r)) peer w) as Hs.
  destruct (send_to _ _ _ w) as [w' x]. destruct Hs as (Hv & Hi & Ho). simpl. split; [|done].
  split; [by eapply outcome_view|done..|]. destruct hst_sent0 as (l & Hl & Hf).
  destruct Ho as [Ho|(a & _ & Ho)]; [exists l; by rewrite Ho|].
  exists (l ++ [(serialize h (reply_payload r), a)]). split; [by rewrite Ho, Hl, app_assoc|].
  apply Forall_app. split; [done|]. apply Forall_singleton.
  split; [simpl; rewrite deserialize_serialize; [done|by apply make_header_wf|done..]|]. intros (q & Hq & Ht). apply Hr.
  apply sent_type in Hq. by rewrite <- Ht, Hq.
Qed.

(** The loop, as long as everything it takes in is welcome. *)
Definition hosted (w0 : W) s w : Prop :=
  (exists l, inbox w = inbox w0 ++ l) /\ (Forall welcome (taken_since w0 w) -> hosting w0 s w).

Lemma hosted_quiet w0 s w w' : quiet w w' -> hosted w0 s w -> hosted w0 s w'.
Proof.
  intros (Hv & Ho & Hi) [[l Hl] Hh]. split; [exists l; by rewrite Hi|]. unfold taken_since in *. rewrite Hi.
  intros Hw. by apply (hosting_quiet w0 s w), Hh.
Qed.

Lemma receive_loop_hosted w0 sock fuel s timing t w :
  hosted w0 s w -> let '(w', s', _) := receive_loop sock fuel s timing t w in hosted w0 s' w'.
Proof.
  revert s timing t w. induction fuel as [|fuel IH]; intros s timing t w Hh; cbn [receive_loop]; [done|].
  destruct (finished_ s); [done|]. pose proof (recv_from_spec sock buffer_size w) as Hr.
  destruct (recv_from sock buffer_size w) as [w1 [[bytes peer]|e]]; destruct Hr as (Hv & Ho & Hi).
  2:{ assert (hosted w0 s w1) by (by apply (hosted_quiet w0 s w)).
      destruct (e =? EINTR); [by apply IH|]. by destruct (_ || _). }
  pose proof (start_clock_quiet timing t w1) as (Hv2 & Ho2 & Hi2). destruct (if negb timing then _ else _) as [w2 t2].
  simpl in Hv2, Ho2, Hi2. destruct Hh as [[l Hl] Hh]. destruct Hi as (a & _ & Hi).
  assert (inbox w2 = inbox w0 ++ l ++ [(bytes, a)]) as Hin by (by rewrite Hi2, Hi, Hl, app_assoc).
  assert (taken_since w0 w2 = taken_since w0 w ++ [bytes]) as Htake.
  { unfold taken_since. by rewrite Hin, Hl, !drop_app_length, map_app. }
  assert (Forall welcome (taken_since w0 w2) -> hosting w0 s w2 /\ welcome bytes) as Hstep.
  { rewrite Htake. intros [Hw Hwb%Forall_inv]%Forall_app. split; [|exact Hwb].
    apply (hosting_quiet w0 s w); [congruence..|by apply Hh]. }
  destruct (ok (deserialize bytes)) eqn:Hok; simpl negb; cbv iota.
  2:{ apply IH. split; [by eexists|]. intros Hw. by apply Hstep. }
  set (p := value (deserialize bytes)). pose proof (handle_packet_offline p s w2) as [Ho3 Hi3].
  destruct (handle_packet p s w2) as [[w3 s3] r] eqn:Hp. simpl in Ho3, Hi3.
  assert (Forall welcome (taken_since w0 w3) -> hosting w0 s3 w3 /\ (type r = kFinAck -> published_ s3 = true) /\ reply_wf r) as Hstep3.
  { unfold taken_since. rewrite Hi3. intros Hw. destruct (Hstep Hw) as [Hh2 [Hg|]]; [|congruence].
    pose proof (hosting_packet w0 s w2 bytes Hh2 Hg) as H3. fold p in H3. by rewrite Hp in H3. }
  assert (hosted w0 s3 w3) as Hh3.
  { split; [eexists; by rewrite Hi3, Hin|]. intros Hw. by apply Hstep3. }
  destruct (send r); [|by apply IH]. pose proof (hosting_reply w0 s3 sock peer r (session_id (header p)) w3) as Hreply.
  assert (inbox (send_reply sock peer r (session_id (header p)) w3).1 = inbox w3) as Hi4.
  { unfold send_reply. pose proof (send_to_spec sock (serialize (make_header (type r) (session_id (header p)) (sequence r) (sequence r) 0) (reply_payload r)) peer w3) as Hs.
    destruct (send_to _ _ _ w3). by destruct Hs as (_ & ? & _). }
  destruct (send_reply _ _ _ _ w3) as [w4 sent]. simpl in *.
  assert (hosted w0 s3 w4) as Hh4.
  { split; [rewrite Hi4, Hi3, Hin; by eexists|]. unfold taken_since. rewrite Hi4. intros Hw.
    destruct (Hstep3 Hw) as (Hh3' & Hack & Hwf). apply Hreply; [done..|].
    apply (deserialize_wf bytes p), ok_success, Hok. }
  destruct sent; simpl negb; cbv iota; [by apply IH|done].
Qed.

Lemma destroy_published s w :
  published_ s = true -> names (view (destroy s w)) = names (view w) /\ data (view (destroy s w)) = data (view w).
Proof.
  intros Hp. unfold destroy. rewrite Hp. simpl. pose proof (close_view (file_ s) w) as ->. by destruct (valid (file_ s)).
Qed.

Lemma receive_file_hosted sock fuel rconfig stats out w :
  receiver_window_size rconfig = cap ->
  let '(w', _, out', r) := receive_file sock fuel dir rconfig stats out w in
  Forall welcome (taken_since w w') ->
  exists s w1, hosting w s w1 /\ outbox w' = outbox w1 /\
    (published_ s = true -> names (view w') = names (view w1) /\ data (view w') = data (view w1)) /\
    (r = Some Transfer.kNone -> published_ s = true /\ out' = output_path_ s).
Proof.
  intros Hcap. unfold receive_file. rewrite Hcap.
  pose proof (set_receive_timeout_quiet sock (s64 (idle_timeout rconfig * 1000)) w) as (Hv & Ho & Hi).
  destruct (set_receive_timeout sock _ w) as [w1 armed]. simpl in Hv, Ho, Hi. set (s0 := new_session _ dir).
  assert (hosted w s0 w1) as Hh0 by (split; [exists []; by rewrite app_nil_r|intros _; by apply hosting_new]).
  assert (forall s w1 w2, hosted w s w1 -> quiet w1 w2 -> Forall welcome (taken_since w (destroy s w2)) ->
    hosting w s w1 /\ outbox (destroy s w2) = outbox w1 /\
    (published_ s = true -> names (view (destroy s w2)) = names (view w1) /\ data (view (destroy s w2)) = data (view w1))) as Hend.
  { intros s wa wb [_ Hh] (Hva & Hoa & Hia). unfold taken_since. pose proof (destroy_offline s wb) as [Hod Hid].
    rewrite Hid, Hia. intros Hw. split_and!; [by apply Hh|congruence|].
    intros Hp. destruct (destroy_published s wb Hp) as [-> ->]. by rewrite Hva. }
  destruct armed; simpl negb; cbv iota.
  2:{ intros Hw. exists s0, w1. destruct (Hend s0 w1 w1 Hh0 ltac:(done) Hw) as (? & ? & ?). by split_and!. }
  pose proof (receive_loop_hosted w sock fuel s0 false 0 w1 Hh0) as Hh.
  destruct (receive_loop sock fuel s0 false 0 w1) as [[w2 s] [u|e|]] eqn:Hloop.
  - pose proof (now_quiet w2) as Hq. destruct (sys_now w2) as [w3 t]. simpl in Hq.
    intros Hw. exists s, w2. destruct (Hend s w2 w3 Hh Hq Hw) as (Hh2 & ? & ?). split_and!; try done.
    case_bool_decide as He; simpl; [|intros [= ?]; congruence]. intros _. split; [|done].
    pose proof (receive_loop_serving sock dir w1 (view w1) fuel s0 false 0 w1 ltac:(by apply serving_new)) as Hs.
    rewrite Hloop in Hs. destruct Hs as [[_ _ Hver] Hfin]. unfold verdict in Hver. rewrite Hfin in Hver. by apply Hver.
  - intros Hw. exists s, w2. destruct (Hend s w2 w2 Hh ltac:(done) Hw) as (? & ? & ?). split_and!; try done.
    intros [= ->]. pose proof (receive_loop_serving sock dir w1 (view w1) fuel s0 false 0 w1 ltac:(by apply serving_new)) as Hs.
    rewrite Hloop in Hs. by destruct Hs as [_ [? _]].
  - intros Hw. exists s, w2. split_and!; try done. by apply Hh.
Qed.

(** A session in progress whose file is delivered, where and what. *)
Lemma hosting_delivered w0 s w :
  hosting w0 s w -> published_ s = true ->
  exists name i, sanitize_filename (remote_name config) = (Filename.kNone, name) /\ output_path_ s = join_path dir name /\
    names (view w) !! join_path dir name = Some i /\ data (view w) !! i = Some F.
Proof.
  intros [Ho (Hd & Hst & Hn) _ _] Hp. destruct (Hn (Hst Hp)) as (name & Hsan & Hout).
  destruct Ho as [[]|[[S []]|[_ Hdel]]]; [congruence|congruence|].
  destruct (Hdel Hp) as (i & Hi & Hdata). exists name, i. rewrite Hout in Hi. by split_and!.
Qed.
End Host.

(** ** Claims *)

Section Claims.
Context {W1 : Type} `{NL1 : NetworkLaws W1}.
Context {W2 : Type} `{NL2 : NetworkLaws W2}.
Context {Q : Type} `{PQL : PriorityQueueLaws Entry entry_less Q}.
Implicit Types (w : W1) (u : W2).

(** The file is on the receiver's system, under the name [sanitize_filename]
    makes of the requested one. *)
Definition arrived (config : SenderConfig) (F : list byte) (dir out : path) u : Prop :=
  exists name i, sanitize_filename (remote_name config) = (Filename.kNone, name) /\ out = join_path dir name /\
    names (view u) !! out = Some i /\ data (view u) !! i = Some F.

(** What a transfer needs of both configurations and of the file at [p]. *)
Record transferable (config : SenderConfig) (F : list byte) (rconfig : ReceiverConfig) (p : path) w : Prop := {
  trf_sendable : sendable config F;
  trf_window : 0 <= receiver_window_size rconfig < 2 ^ 32;
  trf_room : Z.of_nat (chunk_total F (Z.to_nat (chunk_size config))) + Z.max 1 (receiver_window_size rconfig) < 2 ^ 32;
  trf_file : exists i, names (view w) !! p = Some i /\ data (view w) !! i = Some F
}.

Lemma transferable_bounded config F rconfig p w :
  transferable config F rconfig p w -> bounded F (Z.to_nat (chunk_size config)) (receiver_window_size rconfig).
Proof. intros [[] ? ? _]. split; lia. Qed.

(** Everything the receiver took in was sent by this sender, or is no packet. *)
Lemma carried_welcome config F rconfig p w w' (received : list (list byte)) :
  transferable config F rconfig p w ->
  (exists l, outbox w' = outbox w ++ l /\ Forall (fun d => honest_wire config F d.1) l) ->
  carried (sent_since w w') received -> Forall (welcome config F) received.
Proof.
  intros _ (l & Hl & Hhonest) Hc.
  assert (forall s, s ∈ sent_since w w' -> honest_wire config F s) as Hs.
  { unfold sent_since. rewrite Hl, drop_app_length. intros s (d & -> & Hd)%list_elem_of_fmap.
    rewrite Forall_forall in Hhonest. by apply Hhonest. }
  apply Forall_forall. intros r Hr. destruct (ok (deserialize r)) eqn:Hok; [|by right]. left. apply Hs.
  eapply (carried_packet _ received); [|done..|by apply ok_success].
  intros s (q & Hq & _)%Hs. by rewrite Hq.
Qed.

Abbreviation capacity c := (if window_size c =? 0 then 1 else window_size c).

Lemma sender_honest_since sock destination config F rconfig fuel p w st :
  transferable config F rconfig p w -> Z.of_nat fuel * (3 * capacity config + 3) < 2 ^ 64 ->
  let '(w', _, r) := send_file (Q:=Q) sock destination config fuel p w st in
  (exists l, outbox w' = outbox w ++ l /\ Forall (fun d => honest_wire config F d.1) l) /\
  (r = Some Transfer.kNone -> completed config F w w').
Proof.
  intros [Hs _ _ (i & Hp & Hd)] Hf. pose proof (send_file_spec (Q:=Q) sock destination config F fuel p w st i Hs Hp Hd Hf) as Hspec.
  destruct (send_file _ _ _ _ _ _ _) as [[w' st'] r]. destruct Hspec as ((l & Hl & Hh) & _ & ?). split; [|done].
  exists l. split; [done|]. eapply Forall_impl; [exact Hh|]. by intros d [? _].
Qed.

(** C1: files travel intact.  Run [send_file] on one system and [receive_file] on
    another, let the network lose, repeat, reorder and corrupt what passes between
    them and strangers send what is no packet.  If the receiver returns [kNone],
    then the path it reports is the output directory's child with the sanitised
    form of the requested name, and the file there is the sender's, byte for byte. *)
Theorem file_travels_intact sock1 destination config F fuel1 p w st1 sock2 fuel2 dir rconfig st2 out u :
  transferable config F rconfig p w -> Z.of_nat fuel1 * (3 * capacity config + 3) < 2 ^ 64 ->
  let '(w', _, _) := send_file (Q:=Q) sock1 destination config fuel1 p w st1 in
  let '(u', _, out', r) := receive_file sock2 fuel2 dir rconfig st2 out u in
  carried (sent_since w w') (taken_since u u') ->
  r = Some Transfer.kNone -> arrived config F dir out' u'.
Proof.
  intros Ht Hf. pose proof (sender_honest_since sock1 destination config F rconfig fuel1 p w st1 Ht Hf) as Hsend.
  destruct (send_file _ _ _ _ _ _ _) as [[w' st1'] r1]. destruct Hsend as [Hsend _].
  pose proof (receive_file_hosted config F _ dir (transferable_bounded _ _ _ _ _ Ht) sock2 fuel2 rconfig st2 out u eq_refl) as Hrecv.
  destruct (receive_file _ _ _ _ _ _ u) as [[[u' st2'] out'] r]. intros Hc ->.
  destruct (Hrecv (carried_welcome _ _ _ _ _ _ _ Ht Hsend Hc)) as (s & u1 & Hh & _ & Hv & Hr).
  destruct (Hr eq_refl) as [Hpub ->]. destruct (Hv Hpub) as [Hn Hd].
  destruct (hosting_delivered _ _ _ _ _ _ _ Hh Hpub) as (name & i & Hsan & Hout & Hi & Hdata).
  exists name, i. rewrite Hn, Hd, Hout. by split_and!.
Qed.

(** C2: the sender's success is the receiver's.  Under the same network, which now
    carries the replies as well: if [send_file] returns [kNone] then the file is in
    the receiver's output directory, under the sanitised name, byte for byte,
    whether [receive_file] has returned yet or not. *)
Theorem success_means_delivered sock1 destination config F fuel1 p w st1 sock2 fuel2 dir rconfig st2 out u :
  transferable config F rconfig p w -> Z.of_nat fuel1 * (3 * capacity config + 3) < 2 ^ 64 ->
  let '(w', _, r) := send_file (Q:=Q) sock1 destination config fuel1 p w st1 in
  let '(u', _, _, _) := receive_file sock2 fuel2 dir rconfig st2 out u in
  carried (sent_since w w') (taken_since u u') -> carried (sent_since u u') (taken_since w w') ->
  r = Some Transfer.kNone -> exists out', arrived config F dir out' u'.
Proof.
  intros Ht Hf. pose proof (sender_honest_since sock1 destination config F rconfig fuel1 p w st1 Ht Hf) as Hsend.
  destruct (send_file _ _ _ _ _ _ _) as [[w' st1'] r1]. destruct Hsend as [Hsend Hdone].
  pose proof (receive_file_hosted config F _ dir (transferable_bounded _ _ _ _ _ Ht) sock2 fuel2 rconfig st2 out u eq_refl) as Hrecv.
  destruct (receive_file _ _ _ _ _ _ u) as [[[u' st2'] out'] r]. intros Hc Hc' ->.
  destruct (Hrecv (carried_welcome _ _ _ _ _ _ _ Ht Hsend Hc)) as (s & u1 & Hh & Hout & Hv & _).
  destruct (hst_sent _ _ _ _ _ _ _ Hh) as (l & Hl & Hreplies). rewrite Forall_forall in Hreplies.
  assert (forall x, x ∈ sent_since u u' -> ok (deserialize x) = true /\ (fin_ack x -> published_ s = true)) as Hsent.
  { unfold sent_since. rewrite Hout, Hl, drop_app_length. intros x (d & -> & Hin)%list_elem_of_fmap. by apply Hreplies. }
  destruct (Hdone eq_refl) as (_ & _ & bytes & a & q & Hin%(list_elem_of_fmap_2 fst) & Hq & Hty & _).
  assert (published_ s = true) as Hpub.
  { apply (Hsent bytes); [|by exists q]. eapply carried_packet; [|exact Hc'|exact Hin|exact Hq]. intros x Hx. by apply Hsent. }
  destruct (Hv Hpub) as [Hn Hd].
  destruct (hosting_delivered _ _ _ _ _ _ _ Hh Hpub) as (name & i & Hsan & _ & Hi & Hdata).
  exists (join_path dir name), name, i. rewrite Hn, Hd. by split_and!.
Qed.
End Claims.
