(* ===== verification/ServerDelivery.v ===== *)
(** * Delivery through the server

    A sender of Sender.v talks to the server of Server.v while any number of other
    peers do the same.  The others share the server's directory, its table and its
    file system; what they may not do is use the sender's session id or write the
    file it names.  Then the sender's success means what it means with a receiver
    of its own (EndToEnd.v): the file is there, byte for byte. *)

From S2P Require Import Prelude Words Packet Wire Sha256 Filename Transfer PriorityQueue SenderWindow ReceiverWindow FileIO Net Monad ReceiverSession Offline Footprint Delivery Receiver Server ServerSpec ServerRule ServerFds Sender SenderSpec EndToEnd.
Import Packet.Packet.
Open Scope Z_scope.

Section Shared.
Context {W : Type} `{SL : SetupLaws W}.
Context (config : SenderConfig) (F : list byte) (sconfig : ServerConfig) (e : Endpoint) (name : list byte).
Implicit Types (w : W) (s : ReceiverSession) (v : View) (h : list (SessionKey * ReceiverSession)).

Abbreviation sid := (config_session_id config).
Abbreviation cs := (Z.to_nat (chunk_size config)).
Abbreviation dir := (server_directory sconfig).
Abbreviation cap := (server_window_size sconfig).

(** The sender's entry of the table, its temporary file and its file. *)
Definition sender_key : SessionKey := {| key_address := address e; key_port := port e; key_session_id := sid |}.
Definition partial : path := join_path dir (temp_name sid).
Definition target : path := join_path dir name.

(** A packet of somebody else's transfer, to somewhere else. *)
Definition apart (p : Packet) : Prop :=
  session_id (header p) <> sid /\
  (packet_type (header p) = kStart ->
   forall n, sanitize_filename (payload p) = (Filename.kNone, n) -> n <> name /\ n <> temp_name sid).

(** What may arrive: noise, the sender's packets, and other transfers. *)
Definition admissible (d : list byte * sockaddr_in) : Prop :=
  ok (deserialize d.1) = true ->
  (honest_wire config F d.1 /\ from_sockaddr d.2 = e) \/ apart (value (deserialize d.1)).

Context (Hb : bounded F cs cap) (Hsid : fits 64 sid).
Context (Hname : sanitize_filename (remote_name config) = (Filename.kNone, name)).
Context (Hplain : forall n, name <> temp_name n).

Lemma name_safe : safe_name name.
Proof. by apply sanitize_accepts in Hname as []. Qed.

Lemma target_partial : target <> partial.
Proof. by intros He%join_path_inj%Hplain. Qed.

(** *** The sender's session *)

(** The descriptors of the sender's session. *)
Definition mine h (fd : Z) : Prop := exists s, (sender_key, s) ∈ h /\ fd_of s = Some fd.

(** The file is in place, and nobody is writing to it. *)
Definition landed h v : Prop := exists i, sole (mine h) v target i /\ data v !! i = Some F.

Record ours h w s : Prop := {
  our_outcome : outcome F cs sid cap w s;
  our_named : named config dir s;
  our_verdict : verdict s;
  our_temp : temp_path_ s = [] \/ temp_path_ s = partial;
  our_started : started_ s = true -> temp_path_ s = partial;
  our_published : published_ s = true -> landed h (view w)
}.

(** Another session. *)
Definition elsewhere s : Prop :=
  output_directory_ s = dir /\ forall q, q = partial \/ q = target -> temp_path_ s <> q /\ output_path_ s <> q.

Definition fin_ack_of (bytes : list byte) : Prop :=
  exists p, deserialize bytes = success p /\ packet_type (header p) = kFinAck /\ session_id (header p) = sid.

(** The whole table: what holds at any time, whatever [admissible] datagrams
    arrive, since the server was in [w0]. *)
Record shared (w0 : W) h w : Prop := {
  sh_keys : NoDup h.*1;
  sh_fds : ledger (handles (view w0)) h (view w);
  sh_clean : clean (view w);
  sh_reply : Forall (fun x => reply_wf (final_reply_ x.2)) h;
  sh_others k s : (k, s) ∈ h -> k <> sender_key -> elsewhere s;
  sh_ours s : (sender_key, s) ∈ h -> ours h w s;
  sh_partial i : names (view w) !! partial = Some i -> sole (mine h) (view w) partial i;
  sh_sent : exists l, outbox w = outbox w0 ++ l /\
    Forall (fun d => ok (deserialize d.1) = true /\ (fin_ack_of d.1 -> landed h (view w))) l
}.

Lemma our_output h w s : ours h w s -> started_ s = true -> output_path_ s = target.
Proof.
  intros [] Hst. destruct our_named0 as (_ & _ & Hn). destruct (Hn Hst) as (n & Hn' & ->). unfold target. congruence.
Qed.

(** Files, seen from the sender's own session. *)
Lemma mine_own s h fd : sender_key ∉ h.*1 -> mine ((sender_key, s) :: h) fd <-> fd_of s = Some fd.
Proof.
  intros Hk. split; [|intros Hfd; exists s; split; [left|done]]. intros (s' & [[= ->]|Hin]%elem_of_cons & Hfd); [done|].
  by apply (list_elem_of_fmap_2 fst) in Hin.
Qed.

Lemma mine_other k s h fd : k <> sender_key -> mine ((k, s) :: h) fd <-> mine h fd.
Proof.
  intros Hk. unfold mine. split; intros (s' & Hin & Hfd); exists s'; (split; [|done]); [|by right].
  by apply elem_of_cons in Hin as [[= <- _]|].
Qed.

Lemma sole_iff (own own' : Z -> Prop) v q i : (forall fd, own fd -> own' fd) -> sole own v q i -> sole own' v q i.
Proof. intros H []. split; auto. Qed.
(** *** One packet for the sender's session *)

Lemma running_link w s :
  outcome F cs sid cap w s -> finished_ s = false -> (started_ s = true -> temp_path_ s = partial) ->
  forall i, valid (file_ s) = true -> handles (view w) !! fd_ (file_ s) = Some i -> names (view w) !! partial = Some i.
Proof.
  intros [Hfr|[[S Hr]|[? _]]] Hf Ht i Hval Hi; [by rewrite (fresh_file _ _ Hfr) in Hval| |congruence].
  destruct (run_file _ _ _ _ _ _ _ Hr) as (j & c & [Hj _] & _ & _ & Hn). rewrite <- Ht by apply Hr. congruence.
Qed.

Lemma ours_paths p h w s s' :
  ours h w s -> repath p s s' -> session_id (header p) = sid -> temp_path_ s' = [] \/ temp_path_ s' = partial.
Proof.
  intros [] [_ Ht _ _|n Hd _ _ Ht _] Hp; rewrite Ht; [done|]. right. unfold partial. destruct our_named0 as (-> & _). by rewrite Hp.
Qed.

Lemma own_packet p h w s :
  sender_key ∉ h.*1 -> clean (view w) -> ours ((sender_key, s) :: h) w s ->
  (forall i, names (view w) !! partial = Some i -> sole (fun fd => fd_of s = Some fd) (view w) partial i) ->
  honest F cs sid p -> (packet_type (header p) = kStart -> payload p = remote_name config) ->
  let '(w', s', r) := handle_packet p s w in
  ours ((sender_key, s') :: h) w' s' /\
  (forall i, names (view w') !! partial = Some i -> sole (fun fd => fd_of s' = Some fd) (view w') partial i) /\
  (landed ((sender_key, s) :: h) (view w) -> landed ((sender_key, s') :: h) (view w')).
Proof.
  intros Hk Hclean Ho Hpriv Hp Hstart. pose proof Ho as [].
  pose proof (handle_outcome F cs sid cap Hb w s p our_outcome0 Hp) as H1.
  pose proof (named_handle config dir s p w Hstart our_verdict0 our_named0) as H2.
  pose proof (handle_packet_verdict p s w our_verdict0) as H3.
  pose proof (handle_packet_steps p s w) as [Hpath Hc].
  destruct (finished_ s) eqn:Hfin.
  { pose proof (handle_finished w s p Hfin) as Hh. destruct (handle_packet p s w) as [[w' s'] r].
    destruct Hh as [-> [f ->]]. assert (forall v, landed ((sender_key, s) :: h) v -> landed ((sender_key, set_stats f s) :: h) v) as Hl.
    { intros v (i & Hs & Hd). exists i. split; [|done]. eapply sole_iff; [|exact Hs]. intros fd. by rewrite !mine_own. }
    split_and!; [by split; auto|done|apply Hl]. }
  assert (session_id (header p) = sid) as Hps by (by destruct Hp).
  destruct (handle_packet p s w) as [[w' s'] r]. simpl in Hpath, Hc.
  pose proof (ours_paths p _ w s s' Ho Hpath Hps) as Htemp'.
  assert (started_ s' = true -> temp_path_ s' = partial) as Hst'.
  { intros Hs'. destruct Hpath as [_ -> _ H|n Hd _ _ -> _]; [auto|]. destruct our_named0 as (-> & _). unfold partial. by rewrite Hps. }
  assert (published_ s = false) as Hpub by (unfold verdict in our_verdict0; rewrite Hfin in our_verdict0; by destruct our_verdict0).
  destruct (own_changes s s' (view w) (view w') Hc partial target target_partial Hclean) as [Hpriv' Hland];
    [intros Hst; split; [auto|by eapply our_output]|done|by apply running_link|done|].
  assert (forall i, sole (fun fd => fd_of s' = Some fd) (view w') target i -> data (view w') !! i = Some F ->
    landed ((sender_key, s') :: h) (view w')) as Hmake.
  { intros i Hs Hd. exists i. split; [|done]. eapply sole_iff; [|exact Hs]. intros fd. by rewrite mine_own. }
  assert (published_ s' = true -> landed ((sender_key, s') :: h) (view w')) as Hpub'.
  { intros Hp'. destruct Hland as [[Hsame _]|[_ [i Hs]]]; [congruence|]. apply (Hmake i Hs).
    destruct H1 as [[]|[[S []]|[_ Hdel]]]; [congruence|congruence|]. destruct (Hdel Hp') as (j & Hj & Hd).
    destruct H2 as (_ & Hps' & Hn). destruct (Hn (Hps' Hp')) as (n & Hn' & Hout). assert (n = name) as -> by congruence.
    rewrite Hout in Hj. fold target in Hj. rewrite (sole_name _ _ _ _ Hs) in Hj. congruence. }
  split_and!; [by split|done|]. intros (i & Hs & Hd). destruct Hland as [[_ Hsame]|[Hp' _]]; [|by apply Hpub'].
  destruct (Hsame i) as [Hs' Hd']; [eapply sole_iff; [|exact Hs]; intros fd; by rewrite mine_own|]. apply (Hmake i Hs'). congruence.
Qed.
(** *** What other sessions do *)

(** The sender's two files, and its descriptor, are left alone. *)
Record spares h h' v v' : Prop := {
  spr_names q : q = partial \/ q = target -> names v' !! q = names v !! q;
  spr_sole q i : q = partial \/ q = target -> sole (mine h) v q i -> sole (mine h') v' q i /\ data v' !! i = data v !! i;
  spr_handles fd : mine h fd -> is_Some (handles v !! fd) -> handles v' !! fd = handles v !! fd
}.

Lemma spares_trans h1 h2 h3 v1 v2 v3 :
  (forall fd, mine h1 fd -> mine h2 fd) -> spares h1 h2 v1 v2 -> spares h2 h3 v2 v3 -> spares h1 h3 v1 v3.
Proof.
  intros Hm [Hn Hs Hh] [Hn' Hs' Hh']. split.
  - intros q Hq. by rewrite Hn', Hn.
  - intros q i Hq Hi. destruct (Hs q i Hq Hi) as [Hi2 Hd]. destruct (Hs' q i Hq Hi2) as [? Hd']. split; [done|congruence].
  - intros fd Hfd Hopen. pose proof (Hh fd Hfd Hopen) as He. rewrite <- He. apply Hh'; [auto|by rewrite He].
Qed.

Lemma spares_landed h h' v v' : spares h h' v v' -> landed h v -> landed h' v'.
Proof.
  intros Hs (i & Hi & Hd). destruct (spr_sole _ _ _ _ Hs target i) as [? Hd']; [by right|done|]. exists i. split; congruence.
Qed.

Lemma spares_ours h h' w w' s :
  spares h h' (view w) (view w') -> (sender_key, s) ∈ h ->
  (forall i, names (view w) !! partial = Some i -> sole (mine h) (view w) partial i) ->
  ours h w s -> ours h' w' s.
Proof.
  intros Hs Hin Hpriv Ho. pose proof (our_output _ _ _ Ho) as Hout. destruct Ho.
  assert (published_ s = true -> landed h' (view w')) as Hp by (intros Hp; by eapply spares_landed; [|apply our_published0]).
  split; try done. destruct our_outcome0 as [?|[[S Hr]|[Hf Hd]]]; [by left|right; left; exists S|].
  - destruct (run_file _ _ _ _ _ _ _ Hr) as (i & c & [Hh Hc] & Hfd & Hag & Hn). destruct Hr. split; try done.
    rewrite our_started0 in Hn |- * by done.
    destruct (spr_sole _ _ _ _ Hs partial i (or_introl eq_refl) (Hpriv i Hn)) as [_ Hd].
    exists i, c. split_and!; [split; [|congruence]|done..|by rewrite (spr_names _ _ _ _ Hs) by (by left)].
    rewrite (spr_handles _ _ _ _ Hs); [done| |by rewrite Hh]. exists s. split; [done|]. unfold fd_of, valid. by rewrite (proj2 (Z.leb_le _ _) Hfd).
  - right; right. split; [done|]. intros Hps. destruct (Hp Hps) as (i & Hi & Hd'). exists i. split; [|done].
    rewrite Hout; [apply Hi|]. by apply our_named0.
Qed.

Lemma spares_changes k s s' h v v' :
  k <> sender_key -> changes s s' v v' -> elsewhere s -> elsewhere s' ->
  (forall fd, fd_of s = Some fd -> ~ mine h fd) -> spares ((k, s) :: h) ((k, s') :: h) v v'.
Proof.
  intros Hk Hc [_ Hs] [_ Hs'] Hfd. split.
  - intros q Hq. by apply (foreign_names s s' v v' Hc); [apply Hs|apply Hs|apply Hs'].
  - intros q i Hq Hi. apply (sole_iff _ (mine h)) in Hi; [|intros fd; by apply mine_other].
    destruct (foreign_sole (mine h) s s' v v' Hc q i) as [Hi' ?]; [by apply Hs|by apply Hs|by apply Hs'|done|done|].
    split; [|done]. eapply sole_iff; [|exact Hi']. intros fd. by apply mine_other.
  - intros fd Hm. apply (foreign_handles s s' v v' Hc). intros Hs2. apply mine_other in Hm; [|done]. by apply (Hfd fd).
Qed.

Lemma spares_remove k s h v :
  k <> sender_key -> elsewhere s -> spares ((k, s) :: h) h v v /\ spares h h v (set_names (delete (temp_path_ s)) v).
Proof.
  intros Hk [_ Hs]. split; split; try done; simpl.
  - intros q i _ Hi. split; [|done]. eapply sole_iff; [|exact Hi]. intros fd. by apply mine_other.
  - intros q Hq. apply lookup_delete_ne. by apply Hs.
  - intros q i Hq Hi. split; [|done]. apply (sole_frame (mine h) (mine h) v); [done| |simpl; intros q' [_ ?]%lookup_delete_Some; done|done].
    simpl. rewrite lookup_delete_ne; [apply Hi|by apply Hs].
Qed.

(** A session of another key keeps away. *)
Lemma repath_elsewhere p s s' : repath p s s' -> apart p -> fits 64 (session_id (header p)) -> elsewhere s -> elsewhere s'.
Proof.
  intros Hp [Hid Happ] Hfits [Hd Hs]. destruct Hp as [Hd' Ht Ho _|n Hd' Hty Hsan Ht Ho]; (split; [congruence|]); intros q Hq.
  - rewrite Ht, Ho. by apply Hs.
  - destruct (Happ Hty n Hsan) as [Hn Hn']. rewrite Ht, Ho, Hd. destruct Hq as [-> | ->]; split; intros He%join_path_inj; try done.
    + by apply Hid, temp_name_inj.
    + by destruct (Hplain (session_id (header p))).
Qed.
(** *** The table *)

Lemma mine_fds h fd : mine h fd -> fd ∈ fds h.
Proof. intros (s & Hin & Hfd). apply list_elem_of_omap. by exists (sender_key, s). Qed.

Lemma ledger_distinct st k s h v fd : ledger st ((k, s) :: h) v -> fd_of s = Some fd -> ~ mine h fd.
Proof.
  intros [Hn _ _] Hfd Hm%mine_fds. rewrite fds_cons, Hfd in Hn. by apply NoDup_cons in Hn as [].
Qed.

Lemma landed_iff h h' v : (forall fd, mine h fd -> mine h' fd) -> landed h v -> landed h' v.
Proof. intros Hm (i & Hi & Hd). exists i. split; [|done]. by eapply sole_iff. Qed.

Lemma shared_perm w0 h h' w : h ≡ₚ h' -> shared w0 h w -> shared w0 h' w.
Proof.
  intros Hp []. assert (forall x, x ∈ h <-> x ∈ h') as Hin by (intros x; by rewrite Hp).
  assert (forall fd, mine h fd -> mine h' fd) as Hm by (intros fd (s & Hs & Hfd); exists s; by rewrite <- Hin).
  split; try done.
  - by rewrite <- Hp.
  - by eapply ledger_perm.
  - by rewrite <- Hp.
  - intros k s. rewrite <- Hin. apply sh_others0.
  - intros s. rewrite <- Hin. intros Hs. destruct (sh_ours0 s Hs). split; try done. intros. eapply landed_iff; eauto.
  - intros i Hi. eapply sole_iff; eauto.
  - destruct sh_sent0 as (l & Hl & Hf). exists l. split; [done|]. eapply Forall_impl; [exact Hf|].
    intros d [Hok Hd]. split; [done|]. intros Ha. eapply landed_iff; eauto.
Qed.

Lemma ours_view h w w' s : view w' = view w -> ours h w s -> ours h w' s.
Proof. intros Hv []. split; rewrite ?Hv; try done. by eapply outcome_view. Qed.

Lemma shared_quiet w0 h w w' : view w' = view w -> outbox w' = outbox w -> shared w0 h w -> shared w0 h w'.
Proof. intros Hv Ho []. split; rewrite ?Hv, ?Ho; try done. intros s Hs. eapply ours_view; eauto. Qed.

Lemma shared_send sock w0 h w bytes to :
  ok (deserialize bytes) = true -> (fin_ack_of bytes -> landed h (view w)) ->
  shared w0 h w -> shared w0 h (send_to sock bytes to w).1.
Proof.
  intros Hok Hack Hsh. pose proof (send_to_spec sock bytes to w) as Hs. destruct (send_to _ _ _ w) as [w' x].
  destruct Hs as (Hv & _ & Ho). simpl. destruct Ho as [Ho|(a & _ & Ho)]; [by eapply shared_quiet|].
  destruct Hsh. split; rewrite ?Hv; try done; [intros s Hs; eapply ours_view; eauto|].
  destruct sh_sent0 as (l & Hl & Hf). exists (l ++ [(bytes, a)]). split; [by rewrite Ho, Hl, app_assoc|].
  apply Forall_app. split; [done|]. by apply Forall_singleton.
Qed.

(** Whatever spares the sender's files. *)
Lemma shared_spares w0 h h' w w' :
  shared w0 h w -> spares h h' (view w) (view w') -> outbox w' = outbox w ->
  NoDup h'.*1 -> ledger (handles (view w0)) h' (view w') -> clean (view w') ->
  Forall (fun x => reply_wf (final_reply_ x.2)) h' ->
  (forall k s, (k, s) ∈ h' -> k <> sender_key -> elsewhere s) ->
  (forall s, (sender_key, s) ∈ h' -> (sender_key, s) ∈ h) -> shared w0 h' w'.
Proof.
  intros [] Hs Ho Hk Hl Hc Hr Hothers Hin. split; try done.
  - intros s Hs'. eapply spares_ours; eauto.
  - intros i. rewrite (spr_names _ _ _ _ Hs) by (by left). intros Hi. by apply (spr_sole _ _ _ _ Hs); [left|apply sh_partial0].
  - destruct sh_sent0 as (l & Hl' & Hf). exists l. split; [by rewrite Ho|]. eapply Forall_impl; [exact Hf|].
    intros d [Hok Hd]. split; [done|]. intros Ha. by eapply spares_landed; [|apply Hd].
Qed.

Lemma shared_keys k s s' h : NoDup ((k, s) :: h).*1 -> NoDup ((k, s') :: h).*1 /\ k ∉ h.*1.
Proof. intros Hn. split; [exact Hn|]. by apply NoDup_cons in Hn as []. Qed.

(** The entry of another key changes. *)
Lemma shared_change k s s' w0 h w w' :
  k <> sender_key -> shared w0 ((k, s) :: h) w -> changes s s' (view w) (view w') -> outbox w' = outbox w ->
  elsewhere s' -> reply_wf (final_reply_ s') -> shared w0 ((k, s') :: h) w'.
Proof.
  intros Hk Hsh Hc Ho He Hr. pose proof Hsh as []. assert (elsewhere s) as Hes by (by apply (sh_others0 k); [left|]).
  eapply shared_spares; [exact Hsh| |done|by eapply shared_keys|by eapply ledger_changes|by eapply clean_changes|..].
  - apply spares_changes; try done. intros fd. by eapply ledger_distinct.
  - apply Forall_cons in sh_reply0 as [_ ?]. by constructor.
  - intros k' x [[= -> ->]|Hin]%elem_of_cons Hk'; [done|]. apply (sh_others0 k'); [by right|done].
  - intros x [[= <- _]|Hin]%elem_of_cons; [done|by right].
Qed.

(** The sender's entry changes. *)
Lemma shared_own s s' w0 h w w' :
  shared w0 ((sender_key, s) :: h) w -> changes s s' (view w) (view w') -> outbox w' = outbox w ->
  reply_wf (final_reply_ s') -> ours ((sender_key, s') :: h) w' s' ->
  (forall i, names (view w') !! partial = Some i -> sole (fun fd => fd_of s' = Some fd) (view w') partial i) ->
  (landed ((sender_key, s) :: h) (view w) -> landed ((sender_key, s') :: h) (view w')) ->
  shared w0 ((sender_key, s') :: h) w'.
Proof.
  intros [] Hc Ho Hr Hours Hpriv Hland. destruct (shared_keys _ _ s' _ sh_keys0) as [Hk Hnot]. split; try done.
  - by eapply ledger_changes.
  - by eapply clean_changes.
  - apply Forall_cons in sh_reply0 as [_ ?]. by constructor.
  - intros k x [[= -> _]|Hin]%elem_of_cons Hne; [done|]. apply (sh_others0 k); [by right|done].
  - intros x [[= ->]|Hin]%elem_of_cons; [done|]. by apply (list_elem_of_fmap_2 fst) in Hin.
  - intros i Hi. eapply sole_iff; [|by apply Hpriv]. intros fd. by rewrite mine_own.
  - destruct sh_sent0 as (l & Hl & Hf). exists l. split; [by rewrite Ho|]. eapply Forall_impl; [exact Hf|].
    intros d [Hok Hd]. split; [done|]. auto.
Qed.

Lemma our_privacy s w0 h w :
  shared w0 ((sender_key, s) :: h) w ->
  forall i, names (view w) !! partial = Some i -> sole (fun fd => fd_of s = Some fd) (view w) partial i.
Proof.
  intros [] i Hi. eapply sole_iff; [|by apply sh_partial0]. intros fd. rewrite mine_own; [done|by eapply shared_keys].
Qed.

Lemma reply_ok p r :
  packet_wf p -> reply_wf r ->
  let bytes := serialize (make_header (type r) (session_id (header p)) (sequence r) (sequence r) 0) (reply_payload r) in
  ok (deserialize bytes) = true /\ (fin_ack_of bytes -> session_id (header p) = sid /\ type r = kFinAck).
Proof.
  intros [Hp _] [Hseq Hlen] bytes. pose proof (wf_session_id _ Hp) as Hid.
  assert (deserialize bytes = success {| header := sent_header (make_header (type r) (session_id (header p)) (sequence r) (sequence r) 0) (reply_payload r);
                                         payload := reply_payload r |}) as He by (apply deserialize_serialize; [by apply make_header_wf|done|done]).
  split; [by rewrite He|]. intros (q & Hq & Ht & Hs). rewrite He in Hq. injection Hq as <-. done.
Qed.

Lemma shared_answer sock bytes a to s w0 h w :
  admissible (bytes, a) -> ok (deserialize bytes) = true ->
  shared w0 ((key_of bytes (from_sockaddr a), s) :: h) w ->
  let '(w', s') := answer sock to (value (deserialize bytes)) s w in
  shared w0 ((key_of bytes (from_sockaddr a), s') :: h) w'.
Proof.
  intros Hadm Hok Hsh. pose proof (deserialize_wf bytes _ (ok_success _ Hok)) as Hwf. unfold answer.
  set (p := value (deserialize bytes)) in *. set (k := key_of bytes (from_sockaddr a)) in *.
  pose proof (handle_packet_offline p s w) as [Ho _]. pose proof (handle_packet_steps p s w) as [Hpath Hc].
  assert (reply_wf (final_reply_ s)) as Hfr by (by apply (Forall_inv (sh_reply _ _ _ Hsh))).
  pose proof (handle_packet_reply_wf p s w Hwf Hfr) as Hr.
  destruct (Hadm Hok) as [[(q & Hq & Hhonest & _ & Hstart) Hfrom]|Happ].
  - assert (p = q) as <- by (subst p; simpl in Hq; by rewrite Hq).
    assert (k = sender_key) as Hk.
    { subst k. unfold key_of. fold p. simpl in Hfrom. rewrite Hfrom. unfold sender_key. f_equal. by destruct Hhonest. }
    rewrite Hk in *. pose proof (sh_ours _ _ _ Hsh s ltac:(by left)) as Hours.
    destruct (shared_keys _ _ s _ (sh_keys _ _ _ Hsh)) as [_ Hnot].
    pose proof (own_packet p h w s Hnot (sh_clean _ _ _ Hsh) Hours (our_privacy _ _ _ _ Hsh) Hhonest Hstart) as Hown.
    pose proof (fin_ack_published s p w (our_verdict _ _ _ Hours)) as Hack.
    destruct (handle_packet p s w) as [[w1 s1] r]. simpl in Ho, Hc. destruct Hr as [Hr Hfr1]. destruct Hown as (Ho1 & Hp1 & Hl1).
    assert (shared w0 ((sender_key, s1) :: h) w1) as H1 by (by eapply shared_own).
    destruct (send r); [|done]. destruct (reply_ok p r Hwf Hr) as [Hok1 Hfin]. apply shared_send; [done| |done].
    intros [_ Ht]%Hfin. by apply Ho1, Hack.
  - change (value (deserialize (bytes, a).1)) with p in Happ.
    assert (k <> sender_key) as Hk by (intros Hk; apply (f_equal key_session_id) in Hk; by destruct Happ).
    assert (elsewhere s) as He by (apply (sh_others _ _ _ Hsh k); [by left|done]).
    destruct (handle_packet p s w) as [[w1 s1] r]. simpl in Ho, Hc, Hpath. destruct Hr as [Hr Hfr1].
    assert (elsewhere s1) as He1 by (eapply repath_elsewhere; [done|done|by apply wf_session_id, Hwf|done]).
    assert (shared w0 ((k, s1) :: h) w1) as H1 by (by eapply shared_change).
    destruct (send r); [|done]. destruct (reply_ok p r Hwf Hr) as [Hok1 Hfin]. apply shared_send; [done| |done].
    intros [Hs _]%Hfin. by destruct Happ.
Qed.
(** Room for another session. *)
Lemma shared_open k w0 h w : k ∉ h.*1 -> shared w0 h w -> shared w0 ((k, new_session cap dir) :: h) w.
Proof.
  set (s0 := new_session cap dir). intros Hk Hsh.
  assert (forall fd, mine h fd <-> mine ((k, s0) :: h) fd) as Hm.
  { intros fd. split; intros (s & Hs & Hfd); exists s; (split; [|done]); [by right|].
    apply elem_of_cons in Hs as [[= _ ->]|]; [|done]. done. }
  assert (spares h ((k, s0) :: h) (view w) (view w)) as Hsp.
  { split; try done. intros q i _ Hi. split; [|done]. eapply sole_iff; [|exact Hi]. intros fd. apply Hm. }
  pose proof Hsh as []. split; try done.
  - by constructor.
  - by apply ledger_none.
  - constructor; [|done]. by split.
  - intros k' s [[= -> ->]|Hs]%elem_of_cons Hne; [|by apply (sh_others0 k')]. split; [done|]. intros q Hq. simpl.
    assert (q <> []) as Hq'; [|done]. destruct Hq as [-> | ->]; apply join_path_nonempty; [apply temp_name_safe|apply name_safe].
  - intros s [[= <- ->]|Hs]%elem_of_cons; [|by eapply spares_ours; eauto].
    split; [left; apply new_session_fresh| |done|by left|done|done]. split_and!; simpl; congruence.
  - intros i Hi. by apply (spr_sole _ _ _ _ Hsp); [left|apply sh_partial0].
  - destruct sh_sent0 as (l & Hl & Hf). exists l. split; [done|]. eapply Forall_impl; [exact Hf|].
    intros d [Hok Hd]. split; [done|]. intros Ha. by eapply spares_landed; [|apply Hd].
Qed.

Lemma close_changes s w :
  let '(w', s') := close_file s w in
  view w' = shut (file_ s) (view w) /\ (exists f, s' = set_file f s) /\ changes s s' (view w) (view w') /\ outbox w' = outbox w.
Proof.
  unfold close_file. pose proof (close_offline (file_ s) w) as [Ho _]. pose proof (close_view (file_ s) w) as Hv. revert Ho Hv.
  fold (shut (file_ s) (view w)). unfold close. destruct (valid (file_ s)) eqn:Hf; simpl; intros Ho Hv.
  - split_and!; [done|by eexists|by apply chg_shut|done].
  - split_and!; [done|by eexists|by apply chg_none|done].
Qed.

Lemma shared_close_other k s w0 h w :
  k <> sender_key -> shared w0 ((k, s) :: h) w -> let '(w', s') := close_file s w in shared w0 ((k, s') :: h) w'.
Proof.
  intros Hk Hsh. pose proof (close_changes s w) as Hc. destruct (close_file s w) as [w' s'].
  destruct Hc as (_ & [f ->] & Hc & Ho). eapply shared_change; [done|exact Hsh|done|done| |].
  - by apply (sh_others _ _ _ Hsh k s); [left|].
  - by apply (Forall_inv (sh_reply _ _ _ Hsh)).
Qed.

Lemma shared_close k s w0 h w :
  finished_ s = true -> shared w0 ((k, s) :: h) w -> let '(w', s') := close_file s w in shared w0 ((k, s') :: h) w'.
Proof.
  intros Hfin Hsh. destruct (decide (k = sender_key)) as [->|Hk]; [|by apply shared_close_other].
  pose proof (close_changes s w) as Hc. destruct (close_file s w) as [w' s']. destruct Hc as (Hv & [f ->] & Hc & Ho).
  destruct (shut_names (file_ s) (view w)) as [Hn Hd]. destruct (shared_keys _ _ s _ (sh_keys _ _ _ Hsh)) as [_ Hnot].
  assert (landed ((sender_key, s) :: h) (view w) -> landed ((sender_key, set_file f s) :: h) (view w')) as Hl.
  { intros (i & Hi & Hdata). exists i. rewrite Hv, Hd. split; [|done]. apply shut_sole. eapply sole_iff; [|exact Hi].
    intros fd. by rewrite mine_own. }
  pose proof (sh_ours _ _ _ Hsh s ltac:(by left)) as Hours.
  eapply shared_own; [exact Hsh|done|done|by apply (Forall_inv (sh_reply _ _ _ Hsh))| | |done].
  - pose proof (our_output _ _ _ Hours) as Hout. destruct Hours. split; try done; [|auto]. right; right. split; [done|]. intros Hp.
    destruct (Hl (our_published0 Hp)) as (i & Hi & Hdata). exists i. split; [|done]. change (output_path_ (set_file f s)) with (output_path_ s).
    rewrite Hout; [apply Hi|]. by apply our_named0.
  - intros i. rewrite Hv, Hn. intros Hi. apply shut_sole. by eapply our_privacy.
Qed.

Lemma shared_destroy_own s w0 h w : shared w0 ((sender_key, s) :: h) w -> shared w0 h (destroy s w).
Proof.
  intros Hsh. pose proof (destroy_offline s w) as [Ho _]. pose proof (destroy_view s w) as Hv.
  destruct (shut_names (file_ s) (view w)) as [Hn Hd]. destruct (shared_keys _ _ s _ (sh_keys _ _ _ Hsh)) as [_ Hnot].
  pose proof (our_temp _ _ _ (sh_ours _ _ _ Hsh s ltac:(by left))) as Htemp. pose proof (our_privacy _ _ _ _ Hsh) as Hpriv.
  assert (forall q i, sole (fun fd => fd_of s = Some fd) (view w) q i -> names (view (destroy s w)) !! q = Some i ->
    sole (mine h) (view (destroy s w)) q i) as Hsole.
  { intros q i Hi%(shut_sole s (view w) (mine h)). destruct Hv as [->|(_ & _ & ->)]; [done|]. intros Hq.
    eapply sole_frame; [exact Hi|exact Hq|simpl; intros q' [_ ?]%lookup_delete_Some; done|done]. }
  assert (forall q, q <> temp_path_ s -> names (view (destroy s w)) !! q = names (view w) !! q) as Hnames.
  { intros q Hq. destruct Hv as [->|(_ & _ & ->)]; [by rewrite Hn|]. simpl. by rewrite lookup_delete_ne, Hn. }
  assert (data (view (destroy s w)) = data (view w)) as Hdata by (by destruct Hv as [->|(_ & _ & ->)]).
  assert (landed ((sender_key, s) :: h) (view w) -> landed h (view (destroy s w))) as Hl.
  { intros (i & Hi & Hc). exists i. rewrite Hdata. split; [|done]. apply Hsole.
    - eapply sole_iff; [|exact Hi]. intros fd. by rewrite mine_own.
    - rewrite Hnames; [apply Hi|]. destruct Htemp as [-> | ->]; [by apply join_path_nonempty, name_safe|apply target_partial]. }
  pose proof Hsh as []. split.
  - by apply NoDup_cons in sh_keys0 as [].
  - apply ledger_shut in sh_fds0. destruct Hv as [->|(_ & _ & ->)]; [done|]. destruct sh_fds0. by split.
  - intros fd i Hi. rewrite Hdata. apply (sh_clean0 fd). unfold shut in Hv.
    destruct Hv as [Hv|(_ & _ & Hv)]; rewrite Hv in Hi; destruct (valid (file_ s)); simpl in Hi; try done; by apply lookup_delete_Some in Hi as [].
  - by apply Forall_cons in sh_reply0 as [].
  - intros k x Hx. apply sh_others0. by right.
  - intros x Hx. by apply (list_elem_of_fmap_2 fst) in Hx.
  - intros i Hi. apply Hsole; [|done]. apply Hpriv. destruct Hv as [Hv|(_ & _ & Hv)]; rewrite Hv in Hi; simpl in Hi.
    + by rewrite Hn in Hi.
    + apply lookup_delete_Some in Hi as [_ Hi]. by rewrite Hn in Hi.
  - destruct sh_sent0 as (l & Hl' & Hf). exists l. split; [by rewrite Ho|]. eapply Forall_impl; [exact Hf|].
    intros d [Hok Hack]. split; [done|]. auto.
Qed.
Lemma shared_destroy k s w0 h w : shared w0 ((k, s) :: h) w -> shared w0 h (destroy s w).
Proof.
  destruct (decide (k = sender_key)) as [->|Hk]; [apply shared_destroy_own|]. intros Hsh.
  pose proof (shared_close_other k s w0 h w Hk Hsh) as H1. pose proof (close_changes s w) as Hc.
  pose proof (destroy_offline s w) as [Ho _]. pose proof (destroy_view s w) as Hv.
  destruct (close_file s w) as [w1 s1]. destruct Hc as (Hv1 & [f ->] & _ & Ho1). rewrite <- Hv1 in Hv.
  assert (elsewhere (set_file f s)) as He by (by apply (sh_others _ _ _ H1 k); [left|]).
  destruct (spares_remove k (set_file f s) h (view w1) Hk He) as [Hs1 Hs2]. pose proof H1 as [].
  assert (ledger (handles (view w0)) h (view w1)) as Hl.
  { rewrite Hv1. by eapply ledger_shut, Hsh. }
  eapply shared_spares; [exact H1| |congruence|by apply NoDup_cons in sh_keys0 as []| | |by apply Forall_cons in sh_reply0 as []|..].
  - destruct Hv as [->|(_ & _ & ->)]; [done|]. eapply spares_trans; [|exact Hs1|exact Hs2]. intros fd. by rewrite mine_other.
  - destruct Hv as [->|(_ & _ & ->)]; [done|]. by destruct Hl.
  - destruct Hv as [->|(_ & _ & ->)]; done.
  - intros k' x Hx. apply sh_others0. by right.
  - intros x Hx. by right.
Qed.

Lemma shared_preserved sock w0 : preserved sock sconfig admissible (shared w0).
Proof.
  split.
  - intros h h' w. apply shared_perm.
  - intros h w w'. apply shared_quiet.
  - intros k h w. apply shared_open.
  - intros bytes a to s h w. apply shared_answer.
  - intros bytes to h w Hok Hsh. unfold send_error. set (p := value _) in *.
    destruct (reply_ok p {| send := true; type := kError; sequence := sequence_number (header p); reply_payload := error_payload Status.kServerBusy |})
      as [Hok1 Hack]; [by apply (deserialize_wf bytes), ok_success|apply error_reply_wf; by apply (deserialize_wf bytes _ (ok_success _ Hok))|].
    apply shared_send; [done| |done]. by intros [_ ?]%Hack.
  - intros k s h w. apply shared_close.
  - intros k s h w. apply shared_destroy.
Qed.

(** *** A run of the server *)

(** Every datagram sent so far is a packet, and a FIN_ACK of the transfer means
    that the file is there. *)
Definition confirmed (w0 w : W) : Prop :=
  exists l, outbox w = outbox w0 ++ l /\
    Forall (fun d => ok (deserialize d.1) = true /\
      (fin_ack_of d.1 -> exists i, names (view w) !! target = Some i /\ data (view w) !! i = Some F)) l.

Lemma shared_confirmed w0 h w : shared w0 h w -> confirmed w0 w.
Proof.
  intros []. destruct sh_sent0 as (l & Hl & Hf). exists l. split; [done|]. eapply Forall_impl; [exact Hf|].
  intros d [Hok Hd]. split; [done|]. intros (i & Hi & Hc)%Hd. exists i. split; [apply Hi|done].
Qed.

Lemma run_confirmed fuel w :
  clean (view w) -> names (view w) !! partial = None ->
  let w' := (run fuel sconfig w).1 in
  Forall admissible (drop (length (inbox w)) (inbox w')) -> confirmed w w'.
Proof.
  intros Hc Hp.
  destruct (run_ends sconfig admissible (shared w) (fun sock => shared_preserved sock w) (confirmed w)) with (fuel:=fuel) (w:=w) as (ext & Hi & H).
  - apply shared_confirmed.
  - intros w1 w2 (Hv & Ho & _). unfold confirmed. by rewrite Hv, Ho.
  - intros fd w1. unfold confirmed. rewrite law_close. pose proof (law_close_net fd w1) as [-> _]. done.
  - cbv zeta. rewrite Hi, drop_app_length. intros Hf. assert (shared w [] w) as Hstart.
    { split; [constructor|split; [constructor|by intros fd ?%elem_of_nil|done]|done|constructor|..].
      - by intros k s ?%elem_of_nil.
      - by intros s ?%elem_of_nil.
      - intros i. by rewrite Hp.
      - exists []. by rewrite app_nil_r. }
    specialize (H Hf Hstart). destruct (run fuel sconfig w) as [w' [x|]]; [done|].
    destruct H as (sock & v & _ & Hsh). by eapply shared_confirmed.
Qed.
End Shared.

(** ** With a sender at the other end *)

Section Sender.
Context {W1 : Type} `{NL1 : NetworkLaws W1}.
Context {W2 : Type} `{SL2 : SetupLaws W2}.
Context {Q : Type} `{PQL : PriorityQueueLaws Entry entry_less Q}.
Implicit Types (w : W1) (u : W2).

(** What the server took in: the sender's datagrams, from the sender's endpoint,
    noise, and packets of other transfers to other files. *)
Definition mingled (config : SenderConfig) (e : Endpoint) (name : list byte) (sent : list (list byte))
    (received : list (list byte * sockaddr_in)) : Prop :=
  Forall (fun d => (exists s, s ∈ sent /\ conveys s d.1 /\ from_sockaddr d.2 = e) \/
                   ok (deserialize d.1) = false \/ apart config name (value (deserialize d.1))) received.

(** The server's window, where a receiver of its own would have its. *)
Definition as_receiver (sconfig : ServerConfig) : ReceiverConfig :=
  {| idle_timeout := session_idle_timeout sconfig; receiver_window_size := server_window_size sconfig |}.

Lemma mingled_admissible config F rconfig p w w' e name received :
  transferable config F rconfig p w ->
  (exists l, outbox w' = outbox w ++ l /\ Forall (fun d => honest_wire config F d.1) l) ->
  mingled config e name (sent_since w w') received -> Forall (admissible config F e name) received.
Proof.
  intros Ht Hsent Hm. eapply Forall_impl; [exact Hm|]. intros [r a] [(s & Hs & Hcv & Ha)|[Hbad|Happ]] Hok; simpl in *; [left|congruence|by right].
  split; [|done]. assert (carried (sent_since w w') [r]) as Hc by (apply Forall_singleton; left; by exists s).
  pose proof (carried_welcome _ _ _ _ _ _ _ Ht Hsent Hc) as Hw. apply Forall_singleton in Hw as [?|]; [done|congruence].
Qed.

Abbreviation capacity c := (if window_size c =? 0 then 1 else window_size c).

(** One sender among any number of other peers, which use other session ids and name
    neither its file nor its temporary one. *)
Lemma served_transfer_lands sock destination config F fuel1 p w st sconfig fuel2 e name u :
  transferable config F (as_receiver sconfig) p w -> Z.of_nat fuel1 * (3 * capacity config + 3) < 2 ^ 64 ->
  sanitize_filename (remote_name config) = (Filename.kNone, name) -> (forall n, name <> temp_name n) ->
  clean (view u) -> names (view u) !! partial config sconfig = None ->
  let '(w', _, r) := send_file (Q:=Q) sock destination config fuel1 p w st in
  let u' := (run fuel2 sconfig u).1 in
  mingled config e name (sent_since w w') (drop (length (inbox u)) (inbox u')) ->
  carried (sent_since u u') (taken_since w w') ->
  r = Some Transfer.kNone -> arrived config F (server_directory sconfig) (join_path (server_directory sconfig) name) u'.
Proof.
  intros Ht Hf Hname Hplain Hclean Hpart. pose proof (sender_honest_since sock destination config F _ fuel1 p w st Ht Hf) as Hsend.
  destruct (send_file _ _ _ _ _ _ _) as [[w' st'] r]. destruct Hsend as [Hsend Hdone]. cbv zeta. intros Hm Hc ->.
  pose proof (transferable_bounded _ _ _ _ _ Ht) as Hb. pose proof (trf_sendable _ _ _ _ _ Ht) as Hs.
  pose proof (run_confirmed config F sconfig e name Hb (snd_sid _ _ Hs) Hname Hplain fuel2 u Hclean Hpart
    (mingled_admissible _ _ _ _ _ _ _ _ _ Ht Hsend Hm)) as (l & Hl & Hconf).
  rewrite Forall_forall in Hconf.
  assert (forall x, x ∈ sent_since u (run fuel2 sconfig u).1 -> exists d, x = d.1 /\ d ∈ l) as Hsent.
  { unfold sent_since. rewrite Hl, drop_app_length. intros x (d & -> & Hin)%list_elem_of_fmap. by exists d. }
  destruct (Hdone eq_refl) as (_ & _ & bytes & a & q & Hin%(list_elem_of_fmap_2 fst) & Hq & Hty & Hid & _).
  assert (bytes ∈ sent_since u (run fuel2 sconfig u).1) as Hb'.
  { eapply carried_packet; [|exact Hc|exact Hin|exact Hq]. intros x (d & -> & Hd)%Hsent. by apply Hconf. }
  destruct (Hsent _ Hb') as (d & -> & Hd). destruct (Hconf d Hd) as [_ Hack].
  destruct Hack as (i & Hi & Hdata); [by exists q|]. exists name, i. by split_and!.
Qed.
End Sender.
