(* ===== verification/ServerCrowd.v ===== *)
(** * Many transfers through one server

    Any number of senders of Sender.v, each on a system of its own, send to the one
    server of Server.v, which serves them all from one table and one directory.
    Each of them meets ServerDelivery.v with the others as its strangers. *)

From S2P Require Import Prelude Words Packet Wire Filename Transfer PriorityQueue SenderWindow FileIO Net ReceiverSession Footprint Delivery Receiver Server ServerRule Sender SenderSpec EndToEnd ServerDelivery.
Import Packet.Packet.
Open Scope Z_scope.

Lemma NoDup_fmap_eq {A B} (f : A -> B) l x y : NoDup (f <$> l) -> x ∈ l -> y ∈ l -> f x = f y -> x = y.
Proof.
  intros Hl [i Hi]%list_elem_of_lookup_1 [j Hj]%list_elem_of_lookup_1 He.
  assert (i = j) as ->; [|congruence]. eapply NoDup_lookup; [exact Hl|by rewrite list_lookup_fmap, Hi|].
  by rewrite list_lookup_fmap, Hj, He.
Qed.

Section Crowd.
Context {W1 : Type} `{NL1 : NetworkLaws W1}.
Context {W2 : Type} `{SL2 : SetupLaws W2}.
Context {Q : Type} `{PQL : PriorityQueueLaws Entry entry_less Q}.

(** A call of [send_file], and the endpoint the server sees it come from. *)
Record Client := {
  cl_config : SenderConfig;
  cl_socket : UdpSocket;
  cl_destination : Endpoint;
  cl_endpoint : Endpoint;
  cl_file : list byte;
  cl_path : path;
  cl_world : W1;
  cl_stats : TransferStats;
  cl_fuel : nat
}.
Implicit Types (c d : Client) (clients : list Client) (u : W2).

Definition cl_run c : W1 * TransferStats * option TransferError :=
  send_file (Q:=Q) (cl_socket c) (cl_destination c) (cl_config c) (cl_fuel c) (cl_path c) (cl_world c) (cl_stats c).
Definition cl_id c : Z := config_session_id (cl_config c).
(** The name its file gets. *)
Definition cl_name c : list byte := (sanitize_filename (remote_name (cl_config c))).2.
Definition cl_sent c : list (list byte) := sent_since (cl_world c) (cl_run c).1.1.
Definition cl_heard c : list (list byte) := taken_since (cl_world c) (cl_run c).1.1.

Abbreviation capacity c := (if window_size c =? 0 then 1 else window_size c).

(** A sender as ServerDelivery.v asks for, whose name is accepted and is not of the
    form of a temporary one. *)
Record proper (sconfig : ServerConfig) u c : Prop := {
  prp_transferable : transferable (cl_config c) (cl_file c) (as_receiver sconfig) (cl_path c) (cl_world c);
  prp_fuel : Z.of_nat (cl_fuel c) * (3 * capacity (cl_config c) + 3) < 2 ^ 64;
  prp_accepted : (sanitize_filename (remote_name (cl_config c))).1 = Filename.kNone;
  prp_plain n : cl_name c <> temp_name n;
  prp_unused : names (view u) !! partial (cl_config c) sconfig = None
}.

(** What the server took in: the datagrams of the senders, each from its endpoint,
    noise, and packets of transfers to other files. *)
Definition crowded clients (received : list (list byte * sockaddr_in)) : Prop :=
  Forall (fun r => (exists c s, c ∈ clients /\ s ∈ cl_sent c /\ conveys s r.1 /\ from_sockaddr r.2 = cl_endpoint c) \/
                   ok (deserialize r.1) = false \/
                   forall c, c ∈ clients -> apart (cl_config c) (cl_name c) (value (deserialize r.1))) received.

Lemma proper_name sconfig u c : proper sconfig u c ->
  sanitize_filename (remote_name (cl_config c)) = (Filename.kNone, cl_name c).
Proof. intros []. unfold cl_name. by destruct (sanitize_filename _) as [x y]; simpl in *; subst. Qed.

(** The packets of one sender leave the others alone. *)
Lemma honest_apart sconfig u c d bytes :
  proper sconfig u d -> honest_wire (cl_config d) (cl_file d) bytes ->
  cl_id d <> cl_id c -> cl_name d <> cl_name c -> apart (cl_config c) (cl_name c) (value (deserialize bytes)).
Proof.
  intros Hd (p & -> & Hh & _ & Hn) Hid Hname. simpl.
  assert (session_id (header p) = cl_id d) as Hsid by (by destruct Hh). split; [unfold cl_id in *; congruence|].
  intros Hst n Hsan. rewrite (Hn Hst), (proper_name _ _ _ Hd) in Hsan. injection Hsan as <-.
  split; [done|apply (prp_plain _ _ _ Hd)].
Qed.

Lemma proper_wires sconfig u c bytes r :
  proper sconfig u c -> bytes ∈ cl_sent c -> conveys bytes r ->
  honest_wire (cl_config c) (cl_file c) r \/ ok (deserialize r) = false.
Proof.
  intros Hc Hb Hr. pose proof Hc as [].
  pose proof (sender_honest_since (cl_socket c) (cl_destination c) (cl_config c) (cl_file c) (as_receiver sconfig)
    (cl_fuel c) (cl_path c) (cl_world c) (cl_stats c) prp_transferable0 prp_fuel0) as Hsend.
  unfold cl_sent, cl_run in Hb. destruct (send_file _ _ _ _ _ _ _) as [[w' st'] e]. destruct Hsend as [Hsend _].
  assert (carried (sent_since (cl_world c) w') [r]) as Hcarried by (apply Forall_singleton; left; by exists bytes).
  pose proof (carried_welcome _ _ _ _ _ _ _ prp_transferable0 Hsend Hcarried) as Hw. by apply Forall_singleton in Hw as [?|?]; [left|right].
Qed.

(** To one of the senders, the others are strangers. *)
Lemma crowded_mingled sconfig u clients c received :
  Forall (proper sconfig u) clients -> NoDup (cl_id <$> clients) -> NoDup (cl_name <$> clients) -> c ∈ clients ->
  crowded clients received -> mingled (cl_config c) (cl_endpoint c) (cl_name c) (cl_sent c) received.
Proof.
  intros Hp Hids Hnames Hc Hm. eapply Forall_impl; [exact Hm|]. rewrite Forall_forall in Hp.
  intros r [(d & s & Hd & Hs & Hcv & He)|[Hbad|Happ]]; [|by right; left|by right; right; apply Happ].
  destruct (decide (cl_id d = cl_id c)) as [Hid|Hid].
  - assert (d = c) as -> by (by eapply (NoDup_fmap_eq cl_id)). left. by exists s.
  - right. destruct (proper_wires _ _ _ _ _ (Hp d Hd) Hs Hcv) as [Hw|Hbad]; [|by left]. right.
    eapply honest_apart; [by apply Hp|done|done|]. intros Hn. apply Hid. f_equal. by eapply (NoDup_fmap_eq cl_name).
Qed.

(** C3: a crowd is served.  Any number of senders, each on a system of its own, send
    to one server.  Their session ids differ from each other, and so do the names
    the server accepts for their files; no such name has the form of a temporary
    one, and their temporary names are free in the server's directory.  In between
    arrive noise and the packets of other peers, which use none of these ids and
    ask for none of these names, in any order.  Each sender whose [send_file]
    returned [kNone] has its file in the server's directory under its sanitised
    name, byte for byte, whether the server is still running, has swept the session
    away or has been stopped. *)
Theorem served_transfers_arrive sconfig clients fuel u :
  Forall (proper sconfig u) clients -> NoDup (cl_id <$> clients) -> NoDup (cl_name <$> clients) -> clean (view u) ->
  let u' := (run fuel sconfig u).1 in
  crowded clients (drop (length (inbox u)) (inbox u')) ->
  Forall (fun c => carried (sent_since u u') (cl_heard c)) clients ->
  Forall (fun c => (cl_run c).2 = Some Transfer.kNone ->
    arrived (cl_config c) (cl_file c) (server_directory sconfig) (join_path (server_directory sconfig) (cl_name c)) u') clients.
Proof.
  intros Hp Hids Hnames Hclean u' Hm Hc. rewrite Forall_forall in Hc. apply Forall_forall. intros c Hin Hr.
  pose proof (crowded_mingled _ _ _ c _ Hp Hids Hnames Hin Hm) as Hmc. specialize (Hc c Hin).
  rewrite Forall_forall in Hp. specialize (Hp c Hin). pose proof (proper_name _ _ _ Hp) as Hname. destruct Hp as [].
  pose proof (served_transfer_lands (Q:=Q) (cl_socket c) (cl_destination c) (cl_config c) (cl_file c) (cl_fuel c) (cl_path c)
    (cl_world c) (cl_stats c) sconfig fuel (cl_endpoint c) (cl_name c) u prp_transferable0 prp_fuel0 Hname prp_plain0 Hclean
    prp_unused0) as Hland.
  unfold cl_sent, cl_heard, cl_run in *. destruct (send_file _ _ _ _ _ _ _) as [[w' st'] e]. by apply Hland.
Qed.
End Crowd.
Arguments Client : clear implicits.
