(* ===== verification/ServerAnswers.v ===== *)
(** * What the server answers one sender

    Server.v in good health, with no session but that of one honest sender, answers
    each of the sender's datagrams with exactly one, the one the sender waits for. *)

From S2P Require Import Prelude Words Packet Wire Sha256 Filename Transfer ReceiverWindow FileIO Net Health ReceiverSession Offline Delivery Answers Receiver Server ServerSpec Sender SenderSpec EndToEnd.
Import Packet.Packet.
Open Scope Z_scope.

(** The datagram of a reply. *)
Definition reply_wire (sid : Z) (r : Reply) : list byte :=
  serialize (make_header (type r) sid (sequence r) (sequence r) 0) (reply_payload r).

Section ServerAnswers.
Context {W : Type} `{NL : NetworkLaws W} `{HF : !HealthyFiles W} `{HN : !HealthyNetwork W}.
Context (sock : UdpSocket) (sconfig : ServerConfig) (config : SenderConfig) (F : list byte) (e : Endpoint) (a : sockaddr_in).
Implicit Types (w : W) (s : Session) (v : Server) (p : Packet).

Abbreviation sid := (config_session_id config).
Abbreviation cs := (Z.to_nat (chunk_size config)).
Abbreviation cap := (server_window_size sconfig).
Abbreviation dir := (server_directory sconfig).
Abbreviation total := (Z.of_nat (chunk_total F cs)).

Definition sender_key : SessionKey := {| key_address := address e; key_port := port e; key_session_id := sid |}.

(** How far the sender's session has come: nothing yet, at least the chunks [M]
    stored, or everything. *)
Inductive Stage := Unknown | Storing (M : gset Z) | Confirmed.

Definition in_stage (st : Stage) w (r : ReceiverSession) : Prop :=
  named config dir r /\ verdict r /\
  match st with
  | Unknown => fresh cap r
  | Storing M => exists M', M ⊆ M' /\ Delivery.running F cs sid cap w r M'
  | Confirmed => confirmed F sid w r total
  end.

(** The table holds that session and no other. *)
Definition stands (st : Stage) v w : Prop :=
  match st with
  | Unknown => sessions v = []
  | _ => exists s, sessions v = [(sender_key, s)] /\ peer s = e /\ in_stage st w (receiver s) /\
           (lingering s = true -> finished_ (receiver s) = true)
  end.

(** The system [w] becomes after the datagrams [l] have been sent from it. *)
Definition answered w w' (r : Reply) : Prop := healthy w' /\ outbox w' = outbox w ++ [(reply_wire sid r, a)].

Lemma in_stage_view st w w' r : view w' = view w -> in_stage st w r -> in_stage st w' r.
Proof.
  intros Hv (Hn & Hd & Hst). split_and!; [done..|]. destruct st; [done| |].
  - destruct Hst as (M' & Hsub & []). exists M'. split; [done|]. split; try done. by rewrite Hv.
  - destruct Hst. split; try done. unfold delivered. by rewrite Hv.
Qed.

Lemma stands_view st v w w' : view w' = view w -> stands st v w -> stands st v w'.
Proof.
  intros Hv. destruct st; [done|..]; intros (s & Hs & Hp & Hst & Hl); exists s; split_and!; try done; by eapply in_stage_view.
Qed.

Lemma storing_mono M M' v w : M' ⊆ M -> stands (Storing M) v w -> stands (Storing M') v w.
Proof.
  intros HM (s & Hs & Hp & (Hn & Hd & M1 & Hsub & Hr) & Hl). exists s. split_and!; [done..| |done].
  do 2 (split; [done|]). exists M1. split; [set_solver|done].
Qed.

Lemma equivalent_refl k : equivalent k k = true.
Proof. rewrite equivalent_eq. by apply bool_decide_eq_true. Qed.

Context (Hsock : socket_valid sock = true) (Ha : to_sockaddr e = Some a).

Lemma send_ok bytes w :
  healthy w -> let w' := (send_to sock bytes e w).1 in healthy w' /\ view w' = view w /\ outbox w' = outbox w ++ [(bytes, a)].
Proof.
  intros Hw. unfold send_to. rewrite Hsock, Ha. simpl.
  pose proof (ok_sendto (sock_fd sock) bytes a w Hw) as Ho. pose proof (law_sendto (sock_fd sock) bytes a w) as Hl.
  destruct (sys_sendto _ _ _ w) as [w' r]. destruct Ho as [Hw' (n & -> & _)]. by destruct Hl as (? & _ & ?).
Qed.

(** A session of the table that answers takes its stage with it. *)
Lemma serve_packet_answers p s v w (st : Stage) r :
  healthy w -> sessions v = [(sender_key, s)] -> peer s = e -> session_id (header p) = sid -> st <> Unknown ->
  (lingering s = true -> finished_ (receiver s) = true) ->
  (forall w1, healthy w1 -> view w1 = view w ->
    let '(w2, s2, r2) := handle_packet p (receiver s) w1 in
    healthy w2 /\ in_stage st w2 s2 /\ r2 = r /\ (finished_ (receiver s) = true -> finished_ s2 = true)) ->
  send r = true ->
  let '(w', v') := serve_packet sock sender_key p s v w in answered w w' r /\ stands st v' w'.
Proof.
  intros Hw Hv He Hsid Hst Hling Hp Hsend. unfold serve_packet.
  pose proof (ok_now w Hw) as Hw1. pose proof (now_quiet w) as (Hv1 & Ho1 & _). destruct (sys_now w) as [w1 now]. simpl in Hw1, Hv1, Ho1.
  cbn [receiver set_activity]. specialize (Hp w1 Hw1 Hv1). pose proof (handle_packet_offline p (receiver s) w1) as [Ho2 _].
  destruct (handle_packet p (receiver s) w1) as [[w2 s2] r2]. destruct Hp as (Hw2 & Hst2 & -> & Hfin). simpl in Ho2.
  rewrite Hsend. cbn [peer set_receiver set_activity receiver lingering]. rewrite Hsid, He. fold (reply_wire sid r).
  pose proof (send_ok (reply_wire sid r) w2 Hw2) as (Hw3 & Hv3 & Ho3). destruct (send_to sock (reply_wire sid r) e w2) as [w3 sent].
  cbn [fst] in *. apply (in_stage_view st w2 w3) in Hst2; [|done].
  assert (outbox w3 = outbox w ++ [(reply_wire sid r, a)]) as Ho by (by rewrite Ho3, Ho2, Ho1).
  assert (forall s' (v' : Server) w', sessions v' = sessions v -> peer s' = e -> in_stage st w' (receiver s') ->
    (lingering s' = true -> finished_ (receiver s') = true) ->
    stands st (set_sessions (store sender_key s' (sessions v')) v') w') as Hstands.
  { intros s' v' w' Hv' He' Hs' Hl'. rewrite Hv', Hv. simpl. rewrite equivalent_refl. destruct st; [done|..]; by exists s'. }
  destruct (finished_ s2 && negb (lingering s)) eqn:Hf.
  2:{ split; [done|]. apply Hstands; try done. simpl. intros Hl. by apply Hfin, Hling. }
  apply andb_true_iff in Hf as [Hf2 _].
  pose proof (ok_now w3 Hw3) as Hw4. pose proof (now_quiet w3) as (Hv4 & Ho4 & _). destruct (sys_now w3) as [w4 t4]. simpl in Hw4, Hv4, Ho4.
  set (v1 := if bool_decide _ then _ else _). assert (sessions v1 = sessions v) as Hv1' by (subst v1; by case_bool_decide). clearbody v1.
  unfold close_file. pose proof (close_ok (file_ s2) w4 Hw4) as Hw5. pose proof (close_offline (file_ s2) w4) as [Ho5 _].
  pose proof (close_view (file_ s2) w4) as Hv5. destruct (close (file_ s2) w4) as [w5 f]. simpl in Hw5, Ho5, Hv5.
  pose proof (ok_now w5 Hw5) as Hw6. pose proof (now_quiet w5) as (Hv6 & Ho6 & _). destruct (sys_now w5) as [w6 t6]. simpl in Hw6, Hv6, Ho6.
  split; [split; [done|congruence]|]. apply Hstands; [done..| |done]. apply (in_stage_view _ w5); [done|].
  destruct Hst2 as (Hn & Hd & Hst2). split_and!; [done..|]. destruct st; [done| |].
  - destruct Hst2 as (M' & _ & []). congruence.
  - destruct Hst2 as [? ? ? ? (i & Hi & Hdata)]. split; try done. exists i. rewrite Hv5. destruct (valid (file_ s2)); by rewrite Hv4.
Qed.

Context (Hb : bounded F cs cap) (Hmax : 0 < max_sessions sconfig).
Context (Hname : (sanitize_filename (remote_name config)).1 = Filename.kNone).

(** What the session takes care of, whatever it is asked. *)
Lemma packet_keeps p (r : ReceiverSession) w :
  (packet_type (header p) = kStart -> payload p = remote_name config) ->
  named config dir r -> verdict r ->
  let '(_, r2, _) := handle_packet p r w in named config dir r2 /\ verdict r2.
Proof.
  intros Hp Hn Hd. pose proof (named_handle config dir r p w Hp Hd Hn) as H1.
  pose proof (handle_packet_verdict p r w Hd) as H2. by destruct (handle_packet p r w) as [[w2 r2] x].
Qed.

(** A datagram for a session the table has. *)
Lemma known_answers bytes p v w (st st' : Stage) r :
  healthy w -> deserialize bytes = success p -> session_id (header p) = sid ->
  (packet_type (header p) = kStart -> payload p = remote_name config) ->
  st <> Unknown -> st' <> Unknown -> stands st v w -> send r = true ->
  (forall w1 r1, healthy w1 -> in_stage st w1 r1 ->
    let '(w2, r2, r') := handle_packet p r1 w1 in
    healthy w2 /\ (named config dir r2 -> verdict r2 -> in_stage st' w2 r2) /\ r' = r /\
    (finished_ r1 = true -> finished_ r2 = true)) ->
  let '(w', v') := on_datagram sock sconfig bytes e v w in answered w w' r /\ stands st' v' w'.
Proof.
  intros Hw Hd Hsid Hname' Hst Hst' Hs Hr Hp. unfold on_datagram. rewrite Hd. simpl. rewrite Hsid. fold sender_key.
  assert (exists s, sessions v = [(sender_key, s)] /\ peer s = e /\ in_stage st w (receiver s) /\
    (lingering s = true -> finished_ (receiver s) = true)) as (s & Hv & He & Hin & Hl) by (by destruct st).
  rewrite Hv. simpl. rewrite equivalent_refl. apply serve_packet_answers; try done.
  intros w1 Hw1 Hv1. pose proof Hin as (Hn & Hver & _). pose proof (packet_keeps p (receiver s) w1 Hname' Hn Hver) as Hk.
  apply (in_stage_view _ w w1) in Hin; [|done]. specialize (Hp w1 (receiver s) Hw1 Hin).
  destruct (handle_packet p (receiver s) w1) as [[w2 r2] r']. destruct Hp as (? & Hin2 & ? & ?), Hk. split_and!; auto.
Qed.

(** ** The sender's datagrams *)

Lemma answers_start_datagram bytes p v w :
  healthy w -> deserialize bytes = success p -> packet_type (header p) = kStart -> session_id (header p) = sid ->
  byte_offset (header p) = Z.of_nat (length F) -> payload p = remote_name config ->
  stands Unknown v w \/ stands (Storing ∅) v w ->
  let '(w', v') := on_datagram sock sconfig bytes e v w in
  answered w w' (reply_with kStartAck (sequence_number (header p))) /\ stands (Storing ∅) v' w'.
Proof.
  intros Hw Hd Ht Hsid Hoff Hpay [Hs|Hs].
  2:{ apply (known_answers _ p v w (Storing ∅)); try done. intros w1 r1 Hw1 (_ & _ & M & _ & Hr).
      pose proof (answers_again F cs sid cap w1 r1 M p Hr Ht Hsid) as Hans. pose proof (run_unfinished _ _ _ _ _ _ _ Hr).
      destruct (handle_packet p r1 w1) as [[w2 r2] r']. destruct Hans as (-> & Hr2 & ->). split_and!; [done| |done|congruence].
      intros Hn Hver. do 2 (split; [done|]). by exists M. }
  unfold on_datagram. rewrite Hd. simpl. rewrite Hsid. fold sender_key. simpl in Hs. rewrite Hs, Ht. simpl.
  unfold admission. rewrite Hs. unfold active. simpl. rewrite (proj2 (Z.leb_gt _ _)) by done.
  assert (forall b : bool, (if b then (w, []) else (w, @nil (SessionKey * Session))) = (w, [])) as -> by by intros [].
  pose proof (ok_now w Hw) as Hw1. pose proof (now_quiet w) as (Hv1 & Ho1 & _).
  destruct (sys_now w) as [w1 now]. simpl in Hw1, Hv1, Ho1. cbn [emplace].
  set (s := set_opened e now (make_session cap dir)). set (v1 := set_sessions [(sender_key, s)] v).
  pose proof (serve_packet_answers p s v1 w1 (Storing ∅) (reply_with kStartAck (sequence_number (header p))) Hw1
    eq_refl eq_refl Hsid ltac:(done) ltac:(done)) as Hans.
  destruct (serve_packet sock sender_key p s v1 w1) as [w' v']. unfold answered in *. rewrite <- Ho1. apply Hans; [|done]. clear Hans.
  intros w2 Hw2 _. subst s. simpl.
  assert (named config dir (new_session cap dir) /\ verdict (new_session cap dir)) as [Hn Hver].
  { split; [split_and!; simpl; [done|congruence|congruence]|done]. }
  pose proof (packet_keeps p (new_session cap dir) w2 ltac:(done) Hn Hver) as Hk.
  pose proof (answers_start F cs sid cap Hb w2 _ p Hw2 (new_session_fresh cap dir) Ht Hsid Hoff ltac:(by rewrite Hpay)) as Hstart.
  destruct (handle_packet p (new_session cap dir) w2) as [[w3 r3] r']. destruct Hstart as (? & Hr3 & ->), Hk.
  split; [done|]. split; [|done]. do 2 (split; [done|]). by exists ∅.
Qed.

Lemma answers_data_datagram bytes p M k v w :
  healthy w -> deserialize bytes = success p -> packet_type (header p) = kData -> session_id (header p) = sid ->
  0 <= k < total -> sequence_number (header p) = k -> byte_offset (header p) = Z.of_nat (Z.to_nat k * cs) ->
  payload p = chunk F cs (Z.to_nat k) ->
  (forall j, 0 <= j <= k - Z.max 1 cap -> j ∈ M) -> stands (Storing M) v w ->
  let '(w', v') := on_datagram sock sconfig bytes e v w in
  answered w w' (reply_with kAck k) /\ stands (Storing ({[k]} ∪ M)) v' w'.
Proof.
  intros Hw Hd Ht Hsid Hk Hseq Hoff Hpay Hbelow Hs. apply (known_answers _ p v w (Storing M)); try done; [congruence|].
  intros w1 r1 Hw1 (_ & _ & M1 & Hsub & Hr). pose proof (run_unfinished _ _ _ _ _ _ _ Hr).
  assert (Z.of_nat (Z.to_nat k) = k) as Hkk by lia.
  pose proof (answers_data F cs sid cap Hb w1 r1 M1 p (Z.to_nat k) Hw1 Hr ltac:(lia) Ht Hsid ltac:(lia) Hoff Hpay) as Hans.
  rewrite Hkk in Hans.
  assert (k < base_ (window_ r1) + capacity_ (window_ r1)) as Hin.
  { pose proof (run_capacity _ _ _ _ _ _ _ Hr) as ->. destruct (refines_mex _ _ (run_window _ _ _ _ _ _ _ Hr)) as (Hmiss & H0 & _).
    destruct (decide (base_ (window_ r1) <= k - Z.max 1 cap)); [|lia]. exfalso. apply Hmiss, Hsub, Hbelow. lia. }
  specialize (Hans Hin). destruct (handle_packet p r1 w1) as [[w2 r2] r']. destruct Hans as (? & (M2 & Hr2 & HM & Hin2) & ->).
  split_and!; [done| |done|congruence]. intros Hn Hver. do 2 (split; [done|]). exists M2. split; [set_solver|done].
Qed.

Lemma answers_fin_datagram bytes p v w :
  healthy w -> deserialize bytes = success p -> packet_type (header p) = kFin -> session_id (header p) = sid ->
  sequence_number (header p) = total -> byte_offset (header p) = Z.of_nat (length F) -> payload p = sha256 F ->
  (exists M, (forall k, 0 <= k < total -> k ∈ M) /\ stands (Storing M) v w) \/ stands Confirmed v w ->
  let '(w', v') := on_datagram sock sconfig bytes e v w in
  answered w w' (reply_with kFinAck total) /\ stands Confirmed v' w'.
Proof.
  intros Hw Hd Ht Hsid Hseq Hoff Hpay [(M & Hall & Hs)|Hs].
  - apply (known_answers _ p v w (Storing M)); try done; [congruence|]. intros w1 r1 Hw1 (_ & _ & M1 & Hsub & Hr).
    pose proof (run_unfinished _ _ _ _ _ _ _ Hr).
    pose proof (answers_fin F cs sid cap Hb w1 r1 M1 p Hw1 Hr ltac:(intros k Hk; apply Hsub, Hall; lia) Ht Hsid Hoff Hpay) as Hans.
    rewrite Hseq in Hans. destruct (handle_packet p r1 w1) as [[w2 r2] r']. destruct Hans as (? & Hc & -> & _).
    split; [done|]. split; [|split; [done|congruence]]. intros. by do 2 (split; [done|]).
  - apply (known_answers _ p v w Confirmed); try done; [congruence|]. intros w1 r1 Hw1 (_ & _ & Hc).
    pose proof (answers_late F sid w1 r1 total p Hc Ht Hsid) as Hans.
    destruct (handle_packet p r1 w1) as [[w2 r2] r']. destruct Hans as (-> & Hc2 & -> & _).
    split; [done|]. split; [|split; [done|intros _; apply Hc2]]. intros. by do 2 (split; [done|]).
Qed.

(** A confirmed transfer has arrived. *)
Lemma confirmed_arrived v w : stands Confirmed v w -> exists out, arrived config F dir out w.
Proof.
  intros (s & _ & _ & ((_ & Hst & Hn) & _ & []) & _). destruct (Hn (Hst cfm_published)) as (name & Hsan & Hout).
  destruct cfm_delivered as (i & Hi & Hdata). rewrite Hout in Hi. exists (join_path dir name), name, i. by split_and!.
Qed.
End ServerAnswers.
