(* ===== verification/DelayProxySpec.v ===== *)
(** * What the delay proxy does to a conversation

    The main loop of DelayProxy.v against logs of the datagrams that came and went:
    every datagram that leaves is one that came, up to one flipped bit; without
    [--reorder] they leave in the order they came; and the counters account for
    all of them. *)

From Stdlib Require Import Floats.SpecFloat Sorting.Sorted.
From stdpp Require Import sorting.
From S2P Require Import Prelude Words Doubles Mt19937 Text Packet Crc32 Wire Transfer PriorityQueue FileIO Net DelayProxy EndToEnd.
Open Scope Z_scope.

(** A datagram on a socket, with the address it came from or goes to. *)
Abbreviation Traffic := (Z * list byte * sockaddr_in)%type.

Class RelayLaws (W : Type) `{OS : !Posix W} `{NET : !Network W} `{RL : !Relay W} := {
  (** The latest time the clock has shown, and the two logs, oldest first. *)
  clock : W -> Z;
  came : W -> list Traffic;
  went : W -> list Traffic;

  rl_now w : let '(w', t) := sys_now w in clock w <= t /\ clock w' = t /\ came w' = came w /\ went w' = went w;
  rl_ppoll sec nsec w :
    let w' := (sys_ppoll sec nsec w).1 in clock w <= clock w' /\ came w' = came w /\ went w' = went w;
  rl_stopped w : let w' := (sys_stopped w).1 in clock w <= clock w' /\ came w' = came w /\ went w' = went w;
  (** A datagram that cannot be sent is logged all the same. *)
  rl_sendto fd bytes a w :
    let w' := (sys_sendto fd bytes a w).1 in
    clock w <= clock w' /\ came w' = came w /\ went w' = went w ++ [(fd, bytes, a)];
  rl_recvfrom fd n w :
    let '(w', r) := sys_recvfrom fd n w in
    clock w <= clock w' /\ went w' = went w /\
    came w' = (match r with inl (bytes, a) => came w ++ [(fd, bytes, a)] | inr _ => came w end)
}.

Section Quiet.
Context {W : Type} `{LAWS : RelayLaws W}.
Implicit Types (w : W).

(** Nothing came or went, and time did not run backwards. *)
Definition still w w' : Prop := clock w <= clock w' /\ came w' = came w /\ went w' = went w.

#[export] Instance still_preorder : PreOrder still.
Proof. split; [by split|]. intros w1 w2 w3 (? & ? & ?) (? & ? & ?). split_and!; [lia|congruence..]. Qed.

Lemma now_still w : still w (sys_now w).1 /\ clock w <= (sys_now w).2 <= clock (sys_now w).1.
Proof. pose proof (rl_now w) as H. destruct (sys_now w) as [w' t]. destruct H as (? & <- & ? & ?). by repeat split. Qed.

(** A chance that is not configured is never taken. *)
Lemma chance_configured impaired x c r :
  (chance impaired x c r).2 = true -> impaired = true /\ SFltb dzero x = true.
Proof. unfold chance. destruct (impaired && SFltb dzero x) eqn:Hx; [intros _; by apply andb_true_iff|done]. Qed.

Lemma corrupted_copy_flips b r : exists index bit, (corrupted_copy b r).2 = flip_bit index bit b.
Proof.
  unfold corrupted_copy. destruct (uniform_int _ r) as [r1 i]. destruct (uniform_int 7 r1) as [r2 k]. by exists i, k.
Qed.
End Quiet.

(** ** What becomes of a datagram *)

Section Fates.
Context (settings : Settings).
Abbreviation i := (impairment settings).

(** The same bytes, or one bit of one byte flipped where that is configured. *)
Inductive altered (forward : bool) (b : list byte) : list byte -> Prop :=
| altered_not : altered forward b b
| altered_bit pre x y post bit :
    is_impaired settings forward = true -> SFltb dzero (corrupt i) = true ->
    b = pre ++ [x] ++ post -> 0 <= bit < 8 -> Z_of_byte y = Z.lxor (Z_of_byte x) (2 ^ bit) ->
    altered forward b (pre ++ [y] ++ post).

(** The copies that are queued: none, one or two, as far as configured. *)
Inductive fate (forward : bool) (b : list byte) : list (list byte) -> Prop :=
| fate_lost :
    is_impaired settings forward = true -> SFltb dzero (loss i) = true \/ SFltb dzero (burst_loss i) = true ->
    fate forward b []
| fate_kept b' : altered forward b b' -> fate forward b [b']
| fate_twice b' :
    altered forward b b' -> is_impaired settings forward = true -> SFltb dzero (duplicate i) = true ->
    fate forward b [b'; b'].

(** What was received, in order, and the items it became, in order of arrival. *)
Inductive fates (front : Z) : list Traffic -> list Pending -> Prop :=
| fates_nil : fates front [] []
| fates_snoc l items fd b a more :
    fates front l items -> fate (bool_decide (fd = front)) b (map bytes more) ->
    Forall (fun x => to_server x = bool_decide (fd = front)) more ->
    fates front (l ++ [(fd, b, a)]) (items ++ more).

Lemma fates_length front l items : fates front l items -> (length items <= 2 * length l)%nat.
Proof.
  induction 1 as [|l items fd b a more _ IH Hf _]; [done|]. rewrite !length_app. simpl.
  assert (length (map bytes more) <= 2)%nat as Hm by (by destruct Hf; simpl; lia). rewrite length_map in Hm. lia.
Qed.

Lemma fates_origin front l items x :
  fates front l items -> x ∈ items ->
  exists fd b a, (fd, b, a) ∈ l /\ to_server x = bool_decide (fd = front) /\ altered (to_server x) b (bytes x).
Proof.
  induction 1 as [|l items fd b a more _ IH Hf Hd]; [by intros ?%elem_of_nil|].
  intros [Hx|Hx]%elem_of_app.
  - destruct (IH Hx) as (fd' & b' & a' & Hin & Ha). exists fd', b', a'. split; [apply elem_of_app; by left|done].
  - exists fd, b, a. split; [apply elem_of_app; right; by apply list_elem_of_singleton|].
    rewrite Forall_forall in Hd. rewrite (Hd x Hx). split; [done|].
    assert (bytes x ∈ map bytes more) as Hb by (apply list_elem_of_fmap; by exists x).
    destruct Hf as [_ _|b' Ha|b' Ha _ _]; [by apply elem_of_nil in Hb| |].
    + by apply list_elem_of_singleton in Hb as ->.
    + apply elem_of_cons in Hb as [->| ->%list_elem_of_singleton]; done.
Qed.

(** What the code's flip does: a bit of one byte, or nothing outside the datagram. *)
Lemma flip_bit_altered forward index bit b :
  is_impaired settings forward = true -> SFltb dzero (corrupt i) = true -> altered forward b (flip_bit index bit b).
Proof.
  intros Him Hc. unfold flip_bit. set (f := fun c => _). destruct (b !! Z.to_nat index) as [x|] eqn:Hx.
  - apply list_elem_of_split_length in Hx as (l1 & l2 & -> & ->).
    rewrite alter_app_r_alt, Nat.sub_diag by done. simpl.
    destruct (decide (0 <= bit < 8)) as [Hbit|Hbit].
    + apply (altered_bit _ _ l1 x (f x) l2 bit); try done. subst f. simpl.
      rewrite Z_of_byte_of_Z, Z.shiftl_mul_pow2, Z.mul_1_l by lia.
      apply Z.mod_small, (lxor_fits 8); [lia|apply Z_of_byte_fits|]. split; [lia|]. apply Z.pow_lt_mono_r; lia.
    + replace (f x) with x; [constructor|]. subst f. simpl. symmetry. rewrite <- byte_of_Z_mod.
      rewrite <- (byte_of_Z_of_byte x) at 2. f_equal. change 256 with (2 ^ 8).
      rewrite <- Z.land_ones by lia. apply Z.bits_inj'. intros k Hk. rewrite Z.land_spec, Z.lxor_spec.
      destruct (Z.lt_ge_cases k 8).
      * rewrite Z.ones_spec_low, andb_true_r by lia. replace (Z.testbit (Z.shiftl 1 bit) k) with false; [by rewrite xorb_false_r|].
        destruct (Z.lt_ge_cases bit 0); [|symmetry; apply Z.shiftl_spec_low; lia].
        rewrite Z.shiftl_div_pow2, Z.div_small, Z.bits_0 by (pose proof (Z.pow_gt_1 2 (- bit)); lia). done.
      * rewrite Z.ones_spec_high, andb_false_r by lia. symmetry. apply (testbit_above 8); [lia|apply Z_of_byte_fits|done].
  - replace (alter f (Z.to_nat index) b) with b; [constructor|]. apply list_eq. intros j.
    rewrite list_lookup_alter. case_decide as Hj; [|done]. subst j. by rewrite Hx.
Qed.

(** One flipped bit is a mangled byte. *)
Lemma altered_conveys forward b b' : altered forward b b' -> conveys b b'.
Proof.
  intros [|pre x y post bit _ _ -> Hbit Hy]; [constructor|].
  apply (conveys_mangled _ pre [x] [y] post); try done; [by apply short_bit_burst; simpl; lia| |unfold aside_checksum; simpl; lia].
  intros [= ->]. apply (f_equal (fun z => Z.lxor (Z_of_byte y) z)) in Hy.
  rewrite <- Z.lxor_assoc, Z.lxor_nilpotent, Z.lxor_0_l in Hy.
  pose proof (Z.pow_pos_nonneg 2 bit). lia.
Qed.
End Fates.

(** ** [accept] *)

(** A change to the counters that only tells one corruption or reordering from
    none. *)
Definition neutral (f : DirectionStats -> DirectionStats) : Prop :=
  forall s, received (f s) = received s /\ forwarded (f s) = forwarded s /\ dropped (f s) = dropped s /\
    duplicated (f s) = duplicated s.

(** What has come and not yet gone, as the counters have it. *)
Definition balance (s : DirectionStats) : Z := received s + duplicated s - dropped s - forwarded s.

Lemma bump_wraps x : exists k, bump x = x + 1 + k * 2 ^ 64.
Proof. exists (- ((x + 1) / 2 ^ 64)). unfold bump, wrap. rewrite Z.mod_eq by lia. lia. Qed.

Lemma u64_shift a b k : a = b + k * 2 ^ 64 -> u64 a = u64 b.
Proof. intros ->. unfold wrap. apply Z.mod_add. lia. Qed.

Lemma iter_bump n c : Nat.iter n bump (u64 c) = u64 (c + Z.of_nat n).
Proof.
  induction n as [|n IH]; simpl Nat.iter; [by rewrite Z.add_0_r|]. rewrite IH. unfold bump. rewrite wrap_add_l. f_equal. lia.
Qed.

Fixpoint numbered (c : Z) (l : list Pending) : Prop :=
  match l with [] => True | x :: l => order x = c /\ numbered (bump c) l end.

Section Accept.
Context {W : Type} `{LAWS : RelayLaws W}.
Context {Q : Type} `{PQL : PriorityQueueLaws Pending pending_less Q}.
Context (settings : Settings).
Implicit Types (w : W) (p : Proxy Q).

Abbreviation tidy := (SFltb dzero (reorder (impairment settings)) = false).

(** From [p] to [p'], a datagram of direction [forward], of which the counters know
    already if [counted], became the items [more]. *)
Record accepted (counted : bool) (forward : bool) (b : list byte) p w p' w' (more : list Pending) : Prop := {
  acp_still : still w w';
  acp_fate : fate settings forward b (map bytes more);
  acp_direction : Forall (fun x => to_server x = forward) more;
  acp_queue : pq_elems (queue p') ≡ₚ pq_elems (queue p) ++ more;
  acp_order : numbered (arrival_counter p) more;
  acp_counter : arrival_counter p' = Nat.iter (length more) bump (arrival_counter p);
  acp_release : tidy -> exists t, clock w <= t <= clock w' /\ Forall (fun x => release x = s64 (t + delay settings)) more;
  acp_balance : u64 (balance (stats_of forward p')) = u64 (balance (stats_of forward p) + Z.of_nat (length more) - (if counted then 1 else 0));
  acp_received : received (stats_of forward p') = if counted then received (stats_of forward p) else bump (received (stats_of forward p));
  acp_forwarded : forwarded (stats_of forward p') = forwarded (stats_of forward p);
  acp_other : stats_of (negb forward) p' = stats_of (negb forward) p;
  acp_client : client_address p' = client_address p /\ client_known p' = client_known p
}.

Lemma push_queue t forward b p :
  pq_elems (queue (push t forward b p))
  ≡ₚ pq_elems (queue p) ++ [{| release := t; order := arrival_counter p; to_server := forward; bytes := b |}].
Proof. simpl. by rewrite pq_elems_push, (comm (++)). Qed.

(** The bytes, after the draw that may corrupt them. *)
Lemma enqueue_accepted forward b p w :
  let '(w', p') := enqueue settings (is_impaired settings forward) forward b p w in
  exists more, accepted true forward b p w p' w' more.
Proof.
  unfold enqueue. set (im := is_impaired settings forward).
  pose proof (chance_configured im (corrupt (impairment settings)) (corrupt_generator (generators_of forward p)) (rng p)) as H1.
  destruct (chance im (corrupt _) _ _) as [[r1 c1] hit]. cbn [snd] in H1.
  set (step2 := if hit && _ then _ else _).
  assert (exists r2 b2 f, step2 = (r2, b2, update_stats forward f p) /\ altered settings forward b b2 /\
    neutral f) as (r2 & b2 & f2 & -> & Hb2 & Hf2).
  { subst step2. destruct (hit && _) eqn:Hhit.
    - apply andb_true_iff in Hhit as [Hhit _]. destruct (H1 Hhit) as [Him Hc]. pose proof (corrupted_copy_flips b r1) as Hcc.
      destruct (corrupted_copy b r1) as [r2 b2]. exists r2, b2, count_corrupted. split_and!; [done| |done].
      destruct Hcc as (index & bit & Hcc). simpl in Hcc. subst b2. by apply flip_bit_altered.
    - exists r1, b, id. split_and!; [by destruct p, forward|constructor|done]. }
  pose proof (now_still w) as [S3 Ht]. destruct (sys_now w) as [w3 t]. simpl in S3, Ht.
  set (p2 := set_generators forward _ r2 _).
  pose proof (chance_configured im (reorder (impairment settings)) (reorder_generator (generators_of forward p2)) r2) as H4.
  destruct (chance im (reorder _) _ _) as [[r4 c4] skip]. cbn [snd] in H4. set (p3 := set_generators forward _ r4 p2).
  set (step5 := if skip then _ else _).
  assert (exists w5 r f, step5 = (w5, r, update_stats forward f p3) /\ still w w5 /\
    (tidy -> r = s64 (t + delay settings) /\ clock w <= t <= clock w5) /\
    neutral f) as (w5 & r & f5 & -> & S & Hr & Hf5).
  { subst step5. destruct skip.
    - pose proof (now_still w3) as [S5 _]. destruct (sys_now w3) as [w5 t5]. simpl in S5.
      exists w5, t5, count_reordered. split_and!; [done|by etrans| |done]. intros Hno. destruct H4; congruence.
    - exists w3, (s64 (t + delay settings)), id. split_and!; [by destruct p3, forward|done| |done].
      intros _. split; [done|lia]. }
  set (p4 := update_stats forward f5 p3).
  set (p5 := push r forward b2 p4).
  pose proof (chance_configured im (duplicate (impairment settings)) (duplicate_generator (generators_of forward p5)) r4) as H6.
  destruct (chance im (duplicate _) _ _) as [[r6 c6] twice]. cbn [snd] in H6. set (p6 := set_generators forward _ r6 p5).
  assert (tidy -> exists t, clock w <= t <= clock w5 /\ r = s64 (t + delay settings)) as Hrel.
  { intros Hno. destruct (Hr Hno) as [-> ?]. by exists t. }
  assert (stats_of forward p4 = f5 (f2 (stats_of forward p))) as Hs4 by (by destruct forward).
  destruct (Hf5 (f2 (stats_of forward p))) as (Hr5 & Hw5 & Hd5 & Hu5), (Hf2 (stats_of forward p)) as (Hr2 & Hw2 & Hd2 & Hu2).
  rewrite <- Hs4 in *.
  assert (balance (stats_of forward p4) = balance (stats_of forward p)) as Hbal by (unfold balance; congruence).
  set (x := {| release := r; order := arrival_counter p; to_server := forward; bytes := b2 |}).
  destruct twice.
  - destruct (H6 eq_refl) as [Him Hdup].
    set (y := {| release := r; order := bump (arrival_counter p); to_server := forward; bytes := b2 |}).
    exists [x; y]. split; try done.
    + by apply fate_twice.
    + by repeat constructor.
    + simpl. rewrite !pq_elems_push. rewrite (comm (++)). simpl. constructor.
    + intros Hno. destruct (Hrel Hno) as (t' & Ht' & ->). exists t'. split; [done|]. by repeat constructor.
    + replace (stats_of forward _) with (count_duplicated (stats_of forward p4)) by (by destruct forward).
      rewrite <- Hbal. generalize (stats_of forward p4). intros s. unfold balance. simpl.
      destruct (bump_wraps (duplicated s)) as [k ->]. apply (u64_shift _ _ k). lia.
    + transitivity (received (stats_of forward p4)); [by destruct forward|congruence].
    + transitivity (forwarded (stats_of forward p4)); [by destruct forward|congruence].
    + by destruct forward.
  - exists [x]. split; try done.
    + by apply fate_kept.
    + by repeat constructor.
    + exact (push_queue r forward b2 p4).
    + intros Hno. destruct (Hrel Hno) as (t' & Ht' & ->). exists t'. split; [done|]. by repeat constructor.
    + replace (stats_of forward _) with (stats_of forward p4) by (by destruct forward).
      rewrite Hbal. f_equal. simpl. lia.
    + transitivity (received (stats_of forward p4)); [by destruct forward|congruence].
    + transitivity (forwarded (stats_of forward p4)); [by destruct forward|congruence].
    + by destruct forward.
Qed.

Lemma accept_accepted forward b p w :
  let '(w', p') := accept settings forward b p w in
  exists more, accepted false forward b p w p' w' more.
Proof.
  unfold accept. set (im := is_impaired settings forward).
  set (p0 := update_stats forward count_received p).
  pose proof (now_still w) as [S0 _]. destruct (sys_now w) as [w0 t0]. simpl in S0. set (p1 := set_last_activity t0 p0).
  assert (stats_of forward p1 = count_received (stats_of forward p) /\ stats_of (negb forward) p1 = stats_of (negb forward) p)
    as [Hs1 Ho1] by (by destruct forward).
  pose proof (chance_configured im (loss (impairment settings)) (loss_generator (generators_of forward p1)) (rng p1)) as H1.
  destruct (chance im (loss _) _ _) as [[r1 c1] hit]. cbn [snd] in H1. set (p2 := set_generators forward _ r1 p1).
  assert (stats_of forward p2 = count_received (stats_of forward p) /\ stats_of (negb forward) p2 = stats_of (negb forward) p)
    as [Hs2 Ho2] by (by destruct forward).
  assert (forall f, im = true ->
    SFltb dzero (loss (impairment settings)) = true \/ SFltb dzero (burst_loss (impairment settings)) = true ->
    (forall s, (exists k, balance (f (count_received s)) = balance s + k * 2 ^ 64) /\ received (f s) = received s /\ forwarded (f s) = forwarded s) ->
    forall p3, queue p3 = queue p -> arrival_counter p3 = arrival_counter p -> stats_of forward p3 = f (count_received (stats_of forward p)) ->
      stats_of (negb forward) p3 = stats_of (negb forward) p -> client_address p3 = client_address p -> client_known p3 = client_known p ->
    accepted false forward b p w p3 w0 []) as Hlost.
  { intros f Him Hl Hf p3 Hq Hc Hs Ho Ha Hk. split; try done.
    - by apply fate_lost.
    - by rewrite Hq, app_nil_r.
    - intros _. exists (clock w). destruct S0 as [? _]. split; [lia|done].
    - rewrite Hs. destruct (Hf (stats_of forward p)) as [[k ->] _]. apply (u64_shift _ _ k). simpl. lia.
    - rewrite Hs. by destruct (Hf (count_received (stats_of forward p))) as (_ & -> & _).
    - rewrite Hs. by destruct (Hf (count_received (stats_of forward p))) as (_ & _ & ->). }
  destruct hit.
  { destruct (H1 eq_refl) as [Him Hl]. exists []. apply (Hlost count_dropped); try done; [by left| | |].
    - intros s. split; [|done]. unfold balance. simpl. destruct (bump_wraps (received s)) as [k ->], (bump_wraps (dropped s)) as [j ->].
      exists (k - j). lia.
    - rewrite <- Hs2. by destruct forward.
    - by destruct forward. }
  set (step3 := if im && _ then _ else _).
  assert (exists p3 hit, step3 = (p3, hit) /\ (hit = true -> im = true /\ SFltb dzero (burst_loss (impairment settings)) = true) /\
    (exists g r, p3 = set_generators forward g r p2)) as (p3 & hit & -> & H3 & g3 & r3 & ->).
  { subst step3. destruct (im && _) eqn:Hi.
    - destruct (lost _ _) as [[r3 g] hit].
      exists (set_generators forward (set_burst g (generators_of forward p2)) r3 p2), hit. split_and!; [done| |by eexists _, _].
      intros _. by apply andb_true_iff.
    - exists p2, false. split_and!; [done..|]. exists (generators_of forward p2), (rng p2). by destruct p2, forward. }
  destruct hit.
  { destruct (H3 eq_refl) as [Him Hl]. exists [].
    apply (Hlost (fun s => count_burst_dropped (count_dropped s))); try done; [by right| | |].
    - intros s. split; [|done]. unfold balance. simpl. destruct (bump_wraps (received s)) as [k ->], (bump_wraps (dropped s)) as [j ->].
      exists (k - j). lia.
    - rewrite <- Hs2. by destruct forward.
    - by destruct forward. }
  set (p3 := set_generators forward g3 r3 p2). pose proof (enqueue_accepted forward b p3 w0) as He.
  destruct (enqueue settings _ forward b p3 w0) as [w4 p4]. destruct He as [more []]. exists more.
  assert (stats_of forward p3 = count_received (stats_of forward p)) as Hs3 by (by destruct forward).
  split; try done; [by etrans| | |by rewrite acp_received0, Hs3|by rewrite acp_forwarded0, Hs3|].
  - intros Hno. destruct (acp_release0 Hno) as (t & Ht & Hrel). exists t. destruct S0 as [? _]. split; [lia|done].
  - rewrite acp_balance0. rewrite Hs3.
    unfold balance. simpl. destruct (bump_wraps (received (stats_of forward p))) as [k ->]. apply (u64_shift _ _ k). lia.
  - rewrite acp_other0, <- Ho2. by destruct forward.
Qed.
End Accept.

(** ** The conversation *)

Section Conversation.
Context {W : Type} `{LAWS : RelayLaws W}.
Context {Q : Type} `{PQL : PriorityQueueLaws Pending pending_less Q}.
Context (settings : Settings) (front back : Z) (server_address : sockaddr_in).
Context (Hsockets : front <> back).
Implicit Types (w : W) (p : Proxy Q) (l : list Traffic).

Abbreviation tidy := (SFltb dzero (reorder (impairment settings)) = false).

(** What was done with an item that came due, given what had come by then: it went
    to the server, or to an address the client had used, or nowhere, because the
    conversation did not begin with the client. *)
Definition sends l (x : Pending) (o : option Traffic) : Prop :=
  match o with
  | Some (fd, b, a) =>
      b = bytes x /\
      if to_server x then fd = back /\ a = server_address else fd = front /\ exists b', (front, b', a) ∈ l
  | None => to_server x = false /\ l <> [] /\ forall b a, head l <> Some (front, b, a)
  end.

Lemma sends_mono l m x o : sends l x o -> sends (l ++ m) x o.
Proof.
  destruct o as [[[fd b] a]|]; simpl.
  - intros [-> Hs]. split; [done|]. destruct (to_server x); [done|]. destruct Hs as [? [b' Hb]].
    split; [done|]. exists b'. apply elem_of_app. by left.
  - intros (Ht & Hl & Hh). split_and!; [done| |]; by destruct l.
Qed.

Definition count (dir : bool) (xs : list Pending) : Z := Z.of_nat (length (filter (fun x => to_server x = dir) xs)).
Definition unsent (os : list (option Traffic)) : Z := Z.of_nat (length (filter (fun o => o = None) os)).

(** The datagrams of one direction: in on its socket, out on the other. *)
Definition arrivals (dir : bool) l : Z := Z.of_nat (length (filter (fun t => bool_decide (t.1.1 = front) = dir) l)).
Definition departures (dir : bool) l : Z := Z.of_nat (length (filter (fun t => bool_decide (t.1.1 = back) = dir) l)).

#[local] Instance count_proper dir : Proper ((≡ₚ) ==> eq) (count dir).
Proof. intros xs ys Hp. unfold count. by rewrite Hp. Qed.

(** The datagrams that came before the first one of the client. *)
Fixpoint unannounced l : Z :=
  match l with [] => 0 | t :: l => if bool_decide (t.1.1 = front) then 0 else 1 + unannounced l end.

Lemma unannounced_nonneg l : 0 <= unannounced l.
Proof. induction l as [|t l IH]; simpl; [lia|]. case_bool_decide; lia. Qed.

Lemma unannounced_snoc l t : unannounced l <= unannounced (l ++ [t]).
Proof.
  induction l as [|u l IH]; simpl; case_bool_decide; lia.
Qed.

Lemma unannounced_all l : (forall b a, (front, b, a) ∉ l) -> unannounced l = Z.of_nat (length l).
Proof.
  induction l as [|[[fd b] a] l IH]; intros Hn; [done|]. simpl. rewrite bool_decide_false.
  - rewrite IH; [lia|]. intros b' a' Hin. apply (Hn b' a'). by constructor.
  - intros ->. apply (Hn b a). constructor.
Qed.

Lemma count_app dir xs ys : count dir (xs ++ ys) = count dir xs + count dir ys.
Proof. unfold count. rewrite filter_app, length_app. lia. Qed.

Lemma count_uniform dir d xs :
  Forall (fun x => to_server x = d) xs -> count dir xs = if bool_decide (dir = d) then Z.of_nat (length xs) else 0.
Proof.
  unfold count. induction 1 as [|x xs Hx _ IH]; [by case_bool_decide|]. rewrite filter_cons, Hx.
  case_bool_decide as Hd; subst; case_decide; try congruence; simpl length; lia.
Qed.

(** Items in the order they were numbered, none released before an earlier one. *)
Definition before (x y : Pending) : Prop := order x < order y /\ release x <= release y.
Definition in_line (c : Z) (acc : list Pending) : Prop :=
  StronglySorted before acc /\
  Forall (fun x => order x < Z.of_nat (length acc) /\ release x <= c + delay settings) acc.

Lemma in_line_later c c' acc : c <= c' -> in_line c acc -> in_line c' acc.
Proof. intros Hc [Hs Hf]. split; [done|]. eapply Forall_impl; [exact Hf|]. intros x []. split; [done|lia]. Qed.

Lemma numbered_sorted c more t :
  0 <= c -> c + Z.of_nat (length more) < 2 ^ 64 -> numbered c more -> Forall (fun x => release x = t) more ->
  StronglySorted before more /\ Forall (fun x => c <= order x < c + Z.of_nat (length more)) more.
Proof.
  revert c. induction more as [|x more IH]; intros c Hc Hb Hn Hr; [by split; constructor|].
  simpl length in *. destruct Hn as [Hx Hn]. inversion_clear Hr as [|? ? Hrx Hr'].
  unfold bump in Hn. rewrite wrap_small in Hn by (unfold fits; lia).
  destruct (IH (c + 1)) as [Hs Hf]; [lia|lia|done..|]. split.
  - constructor; [done|]. rewrite Forall_forall in Hf, Hr'. apply Forall_forall. intros y Hy.
    specialize (Hf y Hy). specialize (Hr' y Hy). unfold before. lia.
  - constructor; [lia|]. eapply Forall_impl; [exact Hf|]. simpl. lia.
Qed.

Lemma delay_range : - 2 ^ 63 <= delay settings < 2 ^ 63.
Proof. apply s64_range. Qed.

Lemma in_line_app c t c' acc more :
  in_line c acc -> c <= t <= c' -> Z.of_nat (length acc + length more) < 2 ^ 64 ->
  numbered (Z.of_nat (length acc)) more -> Forall (fun x => release x = t + delay settings) more ->
  in_line c' (acc ++ more).
Proof.
  intros [Hs Hf] Ht Hb Hn Hr.
  destruct (numbered_sorted (Z.of_nat (length acc)) more (t + delay settings) ltac:(lia) ltac:(lia) Hn Hr) as [Hms Hmf].
  rewrite Forall_forall in Hf, Hr, Hmf. split.
  - apply StronglySorted_app. split_and!; [|done..]. intros x y Hx Hy. specialize (Hf x Hx). specialize (Hr y Hy). specialize (Hmf y Hy).
    unfold before. lia.
  - rewrite length_app. apply Forall_app. split; apply Forall_forall; intros x Hx.
    + specialize (Hf x Hx). lia.
    + specialize (Hr x Hx). specialize (Hmf x Hx). lia.
Qed.

(** The queue's top is the first of the line. *)
Lemma top_is_first c acc popped L q x :
  in_line c acc -> acc = popped ++ L -> L ≡ₚ pq_elems q -> pq_top q = Some x -> exists L', L = x :: L'.
Proof.
  intros [Hs _] -> Hp Hx. pose proof (pq_top_elem x q Hx) as Hin. rewrite <- Hp in Hin.
  assert (StronglySorted before L) as HL.
  { by apply StronglySorted_app_1_r in Hs. }
  destruct L as [|y L]; [by apply elem_of_nil in Hin|]. exists L.
  inversion_clear HL as [|? ? _ Hf]. apply elem_of_cons in Hin as [->|Hin]; [done|]. exfalso.
  rewrite Forall_forall in Hf. destruct (Hf x Hin) as [Ho Hr].
  assert (pending_less x y = false) as Hl.
  { apply (pq_top_greatest q x y Hx). rewrite <- Hp. constructor. }
  unfold pending_less in Hl. rewrite !Z.gtb_ltb in Hl. destruct (Z.eqb_spec (release x) (release y)); simpl in Hl; bool_to_prop; lia.
Qed.

(** The whole conversation since [w0]: what came ([l]), the items it became in
    order of arrival ([acc]), those that came due ([popped]) and what was done with
    each ([os]). *)
Record relayed w0 p w l (acc popped : list Pending) (os : list (option Traffic)) : Prop := {
  rly_clock : clock w0 <= clock w;
  rly_came : came w = came w0 ++ l;
  rly_fates : fates settings front l acc;
  rly_counter : arrival_counter p = u64 (Z.of_nat (length acc));
  rly_sockets : Forall (fun t => t.1.1 = front \/ t.1.1 = back) l;
  rly_queue : acc ≡ₚ popped ++ pq_elems (queue p);
  rly_sends : Forall2 (sends l) popped os;
  rly_went : went w = went w0 ++ omap id os;
  rly_known : if client_known p then exists b, (front, b, client_address p) ∈ l else forall b a, (front, b, a) ∉ l;
  rly_balance dir :
    u64 (balance (stats_of dir p)) = u64 (count dir (pq_elems (queue p)) + (if dir then 0 else unsent os));
  rly_unsent : unsent os <= 2 * unannounced l;
  rly_received dir : received (stats_of dir p) = u64 (arrivals dir l);
  rly_forwarded dir : forwarded (stats_of dir p) = u64 (departures dir (omap id os));
  rly_order : tidy -> Z.of_nat (2 * length l) < 2 ^ 64 -> 0 <= clock w0 -> clock w + delay settings < 2 ^ 63 ->
    exists L, acc = popped ++ L /\ L ≡ₚ pq_elems (queue p) /\ in_line (clock w) acc
}.

Definition conversing w0 p w : Prop := exists l acc popped os, relayed w0 p w l acc popped os.

Lemma conversing_still w0 p w w' : conversing w0 p w -> still w w' -> conversing w0 p w'.
Proof.
  intros (l & acc & popped & os & []) (Hc & Hi & Ho). exists l, acc, popped, os. split; try done; [lia|congruence..|].
  intros Ht Hl H0 H63. destruct (rly_order0 Ht Hl H0) as (L & ? & ? & Hline); [lia|]. exists L. split_and!; [done..|]. by eapply in_line_later.
Qed.

Lemma conversing_new r w : conversing w (new_proxy (Q:=Q) settings r (sys_now w).2) (sys_now w).1.
Proof.
  pose proof (now_still w) as [(Ht & Hi & Ho) _]. exists [], [], [], [].
  split; simpl; rewrite ?app_nil_r, ?pq_elems_empty; try done;
    [apply fates_nil|by intros ? ? ?%elem_of_nil|by intros []|by intros []|by intros []|].
  intros _ _ _ _. exists []. split_and!; [done..|]. split; constructor.
Qed.

(** A datagram is received and accepted. *)
Lemma relayed_accept w0 p p1 w w1 l acc popped os fd b a :
  relayed w0 p w l acc popped os -> fd = front \/ fd = back ->
  clock w <= clock w1 -> went w1 = went w -> came w1 = came w ++ [(fd, b, a)] ->
  queue p1 = queue p -> arrival_counter p1 = arrival_counter p -> (forall dir, stats_of dir p1 = stats_of dir p) ->
  (if bool_decide (fd = front) then client_known p1 = true /\ client_address p1 = a
   else client_known p1 = client_known p /\ client_address p1 = client_address p) ->
  let '(w2, p2) := accept settings (bool_decide (fd = front)) b p1 w1 in conversing w0 p2 w2.
Proof.
  intros [] Hfd Hc Ho Hi Hq Hn Hs Hclient. pose proof (accept_accepted settings (bool_decide (fd = front)) b p1 w1) as Ha.
  destruct (accept settings _ b p1 w1) as [w2 p2]. destruct Ha as [more [(Hc' & Hi' & Ho') Hfate Hdir Hqueue Horder Hcounter Hrel Hbal Hreceived Hforwarded Hother [Haddr Hknown]]].
  rewrite Hq in Hqueue. rewrite Hn in Horder, Hcounter.
  assert (Forall2 (sends (l ++ [(fd, b, a)])) popped os) as Hsends.
  { eapply Forall2_impl; [exact rly_sends0|]. intros x o. apply sends_mono. }
  exists (l ++ [(fd, b, a)]), (acc ++ more), popped, os. split; try done.
  - lia.
  - by rewrite Hi', Hi, rly_came0, app_assoc.
  - by apply fates_snoc.
  - by rewrite Hcounter, rly_counter0, iter_bump, length_app, Nat2Z.inj_add.
  - apply Forall_app. split; [done|]. by constructor.
  - by rewrite Hqueue, rly_queue0, app_assoc.
  - by rewrite Ho', Ho.
  - rewrite Hknown, Haddr. case_bool_decide as Hf.
    + destruct Hclient as [-> ->]. exists b. subst fd. apply elem_of_app. right. by apply list_elem_of_singleton.
    + destruct Hclient as [-> ->]. destruct (client_known p).
      * destruct rly_known0 as [b' Hb']. exists b'. apply elem_of_app. by left.
      * intros b' a' [Hin|Hin%list_elem_of_singleton]%elem_of_app; [by apply rly_known0 in Hin|congruence].
  - intros dir. rewrite Hqueue, count_app, (count_uniform dir _ _ Hdir). destruct (decide (dir = bool_decide (fd = front))) as [->|Hne].
    + rewrite (bool_decide_true (bool_decide (fd = front) = bool_decide (fd = front))) by done. rewrite Hbal, Hs, Z.sub_0_r, <- wrap_add_l, rly_balance0, wrap_add_l. f_equal. lia.
    + rewrite (bool_decide_false (dir = bool_decide (fd = front))) by done. assert (dir = negb (bool_decide (fd = front))) as -> by (by destruct dir, (bool_decide (fd = front))).
      rewrite Hother, Hs, rly_balance0. f_equal. lia.
  - pose proof (unannounced_snoc l (fd, b, a)). lia.
  - intros dir. unfold arrivals. rewrite filter_app, length_app, filter_cons, filter_nil. simpl.
    specialize (rly_received0 dir). unfold arrivals in rly_received0.
    destruct (decide (bool_decide (fd = front) = dir)) as [<-|Hdd].
    + rewrite Hreceived, Hs, rly_received0. unfold bump. rewrite wrap_add_l. f_equal. simpl. lia.
    + assert (dir = negb (bool_decide (fd = front))) as -> by (by destruct dir, (bool_decide (fd = front))).
      rewrite Hother, Hs, rly_received0. f_equal. simpl. lia.
  - intros dir. rewrite <- rly_forwarded0, <- Hs. destruct (decide (dir = bool_decide (fd = front))) as [->|Hne]; [done|].
    assert (dir = negb (bool_decide (fd = front))) as -> by (by destruct dir, (bool_decide (fd = front))). by rewrite Hother.
  - intros Ht Hl H0 H63. rewrite length_app in Hl. simpl in Hl.
    destruct (rly_order0 Ht) as (L & -> & HL & Hline); [lia|done|lia|].
    pose proof (fates_length _ _ _ _ rly_fates0) as Hlen.
    assert (length more <= 2)%nat as Hm by (rewrite <- (length_map bytes); by destruct Hfate; simpl; lia).
    exists (L ++ more). split_and!; [by rewrite app_assoc|by rewrite Hqueue, HL|].
    destruct (Hrel Ht) as (t & Htime & Hr). rewrite s64_fits in Hr by (pose proof delay_range; lia).
    apply (in_line_app (clock w) t); [done|lia|lia| |done].
    rewrite rly_counter0, wrap_small in Horder by (unfold fits; lia). done.
Qed.

Lemma conversing_front w0 p w :
  conversing w0 p w -> let '(w', p') := receive_front settings front p w in conversing w0 p' w'.
Proof.
  intros Hc. unfold receive_front. pose proof (rl_recvfrom front kMaxDatagram w) as Hr.
  destruct (sys_recvfrom front kMaxDatagram w) as [w1 [[b a]|e]]; destruct Hr as (Ht & Ho & Hi).
  - destruct Hc as (l & acc & popped & os & Hc).
    pose proof (relayed_accept w0 p (set_client a p) w w1 l acc popped os front b a Hc ltac:(by left) Ht Ho Hi) as Ha.
    rewrite bool_decide_true in Ha by done. by apply Ha.
  - by apply (conversing_still w0 p w).
Qed.

Lemma conversing_back w0 p w :
  conversing w0 p w -> let '(w', p') := receive_back settings back p w in conversing w0 p' w'.
Proof.
  intros Hc. unfold receive_back. pose proof (rl_recvfrom back kMaxDatagram w) as Hr.
  destruct (sys_recvfrom back kMaxDatagram w) as [w1 [[b a]|e]]; destruct Hr as (Ht & Ho & Hi).
  - destruct Hc as (l & acc & popped & os & Hc).
    pose proof (relayed_accept w0 p p w w1 l acc popped os back b a Hc ltac:(by right) Ht Ho Hi) as Ha.
    rewrite bool_decide_false in Ha by done. by apply Ha.
  - by apply (conversing_still w0 p w).
Qed.

(** One item that is due leaves the queue. *)
Lemma relayed_pop w0 p w x o w1 f l acc popped os :
  relayed w0 p w l acc popped os -> pq_top (queue p) = Some x ->
  clock w <= clock w1 -> came w1 = came w -> went w1 = went w ++ omap id [o] -> sends l x o ->
  (forall s, f s = match o with Some _ => count_forwarded s | None => s end) ->
  (o = None -> forall b a, (front, b, a) ∉ l) ->
  conversing w0 (set_queue (pq_pop (queue p)) (update_stats (to_server x) f p)) w1.
Proof.
  intros [] Hx Hc Hi Ho Hs Hf Hnone. pose proof (pq_top_Some _ _ Hx) as Hq.
  assert (pq_elems (queue (set_queue (pq_pop (queue p)) (update_stats (to_server x) f p))) = pq_elems (pq_pop (queue p))) as He by done.
  exists l, acc, (popped ++ [x]), (os ++ [o]). split; try done.
  - lia.
  - by rewrite Hi.
  - by rewrite rly_queue0, Hq, He, <- app_assoc.
  - apply Forall2_app; [done|]. by repeat constructor.
  - by rewrite Ho, rly_went0, omap_app, app_assoc.
  - intros dir. rewrite He. specialize (rly_balance0 dir). rewrite Hq in rly_balance0.
    change (x :: pq_elems (pq_pop (queue p))) with ([x] ++ pq_elems (pq_pop (queue p))) in rly_balance0.
    rewrite count_app in rly_balance0. unfold unsent in *. rewrite filter_app, length_app.
    assert (u64 (balance (stats_of dir (set_queue (pq_pop (queue p)) (update_stats (to_server x) f p))))
            = u64 (balance (stats_of dir p) - if bool_decide (dir = to_server x) then match o with Some _ => 1 | None => 0 end else 0)) as ->.
    { replace (stats_of dir _) with (if bool_decide (dir = to_server x) then f (stats_of dir p) else stats_of dir p)
        by (by destruct dir, (to_server x)).
      case_bool_decide; [|by rewrite Z.sub_0_r]. rewrite Hf. destruct o; [|by rewrite Z.sub_0_r].
      unfold balance. simpl. destruct (bump_wraps (forwarded (stats_of dir p))) as [k ->]. apply (u64_shift _ _ (- k)). lia. }
    rewrite <- Z.add_opp_r, <- wrap_add_l, rly_balance0, wrap_add_l. f_equal.
    unfold count at 1. rewrite filter_cons, filter_nil. destruct o as [y|]; simpl in Hs.
    + case_bool_decide; case_decide; simpl; destruct dir; lia || congruence.
    + destruct Hs as [Ht _]. rewrite Ht. case_bool_decide; case_decide; simpl; destruct dir; lia || congruence.
  - unfold unsent in *. rewrite filter_app, length_app. destruct o as [y|]; [simpl; lia|].
    rewrite unannounced_all by (by apply Hnone).
    pose proof (fates_length _ _ _ _ rly_fates0). pose proof (Permutation_length rly_queue0) as Hlen.
    pose proof (Forall2_length _ _ _ rly_sends0). rewrite Hq, length_app in Hlen. simpl in Hlen.
    assert (length (filter (fun o => o = None) os) <= length os)%nat by apply length_filter. simpl. lia.
  - intros dir. rewrite <- rly_received0. destruct dir, (to_server x); simpl; try done; rewrite Hf; by destruct o.
  - intros dir. rewrite omap_app. unfold departures. rewrite filter_app, length_app. specialize (rly_forwarded0 dir).
    unfold departures in rly_forwarded0. destruct o as [[[fd b] a]|]; simpl in *.
    + rewrite filter_cons, filter_nil. destruct Hs as [_ Hs].
      destruct dir, (to_server x); destruct Hs as [-> _]; simpl in *; try rewrite Hf; simpl;
        (rewrite bool_decide_true by done) || (rewrite bool_decide_false by done); case_decide; try done; simpl;
        rewrite rly_forwarded0; unfold bump; rewrite ?wrap_add_l; f_equal; lia.
    + rewrite Nat.add_0_r, <- rly_forwarded0. destruct dir, (to_server x); simpl; try done; by rewrite Hf.
  - intros Ht Hl H0 H63. destruct (rly_order0 Ht Hl H0) as (L & Hacc & HL & Hline); [lia|].
    destruct (top_is_first (clock w) acc popped L (queue p) x Hline Hacc HL Hx) as [L' ->].
    exists L'. rewrite He, <- app_assoc. split_and!; [done| |by eapply in_line_later].
    rewrite Hq in HL. by apply Permutation_cons_inv in HL.
Qed.

Lemma conversing_release w0 fuel now p w :
  conversing w0 p w -> let '(w', p') := release_due front back server_address fuel now p w in conversing w0 p' w'.
Proof.
  revert p w. induction fuel as [|fuel IH]; intros p w Hc; cbn [release_due]; [done|].
  destruct (pq_top (queue p)) as [x|] eqn:Hx; [|done]. destruct (release x <=? now); [|done].
  destruct Hc as (l & acc & popped & os & Hc). pose proof Hc as [].
  assert (l <> []) as Hne.
  { intros ->. pose proof (fates_length _ _ _ _ rly_fates0) as Hl. destruct acc; [|simpl in Hl; lia].
    pose proof (pq_top_Some _ _ Hx) as Hq. rewrite Hq in rly_queue0.
    symmetry in rly_queue0. apply Permutation_nil_r in rly_queue0. by apply app_eq_nil in rly_queue0 as [_ ?]. }
  destruct (to_server x) eqn:Hd.
  - pose proof (rl_sendto back (bytes x) server_address w) as Hs. destruct (sys_sendto back _ _ w) as [w1 r].
    destruct Hs as (Ht & Hi & Ho). simpl in Ht, Hi, Ho. apply IH.
    pose proof (relayed_pop w0 p w x (Some (back, bytes x, server_address)) w1 count_forwarded l acc popped os Hc Hx Ht Hi Ho) as Hp.
    rewrite Hd in Hp. apply Hp; [|done|done]. simpl. by rewrite Hd.
  - destruct (client_known p) eqn:Hk.
    + pose proof (rl_sendto front (bytes x) (client_address p) w) as Hs. destruct (sys_sendto front _ _ w) as [w1 r].
      destruct Hs as (Ht & Hi & Ho). simpl in Ht, Hi, Ho. apply IH.
      pose proof (relayed_pop w0 p w x (Some (front, bytes x, client_address p)) w1 count_forwarded l acc popped os Hc Hx Ht Hi Ho) as Hp.
      rewrite Hd in Hp. apply Hp; [|done|done]. simpl. rewrite Hd. by split_and!.
    + apply IH. pose proof (relayed_pop w0 p w x None w id l acc popped os Hc Hx ltac:(lia) eq_refl) as Hp.
      rewrite Hd in Hp. replace p with (update_stats false id p) at 2 by (by destruct p). apply Hp; [by rewrite app_nil_r| |done|done].
      split_and!; [done..|]. intros b a Hh. apply (rly_known0 b a). destruct l; [done|]. injection Hh as ->. constructor.
Qed.

Lemma wait_still p w : still w (wait_for (Q:=Q) p w).1.
Proof. unfold wait_for. destruct (pq_top (queue p)); [|done]. pose proof (now_still w) as [Hs _]. by destruct (sys_now w). Qed.

Lemma conversing_relay w0 fuel p w :
  conversing w0 p w -> let '(w', p', _) := relay settings front back server_address fuel p w in conversing w0 p' w'.
Proof.
  revert p w. induction fuel as [|fuel IH]; intros p w Hc; cbn [relay]; [done|].
  pose proof (rl_stopped w) as H1. destruct (sys_stopped w) as [w1 stopped]. simpl in H1.
  assert (conversing w0 p w1) as Hc1 by (by apply (conversing_still w0 p w)). destruct stopped; [done|].
  pose proof (wait_still p w1) as H2. destruct (wait_for p w1) as [w2 [sec nsec]].
  pose proof (rl_ppoll sec nsec w2) as H3. destruct (sys_ppoll sec nsec w2) as [w3 [[fr br]|e]]; simpl in H2, H3.
  2:{ assert (conversing w0 p w3) as Hc3 by (apply (conversing_still w0 p w1); [done|by etrans]).
      destruct (e =? EINTR); [by apply IH|done]. }
  assert (conversing w0 p w3) as Hc3 by (apply (conversing_still w0 p w1); [done|by etrans]).
  pose proof (conversing_front w0 p w3 Hc3) as Hf.
  set (front_step := if fr then _ else _).
  assert (let '(w4, p4) := front_step in conversing w0 p4 w4) as H4 by (subst front_step; by destruct fr).
  destruct front_step as [w4 p4]. clear Hf. pose proof (conversing_back w0 p4 w4 H4) as Hb.
  set (back_step := if br then _ else _).
  assert (let '(w5, p5) := back_step in conversing w0 p5 w5) as H5 by (subst back_step; by destruct br).
  destruct back_step as [w5 p5]. clear Hb. pose proof (now_still w5) as [H6 _]. destruct (sys_now w5) as [w6 now]. simpl in H6.
  assert (conversing w0 p5 w6) as Hc6 by (by apply (conversing_still w0 p5 w5)).
  pose proof (conversing_release w0 (length (pq_elems (queue p5))) now p5 w6 Hc6) as H7.
  destruct (release_due _ _ _ _ now p5 w6) as [w7 p7]. destruct (pq_top (queue p7)); [by apply IH|].
  pose proof (now_still w7) as [H8 _]. destruct (sys_now w7) as [w8 now']. simpl in H8.
  assert (conversing w0 p7 w8) as Hc8 by (by apply (conversing_still w0 p7 w7)).
  destruct (_ >? _); [done|by apply IH].
Qed.
End Conversation.

(** ** Claims *)

Section Claims.
Context {W : Type} `{LAWS : RelayLaws W}.
Context {Q : Type} `{PQL : PriorityQueueLaws Pending pending_less Q}.
Context (settings : Settings) (front back : Z) (server_address : sockaddr_in).
Context (Hsockets : front <> back).
Implicit Types (w : W).

(** What [proxy_main] runs once its sockets are open. *)
Definition relay_run (generator : Mt19937) (fuel : nat) w : W * Proxy Q * bool :=
  relay settings front back server_address fuel (new_proxy settings generator (sys_now w).2) (sys_now w).1.

Definition came_since w0 w : list Traffic := drop (length (came w0)) (came w).
Definition went_since w0 w : list Traffic := drop (length (went w0)) (went w).

Lemma relay_run_conversing generator fuel w :
  let '(w', p', _) := relay_run generator fuel w in
  exists l acc popped os, relayed settings front back server_address w p' w' l acc popped os /\
    came_since w w' = l /\ went_since w w' = omap id os.
Proof.
  pose proof (conversing_relay settings front back server_address Hsockets w fuel _ _
    (conversing_new (Q:=Q) settings front back server_address generator w)) as H1.
  unfold relay_run. destruct (relay _ _ _ _ _ _ _) as [[w' p'] stop]. destruct H1 as (l & acc & popped & os & Hr).
  exists l, acc, popped, os. split; [done|]. pose proof Hr as []. unfold came_since, went_since.
  by rewrite rly_came0, rly_went0, !drop_app_length.
Qed.

(** What left, and the datagram of its direction that it was. *)
Lemma relay_origin generator fuel w :
  let '(w', _, _) := relay_run generator fuel w in
  forall fd b a, (fd, b, a) ∈ went_since w w' -> exists dir : bool,
  fd = (if dir then back else front) /\
  (if dir then a = server_address else exists b1, (front, b1, a) ∈ came_since w w') /\
  exists b0 a0, (if dir then front else back, b0, a0) ∈ came_since w w' /\ altered settings dir b0 b.
Proof.
  pose proof (relay_run_conversing generator fuel w) as Hc. destruct (relay_run generator fuel w) as [[w' p'] stop].
  destruct Hc as (l & acc & popped & os & [] & -> & ->). intros fd b a (o & Ho & He)%list_elem_of_omap.
  unfold id in He. subst o.
  apply list_elem_of_lookup_1 in Ho as [j Hj]. destruct (Forall2_lookup_r _ _ _ _ _ rly_sends0 Hj) as (x & Hx & -> & Hs).
  apply list_elem_of_lookup_2 in Hx.
  assert (x ∈ acc) as Hacc by (rewrite rly_queue0; apply elem_of_app; by left).
  destruct (fates_origin _ _ _ _ _ rly_fates0 Hacc) as (fd' & b' & a' & Hin & Hdir & Ha).
  rewrite Forall_forall in rly_sockets0. exists (to_server x). destruct (to_server x).
  - destruct Hs as [-> ->]. symmetry in Hdir. bool_to_prop. subst fd'. split_and!; [done..|]. by exists b', a'.
  - destruct Hs as [-> [b1 Hb1]]. symmetry in Hdir. bool_to_prop.
    destruct (rly_sockets0 _ Hin) as [Hf|Hf]; simpl in Hf; subst fd'; [done|].
    split_and!; [done|by exists b1|]. by exists b', a'.
Qed.

(** C24: nothing is made up and nothing is turned back.  With any options, a
    datagram that leaves does so towards the server, to its address, or towards the
    client, to an address a datagram of the client came from; and it is one that
    came in on the other socket, unchanged, or with one bit of one byte flipped
    where corruption is configured for its direction. *)
Theorem relay_carries generator fuel w :
  let '(w', _, _) := relay_run generator fuel w in
  forall fd b a, (fd, b, a) ∈ went_since w w' ->
  (fd = back /\ a = server_address /\
   exists b0 a0, (front, b0, a0) ∈ came_since w w' /\ altered settings true b0 b) \/
  (fd = front /\ (exists b1, (front, b1, a) ∈ came_since w w') /\
   exists b0 a0, (back, b0, a0) ∈ came_since w w' /\ altered settings false b0 b).
Proof.
  pose proof (relay_origin generator fuel w) as Hc. destruct (relay_run generator fuel w) as [[w' p'] stop].
  intros fd b a Hin. destruct (Hc fd b a Hin) as ([] & Hfd & Ha & Ho); [by left|by right].
Qed.

(** The traffic of one direction, in on one socket and out on the other. *)
Definition on_socket (fd : Z) (l : list Traffic) : list (list byte) :=
  map (fun t => t.1.2) (filter (fun t => t.1.1 = fd) l).

(** So the proxy is one of the networks the transfer is proved against: each
    direction is [carried] in the sense of the claims on whole transfers. *)
Lemma relay_carried generator fuel w :
  let '(w', _, _) := relay_run generator fuel w in
  carried (on_socket front (came_since w w')) (on_socket back (went_since w w')) /\
  carried (on_socket back (came_since w w')) (on_socket front (went_since w w')).
Proof.
  pose proof (relay_origin generator fuel w) as Hc. destruct (relay_run generator fuel w) as [[w' p'] stop].
  split; apply Forall_forall; intros r ([[fd b] a] & -> & [Hfd Ht]%list_elem_of_filter)%list_elem_of_fmap;
    simpl in Hfd; subst fd; destruct (Hc _ _ _ Ht) as ([] & Hfd & _ & b0 & a0 & Hin & Ha); try congruence;
    left; exists b0; (split; [|by eapply altered_conveys]);
    apply list_elem_of_fmap; eexists (_, b0, a0); (split; [done|]); by apply list_elem_of_filter.
Qed.

(** C25: no reordering unless asked for.  Without [--reorder], what came makes one
    line of items, in order of arrival, each datagram lost, kept or doubled, and
    altered, only as far as configured; and what leaves is the front of that line,
    in that order, to the server or to an address of the client.  The clock and the
    clock plus the delay stay within 64 bits. *)
Theorem relay_in_order generator fuel w :
  SFltb dzero (reorder (impairment settings)) = false -> 0 <= clock w ->
  let '(w', p', _) := relay_run generator fuel w in
  Z.of_nat (2 * length (came_since w w')) < 2 ^ 64 -> clock w' + delay settings < 2 ^ 63 ->
  exists gone waiting os,
    fates settings front (came_since w w') (gone ++ waiting) /\ waiting ≡ₚ pq_elems (queue p') /\
    Forall2 (sends front back server_address (came_since w w')) gone os /\ went_since w w' = omap id os.
Proof.
  intros Ht H0. pose proof (relay_run_conversing generator fuel w) as Hc. destruct (relay_run generator fuel w) as [[w' p'] stop].
  destruct Hc as (l & acc & popped & os & [] & -> & ->). intros Hl H63.
  destruct (rly_order0 Ht Hl H0 H63) as (L & -> & HL & _). by exists popped, L, os.
Qed.

(** C26: the statistics are true.  In each direction the proxy reports, modulo 2^64,
    the datagrams that came on its socket as received and those it sent on the other
    as forwarded; and received and duplicated ones are all forwarded, dropped or
    still queued, except that towards the client some may have come due before the
    client was known: at most two for each datagram that came before the client's
    first, so none when the client speaks first. *)
Theorem relay_accounts generator fuel w :
  let '(w', p', _) := relay_run generator fuel w in
  (forall dir, received (stats_of dir p') = u64 (arrivals front dir (came_since w w')) /\
               forwarded (stats_of dir p') = u64 (departures back dir (went_since w w'))) /\
  u64 (received (to_server_stats p') + duplicated (to_server_stats p')) =
    u64 (forwarded (to_server_stats p') + dropped (to_server_stats p') + count true (pq_elems (queue p'))) /\
  exists homeless, 0 <= homeless <= 2 * unannounced front (came_since w w') /\
    u64 (received (to_client_stats p') + duplicated (to_client_stats p')) =
      u64 (forwarded (to_client_stats p') + dropped (to_client_stats p') + count false (pq_elems (queue p')) + homeless).
Proof.
  pose proof (relay_run_conversing generator fuel w) as Hc. destruct (relay_run generator fuel w) as [[w' p'] stop].
  destruct Hc as (l & acc & popped & os & [] & -> & ->).
  assert (forall dir, u64 (received (stats_of dir p') + duplicated (stats_of dir p')) =
    u64 (forwarded (stats_of dir p') + dropped (stats_of dir p') + count dir (pq_elems (queue p')) + (if dir then 0 else unsent os))) as Hb.
  { intros dir. specialize (rly_balance0 dir). unfold balance in rly_balance0. generalize dependent (stats_of dir p').
    intros s Hb. replace (received s + duplicated s)
      with (received s + duplicated s - dropped s - forwarded s + (forwarded s + dropped s)) by lia.
    rewrite <- wrap_add_l, Hb, wrap_add_l. f_equal. lia. }
  split_and!; [by split| |].
  - specialize (Hb true). simpl in Hb. by rewrite Z.add_0_r in Hb.
  - exists (unsent os). split_and!; [unfold unsent; lia|done|apply (Hb false)].
Qed.
End Claims.
