(* ===== verification/Cli.v ===== *)
(** * The command lines

    The two programs: option parsing and [main] of src/src/client/client_main.cpp
    and src/src/server/server_main.cpp, down to the call of [send_file] of Sender.v
    and [run] of Server.v.  [argv] is without the program's name; what is printed is
    left out. *)

From S2P Require Import Prelude Words Doubles Mt19937 Text Packet Filename Transfer PriorityQueue SenderWindow FileIO Net ReceiverSession Delivery Sender SenderSpec Server.
From Stdlib Require Import Floats.SpecFloat.
Open Scope Z_scope.

(** The numbers seeds are drawn from, and the output directory. *)
Class Startup (W : Type) := {
  (** [std::random_device{}()] *)
  sys_random_device : W -> W * Z;
  (** [mkdir(path, 0755)]: [errno] when it fails. *)
  sys_mkdir : path -> W -> W * option Z
}.

Definition EEXIST : Z := 17.

(** [std::chrono::milliseconds{static_cast<long>(n)}] *)
Definition to_milliseconds (n : Z) : Z := s64 n.

(** A port from the command line. *)
Definition parse_port (text : list byte) : option Z :=
  match parse_unsigned text with
  | Some n => if (n =? 0) || (n >? 65535) then None else Some n
  | None => None
  end.

Module Client.

Record Options := {
  host : list byte;
  port : Z;
  file : path;
  sender : SenderConfig;
  quiet : bool
}.
Definition default_options : Options := {|
  host := str "127.0.0.1"; port := 9000; file := []; sender := default_config 0 []; quiet := false |}.

Definition set_sender (c : SenderConfig) (o : Options) : Options :=
  {| host := host o; port := port o; file := file o; sender := c; quiet := quiet o |}.
Definition set_quiet (o : Options) : Options :=
  {| host := host o; port := port o; file := file o; sender := sender o; quiet := true |}.
Definition set_host (h : list byte) (o : Options) : Options :=
  {| host := h; port := port o; file := file o; sender := sender o; quiet := quiet o |}.
Definition set_port (n : Z) (o : Options) : Options :=
  {| host := host o; port := n; file := file o; sender := sender o; quiet := quiet o |}.
Definition set_file (p : path) (o : Options) : Options :=
  {| host := host o; port := port o; file := p; sender := sender o; quiet := quiet o |}.

(** Fields of the sender's configuration. *)
Definition with_loss (x : Double) (c : SenderConfig) : SenderConfig := {|
  chunk_size := chunk_size c; rto := rto c; max_retries := max_retries c; window_size := window_size c;
  loss_probability := x; seed := seed c; config_session_id := config_session_id c; remote_name := remote_name c |}.
Definition with_seed (n : Z) (c : SenderConfig) : SenderConfig := {|
  chunk_size := chunk_size c; rto := rto c; max_retries := max_retries c; window_size := window_size c;
  loss_probability := loss_probability c; seed := n; config_session_id := config_session_id c;
  remote_name := remote_name c |}.
Definition with_rto (ms : Z) (c : SenderConfig) : SenderConfig := {|
  chunk_size := chunk_size c; rto := ms; max_retries := max_retries c; window_size := window_size c;
  loss_probability := loss_probability c; seed := seed c; config_session_id := config_session_id c;
  remote_name := remote_name c |}.
Definition with_window (n : Z) (c : SenderConfig) : SenderConfig := {|
  chunk_size := chunk_size c; rto := rto c; max_retries := max_retries c; window_size := n;
  loss_probability := loss_probability c; seed := seed c; config_session_id := config_session_id c;
  remote_name := remote_name c |}.
Definition with_name (name : list byte) (c : SenderConfig) : SenderConfig := {|
  chunk_size := chunk_size c; rto := rto c; max_retries := max_retries c; window_size := window_size c;
  loss_probability := loss_probability c; seed := seed c; config_session_id := config_session_id c;
  remote_name := name |}.
Definition with_chunk (n : Z) (c : SenderConfig) : SenderConfig := {|
  chunk_size := n; rto := rto c; max_retries := max_retries c; window_size := window_size c;
  loss_probability := loss_probability c; seed := seed c; config_session_id := config_session_id c;
  remote_name := remote_name c |}.
Definition with_session (sid : Z) (c : SenderConfig) : SenderConfig := {|
  chunk_size := chunk_size c; rto := rto c; max_retries := max_retries c; window_size := window_size c;
  loss_probability := loss_probability c; seed := seed c; config_session_id := sid; remote_name := remote_name c |}.

(** One [--name=value]; [None] where [parse_options] returns false. *)
Definition parse_option (name value : list byte) (o : Options) : option Options :=
  if bool_decide (name = str "--quiet") then Some (set_quiet o)
  else if bool_decide (name = str "--simulate-loss") then
    match parse_double value with
    | Some probability => if outside_unit probability then None else Some (set_sender (with_loss probability (sender o)) o)
    | None => None
    end
  else if bool_decide (name = str "--seed") then
    match parse_unsigned value with Some n => Some (set_sender (with_seed n (sender o)) o) | None => None end
  else if bool_decide (name = str "--rto-ms") then
    match parse_unsigned value with
    | Some ms => if ms =? 0 then None else Some (set_sender (with_rto (to_milliseconds ms) (sender o)) o)
    | None => None
    end
  else if bool_decide (name = str "--window") then
    match parse_unsigned value with
    | Some window =>
        if (window =? 0) || (window >? kDefaultReceiverWindowSize) then None
        else Some (set_sender (with_window (u32 window) (sender o)) o)
    | None => None
    end
  else if bool_decide (name = str "--name") then Some (set_sender (with_name value (sender o)) o)
  else if bool_decide (name = str "--chunk") then
    match parse_unsigned value with
    | Some size =>
        if (size =? 0) || (size >? Packet.kMaxPayloadSize) then None
        else Some (set_sender (with_chunk size (sender o)) o)
    | None => None
    end
  else None.

(** The loop over [argv], with the number of positional arguments so far. *)
Fixpoint parse_arguments (argv : list (list byte)) (positional : Z) (o : Options) : option (Options * Z) :=
  match argv with
  | [] => Some (o, positional)
  | arg :: argv =>
      if is_option arg then
        let '(name, value) := split_option arg in
        match parse_option name value o with
        | Some o => parse_arguments argv positional o
        | None => None
        end
      else if positional =? 0 then parse_arguments argv 1 (set_host arg o)
      else if positional =? 1 then
        match parse_port arg with
        | Some n => parse_arguments argv 2 (set_port n o)
        | None => None
        end
      else if positional =? 2 then parse_arguments argv 3 (set_file arg o)
      else None
  end.

Definition parse_options (argv : list (list byte)) : option Options :=
  match parse_arguments argv 0 default_options with
  | Some (o, positional) => if positional <? 3 then None else Some o
  | None => None
  end.

(** The name to advertise when none was given. *)
Definition advertised (o : Options) : list byte :=
  if bool_decide (remote_name (sender o) = []) then
    match find_last slash (file o) with
    | None => file o
    | Some i => drop (i + 1) (file o)
    end
  else remote_name (sender o).

Section Main.
Context {W : Type} `{OS : !Posix W} `{NET : !Network W} `{ST : !Startup W}.
Context {Q : Type} `{PQ : !PriorityQueue Entry entry_less Q}.

(** [do ... while (session_id == 0)]; [None] while it draws zeros. *)
Fixpoint draw_session (fuel : nat) (rng : Mt19937) : option Z :=
  match fuel with
  | O => None
  | S fuel =>
      let '(rng, sid) := mt_next rng in
      if sid =? 0 then draw_session fuel rng else Some sid
  end.

(** What [send_file] is called with. *)
Definition configure (fuel : nat) (o : Options) (w : W) : W * option Options :=
  let '(w, o) := if seed (sender o) =? 0
                 then let '(w, n) := sys_random_device w in (w, set_sender (with_seed n (sender o)) o)
                 else (w, o) in
  let '(w, sid) := if config_session_id (sender o) =? 0
                   then let '(w, n) := sys_random_device w in (w, draw_session fuel (mt_seed n))
                   else (w, Some (config_session_id (sender o))) in
  match sid with
  | None => (w, None)
  | Some sid => (w, Some (set_sender (with_name (advertised o) (with_session sid (sender o))) o))
  end.

(** The exit code; [None] while it runs. *)
Definition main (fuel : nat) (argv : list (list byte)) (w : W) : W * option Z :=
  match parse_options argv with
  | None => (w, Some 2)
  | Some o =>
      match configure fuel o w with
      | (w, None) => (w, None)
      | (w, Some o) =>
          let '(w, socket, opened) := socket_open closed_socket w in
          if negb opened then ((socket_close socket w).1, Some 1)
          else
            let destination := {| Net.address := host o; Net.port := port o |} in
            match send_file (Q:=Q) socket destination (sender o) fuel (file o) w default_stats with
            | (w, _, None) => (w, None)
            | (w, _, Some error) =>
                ((socket_close socket w).1, Some (if bool_decide (error = Transfer.kNone) then 0 else 1))
            end
      end
  end.
End Main.

(** *** What is accepted *)

(** The bounds every accepted command line meets, no narrower than the code's checks:
    the count for [--rto-ms] is only compared with zero before it is cast, so that
    2^63 and more become negative, and NaN is neither below 0 nor above 1. *)
Record acceptable (o : Options) : Prop := {
  acc_port : 1 <= port o <= 65535;
  acc_chunk : 1 <= chunk_size (sender o) <= Packet.kMaxPayloadSize;
  acc_window : 1 <= window_size (sender o) <= kDefaultReceiverWindowSize;
  acc_rto : - 2 ^ 63 <= rto (sender o) < 2 ^ 63 /\ rto (sender o) <> 0;
  acc_retries : max_retries (sender o) = kMaxRetriesPerChunk;
  acc_loss : loss_probability (sender o) = S754_nan \/
    (SFleb dzero (loss_probability (sender o)) = true /\ SFleb (loss_probability (sender o)) (dint 1) = true);
  acc_seed : fits 64 (seed (sender o));
  acc_session : config_session_id (sender o) = 0
}.

Lemma default_acceptable : acceptable default_options.
Proof. split; vm_compute; intuition congruence. Qed.

Lemma to_milliseconds_range n : 0 <= n < 2 ^ 64 -> n <> 0 -> - 2 ^ 63 <= to_milliseconds n < 2 ^ 63 /\ to_milliseconds n <> 0.
Proof. intros Hn Hz. unfold to_milliseconds, s64. rewrite wrap_small by done. destruct (_ <? _) eqn:E; bool_to_prop; lia. Qed.

Lemma parse_option_acceptable name value o o' :
  acceptable o -> parse_option name value o = Some o' -> acceptable o'.
Proof.
  intros []. unfold parse_option. repeat case_bool_decide; try done.
  - intros [= <-]. by split.
  - destruct (parse_double value) as [x|]; [|done]. destruct (outside_unit x) eqn:Hx; [done|].
    intros [= <-]. apply outside_unit_spec in Hx. by split.
  - destruct (parse_unsigned value) as [n|] eqn:Hn; [|done]. intros [= <-]. apply parse_unsigned_range in Hn. by split.
  - destruct (parse_unsigned value) as [n|] eqn:Hn; [|done]. apply parse_unsigned_range in Hn.
    destruct (n =? 0) eqn:Hz; [done|]. bool_to_prop. intros [= <-]. split; try done. by apply to_milliseconds_range.
  - destruct (parse_unsigned value) as [n|] eqn:Hn; [|done]. apply parse_unsigned_range in Hn. rewrite Z.gtb_ltb.
    destruct (_ || _) eqn:Hz; [done|]. bool_to_prop. intros [= <-]. split; try done.
    unfold kDefaultReceiverWindowSize in *. simpl. rewrite wrap_small by (unfold fits; lia). lia.
  - intros [= <-]. by split.
  - destruct (parse_unsigned value) as [n|] eqn:Hn; [|done]. apply parse_unsigned_range in Hn. rewrite Z.gtb_ltb.
    destruct (_ || _) eqn:Hz; [done|]. bool_to_prop. intros [= <-]. split; try done. simpl. lia.
Qed.

Lemma parse_arguments_acceptable argv positional o o' n :
  acceptable o -> parse_arguments argv positional o = Some (o', n) -> acceptable o'.
Proof.
  revert positional o. induction argv as [|arg argv IH]; intros positional o Ho; simpl; [by intros [= <- <-]|].
  destruct (is_option arg).
  { destruct (split_option arg) as [name value]. destruct (parse_option name value o) as [o1|] eqn:Hp; [|done].
    apply IH. by eapply parse_option_acceptable. }
  destruct (positional =? 0); [apply IH; destruct Ho; by split|].
  destruct (positional =? 1).
  { unfold parse_port. destruct (parse_unsigned arg) as [p|] eqn:Hp; [|done]. apply parse_unsigned_range in Hp.
    rewrite Z.gtb_ltb. destruct (_ || _) eqn:Hz; [done|]. bool_to_prop. apply IH. destruct Ho. split; try done. simpl. lia. }
  destruct (positional =? 2); [apply IH; destruct Ho; by split|done].
Qed.

Section Configured.
Context {W : Type} `{ST : !Startup W}.

Lemma draw_session_spec fuel rng sid : mt_wf rng -> draw_session fuel rng = Some sid -> fits 64 sid /\ sid <> 0.
Proof.
  revert rng. induction fuel as [|fuel IH]; intros rng Hrng; cbn [draw_session]; [done|].
  destruct (mt_next_wf rng Hrng) as [Hnext Hfits]. destruct (mt_next rng) as [rng' n]. cbn [fst snd] in *.
  destruct (n =? 0) eqn:Hz; [by apply IH|]. bool_to_prop. by intros [= <-].
Qed.

Lemma draw_session_returns k fuel rng : (k < fuel)%nat -> (mt_next (mt_discard k rng)).2 <> 0 ->
  is_Some (draw_session fuel rng).
Proof.
  revert fuel rng. induction k as [|k IH]; intros [|fuel] rng Hk Hn; try lia; cbn [draw_session mt_discard] in *;
    destruct (mt_next rng) as [rng' n] eqn:He; destruct (n =? 0) eqn:Hz; bool_to_prop; try done.
  by apply IH; [lia|].
Qed.

(** 312 draws are enough. *)
Lemma draw_session_total fuel n : (312 <= fuel)%nat ->
  exists sid, draw_session fuel (mt_seed n) = Some sid /\ fits 64 sid /\ sid <> 0.
Proof.
  intros Hf. destruct (mt_seed_draws n) as (k & Hk & Hn).
  destruct (draw_session_returns k fuel (mt_seed n)) as [sid Hs]; [lia|done|].
  exists sid. split; [done|]. by eapply draw_session_spec; [apply mt_seed_wf|].
Qed.

(** C27: every command line the client accepts configures a transfer the sender's
    theorems apply to, and the configuring ends: one of the first 312 words of a
    seeded generator is a session id.  The port is one of 1 to 65535, the chunk size
    one of 1 to the largest payload, the window one of 1 to the receiver's; the
    timeout is not zero (a count of 2^63 or more becomes negative) and the loss
    probability not below 0 nor above 1 (so that NaN passes).  For a file of less than
    2^63 bytes and 2^32 chunks, and an advertised name that fits a packet, what
    [send_file] is then called with has a session id that is not zero and is
    [sendable]. *)
Theorem accepted_options_sendable fuel argv (w : W) o F :
  (312 <= fuel)%nat -> parse_options argv = Some o ->
  Z.of_nat (length F) < 2 ^ 63 ->
  Z.of_nat (chunk_total F (Z.to_nat (chunk_size (sender o)))) < 2 ^ 32 ->
  Z.of_nat (length (advertised o)) <= Packet.kMaxPayloadSize ->
  exists w' o', configure fuel o w = (w', Some o') /\
    acceptable o /\ config_session_id (sender o') <> 0 /\ remote_name (sender o') = advertised o /\
    sendable (sender o') F.
Proof.
  intros Hfuel Hp Hsize Htotal Hname. assert (acceptable o) as Ho.
  { revert Hp. unfold parse_options. destruct (parse_arguments _ _ _) as [[o1 n]|] eqn:He; [|done].
    destruct (n <? 3); [done|]. intros [= <-]. by eapply parse_arguments_acceptable; [apply default_acceptable|]. }
  unfold configure. set (wo := if seed (sender o) =? 0 then _ else _).
  assert (exists w1 n, wo = (w1, set_sender (with_seed n (sender o)) o)) as (w1 & n & ->).
  { subst wo. destruct (seed _ =? 0); [destruct (sys_random_device w) as [w1 n]; by exists w1, n|].
    exists w, (seed (sender o)). by destruct o as [? ? ? []]. }
  simpl. pose proof Ho as []. rewrite acc_session0. simpl. destruct (sys_random_device w1) as [w2 k].
  destruct (draw_session_total fuel k Hfuel) as (sid & -> & Hf & Hz).
  change (advertised (set_sender (with_seed n (sender o)) o)) with (advertised o).
  eexists _, _. split; [done|]. simpl. split_and!; [done..|].
  unfold kDefaultReceiverWindowSize in *. split; simpl; try done; lia.
Qed.
End Configured.

(** A run is reproduced by its seed: what is printed for it, given back as an
    option, is that seed. *)
Lemma parse_arguments_app a b positional o o' n :
  parse_arguments a positional o = Some (o', n) ->
  parse_arguments (a ++ b) positional o = parse_arguments b n o'.
Proof.
  revert positional o. induction a as [|arg a IH]; intros positional o; simpl; [by intros [= <- <-]|].
  destruct (is_option arg).
  { destruct (split_option arg) as [name value]. destruct (parse_option name value o); [apply IH|done]. }
  destruct (positional =? 0); [apply IH|]. destruct (positional =? 1); [destruct (parse_port arg); [apply IH|done]|].
  destruct (positional =? 2); [apply IH|done].
Qed.

(** C28: the seed a run prints reproduces it.  Adding [--seed=] and the printed
    number to an accepted command line gives the same options with that seed. *)
Theorem printed_seed_is_read_back argv o n :
  parse_options argv = Some o -> fits 64 n ->
  parse_options (argv ++ [str "--seed=" ++ format_unsigned n]) = Some (set_sender (with_seed n (sender o)) o).
Proof.
  unfold parse_options. intros Hp Hn. destruct (parse_arguments argv 0 default_options) as [[o1 k]|] eqn:He; [|done].
  rewrite (parse_arguments_app _ _ _ _ _ _ He). cbn [parse_arguments].
  change (is_option (str "--seed=" ++ format_unsigned n)) with true. cbv iota.
  change (split_option (str "--seed=" ++ format_unsigned n)) with (str "--seed", format_unsigned n). cbv iota beta.
  unfold parse_option. rewrite !bool_decide_false by done. rewrite bool_decide_true by done.
  rewrite parse_format by done. destruct (k <? 3); [done|]. by injection Hp as ->.
Qed.
End Client.

(** ** The server's command line *)

Module Daemon.

Definition with_idle (ms : Z) (c : ServerConfig) : ServerConfig := {|
  server_port := server_port c; server_directory := server_directory c; session_idle_timeout := ms;
  sweep_interval := sweep_interval c; session_linger := session_linger c; max_sessions := max_sessions c;
  server_window_size := server_window_size c |}.
Definition with_sweep (ms : Z) (c : ServerConfig) : ServerConfig := {|
  server_port := server_port c; server_directory := server_directory c;
  session_idle_timeout := session_idle_timeout c; sweep_interval := ms; session_linger := session_linger c;
  max_sessions := max_sessions c; server_window_size := server_window_size c |}.
Definition with_linger (ms : Z) (c : ServerConfig) : ServerConfig := {|
  server_port := server_port c; server_directory := server_directory c;
  session_idle_timeout := session_idle_timeout c; sweep_interval := sweep_interval c; session_linger := ms;
  max_sessions := max_sessions c; server_window_size := server_window_size c |}.
Definition with_sessions (n : Z) (c : ServerConfig) : ServerConfig := {|
  server_port := server_port c; server_directory := server_directory c;
  session_idle_timeout := session_idle_timeout c; sweep_interval := sweep_interval c;
  session_linger := session_linger c; max_sessions := n; server_window_size := server_window_size c |}.
Definition with_server_window (n : Z) (c : ServerConfig) : ServerConfig := {|
  server_port := server_port c; server_directory := server_directory c;
  session_idle_timeout := session_idle_timeout c; sweep_interval := sweep_interval c;
  session_linger := session_linger c; max_sessions := max_sessions c; server_window_size := n |}.
Definition with_port (n : Z) (c : ServerConfig) : ServerConfig := {|
  server_port := n; server_directory := server_directory c; session_idle_timeout := session_idle_timeout c;
  sweep_interval := sweep_interval c; session_linger := session_linger c; max_sessions := max_sessions c;
  server_window_size := server_window_size c |}.
Definition with_directory (d : path) (c : ServerConfig) : ServerConfig := {|
  server_port := server_port c; server_directory := d; session_idle_timeout := session_idle_timeout c;
  sweep_interval := sweep_interval c; session_linger := session_linger c; max_sessions := max_sessions c;
  server_window_size := server_window_size c |}.

(** [!parse_unsigned(value, number) || number == 0] *)
Definition parse_positive (value : list byte) : option Z :=
  match parse_unsigned value with
  | Some n => if n =? 0 then None else Some n
  | None => None
  end.

(** [--quiet] only silences the log, which is left out. *)
Definition server_option (name value : list byte) (c : ServerConfig) : option ServerConfig :=
  if bool_decide (name = str "--quiet") then Some c
  else if bool_decide (name = str "--idle-ms") then
    match parse_positive value with Some n => Some (with_idle (to_milliseconds n) c) | None => None end
  else if bool_decide (name = str "--sweep-ms") then
    match parse_positive value with Some n => Some (with_sweep (to_milliseconds n) c) | None => None end
  else if bool_decide (name = str "--linger-ms") then
    match parse_unsigned value with Some n => Some (with_linger (to_milliseconds n) c) | None => None end
  else if bool_decide (name = str "--max-sessions") then
    match parse_positive value with Some n => Some (with_sessions n c) | None => None end
  else if bool_decide (name = str "--window") then
    match parse_positive value with Some n => Some (with_server_window (u32 n) c) | None => None end
  else None.

Fixpoint server_arguments (argv : list (list byte)) (positional : Z) (c : ServerConfig) : option (ServerConfig * Z) :=
  match argv with
  | [] => Some (c, positional)
  | arg :: argv =>
      if is_option arg then
        let '(name, value) := split_option arg in
        match server_option name value c with
        | Some c => server_arguments argv positional c
        | None => None
        end
      else if positional =? 0 then
        match parse_port arg with
        | Some n => server_arguments argv 1 (with_port n c)
        | None => None
        end
      else if positional =? 1 then server_arguments argv 2 (with_directory arg c)
      else None
  end.

Definition server_options (argv : list (list byte)) : option ServerConfig :=
  match server_arguments argv 0 default_server_config with
  | Some (c, positional) => if positional <? 2 then None else Some c
  | None => None
  end.

(** The exit code; [None] while it runs. *)
Definition server_main `{OS : Posix W} `{NET : !Network W} `{EP : !Epoll W} `{ST : !Startup W}
    (fuel : nat) (argv : list (list byte)) (w : W) : W * option Z :=
  match server_options argv with
  | None => (w, Some 2)
  | Some config =>
      let '(w, made) := sys_mkdir (server_directory config) w in
      if match made with Some e => negb (e =? EEXIST) | None => false end then (w, Some 1)
      else let '(w, r) := Server.run fuel config w in (w, fst <$> r)
  end.

(** *** What is accepted *)

Record server_acceptable (c : ServerConfig) : Prop := {
  sac_port : 1 <= server_port c <= 65535;
  sac_idle : - 2 ^ 63 <= session_idle_timeout c < 2 ^ 63 /\ session_idle_timeout c <> 0;
  sac_sweep : - 2 ^ 63 <= sweep_interval c < 2 ^ 63 /\ sweep_interval c <> 0;
  sac_linger : - 2 ^ 63 <= session_linger c < 2 ^ 63;
  sac_sessions : 1 <= max_sessions c < 2 ^ 64;
  sac_window : fits 32 (server_window_size c)
}.

Lemma parse_positive_range value n : parse_positive value = Some n -> 1 <= n < 2 ^ 64.
Proof.
  unfold parse_positive. destruct (parse_unsigned value) as [m|] eqn:Hm; [|done]. apply parse_unsigned_range in Hm.
  destruct (m =? 0) eqn:Hz; [done|]. bool_to_prop. intros [= <-]. lia.
Qed.

Lemma server_option_acceptable name value c c' :
  server_acceptable c -> server_option name value c = Some c' -> server_acceptable c'.
Proof.
  intros []. unfold server_option. repeat case_bool_decide; try done; [by intros [= <-]| | | | |].
  3: destruct (parse_unsigned value) as [n|] eqn:Hn; [|done]; apply parse_unsigned_range in Hn.
  all: try (destruct (parse_positive value) as [n|] eqn:Hn; [|done]; apply parse_positive_range in Hn).
  all: intros [= <-]; split; try done.
  1, 2: apply Client.to_milliseconds_range; lia.
  - simpl. unfold to_milliseconds, s64. rewrite wrap_small by done. destruct (_ <? _) eqn:E; bool_to_prop; lia.
  - apply wrap_fits. lia.
Qed.

Lemma server_options_acceptable argv c : server_options argv = Some c -> server_acceptable c.
Proof.
  unfold server_options. assert (server_acceptable default_server_config) as H0 by (by split).
  revert H0. generalize default_server_config as c0. generalize 0 at 1.
  induction argv as [|arg argv IH]; intros n c0 H0; simpl; [by destruct (n <? 2); intros; simplify_eq|].
  destruct (is_option arg).
  { destruct (split_option arg) as [name value]. destruct (server_option name value c0) as [c1|] eqn:Hp; [|done].
    apply IH. by eapply server_option_acceptable. }
  destruct (n =? 0).
  { unfold parse_port. destruct (parse_unsigned arg) as [p|] eqn:Hp; [|done]. apply parse_unsigned_range in Hp.
    rewrite Z.gtb_ltb. destruct (_ || _) eqn:Hz; [done|]. bool_to_prop. apply IH. destruct H0. split; try done. simpl. lia. }
  destruct (n =? 1); [apply IH; destruct H0; by split|done].
Qed.

(** A window of 2^32 is accepted as 0, and a timeout of 2^63 ms as a negative one. *)
Lemma large_values_wrap :
  server_window_size <$> server_options [str "9000"; str "out"; str "--window=4294967296"] = Some 0 /\
  session_idle_timeout <$> server_options [str "9000"; str "out"; str "--idle-ms=9223372036854775808"] = Some (- 2 ^ 63) /\
  max_sessions <$> server_options [str "9000"; str "out"; str "--max-sessions=9223372036854775808"] = Some (2 ^ 63) /\
  u64 (2 ^ 63 * 2) = 0.
Proof. by split_and!; vm_compute. Qed.
End Daemon.

(** ** A command line that is accepted *)

Definition demo_argv : list (list byte) :=
  map str ["127.0.0.1"; "--chunk=2"; "8080"; "in/file.bin"; "--window=2"; "--simulate-loss=5e-2"; "--seed=7"]%string.

Example demo_options :
  (fun o => (Client.port o, loss_probability (Client.sender o), seed (Client.sender o), Client.advertised o)) <$> Client.parse_options demo_argv
  = Some (8080, ddiv (dint 5) (dint 100), 7, str "file.bin").
Proof. by vm_compute. Qed.

(** A system that draws the numbers of a counter. *)
#[local] Instance counting_startup : Startup Z := {|
  sys_random_device n := (n + 1, n); sys_mkdir _ n := (n, None) |}.

Definition demo_client : Client.Options := default Client.default_options (Client.parse_options demo_argv).
Example demo_session :
  (fun o => config_session_id (Client.sender o)) <$> (Client.configure 3 demo_client 5489).2 = Some 14514284786278117030.
Proof. by vm_compute. Qed.

Lemma accepted_options_sendable_witness :
  Client.parse_options demo_argv = Some demo_client /\
  exists w o', Client.configure 312 demo_client 5489 = (w, Some o') /\
    config_session_id (Client.sender o') <> 0 /\ sendable (Client.sender o') (str "hello").
Proof.
  assert (Client.parse_options demo_argv = Some demo_client) as Hp by (vm_compute; reflexivity).
  split; [exact Hp|].
  destruct (Client.accepted_options_sendable 312 demo_argv 5489 demo_client (str "hello"))
    as (w & o' & Hc & _ & Hs & _ & Hsend); [lia|exact Hp|vm_compute; reflexivity..|vm_compute; discriminate|].
  exists w, o'. split; [exact Hc|]. split; [exact Hs|exact Hsend].
Defined.

Lemma printed_seed_is_read_back_witness :
  Client.parse_options demo_argv = Some demo_client /\
  Client.parse_options (demo_argv ++ [str "--seed=" ++ format_unsigned 18446744073709551615])
  = Some (Client.set_sender (Client.with_seed 18446744073709551615 (Client.sender demo_client)) demo_client).
Proof.
  assert (Client.parse_options demo_argv = Some demo_client) as Hp by (vm_compute; reflexivity).
  split; [exact Hp|]. apply Client.printed_seed_is_read_back; [exact Hp|split; [discriminate|reflexivity]].
Defined.
