(* ===== verification/SenderTerm.v ===== *)
(** * The sender comes to an end

    [send_file] of Sender.v returns, whatever arrives: as long as every receive
    takes some time, each turn of its loops either brings a deadline closer or uses
    up one of the transmissions [max_retries] leaves.  The measure is the number of
    transmissions still allowed, times the ticks of a retransmission timeout. *)

From S2P Require Import Prelude Words Packet Wire Sha256 Transfer PriorityQueue SenderWindow FileIO Net Monad ReceiverSession Delivery Sender.
Import Packet.Packet.
Open Scope Z_scope.

Abbreviation triple := (Monad.triple (S:=Locals) any).

(** The steady clock: it never runs backwards, and a receive takes at least a
    [tick]. *)
Class ClockLaws (W : Type) `{OS : !Posix W} `{NET : !Network W} := {
  clock : W -> Z;
  tick : Z;
  tick_positive : 0 < tick;
  law_clock_now w : let '(w', t) := sys_now w in clock w <= t <= clock w';
  law_clock_recvfrom fd n w : clock w + tick <= clock (sys_recvfrom fd n w).1;
  law_clock_sendto fd bytes a w : clock w <= clock (sys_sendto fd bytes a w).1;
  law_clock_timeo fd sec usec w : clock w <= clock (sys_set_rcvtimeo fd sec usec w).1;
  law_clock_open p mode w : clock w <= clock (sys_open p mode w).1;
  law_clock_fstat fd w : clock w <= clock (sys_fstat_size fd w).1;
  law_clock_pread fd n off w : clock w <= clock (sys_pread fd n off w).1
}.

Section Clock.
Context {W : Type} `{CL : ClockLaws W}.
Implicit Types (w : W).

Lemma read_at_clock f want off w : clock w <= clock (read_at f want off w).1.
Proof.
  unfold read_at. destruct (valid f); [|simpl; lia]. generalize (S (want + interruptions w)) as fuel. simpl.
  intros fuel. generalize (@nil byte) as got. revert want w. induction fuel as [|fuel IH]; intros want w got; cbn [read_loop]; [simpl; lia|].
  destruct (want =? 0)%nat; [simpl; lia|].
  pose proof (law_clock_pread (fd_ f) want (s64 (off + Z.of_nat (length got))) w) as Hr.
  destruct (sys_pread _ _ _ w) as [w1 [[|b bs]|e]]; simpl in Hr; [done| |].
  - etrans; [exact Hr|apply IH].
  - destruct (e =? EINTR); [|done]. etrans; [exact Hr|apply IH].
Qed.

Lemma hash_back_clock fuel f size off hasher w : clock w <= clock (hash_back fuel f size off hasher w).1.
Proof.
  revert off hasher w. induction fuel as [|fuel IH]; intros off hasher w; cbn [hash_back]; [simpl; lia|].
  destruct (negb (off <? size)); [simpl; lia|]. set (want := if _ <? _ then _ else _).
  pose proof (read_at_clock f (Z.to_nat want) off w) as Hr.
  destruct (read_at f _ off w) as [w1 [bs|e]]; simpl in Hr; [|done].
  destruct (negb _); [done|]. etrans; [exact Hr|apply IH].
Qed.

Lemma hash_file_clock f size w : clock w <= clock (hash_file f size w).1.
Proof.
  unfold hash_file. pose proof (hash_back_clock (hash_fuel size) f size 0 new_hasher w) as Hh.
  by destruct (hash_back _ _ _ _ _ w) as [w1 [h|]].
Qed.

Lemma send_to_clock sock bytes e w : clock w <= clock (send_to sock bytes e w).1.
Proof. unfold send_to. destruct (negb _); [simpl; lia|]. destruct (to_sockaddr e); [apply law_clock_sendto|simpl; lia]. Qed.

Lemma timeout_clock sock t w : clock w <= clock (set_receive_timeout sock t w).1.
Proof. unfold set_receive_timeout. destruct (negb _); [simpl; lia|]. destruct (timeval_of t). apply law_clock_timeo. Qed.

(** A receive on a socket takes a tick; on a closed one it fails at once. *)
Lemma recv_from_clock sock n w :
  let '(w', r) := recv_from sock n w in clock w + tick <= clock w' \/ (clock w <= clock w' /\ r = inr EBADF).
Proof.
  unfold recv_from. destruct (negb _); simpl; [right; split; [lia|done]|].
  pose proof (law_clock_recvfrom (sock_fd sock) n w) as Hr. destruct (sys_recvfrom (sock_fd sock) n w) as [w' r].
  simpl in Hr. destruct r as [[b a]|e]; by left.
Qed.
End Clock.

(** ** Not before [c] *)

Section Waiting.
Context {W : Type} `{CL : ClockLaws W}.
Context {Q : Type} `{PQL : PriorityQueueLaws Entry entry_less Q}.
Context (sock : UdpSocket) (destination : Endpoint) (config : SenderConfig).
Implicit Types (w : W).

Definition since (c : Z) w : Prop := c <= clock w.

(** [m] gives an answer. *)
Abbreviation ends P m Q := (triple P m Q (fun _ _ => True) (fun _ => False)).

Lemma ends_sys {A} (g : W -> W * A) c : (forall w, clock w <= clock (g w).1) -> ends (since c) (sys g) (fun _ => since c).
Proof. intros Hg. apply triple_sys. intros w Hw. specialize (Hg w). destruct (g w). simpl in Hg. unfold since in *. lia. Qed.

Lemma ends_now c : ends (since c) (sys sys_now) (fun t w => c <= t /\ since t w).
Proof.
  apply triple_sys. intros w Hw. pose proof (law_clock_now w) as Ht. destruct (sys_now w) as [w' t]. unfold since in *. lia.
Qed.

Lemma ends_recv c n :
  ends (since c) (sys (recv_from sock n)) (fun r w => since c w /\ (r = inr EBADF \/ since (c + tick) w)).
Proof.
  apply triple_sys. intros w Hw. pose proof (recv_from_clock sock n w) as Hr. destruct (recv_from sock n w) as [w' r].
  pose proof tick_positive. unfold since in *. destruct Hr as [?|[? ?]]; (split; [lia|]); [right; lia|by left].
Qed.

Lemma ends_send c bytes : ends (since c) (send_packet sock destination bytes) (fun _ => since c).
Proof.
  unfold send_packet. apply triple_counting, triple_locally. intros drop.
  destruct drop; [apply triple_counting; by apply triple_ret|].
  apply (triple_bind _ _ _ (fun _ => since c)); [|by intros; apply triple_ret].
  apply ends_sys. intros w. apply send_to_clock.
Qed.

(** The ticks of a retransmission timeout. *)
Definition rto_turns : nat := S (Z.to_nat (rto_ticks config / tick)).

Lemma rto_turns_spec : rto_ticks config <= Z.of_nat rto_turns * tick.
Proof.
  unfold rto_turns. pose proof tick_positive. pose proof (Z.mul_succ_div_gt (rto_ticks config) tick tick_positive).
  set (q := rto_ticks config / tick) in *. pose proof (Z.mul_le_mono_nonneg_r (Z.succ q) (Z.of_nat (S (Z.to_nat q))) tick).
  lia.
Qed.

Lemma ends_await reply ack deadline fuel c j :
  deadline <= c + Z.of_nat j * tick -> (j < fuel)%nat ->
  ends (since c) (await_reply sock config fuel reply ack deadline) (fun _ => since c).
Proof.
  revert c j. induction fuel as [|fuel IH]; intros c j Hd Hj; [lia|]. cbn [await_reply].
  eapply triple_bind; [apply ends_now|]. intros now. cbv beta. apply triple_prop. intros Hc.
  assert (forall w, since now w -> since c w) as Hback by (unfold since; lia).
  assert (forall g (o : option TransferError), ends (since now) (seq_bind (count g) (fun _ => ret o)) (fun _ => since c)) as Hcount.
  { intros g o. apply triple_counting, triple_ret. auto. }
  destruct (deadline - now <=? 0) eqn:Hw; [apply Hcount|]. bool_to_prop. pose proof tick_positive.
  apply (triple_bind _ _ _ (fun _ => since now)); [apply ends_sys; intros w; apply timeout_clock|]. intros armed.
  destruct armed; simpl; [|apply triple_ret; auto].
  eapply triple_bind; [apply ends_recv|]. intros r. cbv beta.
  assert (ends (since (now + tick)) (await_reply sock config fuel reply ack deadline) (fun _ => since c)) as Hagain.
  { destruct j as [|j]; [simpl in Hd; lia|].
    apply (triple_post _ _ (fun _ => since (c + tick))); [|unfold since; lia].
    eapply triple_pre; [apply (IH (c + tick) j); lia|unfold since; lia]. }
  assert (forall w, since (now + tick) w -> since c w) as Hback' by (unfold since; lia).
  destruct r as [[bytes from]|e].
  - apply (triple_pre _ (since (now + tick))); [|by intros w [_ [?|?]]]. apply triple_counting.
    destruct (negb (ok _)); [apply Hagain|]. destruct (bool_decide (packet_type _ = kError)).
    { apply triple_counting, triple_ret. auto. }
    destruct (negb _); [apply Hagain|]. destruct (_ && _); [apply triple_ret; auto|apply Hagain].
  - destruct (decide (e = EBADF)) as [->|He]; [apply triple_ret; intros w [? _]; auto|].
    apply (triple_pre _ (since (now + tick))); [|intros w [_ [[=]|?]]; done].
    destruct (_ || _); [apply triple_counting, triple_ret; auto|].
    destruct (e =? EINTR); [apply Hagain|apply triple_ret; auto].
Qed.

Lemma ends_control bytes reply ack fuel c :
  (rto_turns < fuel)%nat ->
  ends (since c) (exchange_control sock destination config fuel bytes reply ack) (fun _ => since c).
Proof.
  intros Hf. unfold exchange_control. generalize true as first.
  induction (Z.to_nat (max_retries config + 1)) as [|tries IH]; intros first; cbn [control_attempts]; [by apply triple_ret|].
  apply (triple_bind _ _ _ (fun _ => since c)); [destruct first; [by apply triple_ret|by apply triple_count]|].
  intros _. apply (triple_bind _ _ _ (fun _ => since c)); [apply ends_send|]. intros sent.
  destruct sent; simpl; [|by apply triple_ret].
  eapply triple_bind; [apply ends_now|]. intros now. cbv beta. apply triple_prop. intros Hc.
  eapply triple_bind; [apply (ends_await _ _ _ fuel now rto_turns); [pose proof rto_turns_spec; lia|done]|].
  intros [e|]; [apply triple_ret; unfold since; lia|]. eapply triple_pre; [apply IH|unfold since; lia].
Qed.

(** *** What is left to send *)

Context (total : Z) (Htotal : 0 <= total < 2 ^ 32) (Hwindow : 0 <= window_size config < 2 ^ 32).

Abbreviation cap := (if window_size config =? 0 then 1 else window_size config).

(** The transmissions a packet may take. *)
Definition allowed : Z := Z.max 1 (max_retries config).

Definition slot (ring : list InFlight) (k : Z) : InFlight := nth (Z.to_nat (k mod cap)) ring no_packet.

(** The transmissions packet [k] may still take, one more for the acknowledgement
    it has not had. *)
Definition weight (a : Window) (ring : list InFlight) (k : Z) : nat :=
  if upcoming a <=? k then S (Z.to_nat allowed)
  else if decide (k ∈ unacked a) then S (Z.to_nat (allowed - attempts (slot ring k))) else 0.

Definition left_over (a : Window) (ring : list InFlight) : nat := sum_list_with (weight a ring) (seqZ 0 total).

(** Packets were sent at most [allowed] times, and none waits longer than a
    timeout from [c]. *)
Record bounded (n : Z) (window : SenderWindow Q) (ring : list InFlight) (a : Window) (c : Z) : Prop := {
  bnd_window : refines n window a;
  bnd_span : span a = cap;
  bnd_ring : length ring = Z.to_nat cap;
  bnd_total : upcoming a <= total;
  bnd_attempts k : k ∈ unacked a -> 1 <= attempts (slot ring k) <= allowed;
  bnd_armed k d : armed a !! k = Some d -> d <= c + rto_ticks config
}.

(** If there are timers, one fires within [j] ticks of [c]. *)
Definition soon (j : nat) (a : Window) (c : Z) : Prop :=
  armed a = ∅ \/ exists k d, armed a !! k = Some d /\ d <= c + Z.of_nat j * tick.

(** From one state of the loop to the next: nothing but the clock has changed, or
    there is less left to send. *)
Definition moves (a : Window) (ring : list InFlight) (a' : Window) (ring' : list InFlight) : Prop :=
  (a' = a /\ ring' = ring) \/ (left_over a' ring' < left_over a ring)%nat.

Lemma bounded_later n m window ring a c c' :
  bounded n window ring a c -> n <= m -> c <= c' -> bounded m window ring a c'.
Proof.
  intros [] ? ?. split; try done; [by eapply refines_mono|]. intros k d Hk. specialize (bnd_armed0 k d Hk). lia.
Qed.

Lemma bounded_soon n window ring a c : bounded n window ring a c -> soon rto_turns a c.
Proof.
  intros []. destruct (decide (armed a = ∅)) as [|Hne]; [by left|]. right.
  destruct (map_choose _ Hne) as (k & d & Hk). exists k, d. split; [done|].
  specialize (bnd_armed0 k d Hk). pose proof rto_turns_spec. lia.
Qed.

Lemma soon_later j a c c' : soon j a c -> c <= c' -> soon j a c'.
Proof. intros [?|(k & d & ? & ?)] ?; [by left|]. right. exists k, d. split; [done|lia]. Qed.

Lemma bounded_capacity n window ring a c : bounded n window ring a c -> capacity_ window = cap /\ 1 <= cap < 2 ^ 32.
Proof.
  intros []. rewrite (ref_span _ _ _ bnd_window0), bnd_span0. split; [done|].
  destruct (window_size config =? 0) eqn:E; bool_to_prop; lia.
Qed.

(** A slot of the ring is one packet's alone within a window. *)
Lemma ring_update (window : SenderWindow Q) ring base k x y :
  capacity_ window = cap -> 1 <= cap -> length ring = Z.to_nat cap -> base <= k < base + cap -> base <= y < base + cap ->
  slot (<[in_flight_index window k := x]> ring) y = if decide (k = y) then x else slot ring y.
Proof.
  intros Hcap Hr Hlen Hk Hy. unfold slot, in_flight_index. rewrite Hcap, nth_ring by lia.
  destruct (decide (k = y)) as [->|Hne]; [by rewrite decide_True|]. rewrite decide_False; [done|].
  intros Hm. apply Hne, (mod_inj k y cap); [lia|lia|done].
Qed.

(** An outstanding packet is alone in its slot. *)
Lemma slot_update n window ring a c k x y :
  bounded n window ring a c -> base_ window <= k < base_ window + cap -> y ∈ unacked a ->
  slot (<[in_flight_index window k := x]> ring) y = if decide (k = y) then x else slot ring y.
Proof.
  intros Hb Hk Hy. destruct (bounded_capacity _ _ _ _ _ Hb) as [Hcap Hr]. destruct Hb as [[[] _] ? ? ? ? ?].
  apply ref_unacked in Hy as [Hy _]. by apply (ring_update window ring (base_ window)); lia.
Qed.

Lemma weights_same a ring a' ring' :
  (forall k, 0 <= k < total -> (weight a' ring' k <= weight a ring k)%nat) -> (left_over a' ring' <= left_over a ring)%nat.
Proof. intros Hw. apply sum_list_with_le. intros k Hk%elem_of_seqZ. apply Hw. lia. Qed.

(** One packet's weight drops and no other's grows. *)
Lemma weights_drop k a ring a' ring' :
  0 <= k < total -> (weight a' ring' k < weight a ring k)%nat ->
  (forall x, 0 <= x < total -> x <> k -> (weight a' ring' x <= weight a ring x)%nat) ->
  (left_over a' ring' < left_over a ring)%nat.
Proof.
  intros Hk Hd Hw. apply (sum_list_with_lt k); [apply elem_of_seqZ; lia|done|].
  intros x Hx%elem_of_seqZ. destruct (decide (x = k)) as [->|]; [lia|]. apply Hw; [lia|done].
Qed.

Lemma moves_trans a ring a1 ring1 a2 ring2 :
  moves a ring a1 ring1 -> moves a1 ring1 a2 ring2 -> moves a ring a2 ring2.
Proof. unfold moves. intros [[-> ->]|?] [[-> ->]|?]; auto. right. lia. Qed.

(** *** The steps *)

Lemma bounded_sent n window ring a c bytes dl :
  bounded n window ring a c -> can_send window = true -> next_sequence_ window < total -> n + 1 < 2 ^ 64 ->
  dl <= c + rto_ticks config ->
  let ring' := <[in_flight_index window (next_sequence_ window) := {| wire := bytes; attempts := 1 |}]> ring in
  bounded (n + 1) (on_sent dl window) ring' (window_sent dl a) c /\
  (left_over (window_sent dl a) ring' < left_over a ring)%nat.
Proof.
  intros Hb Hc Hn Hg Hdl ring'. destruct (bounded_capacity _ _ _ _ _ Hb) as [Hcap Hr].
  pose proof Hb as []. pose proof bnd_window0 as [Ht Hbase]. pose proof Ht as [].
  set (k := next_sequence_ window) in *.
  assert (k < base_ window + cap) as Hroom.
  { rewrite (can_send_spec _ _ _ bnd_window0) in Hc. bool_to_prop. rewrite <- Hbase in Hc. lia. }
  assert (slot ring' k = {| wire := bytes; attempts := 1 |}) as Hslot.
  { unfold ring', slot, in_flight_index. rewrite Hcap, nth_ring by lia. by rewrite decide_True. }
  assert (forall y, y ∈ unacked a -> k <> y /\ slot ring' y = slot ring y) as Hother.
  { intros y Hy. unfold ring'. rewrite (slot_update n window ring a c) by (done || lia).
    apply ref_unacked in Hy as [? _]. rewrite decide_False by lia. split; [lia|done]. }
  split.
  - split; simpl; [|done|by unfold ring'; rewrite length_insert|lia| |].
    + apply on_sent_refines; [done|done|lia|done].
    + intros y Hy. apply elem_of_union in Hy as [Hy%elem_of_singleton|Hy].
      * rewrite Hy, <- ref_next, Hslot. simpl. unfold allowed. lia.
      * destruct (Hother y Hy) as [_ ->]. by apply bnd_attempts0.
    + intros y d. rewrite <- ref_next. intros [[_ <-]|[_ Hy]]%lookup_insert_Some; [done|by apply (bnd_armed0 y)].
  - apply (weights_drop k); [lia| |].
    + unfold weight. simpl. rewrite <- ref_next. rewrite (proj2 (Z.leb_gt _ _)), (proj2 (Z.leb_le _ _)) by lia.
      rewrite decide_True by set_solver. rewrite Hslot. simpl. unfold allowed. lia.
    + intros y Hy Hne. unfold weight. simpl. rewrite <- ref_next. fold k.
      destruct (k + 1 <=? y) eqn:E1; bool_to_prop.
      { by rewrite (proj2 (Z.leb_le _ _)) by lia. }
      rewrite (proj2 (Z.leb_gt k y)) by lia. destruct (decide (y ∈ unacked a)) as [Hu|Hu].
      * rewrite decide_True by set_solver. by destruct (Hother y Hu) as [_ ->].
      * by rewrite decide_False by set_solver.
Qed.

Lemma bounded_acked n window ring a c s :
  bounded n window ring a c -> n + 1 < 2 ^ 64 ->
  exists a', bounded (n + 1) (on_ack s window).1 ring a' c /\ moves a ring a' ring.
Proof.
  intros Hb Hg. pose proof Hb as [].
  pose proof (on_ack_refines n window a s bnd_window0 Hg) as Ha. destruct (on_ack s window) as [window' b]. simpl.
  destruct Ha as [_ Ha]. case_bool_decide as Hs.
  2:{ exists a. split; [by split|by left]. }
  exists (window_ack s a). split.
  - split; simpl; [done..| |].
    + intros k Hk. apply bnd_attempts0. set_solver.
    + intros k d [_ Hk]%lookup_delete_Some. by apply (bnd_armed0 k).
  - pose proof bnd_window0 as [Ht _]. pose proof Ht as []. apply ref_unacked in Hs as Hs'. destruct Hs' as [Hrange _].
    right. apply (weights_drop s); [lia| |].
    + unfold weight. simpl. rewrite (proj2 (Z.leb_gt _ _)) by lia.
      rewrite decide_False, decide_True by set_solver. lia.
    + intros k Hk Hne. unfold weight. simpl. destruct (_ <=? _); [done|].
      destruct (decide (k ∈ unacked a)); [by rewrite decide_True by set_solver|by rewrite decide_False by set_solver].
Qed.

Lemma bounded_resent n window ring a c k bytes dl :
  bounded n window ring a c -> k ∈ unacked a -> attempts (slot ring k) < max_retries config -> n + 1 < 2 ^ 64 ->
  dl <= c + rto_ticks config ->
  let ring' := <[in_flight_index window k := {| wire := bytes; attempts := attempts (slot ring k) + 1 |}]> ring in
  bounded (n + 1) (reschedule k dl window) ring' (window_arm k dl a) c /\
  (left_over (window_arm k dl a) ring' < left_over a ring)%nat.
Proof.
  intros Hb Hk Hm Hg Hdl ring'. pose proof Hb as []. pose proof bnd_window0 as [Ht _]. pose proof Ht as [].
  apply ref_unacked in Hk as Hk'. destruct Hk' as [Hrange _].
  destruct (bounded_capacity _ _ _ _ _ Hb) as [Hcap Hr].
  assert (forall y, y ∈ unacked a -> slot ring' y =
    if decide (k = y) then {| wire := bytes; attempts := attempts (slot ring k) + 1 |} else slot ring y) as Hslot.
  { intros y Hy. apply (slot_update n window ring a c); [done|lia|done]. }
  pose proof (bnd_attempts0 k Hk) as Hatt.
  split.
  - split; simpl; [|done|by unfold ring'; rewrite length_insert|lia| |].
    + pose proof (reschedule_refines n window a k dl bnd_window0 Hg) as Hre. by rewrite bool_decide_true in Hre.
    + intros y Hy. rewrite Hslot by done. case_decide; [subst; simpl; unfold allowed; lia|by apply bnd_attempts0].
    + intros y d [[_ <-]|[_ Hy]]%lookup_insert_Some; [done|by apply (bnd_armed0 y)].
  - apply (weights_drop k); [lia| |].
    + unfold weight. simpl. rewrite (proj2 (Z.leb_gt _ _)) by lia. rewrite !decide_True by done.
      rewrite Hslot, decide_True by done. simpl. unfold allowed in *. lia.
    + intros y Hy Hne. unfold weight. simpl. destruct (_ <=? _); [done|]. destruct (decide (y ∈ unacked a)); [|done].
      rewrite Hslot by done. by rewrite decide_False by congruence.
Qed.

(** A later state of the loop, [n] generations on. *)
Definition onward (n : Z) (a : Window) (ring : list InFlight) (c : Z) (window' : SenderWindow Q)
    (ring' : list InFlight) (x : Window * Z) : Prop :=
  bounded n window' ring' x.1 x.2 /\ c <= x.2 /\ moves a ring x.1 ring'.

Lemma ends_now_then {A} c (k : Z -> Run W Locals A) Post :
  (forall now, c <= now -> ends (since now) (k now) Post) -> ends (since c) (seq_bind (sys sys_now) k) Post.
Proof.
  intros Hk. eapply triple_bind; [apply ends_now|]. intros now. cbv beta. apply triple_prop, Hk.
Qed.

Lemma ends_fill fuel f file_size n window ring a c :
  bounded n window ring a c -> (Z.to_nat (cap - (next_sequence_ window - base_ window)) < fuel)%nat ->
  n + Z.of_nat fuel < 2 ^ 64 ->
  ends (since c) (fill sock destination config fuel f file_size total window ring)
    (fun wr w => exists x, onward (n + Z.of_nat fuel) a ring c wr.1 wr.2 x /\ since x.2 w).
Proof.
  revert n window ring a c. induction fuel as [|fuel IH]; intros n window ring a c Hb Hf Hn; [lia|]. cbn [fill].
  assert (bounded (n + Z.of_nat (S fuel)) window ring a c) as Hb' by (eapply bounded_later; [exact Hb|lia..]).
  destruct (can_send window) eqn:Hc; simpl.
  2:{ apply triple_ret. intros w Hw. exists (a, c). split; [|done]. split_and!; [done..|by left]. }
  destruct (next_sequence_ window <? total) eqn:Hlt; bool_to_prop.
  2:{ apply triple_ret. intros w Hw. exists (a, c). split; [|done]. split_and!; [done..|by left]. }
  apply (triple_bind _ _ _ (fun _ => since c)); [apply ends_sys; intros w; apply read_at_clock|].
  intros [chunk|e]; [|by apply triple_throw]. destruct (negb _); [by apply triple_throw|].
  apply (triple_bind _ _ _ (fun _ => since c)); [apply ends_send|]. intros sent.
  destruct sent; simpl; [|by apply triple_throw]. apply ends_now_then. intros now Hnow.
  assert (bounded n window ring a now) as Hb1 by (eapply bounded_later; [exact Hb|lia..]).
  destruct (bounded_sent n window ring a now
    (serialize (make_header kData (config_session_id config) (next_sequence_ window) 0
      (u64 (next_sequence_ window * chunk_size config))) chunk) (now + rto_ticks config) Hb1 Hc Hlt ltac:(lia) ltac:(lia))
    as [Hs Hless].
  destruct (bounded_capacity _ _ _ _ _ Hb) as [Hcap Hr]. pose proof Hb as []. pose proof bnd_window0 as [Ht Hbase].
  pose proof Ht as []. rewrite (can_send_spec _ _ _ bnd_window0), <- Hbase in Hc. bool_to_prop.
  eapply triple_post; [apply (IH _ _ _ _ _ Hs); [|lia]|].
  - cbn [on_sent next_sequence_ base_ set_next set_timers set_slot]. rewrite wrap_small by (unfold fits; lia). lia.
  - intros wr w (x & (Hx & Hle & Hm) & Hw). exists x. split; [|done]. split_and!; [|lia|].
    + by replace (n + Z.of_nat (S fuel)) with (n + 1 + Z.of_nat fuel) by lia.
    + eapply moves_trans; [right; exact Hless|exact Hm].
Qed.

Lemma ends_take_ack n window ring a c :
  bounded n window ring a c -> n + 1 < 2 ^ 64 ->
  ends (since c) (take_ack sock window)
    (fun window' w => exists x, onward (n + 1) a ring (c + tick) window' ring x /\ since x.2 w).
Proof.
  intros Hb Hn. unfold take_ack. pose proof tick_positive.
  eapply triple_bind; [apply ends_recv|]. intros r. cbv beta.
  assert (bounded (n + 1) window ring a (c + tick)) as Hb1 by (eapply bounded_later; [exact Hb|lia..]).
  assert (forall w, since (c + tick) w -> exists x, onward (n + 1) a ring (c + tick) window ring x /\ since x.2 w) as Hsame.
  { intros w Hw. exists (a, c + tick). split; [|done]. split_and!; [done..|by left]. }
  destruct r as [[bytes from]|e].
  - apply (triple_pre _ (since (c + tick))); [|by intros w [_ [?|?]]]. apply triple_counting. cbv zeta.
    destruct (_ && _); [|by apply triple_ret]. set (s := acknowledgement_number _).
    assert (bounded n window ring a (c + tick)) as Hb2 by (eapply bounded_later; [exact Hb|lia..]).
    destruct (bounded_acked n window ring a (c + tick) s Hb2 Hn) as (a' & Ha & Hm).
    destruct (on_ack s window) as [window' b]. simpl in Ha.
    assert (forall w, since (c + tick) w -> exists x, onward (n + 1) a ring (c + tick) window' ring x /\ since x.2 w).
    { intros w Hw. exists (a', c + tick). by split. }
    destruct b; simpl; [|apply triple_counting]; by apply triple_ret.
  - destruct (_ && _) eqn:He; [by apply triple_throw|]. apply triple_ret. intros w [_ [[= ->]|Hw]]; [|by apply Hsame].
    discriminate He.
Qed.

Lemma ends_retransmit expired n window ring a c :
  bounded n window ring a c -> Forall (fun k => k ∈ unacked a) expired -> n + Z.of_nat (length expired) < 2 ^ 64 ->
  ends (since c) (retransmit sock destination config expired window ring)
    (fun wr w => exists x, (onward (n + Z.of_nat (length expired)) a ring c wr.1 wr.2 x /\
       (left_over x.1 wr.2 + length expired <= left_over a ring)%nat) /\ since x.2 w).
Proof.
  revert n window ring a c. induction expired as [|k expired IH]; intros n window ring a c Hb Hex Hn; simpl.
  { apply triple_ret. intros w Hw. exists (a, c). rewrite Z.add_0_r. split; [|done]. simpl.
    split; [|lia]. split_and!; [done..|by left]. }
  inversion_clear Hex as [|? ? Hk Hex']. destruct (_ <=? _) eqn:Hm; [by apply triple_throw|]. bool_to_prop. simpl in Hn.
  do 2 apply triple_counting.
  apply (triple_bind _ _ _ (fun _ => since c)); [apply ends_send|]. intros sent.
  destruct sent; simpl; [|by apply triple_throw]. apply ends_now_then. intros now Hnow.
  assert (bounded n window ring a now) as Hb1 by (eapply bounded_later; [exact Hb|lia..]).
  assert (nth (in_flight_index window k) ring no_packet = slot ring k) as Hslot.
  { unfold slot, in_flight_index. by destruct (bounded_capacity _ _ _ _ _ Hb) as [-> _]. }
  rewrite Hslot in *.
  destruct (bounded_resent n window ring a now k (wire (slot ring k)) (now + rto_ticks config) Hb1 Hk Hm ltac:(lia) ltac:(lia))
    as [Hr Hless].
  eapply triple_post; [apply (IH _ _ _ _ _ Hr Hex'); lia|].
  intros wr w (x & ((Hx & Hle & Hmv) & Hleft) & Hw). exists x. split; [|done]. split; [|simpl; lia]. split_and!; [|lia|].
  - by replace (n + Z.of_nat (S (length expired))) with (n + 1 + Z.of_nat (length expired)) by lia.
  - eapply moves_trans; [right; exact Hless|exact Hmv].
Qed.
(** The turns of the main loop that are left, if the next timer fires in [j] ticks. *)
Definition turns (a : Window) (ring : list InFlight) (j : nat) : nat := left_over a ring * (rto_turns + 2) + j.

Lemma turns_drop a ring a' ring' j :
  (left_over a' ring' < left_over a ring)%nat -> (turns a' ring' rto_turns < turns a ring j)%nat.
Proof. intros Hl. unfold turns. pose proof (Nat.mul_le_mono_r (S (left_over a' ring')) (left_over a ring) (rto_turns + 2)). lia. Qed.

(** What happens to the timers in one turn in which nothing is sent or retired. *)
Lemma bounded_expired n window ring a c now :
  bounded n window ring a c -> n + cap < 2 ^ 64 ->
  let '(window', l) := expire now window in
  bounded (n + cap) window' ring (window_expired now a) c /\ Forall (fun k => k ∈ unacked a) l /\
  Z.of_nat (length l) <= cap /\ left_over (window_expired now a) ring = left_over a ring /\
  (l = [] -> forall k d, armed a !! k = Some d -> now < d /\ armed (window_expired now a) !! k = Some d).
Proof.
  intros Hb Hn. destruct (bounded_capacity _ _ _ _ _ Hb) as [Hcap Hr]. pose proof Hb as [].
  pose proof (expire_refines n window a now bnd_window0 ltac:(lia)) as He.
  destruct (expire now window) as [window' l]. destruct He as [Hd He]. rewrite Hcap in He.
  split_and!.
  - split; try done. intros k d [Hk _]%map_lookup_filter_Some. by apply (bnd_armed0 k).
  - apply Forall_forall. intros k Hk. apply Hd in Hk as (d & Hkd & _).
    exact (armed_unacked n window a k d (ref_tracks _ _ _ bnd_window0) Hkd).
  - pose proof (due_length now a l Hd). pose proof (armed_size n window a bnd_window0). lia.
  - done.
  - intros -> k d Hk. assert (now < d).
    { destruct (decide (now < d)); [done|]. exfalso. apply (not_elem_of_nil k), Hd. exists d. split; [done|lia]. }
    split; [done|]. by apply map_lookup_filter_Some.
Qed.

Lemma ends_main_loop fuel f file_size n window ring a c j :
  bounded n window ring a c -> soon j a c -> n + Z.of_nat fuel * (3 * cap + 3) < 2 ^ 64 ->
  (turns a ring j < fuel)%nat ->
  ends (since c) (main_loop sock destination config fuel f file_size total window ring) (fun _ _ => True).
Proof.
  revert n window ring a c j. induction fuel as [|fuel IH]; intros n window ring a c j Hb Hj Hn Hf; [lia|].
  cbn [main_loop]. destruct (bounded_capacity _ _ _ _ _ Hb) as [Hcap Hr].
  destruct (base_ window <? total); [|by apply triple_ret]. rewrite Hcap. pose proof tick_positive.
  eapply triple_bind.
  { apply (ends_fill _ _ _ n window ring a c Hb); [|lia]. pose proof Hb as []. pose proof (ref_range _ _ _ bnd_window0). lia. }
  intros [window1 ring1]. cbv beta iota. apply triple_ex. intros [a1 c1] (Hb1 & Hc1 & Hm1). simpl in Hb1, Hc1, Hm1.
  pose proof (earliest_deadline_refines _ window1 a1 (bnd_window _ _ _ _ _ Hb1)) as Hd.
  destruct (earliest_deadline window1) as [window2 o]. destruct Hd as [Ho Hr2].
  assert (bounded (n + Z.of_nat (S (Z.to_nat cap))) window2 ring1 a1 c1) as Hb2 by (destruct Hb1; by split).
  destruct o as [dl|]; [|by apply triple_ret]. destruct Ho as [[k Hk] Hdl].
  apply ends_now_then. intros now Hnow. simpl in Hnow. cbv zeta.
  apply (triple_bind _ _ _ (fun _ => since now)); [apply ends_sys; intros w; apply timeout_clock|].
  intros armed. destruct armed; simpl; [|by apply triple_throw].
  apply (bounded_later _ _ _ _ _ _ now Hb2 (Z.le_refl _)) in Hnow as Hb2'.
  eapply triple_bind; [apply (ends_take_ack _ _ _ _ _ Hb2'); lia|]. intros window3. cbv beta.
  apply triple_ex. intros [a3 c3] (Hb3 & Hc3 & Hm3). simpl in Hb3, Hc3, Hm3.
  apply ends_now_then. intros now' Hnow'. simpl in Hnow'. apply (bounded_later _ _ _ _ _ _ now' Hb3 (Z.le_refl _)) in Hnow' as Hb3'.
  pose proof (bounded_expired _ _ _ _ _ now' Hb3' ltac:(lia)) as Hx.
  destruct (expire now' window3) as [window4 l]. destruct Hx as (Hb4 & Hun & Hlen & Hsame & Hnone).
  eapply triple_bind; [apply (ends_retransmit l _ _ _ _ _ Hb4 Hun); lia|].
  intros [window5 ring5]. cbv beta iota. apply triple_ex. intros [a5 c5] [(Hb5 & Hc5 & Hm5) Hl5]. simpl in Hb5, Hc5, Hm5, Hl5.
  assert (exists j', soon j' a5 c5 /\ (turns a5 ring5 j' < turns a ring j)%nat) as (j' & Hj' & Hlt); cycle 1.
  { apply (triple_pre _ (since c5)); [|done]. apply (IH _ _ _ _ _ j' Hb5 Hj'); lia. }
  assert (forall a' ring', moves a ring a' ring' -> (left_over a' ring' <= left_over a ring)%nat) as Hle
    by (intros a' ring' [[-> ->]|?]; lia).
  assert ((left_over a5 ring5 < left_over a ring)%nat -> exists j', soon j' a5 c5 /\ (turns a5 ring5 j' < turns a ring j)%nat) as Hless.
  { intros Hl. exists rto_turns. split; [by eapply bounded_soon|by apply turns_drop]. }
  destruct Hm1 as [[-> ->]|Hm1]; [|apply Hless; destruct Hm3 as [[-> _]|?]; lia].
  destruct Hm3 as [[-> _]|Hm3]; [|apply Hless; lia].
  destruct l as [|x l]; [|apply Hless; simpl in Hl5; lia].
  destruct Hm5 as [[-> ->]|Hm5]; [|apply Hless; lia].
  destruct (Hnone eq_refl k dl Hk) as [Hafter Hstill].
  assert (dl <= c + Z.of_nat j * tick) as Hdj.
  { destruct Hj as [He|(k' & d & Hk' & ?)]; [by rewrite He in Hk|]. specialize (Hdl k' d Hk'). lia. }
  destruct j as [|j]; [lia|]. exists j. split; [|unfold turns; rewrite Hsame; lia].
  right. exists k, dl. split; [done|lia].
Qed.
End Waiting.

(** ** The whole of [send_file] *)

Section Ends.
Context {W : Type} `{NL : NetworkLaws W} `{CL : !ClockLaws W}.
Context {Q : Type} `{PQL : PriorityQueueLaws Entry entry_less Q}.
Implicit Types (w : W).

Abbreviation capacity c := (if window_size c =? 0 then 1 else window_size c).
Abbreviation ends P m Q := (triple P m Q (fun _ _ => True) (fun _ => False)).

(** Every chunk has so many transmissions, each of them a timeout's ticks of waiting;
    an exchange of control packets waits that long after each attempt. *)
Definition turns_enough (config : SenderConfig) (F : list byte) : nat :=
  let total := default 0 (chunk_count (Z.of_nat (length F)) (chunk_size config)) in
  Z.to_nat total * S (Z.to_nat (allowed config)) * (rto_turns (W:=W) config + 2) + rto_turns (W:=W) config + 1.

Lemma ends_any {A} (m : Run W Locals A) Post :
  (forall c, ends (since c) m (Post c)) -> ends (fun _ => True) m (fun _ _ => True).
Proof.
  intros Hm w st _ Hs. specialize (Hm (clock w) w st (Z.le_refl _) Hs). destruct (m w st) as [[w' st'] []]; naive_solver.
Qed.

Lemma ends_true {A} (g : W -> W * A) : ends (fun _ => True) (sys g) (fun _ _ => True).
Proof. apply triple_sys. intros w _. by destruct (g w). Qed.

Lemma chunk_count_range n s total : chunk_count n s = Some total -> 0 <= total < 2 ^ 32.
Proof.
  unfold chunk_count. destruct (s =? 0); [done|]. destruct (_ >? _); [done|]. intros [= <-]. by apply (wrap_fits 32).
Qed.

Lemma idle_left config total ring :
  left_over config total (idle (capacity config)) ring = (Z.to_nat total * S (Z.to_nat (allowed config)))%nat.
Proof.
  unfold left_over. rewrite (sum_list_with_const _ (S (Z.to_nat (allowed config)))); [by rewrite length_seqZ|].
  intros k Hk%elem_of_seqZ. unfold weight. simpl. by rewrite (proj2 (Z.leb_le _ _)) by lia.
Qed.

Lemma idle_bounded config total c :
  0 <= total -> 0 <= window_size config < 2 ^ 32 ->
  let window := new_sender_window (Q:=Q) (window_size config) in
  bounded config total 0 window (replicate (Z.to_nat (capacity_ window)) no_packet) (idle (capacity config)) c.
Proof.
  intros Ht Hw window. pose proof (new_sender_window_refines (Q:=Q) (window_size config) Hw) as Hr.
  subst window. split; [exact Hr|done| |done|simpl; set_solver..]. by rewrite length_replicate, (ref_span _ _ _ Hr).
Qed.

Lemma ends_send_opened sock destination config F i f fuel :
  0 <= window_size config < 2 ^ 32 -> Z.of_nat (length F) < 2 ^ 63 -> 0 <= fd_ f ->
  (turns_enough config F <= fuel)%nat -> Z.of_nat fuel * (3 * capacity config + 3) < 2 ^ 64 ->
  ends (fun w => opened (view w) (fd_ f) i F) (send_opened (Q:=Q) sock destination config fuel f) (fun _ _ => True).
Proof.
  intros Hwin Hlen Hfd Hfuel Hgen. unfold send_opened, conclude, turns_enough in *.
  apply (triple_bind _ _ _ (fun r _ => (forall n, r = inl n -> n = Z.of_nat (length F)) /\ True)).
  { apply triple_sys. intros w Hw. unfold size, valid. rewrite (proj2 (Z.leb_le _ _)) by done. simpl.
    pose proof (law_fstat (fd_ f) w) as Hl. destruct (sys_fstat_size (fd_ f) w) as [w' [n|e]]; split; try done.
    intros ? [= <-]. destruct Hl as (_ & j & c & Ho & ->). unfold opened in *. destruct Ho, Hw. simplify_eq.
    apply wrap_small. unfold fits. lia. }
  intros [n|e]; [|by apply triple_throw]. apply triple_prop. intros Hn. rewrite (Hn n eq_refl). clear Hn.
  destruct (chunk_count _ _) as [total|] eqn:Htotal; [|by apply triple_throw]. cbn [from_option id] in Hfuel.
  apply chunk_count_range in Htotal. cbv zeta.
  apply (triple_bind _ _ _ (fun _ _ => True)); [apply ends_true|]. intros [d|]; [|by apply triple_throw].
  apply (triple_bind _ _ _ (fun _ _ => True)); [apply ends_true|]. intros started.
  assert (forall bytes reply ack, ends (fun _ => True) (exchange_control sock destination config fuel bytes reply ack)
    (fun _ _ => True)) as Hcontrol by (intros; apply (ends_any _ (fun c _ => since c)); intros c; apply ends_control; lia).
  apply (triple_bind _ _ _ (fun _ _ => True)); [apply Hcontrol|]. intros e.
  destruct (bool_decide _); [by apply triple_throw|]. destruct (negb _); [by apply triple_throw|].
  apply (triple_bind _ _ _ (fun _ _ => True)).
  { apply (ends_any _ (fun _ _ _ => True)). intros c.
    apply (ends_main_loop sock destination config total ltac:(lia) Hwin fuel f _ 0 _ _ (idle (capacity config)) c
      (rto_turns (W:=W) config)).
    - apply idle_bounded; lia.
    - by left.
    - lia.
    - unfold turns. rewrite idle_left. lia. }
  intros _. apply triple_counting. apply (triple_bind _ _ _ (fun _ _ => True)); [apply Hcontrol|]. intros e'.
  destruct (negb _); [by apply triple_throw|].
  apply (triple_bind _ _ _ (fun _ _ => True)); [apply ends_true|]. intros now. by apply triple_counting, triple_ret.
Qed.

(** C12: the sender comes to an end.  Whatever datagrams arrive, are lost or come
    back as errors, and however the receives end, [send_file] returns - success
    or a definite error - after a number of turns of its loops that depends only
    on the configuration and the number of chunks, provided that a receive takes
    at least a tick of the steady clock. *)
Theorem send_file_ends sock destination config F fuel p w st i :
  0 <= window_size config < 2 ^ 32 -> Z.of_nat (length F) < 2 ^ 63 ->
  names (view w) !! p = Some i -> data (view w) !! i = Some F ->
  (turns_enough config F <= fuel)%nat -> Z.of_nat fuel * (3 * capacity config + 3) < 2 ^ 64 ->
  exists e, (send_file (Q:=Q) sock destination config fuel p w st).2 = Some e.
Proof.
  intros Hwin Hlen Hp Hd Hfuel Hgen. unfold send_file, open_read, open_with, valid. simpl.
  pose proof (law_open p O_RDONLY w) as Hl. destruct (sys_open p O_RDONLY w) as [w1 [fd|e]]; simpl; [|by exists kFileOpenFailed].
  destruct Hl as (Hfd & Hfree & j & Hj & Hv). rewrite Hp in Hj. injection Hj as <-.
  rewrite (proj2 (Z.leb_le _ _)) by done. simpl.
  assert (opened (view w1) fd i F) as Hopen by (rewrite Hv; split; [apply lookup_insert_eq|exact Hd]).
  pose proof (triple_run _ w1 (locals config st) _ _ _ _ _
    (ends_send_opened sock destination config F i {| fd_ := fd |} fuel Hwin Hlen Hfd Hfuel Hgen) Hopen I) as Ht.
  destruct (send_opened _ _ _ _ _ _ _) as [[w2 st2] [e|e|]]; [by exists e|by exists e|done].
Qed.
End Ends.
