(* ===== verification/Link.v ===== *)
(** * A sender and a server, wired together

    One system made of two: the sender's, with its files, and the server's, with the
    server of Server.v on it.  What the sender sends to the server's address is lost
    or received and served at once, in one turn of the server's drain loop; what the server sends back is lost or waits for the sender to
    receive it.  A list of fates, one for every datagram either way, says which; a
    receive takes the latency of the line, or the receive timeout when nothing has
    come. *)

From S2P Require Import Prelude Words Packet Wire Transfer FileIO Net Health ReceiverSession Server Sender SenderTerm.
Open Scope Z_scope.

Record Wiring := {
  far_socket : UdpSocket;
  far_config : ServerConfig;
  near_address : sockaddr_in;
  far_address : sockaddr_in;
  latency : Z
}.

Record Link (c : Wiring) (W1 W2 : Type) := make_link {
  near : W1;
  far : W2;
  server : Server;
  waiting : list (list byte);
  fates : list bool;  (* [true] is loss; there is none after the last *)
  clock : Z;
  patience : Z;  (* SO_RCVTIMEO, in microseconds *)
  sent : list (list byte * sockaddr_in);
  taken : list (list byte * sockaddr_in)
}.
Arguments make_link {c W1 W2}.
Arguments near {c W1 W2}.
Arguments far {c W1 W2}.
Arguments server {c W1 W2}.
Arguments waiting {c W1 W2}.
Arguments fates {c W1 W2}.
Arguments clock {c W1 W2}.
Arguments patience {c W1 W2}.
Arguments sent {c W1 W2}.
Arguments taken {c W1 W2}.

(** The losses that are still to come. *)
Definition losses (l : list bool) : Z := Z.of_nat (length (filter (fun b => b = true) l)).

Lemma losses_nonnegative l : 0 <= losses l.
Proof. unfold losses. lia. Qed.

Lemma losses_next l : losses l = (if default false (head l) then 1 else 0) + losses (tail l).
Proof.
  destruct l as [|[] l]; [done|..]; unfold losses; rewrite filter_cons;
    [rewrite decide_True by done|rewrite decide_False by done]; simpl; lia.
Qed.

(** Datagrams can be put where the next receive finds them. *)
Class Arrivals (W : Type) `{NL : NetworkLaws W} `{HF : !HealthyFiles W} := {
  arrive : list byte -> sockaddr_in -> W -> W;
  law_arrive bytes a fd n w :
    let '(w', r) := sys_recvfrom fd n (arrive bytes a w) in
    r = inl (take n bytes, a) /\ view w' = view w /\ outbox w' = outbox w /\ (healthy w -> healthy w')
}.

Section Link.
Context {c : Wiring} {W1 : Type} `{OSL1 : PosixLaws W1} {W2 : Type} `{AR2 : Arrivals W2}.
Implicit Types (w : Link c W1 W2).

Definition set_near (u : W1) w : Link c W1 W2 :=
  make_link u (far w) (server w) (waiting w) (fates w) (clock w) (patience w) (sent w) (taken w).
Definition set_far (u : W2) (v : Server) (queue : list (list byte)) (l : list bool) w : Link c W1 W2 :=
  make_link (near w) u v queue l (clock w) (patience w) (sent w) (taken w).
Definition set_patience (t : Z) w : Link c W1 W2 :=
  make_link (near w) (far w) (server w) (waiting w) (fates w) (clock w) t (sent w) (taken w).
Definition note_sent (d : list byte * sockaddr_in) w : Link c W1 W2 :=
  make_link (near w) (far w) (server w) (waiting w) (fates w) (clock w) (patience w) (sent w ++ [d]) (taken w).

Definition on_near {A} (g : W1 -> W1 * A) w : Link c W1 W2 * A :=
  let '(u, a) := g (near w) in (set_near u w, a).

(** The time a receive takes. *)
Definition delay : Z := Z.max 1 (latency c).

(** The replies that survive, and the fates left. *)
Fixpoint survive (news : list (list byte)) (l : list bool) : list (list byte) * list bool :=
  match news with
  | [] => ([], l)
  | d :: news =>
      let '(kept, rest) := survive news (tail l) in
      (if default false (head l) then kept else d :: kept, rest)
  end.

(** A datagram on its way to the server. *)
Definition transmit (bytes : list byte) w : Link c W1 W2 :=
  if default false (head (fates w)) then set_far (far w) (server w) (waiting w) (tail (fates w)) w
  else
    let '(u, v, _) := drain (far_socket c) (far_config c) 1 (server w) (arrive bytes (near_address c) (far w)) in
    let news := filter (fun d => d.2 = near_address c) (drop (length (outbox (far w))) (outbox u)) in
    let '(kept, l) := survive (map fst news) (tail (fates w)) in
    set_far u v (waiting w ++ kept) l w.

Definition link_sendto (bytes : list byte) (a : sockaddr_in) w : Link c W1 W2 :=
  let w := note_sent (bytes, a) w in if bool_decide (a = far_address c) then transmit bytes w else w.

Definition link_receive (n : nat) w : Link c W1 W2 * (list byte * sockaddr_in + Z) :=
  match waiting w with
  | [] =>
      (make_link (near w) (far w) (server w) [] (fates w) (clock w + Z.max delay (patience w * 1000)) (patience w)
         (sent w) (taken w), inr EAGAIN)
  | d :: queue =>
      let d := (take n d, far_address c) in
      (make_link (near w) (far w) (server w) queue (fates w) (clock w + delay) (patience w) (sent w) (taken w ++ [d]), inl d)
  end.

#[export] Instance link_posix : Posix (Link c W1 W2) := {
  sys_open p mode := on_near (sys_open p mode);
  sys_close fd w := set_near (sys_close fd (near w)) w;
  sys_pread fd n off := on_near (sys_pread fd n off);
  sys_pwrite fd bs off := on_near (sys_pwrite fd bs off);
  sys_fsync fd := on_near (sys_fsync fd);
  sys_fstat_size fd := on_near (sys_fstat_size fd);
  sys_rename p q := on_near (sys_rename p q);
  sys_unlink p := on_near (sys_unlink p);
  interruptions w := interruptions (near w)
}.

#[export] Instance link_network : Network (Link c W1 W2) := {
  sys_socket w := (w, inl 3);
  sys_bind _ _ w := (w, true);
  sys_set_rcvtimeo _ sec usec w := (set_patience (sec * 1000000 + usec) w, true);
  sys_getfl _ w := (w, 2);
  sys_setfl _ _ w := (w, true);
  sys_sendto _ bytes a w := (link_sendto bytes a w, inl (Z.of_nat (length bytes)));
  sys_recvfrom _ := link_receive;
  sys_now w := (w, clock w)
}.

Lemma on_near_spec {A} (g : W1 -> W1 * A) w :
  on_near g w = (set_near (g (near w)).1 w, (g (near w)).2).
Proof. unfold on_near. by destruct (g (near w)). Qed.

#[export] Instance link_laws : PosixLaws (Link c W1 W2).
Proof.
  refine {| view w := view (near w) |}; intros; cbn [sys_open sys_pread sys_pwrite sys_fstat_size sys_rename sys_unlink link_posix];
    rewrite ?on_near_spec; cbn [near set_near interruptions link_posix].
  - pose proof (law_open p mode (near w)) as Hl. by destruct (sys_open p mode (near w)).
  - apply (law_close fd (near w)).
  - pose proof (law_pread fd n off (near w)) as Hl. by destruct (sys_pread fd n off (near w)).
  - pose proof (law_pwrite fd bs off (near w)) as Hl. by destruct (sys_pwrite fd bs off (near w)).
  - cbn [sys_fsync link_posix]. rewrite on_near_spec. apply (law_fsync fd (near w)).
  - pose proof (law_fstat fd (near w)) as Hl. by destruct (sys_fstat_size fd (near w)).
  - pose proof (law_rename p q (near w)) as Hl. by destruct (sys_rename p q (near w)).
  - pose proof (law_unlink p (near w)) as Hl. by destruct (sys_unlink p (near w)).
Defined.

Lemma transmit_near bytes w :
  near (transmit bytes w) = near w /\ clock (transmit bytes w) = clock w /\
  sent (transmit bytes w) = sent w /\ taken (transmit bytes w) = taken w.
Proof.
  unfold transmit. destruct (default false _); [done|]. destruct (drain _ _ _ _ _) as [[u v] x].
  by destruct (survive _ _) as [kept l].
Qed.

Lemma link_sendto_near bytes a w :
  near (link_sendto bytes a w) = near w /\ clock (link_sendto bytes a w) = clock w /\
  sent (link_sendto bytes a w) = sent w ++ [(bytes, a)] /\ taken (link_sendto bytes a w) = taken w.
Proof.
  unfold link_sendto. case_bool_decide; [|done]. by destruct (transmit_near bytes (note_sent (bytes, a) w)) as (-> & -> & -> & ->).
Qed.

#[export] Instance link_network_laws : NetworkLaws (Link c W1 W2).
Proof.
  refine {| outbox := sent; inbox := taken |}; intros; simpl; try done.
  3-9: subst w'; simpl; by rewrite ?on_near_spec.
  - destruct (link_sendto_near bytes a w) as (Hn & _ & ? & ?). by rewrite Hn.
  - unfold link_receive. by destruct (waiting w).
Defined.

#[export] Instance link_clock_laws : ClockLaws (Link c W1 W2).
Proof.
  refine {| SenderTerm.clock := clock; tick := delay |}; intros; simpl.
  - unfold delay. lia.
  - lia.
  - unfold link_receive. destruct (waiting w); simpl; unfold delay; lia.
  - destruct (link_sendto_near bytes a w) as (_ & -> & _). lia.
  - lia.
  - rewrite on_near_spec. simpl. lia.
  - rewrite on_near_spec. simpl. lia.
  - rewrite on_near_spec. simpl. lia.
Defined.

#[export] Instance link_healthy `{HF1 : !HealthyFiles W1} : HealthyFiles (Link c W1 W2).
Proof.
  refine {| healthy w := healthy (near w) |}; intros; simpl; rewrite ?on_near_spec; cbn [near set_near].
  - pose proof (ok_open p mode (near w)) as Hl. destruct (sys_open p mode (near w)). by apply Hl.
  - by apply ok_close.
  - pose proof (ok_fstat fd i c0 (near w)) as Hl. destruct (sys_fstat_size fd (near w)). by apply Hl.
  - pose proof (ok_pread fd n off i c0 (near w)) as Hl. destruct (sys_pread fd n off (near w)). by apply Hl.
  - pose proof (ok_pwrite fd bs off i c0 (near w)) as Hl. destruct (sys_pwrite fd bs off (near w)). by apply Hl.
  - pose proof (ok_fsync fd i c0 (near w)) as Hl. destruct (sys_fsync fd (near w)). by apply Hl.
  - pose proof (ok_rename p q (near w)) as Hl. destruct (sys_rename p q (near w)). by apply Hl.
Defined.
End Link.
