(* ===== verification/Lossy.v ===== *)
(** * A transfer over a line that loses

    On the system of Link.v, in good health: whatever datagrams are lost in either
    direction, as long as they are fewer than the retransmissions a chunk is
    allowed, [send_file] succeeds and the file has arrived.

    The line loses; it does not hold datagrams back beyond a receive each, so that a
    window of replies is read before the timers of its chunks fire. *)

From S2P Require Import Prelude Words Doubles Packet Wire Sha256 Filename Transfer PriorityQueue SenderWindow FileIO Net Health Monad ReceiverSession Offline Delivery Answers Server Sender SenderSpec EndToEnd ServerAnswers SenderTerm Link.
Import Packet.Packet.
Open Scope Z_scope.

(** ** Reading does not touch the far end *)

Section Reading.
Context {W : Type} `{OS : !Posix W} (R : relation W) `{!PreOrder R}.
Context (Hread : forall fd n off w, R w (sys_pread fd n off w).1).

Lemma read_at_related f want off w : R w (read_at f want off w).1.
Proof.
  unfold read_at. destruct (valid f); [|reflexivity]. generalize (S (want + interruptions w)) as fuel. simpl.
  intros fuel. generalize (@nil byte) as got. revert want w.
  induction fuel as [|fuel IH]; intros want w got; cbn [read_loop]; [reflexivity|]. destruct (want =? 0)%nat; [reflexivity|].
  pose proof (Hread (fd_ f) want (s64 (off + Z.of_nat (length got))) w) as Hr.
  destruct (sys_pread _ _ _ w) as [w1 [[|b bs]|e]]; simpl in Hr; [done| |].
  - etrans; [exact Hr|apply IH].
  - destruct (e =? EINTR); [|done]. etrans; [exact Hr|apply IH].
Qed.

Lemma hash_file_related f n w : R w (hash_file f n w).1.
Proof.
  unfold hash_file. generalize (hash_fuel n) as fuel. intros fuel. generalize 0 as off, new_hasher as hasher. revert w.
  induction fuel as [|fuel IH]; intros w off hasher; cbn [hash_back]; [reflexivity|].
  destruct (negb (off <? n)); [reflexivity|]. set (want := if _ <? _ then _ else _).
  pose proof (read_at_related f (Z.to_nat want) off w) as Hr.
  destruct (read_at f _ off w) as [w1 [bs|e]]; simpl in Hr; [|done].
  destruct (negb _); [done|]. etrans; [exact Hr|]. apply IH.
Qed.
End Reading.

Section Lossy.
Context {c : Wiring} {W1 : Type} `{OSL1 : PosixLaws W1} `{HF1 : !HealthyFiles W1}.
Context {W2 : Type} `{AR2 : Arrivals W2} `{HN2 : !HealthyNetwork W2}.
Context {Q : Type} `{PQL : PriorityQueueLaws Entry entry_less Q}.
Implicit Types (w : Link c W1 W2).

(** The simulated loss of the sender is off. *)
Definition reliable (st : Locals) : Prop := SpecFloat.SFleb (probability_ (loss st)) dzero = true.

Abbreviation triple := (Monad.triple (S:=Locals) reliable).
Abbreviation never := (fun _ _ => False).
Abbreviation always := (fun _ => True).

Lemma counting {A} g (k : Run (Link c W1 W2) Locals A) P Post E L :
  triple P k Post E L -> triple P (seq_bind (count g) (fun _ => k)) Post E L.
Proof. by apply triple_counting_keeping. Qed.

Lemma triple_or {A} (P1 P2 : Link c W1 W2 -> Prop) (m : Run (Link c W1 W2) Locals A) Post E L :
  triple P1 m Post E L -> triple P2 m Post E L -> triple (fun w => P1 w \/ P2 w) m Post E L.
Proof. intros H1 H2 w st [Hw|Hw]; [by apply H1|by apply H2]. Qed.

(** Everything but the near end. *)
Definition far_end w : W2 * Server * list (list byte) * list bool * Z :=
  (far w, server w, waiting w, fates w, clock w).
Definition apart w w' : Prop := far_end w' = far_end w.

#[local] Instance apart_preorder : PreOrder apart.
Proof. split; [done|]. intros w1 w2 w3 H1 H2. unfold apart in *. congruence. Qed.

Lemma on_near_apart {A} (g : W1 -> W1 * A) w : apart w (on_near g w).1.
Proof. by rewrite on_near_spec. Qed.

(** ** What becomes of a datagram *)

Context (config : SenderConfig) (F : list byte).
Abbreviation sid := (config_session_id config).
Abbreviation peer := (from_sockaddr (near_address c)).
Abbreviation reply_wire := (reply_wire sid).

(** The server answers [bytes] with [r], and goes from [A], which concerns its table
    and its files, to [B]. *)
Definition served (bytes : list byte) (r : Reply) (A B : Server -> W2 -> Prop) : Prop :=
  forall v u0 u, view u = view u0 -> healthy u -> A v u0 ->
    let '(u', v') := on_datagram (far_socket c) (far_config c) bytes peer v u in
    answered config (near_address c) u u' r /\ B v' u'.

(** It was lost, it was served and the reply was lost, or the reply is waiting. *)
Definition carried_over (r : Reply) (A B : Server -> W2 -> Prop) w w' : Prop :=
  near w' = near w /\ clock w' = clock w /\ healthy (far w') /\
  ((waiting w' = waiting w /\ losses (fates w') = losses (fates w) - 1 /\ (A (server w') (far w') \/ B (server w') (far w'))) \/
   (waiting w' = waiting w ++ [reply_wire r] /\ losses (fates w') = losses (fates w) /\ B (server w') (far w'))).

Context (Hfar : socket_valid (far_socket c) = true).

Lemma transmit_carries bytes r A B w :
  healthy (far w) -> A (server w) (far w) -> (length bytes <= server_buffer)%nat -> served bytes r A B ->
  carried_over r A B w (transmit bytes w).
Proof.
  intros Hw HA Hlen Hserve. unfold transmit. pose proof (losses_next (fates w)) as Hl.
  destruct (default false (head (fates w))).
  { split_and!; try done. left. split_and!; [done|simpl; lia|by left]. }
  cbn [drain]. unfold recv_from. rewrite Hfar. simpl negb. cbv iota.
  pose proof (law_arrive bytes (near_address c) (sock_fd (far_socket c)) server_buffer (far w)) as Harr.
  destruct (sys_recvfrom _ _ _) as [u0 r0]. destruct Harr as (-> & Hview & Hsame & Hu0).
  rewrite take_ge by done. specialize (Hserve (server w) (far w) u0 Hview (Hu0 Hw) HA).
  destruct (on_datagram _ _ _ _ _ _) as [u v]. destruct Hserve as [[Hu Hout] HB].
  rewrite Hout, Hsame, drop_app_length, filter_cons, decide_True by done. simpl.
  pose proof (losses_next (tail (fates w))) as Hl'. destruct (default false (head (tail (fates w)))); simpl.
  - split_and!; try done. left. split_and!; [by rewrite app_nil_r|simpl; lia|by right].
  - split_and!; try done. right. split_and!; [done|simpl; lia|done].
Qed.

Context (sock : UdpSocket) (destination : Endpoint).
Context (Hsock : socket_valid sock = true) (Hdest : to_sockaddr destination = Some (far_address c)).

Lemma line_send (P : Link c W1 W2 -> Prop) Post bytes E L :
  (length bytes <= server_buffer)%nat ->
  (forall w, P w -> exists r A B, served bytes r A B /\ healthy (far w) /\ A (server w) (far w) /\
     forall w', carried_over r A B w w' -> Post w') ->
  triple P (send_packet sock destination bytes) (fun sent w => sent = true /\ Post w) E L.
Proof.
  intros Hlen HP. unfold send_packet. apply counting. intros w [st l] Hw Hst.
  unfold reliable in Hst. unfold seq_bind, local, should_drop. simpl in *. rewrite Hst. simpl.
  unfold sys, send_to. rewrite Hsock, Hdest. simpl. split; [done|]. split; [apply Z.leb_le; lia|].
  unfold link_sendto. rewrite bool_decide_true by done. destruct (HP w Hw) as (r & A & B & Hserve & Hu & HA & Hpost). apply Hpost.
  by apply (transmit_carries bytes r A B (note_sent (bytes, far_address c) w)).
Qed.

Lemma timeout_set t w : exists q, set_receive_timeout sock t w = (set_patience q w, true).
Proof. unfold set_receive_timeout. rewrite Hsock. simpl. destruct (timeval_of t). by eexists. Qed.

(** ** Exchanges of control packets *)

Context (f : File) (i : nat) (Hfd : 0 <= fd_ f).
Context (Hs : sendable config F) (Hpatient : delay (c:=c) < rto_ticks config).

(** What the transfer needs of both ends, between its steps. *)
Definition sound w : Prop := healthy (near w) /\ opened (view (near w)) (fd_ f) i F /\ healthy (far w).

(** With [queue] waiting and at most [n] losses to come. *)
Definition poised (A : Server -> W2 -> Prop) (queue : list (list byte)) (n : Z) w : Prop :=
  sound w /\ A (server w) (far w) /\ waiting w = queue /\ losses (fates w) <= n.

(** The datagram of a reply, read by the sender. *)
Lemma reply_read t k n :
  fits 32 k -> (kHeaderWireSize <= n)%nat ->
  exists p, deserialize (take n (reply_wire (reply_with t k))) = success p /\ packet_type (header p) = t /\
    session_id (header p) = sid /\ acknowledgement_number (header p) = k.
Proof.
  intros Hk Hn. destruct Hs. set (h := make_header t sid k k 0).
  assert (header_wf h) as Hwf by (by apply make_header_wf).
  destruct (wire_decodes h [] Hwf ltac:(done) ltac:(done)) as [Hd _].
  destruct (serialize_fields h [] Hwf ltac:(done)) as (_ & _ & _ & Hlen). unfold ServerAnswers.reply_wire. simpl.
  fold h. rewrite take_ge by (rewrite Hlen; cbn [length]; lia). by eexists.
Qed.

Lemma line_await t k fuel deadline n A B :
  fits 32 k -> t <> kError ->
  triple (fun w => deadline = clock w + rto_ticks config /\
            (poised A [] (n - 1) w \/ poised B [reply_wire (reply_with t k)] n w))
    (await_reply sock config fuel t k deadline)
    (fun r w => (r = None /\ poised A [] (n - 1) w) \/ (r = Some Transfer.kNone /\ poised B [] n w)) never always.
Proof.
  intros Hk Ht. destruct fuel as [|fuel]; simpl; [by apply triple_spin|].
  apply (triple_bind _ _ _ (fun now w => deadline = now + rto_ticks config /\
    (poised A [] (n - 1) w \/ poised B [reply_wire (reply_with t k)] n w))); [by apply triple_sys|].
  intros now. apply triple_prop. intros ->. pose proof (Z.le_max_l 1 (latency c)). unfold delay in Hpatient.
  rewrite (proj2 (Z.leb_gt _ _)) by lia.
  apply (triple_bind _ _ _ (fun armed w => armed = true /\
    (poised A [] (n - 1) w \/ poised B [reply_wire (reply_with t k)] n w))).
  { apply triple_sys. intros w Hw. destruct (timeout_set (Z.quot (now + rto_ticks config - now) 1000) w) as [q ->]. exact (conj eq_refl Hw). }
  intros armed. apply triple_prop. intros ->. simpl. destruct (reply_read t k receive_size Hk) as (p & Hp & Hty & Hsid & Hack); [unfold receive_size; lia|].
  set (d := take receive_size (reply_wire (reply_with t k))) in Hp.
  apply (triple_bind _ _ _ (fun r w => (r = inr EAGAIN /\ poised A [] (n - 1) w) \/
    ((exists from, r = inl (d, from)) /\ poised B [] n w))).
  { apply triple_sys. intros w Hw. unfold recv_from. rewrite Hsock. simpl. unfold link_receive.
    destruct Hw as [(Hg & HA & -> & Hl)|(Hg & HB & -> & Hl)]; [left|right]; (split; [by eauto|]); by split_and!; try apply Hg. }
  clearbody d. intros r. apply triple_or; apply triple_prop; [intros ->|intros [from ->]]; simpl; apply counting.
  - apply triple_ret. by left.
  - rewrite Hp. simpl. rewrite Hty, Hsid, Hack, !Z.eqb_refl, bool_decide_false, bool_decide_true by done. simpl.
    apply triple_ret. by right.
Qed.

Lemma line_control fuel bytes t k n (A B : Server -> W2 -> Prop) :
  fits 32 k -> t <> kError -> n <= max_retries config -> (length bytes <= server_buffer)%nat ->
  (forall v u, B v u -> A v u) -> served bytes (reply_with t k) A B ->
  triple (poised A [] n) (exchange_control sock destination config fuel bytes t k)
    (fun e w => e = Transfer.kNone /\ poised B [] n w) never always.
Proof.
  intros Hk Ht Hn Hlen Hsub Hserve. unfold exchange_control. assert (n < Z.of_nat (Z.to_nat (max_retries config + 1)) \/ n < 0) as Htries by lia.
  revert Htries. generalize true as first. clear Hn.
  assert (forall m m' w, poised B [] m w -> m <= m' -> poised B [] m' w) as Hmono.
  { intros m m' w (? & ? & ? & ?) ?. split_and!; [done..|lia]. }
  revert n. induction (Z.to_nat (max_retries config + 1)) as [|tries IH]; intros n first Htries; cbn [control_attempts].
  { intros w st (_ & _ & _ & Hl). pose proof (losses_nonnegative (fates w)). lia. }
  apply (triple_bind _ _ _ (fun _ => poised A [] n)).
  { destruct first; [by apply triple_ret|]. intros w st Hw Hst. by split. }
  intros _. eapply triple_bind.
  { apply (line_send _ (fun w => poised A [] (n - 1) w \/ poised B [reply_wire (reply_with t k)] n w) bytes); [done|].
    intros w ((Hn & Ho & Hu) & HA & Hq & Hl). exists (reply_with t k), A, B. split_and!; [done..|]. intros w' (Hnear & Hclock & Hu' & Hcase).
    assert (sound w') by (unfold sound; by rewrite Hnear). rewrite Hq in Hcase.
    destruct Hcase as [(? & ? & HAB)|(? & ? & ?)]; [left|right]; split_and!; try done; try lia. destruct HAB; auto. }
  intros sent. apply triple_prop. intros ->. simpl.
  apply (triple_bind _ _ _ (fun now w => now + rto_ticks config = clock w + rto_ticks config /\
    (poised A [] (n - 1) w \/ poised B [reply_wire (reply_with t k)] n w))); [by apply triple_sys|].
  intros now. eapply triple_bind; [by apply (line_await t k fuel _ n A B)|]. intros r. cbv beta.
  apply triple_or; apply triple_prop; intros ->; [|apply triple_ret; by split].
  eapply triple_post; [apply IH; lia|]. intros e w [-> Hw]. split; [done|]. eapply Hmono; [done|lia].
Qed.

(** ** The data *)

Abbreviation cs := (Z.to_nat (chunk_size config)).
Abbreviation total := (Z.of_nat (chunk_total F cs)).
Abbreviation cap := (if window_size config =? 0 then 1 else window_size config).
Abbreviation stage M := (stands (far_config c) config F peer (Storing M)).
Abbreviation ack_wire k := (reply_wire (reply_with kAck k)).

Context (Hpeer : to_sockaddr peer = Some (near_address c)).
Context (Hb : Delivery.bounded F cs (server_window_size (far_config c))) (Hmax : 0 < max_sessions (far_config c)).
Context (Hname : (sanitize_filename (remote_name config)).1 = Filename.kNone).
Context (Hwindow : cap <= Z.max 1 (server_window_size (far_config c))).
Context (Hrto : cap * delay (c:=c) < rto_ticks config).
Context (budget : Z) (Hbudget : budget < max_retries config).

Lemma cap_positive : 1 <= cap < 2 ^ 32.
Proof. destruct Hs. destruct (window_size config =? 0) eqn:E; bool_to_prop; lia. Qed.

Lemma data_served M k :
  0 <= k < total -> (forall j, 0 <= j <= k - cap -> j ∈ M) ->
  served (data_wire config F k) (reply_with kAck k) (stage M) (stage ({[k]} ∪ M)).
Proof.
  intros Hk Hbelow v u0 u Hview Hu Hst. apply (stands_view _ _ _ _ _ v u0 u Hview) in Hst. pose proof Hs as []. pose proof (chunk_position config F Hs k Hk) as Hpos.
  destruct (wire_decodes (make_header kData sid k 0 (k * chunk_size config)) (chunk F cs (Z.to_nat k))) as [Hd _].
  - apply make_header_wf; unfold fits; [done|lia|done|lia].
  - done.
  - rewrite length_chunk. lia.
  - eapply answers_data_datagram; try done; [simpl; lia|]. intros j Hj. apply Hbelow. lia.
Qed.

Lemma data_wire_short k : 0 <= k < total -> (length (data_wire config F k) <= server_buffer)%nat.
Proof.
  intros Hk. pose proof Hs as []. pose proof (chunk_position config F Hs k Hk) as Hpos.
  assert (Z.of_nat (length (chunk F cs (Z.to_nat k))) <= kMaxPayloadSize) as Hlen by (rewrite length_chunk; lia).
  destruct (serialize_fields (make_header kData sid k 0 (k * chunk_size config)) (chunk F cs (Z.to_nat k))) as (_ & _ & _ & Hl).
  - apply make_header_wf; unfold fits; [done|lia|done|lia].
  - done.
  - unfold data_wire. rewrite Hl. unfold server_buffer. lia.
Qed.

(** Midway: the chunks [M] at least are stored, the acknowledgements of [ks] are
    waiting, each to be read before its chunk's timer fires; a chunk's transmissions
    are accounted for by the losses so far and the acknowledgement that waits. *)
Record flow (a : Window) (ring : list InFlight) (M : gset Z) (ks : list Z) w : Prop := {
  flw_sound : sound w;
  flw_stage : stage M (server w) (far w);
  flw_waiting : waiting w = map (fun k => ack_wire k) ks;
  flw_once : NoDup ks;
  flw_outstanding k : k ∈ ks -> k ∈ unacked a /\ k ∈ M;
  flw_acked k : 0 <= k < upcoming a -> k ∉ unacked a -> k ∈ M;
  flw_timely j k d : ks !! j = Some k -> armed a !! k = Some d -> clock w + (Z.of_nat j + 1) * delay (c:=c) < d;
  flw_budget : losses (fates w) <= budget;
  flw_attempts k : k ∈ unacked a ->
    attempts (slot config ring k) + losses (fates w) <= budget + (if decide (k ∈ ks) then 1 else 0)
}.

(** None of [pending] has its acknowledgement waiting. *)
Definition flowing (pending : list Z) a ring w : Prop :=
  exists M ks, flow a ring M ks w /\ forall k, k ∈ pending -> k ∉ ks.

Lemma flow_apart a ring M ks w w' : flow a ring M ks w -> sound w' -> apart w w' -> flow a ring M ks w'.
Proof.
  intros [] Hw Hap. unfold apart, far_end in Hap. injection Hap as Hu Hv Hq Hl Hc.
  split; rewrite ?Hu, ?Hv, ?Hq, ?Hl, ?Hc; done.
Qed.

Lemma flowing_apart pending a ring w w' : flowing pending a ring w -> sound w' -> apart w w' -> flowing pending a ring w'.
Proof. intros (M & ks & Hf & Hp) ? ?. exists M, ks. split; [by eapply flow_apart|done]. Qed.

(** A list of numbers in a range is no longer than the range. *)
Lemma length_within l b n : NoDup l -> 0 <= n -> (forall x, x ∈ l -> b <= x < b + n) -> Z.of_nat (length l) <= n.
Proof.
  intros Hl Hn Hin. assert (length l <= length (seqZ b n))%nat as Hle.
  { apply submseteq_length, NoDup_submseteq; [done|]. intros x Hx. apply elem_of_seqZ, Hin, Hx. }
  rewrite length_seqZ in Hle. lia.
Qed.

(** Packet [k] is sent: its timer is set, and its transmissions counted. *)
Lemma flow_launched a ring a' ring' M ks k w w' :
  flow a ring M ks w -> carried_over (reply_with kAck k) (stage M) (stage ({[k]} ∪ M)) w w' -> k ∉ ks ->
  unacked a' = {[k]} ∪ unacked a -> armed a' = <[k := clock w' + rto_ticks config]> (armed a) ->
  (forall j, 0 <= j < upcoming a' -> j ∉ unacked a' -> 0 <= j < upcoming a) ->
  Z.of_nat (length ks) < cap ->
  attempts (slot config ring' k) + losses (fates w) <= budget + 1 ->
  (forall y, y ∈ unacked a -> y <> k -> slot config ring' y = slot config ring y) ->
  exists M' ks', flow a' ring' M' ks' w' /\ forall y, y ∈ ks' -> y ∈ ks \/ y = k.
Proof.
  intros [] (Hnear & Hclock & Hu & Hcase) Hk Hun Harm Hup Hlen Hatt Hother.
  assert (sound w') as Hw' by (destruct flw_sound0 as (? & ? & _); unfold sound; by rewrite Hnear).
  pose proof (losses_nonnegative (fates w')) as H0. pose proof (Z.le_max_l 1 (latency c)) as Hd. fold (delay (c:=c)) in Hd.
  assert (forall j y d, ks !! j = Some y -> armed a' !! y = Some d -> clock w' + (Z.of_nat j + 1) * delay (c:=c) < d) as Htimely.
  { intros j y d Hj. rewrite Harm, Hclock, lookup_insert_ne; [by apply flw_timely0|].
    intros ->. apply Hk. by eapply list_elem_of_lookup_2. }
  destruct Hcase as [(Hq & Hl & Hst)|(Hq & Hl & Hst)].
  - exists M, ks. split; [|by left]. split; try done; [|by rewrite Hq|..].
    + destruct Hst as [|Hst]; [done|]. eapply storing_mono; [|exact Hst]. set_solver.
    + rewrite Hun. intros y Hy. destruct (flw_outstanding0 y Hy). set_solver.
    + intros y Hy Hny. apply flw_acked0; [by apply Hup|]. rewrite Hun in Hny. set_solver.
    + lia.
    + intros y Hy. rewrite Hun in Hy. destruct (decide (y = k)) as [->|Hne]; [rewrite decide_False by done; lia|].
      assert (y ∈ unacked a) as Hya by set_solver. rewrite Hother by done. specialize (flw_attempts0 y Hya). lia.
  - exists ({[k]} ∪ M), (ks ++ [k]). split; [|intros y [?| ->%list_elem_of_singleton]%elem_of_app; auto]. split; try done.
    + by rewrite Hq, flw_waiting0, map_app.
    + apply NoDup_app. split_and!; [done| |apply NoDup_singleton]. intros y Hy ->%list_elem_of_singleton. done.
    + intros y [Hy| ->%list_elem_of_singleton]%elem_of_app; [|rewrite Hun; set_solver].
      rewrite Hun. destruct (flw_outstanding0 y Hy). set_solver.
    + intros y Hy Hny. apply elem_of_union. right. apply flw_acked0; [by apply Hup|]. rewrite Hun in Hny. set_solver.
    + intros j y d Hj. destruct (decide (j < length ks)%nat) as [Hlt|Hge]; [rewrite lookup_app_l in Hj by done; by apply Htimely|].
      rewrite lookup_app_r in Hj by lia. apply list_lookup_singleton_Some in Hj as [Hj <-].
      rewrite Harm, lookup_insert_eq. intros [= <-]. nia.
    + lia.
    + intros y Hy. rewrite Hun in Hy. destruct (decide (y = k)) as [->|Hne].
      { rewrite decide_True by (apply elem_of_app; right; by apply list_elem_of_singleton). lia. }
      assert (y ∈ unacked a) as Hya by set_solver. rewrite Hother by done. specialize (flw_attempts0 y Hya).
      rewrite (decide_ext _ (y ∈ ks)); [lia|]. rewrite elem_of_app, list_elem_of_singleton. tauto.
Qed.

(** What the window says of the acknowledgements that wait. *)
Lemma flow_room n pending window ring a M ks w :
  sinv config F n pending window ring a -> flow a ring M ks w ->
  (forall k, k ∈ ks -> base_ window <= k < base_ window + cap) /\
  (forall j, 0 <= j < base_ window -> j ∈ M).
Proof.
  intros Hi []. pose proof Hi as []. pose proof sinv_window as [Ht _]. pose proof Ht as [].
  destruct (sinv_capacity config F Hs _ _ _ _ _ Hi) as [Hcap _]. rewrite Hcap in *. split.
  - intros k Hk. apply flw_outstanding0 in Hk as [Hk _]. apply ref_unacked in Hk as [? _]. lia.
  - intros j Hj. apply flw_acked0; [lia|]. intros Hu. apply ref_unacked in Hu as [? _]. lia.
Qed.

Lemma room_below (ks : list Z) b k :
  NoDup ks -> k ∉ ks -> (forall x, x ∈ ks -> b <= x < b + cap) -> b <= k < b + cap -> Z.of_nat (length ks) < cap.
Proof.
  intros Hks Hk Hin Hkb. pose proof cap_positive.
  pose proof (length_within (k :: ks) b cap ltac:(by constructor) ltac:(lia)) as Hl. simpl in Hl.
  assert (forall x, x ∈ k :: ks -> b <= x < b + cap) as Hall by (intros x [->|]%elem_of_cons; auto).
  specialize (Hl Hall). lia.
Qed.

(** A new packet. *)
Lemma flowing_sent n window ring a w :
  let k := next_sequence_ window in
  sinv config F n [] window ring a -> can_send window = true -> k < total -> flowing [] a ring w ->
  exists r A B, served (data_wire config F k) r A B /\ healthy (far w) /\ A (server w) (far w) /\
    forall w', carried_over r A B w w' ->
      flowing [] (window_sent (clock w' + rto_ticks config) a)
        (<[in_flight_index window k := {| wire := data_wire config F k; attempts := 1 |}]> ring) w'.
Proof.
  intros k Hi Hc Hk (M & ks & Hf & _). destruct (flow_room _ _ _ _ _ _ _ _ Hi Hf) as [Hks Hbase].
  destruct (sinv_capacity config F Hs _ _ _ _ _ Hi) as [Hcap Hr]. pose proof Hi as []. pose proof sinv_window as [Ht Hlow].
  pose proof Ht as []. pose proof Hf as [].
  assert (base_ window <= k < base_ window + cap) as Hroom.
  { rewrite (can_send_spec _ _ _ sinv_window) in Hc. bool_to_prop. rewrite <- Hlow in Hc. subst k. lia. }
  assert (k ∉ ks) as Hnew.
  { intros Hin. apply flw_outstanding0 in Hin as [Hu _]. apply ref_unacked in Hu as [? _]. subst k. lia. }
  exists (reply_with kAck k), (stage M), (stage ({[k]} ∪ M)).
  split; [apply data_served; [subst k; lia|]; intros j Hj; apply Hbase; lia|].
  split; [apply flw_sound0|]. split; [done|]. intros w' Hcarry.
  destruct (flow_launched a ring (window_sent (clock w' + rto_ticks config) a)
    (<[in_flight_index window k := {| wire := data_wire config F k; attempts := 1 |}]> ring) M ks k w w')
    as (M' & ks' & Hf' & _); try done.
  - simpl. by rewrite <- ref_next.
  - simpl. by rewrite <- ref_next.
  - simpl. rewrite <- ref_next. fold k. intros j Hj Hu. destruct (decide (j = k)) as [->|]; [set_solver|lia].
  - by apply (room_below ks (base_ window) k).
  - rewrite (ring_update config window ring (base_ window)) by (done || lia). rewrite decide_True by done. simpl. lia.
  - intros y Hy Hne. apply ref_unacked in Hy as [Hy _].
    rewrite (ring_update config window ring (base_ window)) by (done || lia). by rewrite decide_False by congruence.
  - exists M', ks'. split; [done|]. intros y Hy. by apply not_elem_of_nil in Hy.
Qed.

(** One that has timed out. *)
Lemma flowing_resent n expired window ring a k w :
  let s := nth (in_flight_index window k) ring no_packet in
  sinv config F n (k :: expired) window ring a -> k ∈ unacked a -> NoDup (k :: expired) ->
  flowing (k :: expired) a ring w ->
  attempts s < max_retries config /\
  exists r A B, served (wire s) r A B /\ healthy (far w) /\ A (server w) (far w) /\
    forall w', carried_over r A B w w' ->
      flowing expired (window_arm k (clock w' + rto_ticks config) a)
        (<[in_flight_index window k := {| wire := wire s; attempts := attempts s + 1 |}]> ring) w'.
Proof.
  intros s Hi Hk Hnd (M & ks & Hf & Hp). destruct (flow_room _ _ _ _ _ _ _ _ Hi Hf) as [Hks Hbase].
  destruct (sinv_capacity config F Hs _ _ _ _ _ Hi) as [Hcap Hr]. pose proof Hi as []. pose proof sinv_window as [Ht Hlow].
  pose proof Ht as []. pose proof Hf as []. pose proof (proj1 (ref_unacked k) Hk) as [Hrange _].
  assert (k ∉ ks) as Hnew by (apply Hp; left).
  assert (attempts s + losses (fates w) <= budget) as Hatt.
  { specialize (flw_attempts0 k Hk). rewrite decide_False in flw_attempts0 by done. subst s. unfold slot, in_flight_index in *.
    rewrite Hcap. lia. }
  pose proof (losses_nonnegative (fates w)). split; [lia|].
  exists (reply_with kAck k), (stage M), (stage ({[k]} ∪ M)).
  split; [unfold s; rewrite (sinv_wire k Hk); apply data_served; [lia|]; intros j Hj; apply Hbase; lia|].
  split; [apply flw_sound0|]. split; [done|]. intros w' Hcarry.
  destruct (flow_launched a ring (window_arm k (clock w' + rto_ticks config) a)
    (<[in_flight_index window k := {| wire := wire s; attempts := attempts s + 1 |}]> ring) M ks k w w')
    as (M' & ks' & Hf' & Hks'); try done.
  - simpl. set_solver.
  - by apply (room_below ks (base_ window) k); [..|lia].
  - rewrite (ring_update config window ring (base_ window)) by (done || lia). rewrite decide_True by done. simpl. lia.
  - intros y Hy Hne. apply ref_unacked in Hy as [Hy _].
    rewrite (ring_update config window ring (base_ window)) by (done || lia). by rewrite decide_False by congruence.
  - exists M', ks'. split; [done|]. intros y Hy Hin. apply NoDup_cons in Hnd as [Hkx _].
    destruct (Hks' y Hin) as [Hin'| ->]; [|done]. by apply (Hp y); [right|].
Qed.

(** The next acknowledgement is read. *)
Lemma flow_acknowledged a ring M k ks w w' :
  flow a ring M (k :: ks) w -> sound w' -> far w' = far w -> server w' = server w -> fates w' = fates w ->
  waiting w' = map (fun k => ack_wire k) ks -> clock w' = clock w + delay (c:=c) ->
  flow (window_ack k a) ring M ks w'.
Proof.
  intros [] Hw' Hu Hv Hl Hq Hc. apply NoDup_cons in flw_once0 as [Hk Hnd].
  split; rewrite ?Hu, ?Hv, ?Hl, ?Hc; try done; simpl.
  - intros y Hy. destruct (flw_outstanding0 y (list_elem_of_further _ _ _ Hy)). set_solver.
  - intros y Hy Hn. destruct (decide (y = k)) as [->|]; [by apply flw_outstanding0; left|]. apply flw_acked0; set_solver.
  - intros j y d Hj Hd. apply lookup_delete_Some in Hd as [_ Hd]. pose proof (flw_timely0 (S j) y d Hj Hd). nia.
  - intros y Hy. apply elem_of_difference in Hy as [Hy Hne]. rewrite elem_of_singleton in Hne.
    specialize (flw_attempts0 y Hy). rewrite (decide_ext _ (y ∈ k :: ks)); [done|]. set_solver.
Qed.

(** ** The main loop *)

Lemma read_sound w k :
  sound w -> 0 <= k < total ->
  let offset := u64 (k * chunk_size config) in
  let remaining := u64 (Z.of_nat (length F) - offset) in
  let want := if remaining <? chunk_size config then remaining else chunk_size config in
  let '(w', r) := read_at f (Z.to_nat want) offset w in
  sound w' /\ apart w w' /\ offset = k * chunk_size config /\ r = inl (chunk F cs (Z.to_nat k)) /\
  length (chunk F cs (Z.to_nat k)) = Z.to_nat want.
Proof.
  intros (Hn & Ho & Hu) Hk. pose proof (read_chunk config F f i Hs w k Ho Hfd Hk) as Hr. cbv zeta in *.
  set (want := if _ <? _ then _ else _) in *. pose proof (chunk_position config F Hs k Hk) as Hpos.
  pose proof (length_chunk F cs (Z.to_nat k)) as Hlen. pose proof Hs as []. unfold kMaxPayloadSize in *.
  pose proof (read_at_related apart (fun fd n off w => on_near_apart (sys_pread fd n off) w) f (Z.to_nat want)
    (u64 (k * chunk_size config)) w) as Hap.
  destruct (read_at f (Z.to_nat want) (u64 (k * chunk_size config)) w) as [w' r] eqn:Hread.
  destruct Hr as (_ & Hoff & Hwant & Hbs).
  pose proof (read_at_ok f (Z.to_nat want) (u64 (k * chunk_size config)) i F w Hn Ho Hfd) as Hok.
  rewrite Hread, Hoff in Hok. destruct Hok as (Hn' & Hv' & Hr); [lia|lia|].
  assert (sound w') as Hw'.
  { split_and!; [done|change (opened (view w') (fd_ f) i F); by rewrite Hv'|]. unfold apart, far_end in Hap.
    injection Hap as -> _ _ _ _. done. }
  split_and!; [done|done|done| |done]. rewrite Hr in *. by rewrite Hbs.
Qed.

Lemma line_fill fuel n window ring a :
  sinv config F n [] window ring a -> (Z.to_nat (cap - (next_sequence_ window - base_ window)) < fuel)%nat ->
  n + Z.of_nat fuel < 2 ^ 64 ->
  triple (flowing [] a ring) (fill sock destination config fuel f (Z.of_nat (length F)) total window ring)
    (fun wr w => exists a', (sinv config F (n + Z.of_nat fuel) [] wr.1 wr.2 a' /\
       (can_send wr.1 = true -> total <= next_sequence_ wr.1)) /\ flowing [] a' wr.2 w) never always.
Proof.
  revert n window ring a. induction fuel as [|fuel IH]; intros n window ring a Hi Hf Hn; [lia|]. cbn [fill].
  assert (sinv config F (n + Z.of_nat (S fuel)) [] window ring a) as Hi0 by (eapply sinv_mono; [done|lia]).
  destruct (can_send window) eqn:Hc; simpl andb; cbv iota.
  2:{ apply triple_ret. intros w Hw. exists a. split; [|done]. split; [done|simpl; congruence]. }
  destruct (next_sequence_ window <? total) eqn:Hlt; bool_to_prop.
  2:{ apply triple_ret. intros w Hw. exists a. split; [|done]. split; [done|simpl; lia]. }
  pose proof Hi as []. pose proof sinv_window as [Ht Hlow]. pose proof Ht as [].
  set (k := next_sequence_ window) in *. cbv zeta.
  eapply (triple_bind _ _ _ (fun r w => (r = inl (chunk F cs (Z.to_nat k)) /\ u64 (k * chunk_size config) = k * chunk_size config /\ _) /\ flowing [] a ring w)).
  { apply triple_sys. intros w (M & ks & Hfl & Hp). pose proof (read_sound w k (flw_sound _ _ _ _ _ Hfl) ltac:(lia)) as Hr.
    cbv zeta in Hr. destruct (read_at _ _ _ w) as [w' r]. destruct Hr as (Hw' & Hap & Hoff & -> & Hl). split; [split_and!; [done|done|exact Hl]|].
    exists M, ks. split; [by eapply flow_apart|done]. }
  intros r. apply triple_prop. intros (-> & Hoff & ->). rewrite Nat.eqb_refl. simpl negb. cbv iota. rewrite Hoff.
  change (serialize _ _) with (data_wire config F k). cbn [wire].
  eapply triple_bind.
  { apply (line_send _ (fun w => flowing [] (window_sent (clock w + rto_ticks config) a)
      (<[in_flight_index window k := {| wire := data_wire config F k; attempts := 1 |}]> ring) w)).
    - apply data_wire_short. lia.
    - intros w Hw. by apply (flowing_sent n). }
  intros sent. apply triple_prop. intros ->. simpl negb. cbv iota.
  apply (triple_bind _ _ _ (fun now w => flowing [] (window_sent (now + rto_ticks config) a)
    (<[in_flight_index window k := {| wire := data_wire config F k; attempts := 1 |}]> ring) w)); [by apply triple_sys|].
  intros now. pose proof (sinv_sent config F Hs n window ring a (now + rto_ticks config) Hi Hc Hlt ltac:(lia)) as Hi'.
  replace (n + Z.of_nat (S fuel)) with (n + 1 + Z.of_nat fuel) by lia.
  apply IH; [exact Hi'| |lia]. cbn [on_sent next_sequence_ base_ set_next set_timers set_slot]. fold k.
  destruct (sinv_capacity config F Hs _ _ _ _ _ Hi) as [Hcap _]. pose proof Hs as [].
  rewrite wrap_small by (unfold fits; lia).
  rewrite (can_send_spec _ _ _ sinv_window), <- Hlow in Hc. bool_to_prop. lia.
Qed.

Lemma line_retransmit expired n window ring a :
  sinv config F n expired window ring a -> Forall (fun k => k ∈ unacked a) expired -> NoDup expired ->
  n + Z.of_nat (length expired) < 2 ^ 64 ->
  triple (flowing expired a ring) (retransmit sock destination config expired window ring)
    (fun wr w => exists a', sinv config F (n + Z.of_nat (length expired)) [] wr.1 wr.2 a' /\ flowing [] a' wr.2 w) never always.
Proof.
  revert n window ring a. induction expired as [|k expired IH]; intros n window ring a Hi Hex Hnd Hn; cbn [retransmit].
  { apply triple_ret. intros w Hw. exists a. by rewrite Z.add_0_r. }
  inversion_clear Hex as [|? ? Hk Hex']. simpl in Hn. set (s := nth (in_flight_index window k) ring no_packet).
  apply (triple_fact (attempts s < max_retries config)); [intros w Hw; by apply (flowing_resent n expired window ring a k w)|].
  intros Hatt. rewrite (proj2 (Z.leb_gt _ _)) by done. do 2 apply counting. cbn [wire].
  eapply triple_bind.
  { apply (line_send _ (fun w => flowing expired (window_arm k (clock w + rto_ticks config) a)
      (<[in_flight_index window k := {| wire := wire s; attempts := attempts s + 1 |}]> ring) w)).
    - unfold s. rewrite (sinv_wire _ _ _ _ _ _ _ Hi k Hk). apply data_wire_short.
      pose proof (sinv_unacked _ _ _ _ _ _ _ k Hi Hk). lia.
    - intros w Hw. by apply (flowing_resent n). }
  intros sent. apply triple_prop. intros ->. simpl negb. cbv iota.
  apply (triple_bind _ _ _ (fun now w => flowing expired (window_arm k (now + rto_ticks config) a)
    (<[in_flight_index window k := {| wire := wire s; attempts := attempts s + 1 |}]> ring) w)); [by apply triple_sys|].
  intros now. replace (n + Z.of_nat (length (k :: expired))) with (n + 1 + Z.of_nat (length expired)) by (simpl; lia).
  apply NoDup_cons in Hnd as [_ Hnd]. apply IH; [by apply (sinv_resent config F Hs n window ring a k expired); [..|lia]|done|done|lia].
Qed.

Lemma line_take_ack n window ring a :
  sinv config F n [] window ring a -> n + 1 < 2 ^ 64 ->
  triple (flowing [] a ring) (take_ack sock window)
    (fun window' w => exists a', sinv config F (n + 1) [] window' ring a' /\ flowing [] a' ring w) never always.
Proof.
  intros Hi Hn. unfold take_ack.
  apply (triple_bind _ _ _ (fun r w => (r = inr EAGAIN /\ flowing [] a ring w) \/
    exists k, (k ∈ unacked a /\ exists from, r = inl (take receive_size (ack_wire k), from)) /\ flowing [] (window_ack k a) ring w)).
  { apply triple_sys. intros w (M & ks & Hf & _). pose proof (flw_sound _ _ _ _ _ Hf) as Hw.
    unfold recv_from. rewrite Hsock. cbn [negb sys_recvfrom link_network]. unfold link_receive.
    destruct ks as [|k ks]; rewrite (flw_waiting _ _ _ _ _ Hf); cbn [map].
    - left. split; [done|]. exists M, []. split; [|by intros ? ?%not_elem_of_nil]. destruct Hf. split; try done.
    - right. exists k. split; [split; [apply (flw_outstanding _ _ _ _ _ Hf); left|by eexists]|].
      exists M, ks. split; [|by intros ? ?%not_elem_of_nil]. by eapply flow_acknowledged. }
  intros r. apply triple_or.
  { apply triple_prop. intros ->. apply triple_ret. intros w Hw. exists a. split; [eapply sinv_mono; [done|lia]|done]. }
  apply triple_ex. intros k (Hk & from & ->). cbv iota. apply counting.
  pose proof (sinv_unacked _ _ _ _ _ _ _ k Hi Hk) as Hrange. pose proof Hs as [].
  destruct (reply_read kAck k receive_size) as (p & Hp & Hty & _ & Hack); [unfold fits; lia|unfold receive_size; lia|].
  set (d := take receive_size (ack_wire k)) in *. clearbody d. cbv zeta. rewrite Hp.
  change (ok (success p)) with true. change (value (success p)) with p.
  rewrite Hty, Hack, bool_decide_true by done. simpl andb. cbv iota.
  pose proof (sinv_acked config F Hs n window ring a k Hi Hn) as Hi'. rewrite bool_decide_true in Hi' by done.
  destruct (on_ack k window) as [window' retired]. simpl in Hi'.
  destruct retired; simpl negb; cbv iota; [|apply counting]; apply triple_ret; intros w Hw; by exists (window_ack k a).
Qed.

(** The timers that are due are those of packets whose acknowledgements were lost. *)
Lemma flowing_expired now a ring l w :
  due now a l -> now = clock w -> flowing [] a ring w -> flowing l (window_expired now a) ring w.
Proof.
  intros (_ & Hl & _) -> (M & ks & [] & _). exists M, ks. split.
  - split; try done. intros j k d Hj [Hd _]%map_lookup_filter_Some. by eapply flw_timely0.
  - intros k Hk Hin. apply Hl in Hk as (d & Hd & Hle). apply list_elem_of_lookup_1 in Hin as [j Hj].
    specialize (flw_timely0 j k d Hj Hd). pose proof (Z.le_max_l 1 (latency c)) as H1. fold (delay (c:=c)) in H1. nia.
Qed.

(** Every chunk is stored. *)
Definition stored_all (v : Server) (u : W2) : Prop := exists M, (forall k, 0 <= k < total -> k ∈ M) /\ stage M v u.

Lemma flowing_done a ring w :
  unacked a = ∅ -> total <= upcoming a -> flowing [] a ring w -> poised stored_all [] budget w.
Proof.
  intros Hu Hup (M & ks & [] & _). split; [done|]. split; [exists M; split; [|done]|].
  - intros k Hk. apply flw_acked0; [lia|]. rewrite Hu. set_solver.
  - split; [|done]. rewrite flw_waiting0. destruct ks as [|k ks]; [done|]. exfalso.
    destruct (flw_outstanding0 k ltac:(left)) as [Hk _]. rewrite Hu in Hk. set_solver.
Qed.

Lemma line_main_loop fuel n window ring a :
  sinv config F n [] window ring a -> n + Z.of_nat fuel * (3 * cap + 3) < 2 ^ 64 ->
  triple (flowing [] a ring) (main_loop sock destination config fuel f (Z.of_nat (length F)) total window ring)
    (fun _ => poised stored_all [] budget) never always.
Proof.
  revert n window ring a. induction fuel as [|fuel IH]; intros n window ring a Hi Hn; cbn [main_loop]; [by apply triple_spin|].
  destruct (sinv_capacity config F Hs _ _ _ _ _ Hi) as [Hcap Hr].
  destruct (base_ window <? total) eqn:Hbase; bool_to_prop.
  2:{ apply triple_ret. intros w Hw. pose proof Hi as []. pose proof (ref_range _ _ _ sinv_window). pose proof (ref_next _ _ _ sinv_window).
      apply (flowing_done a ring); [|lia|done]. apply set_eq. intros k. split; [|set_solver]. intros Hk.
      pose proof (sinv_unacked _ _ _ _ _ _ _ k Hi Hk). lia. }
  rewrite Hcap. eapply triple_bind.
  { apply (line_fill (S (Z.to_nat cap)) n window ring a Hi); [|lia].
    pose proof Hi as []. pose proof (ref_range _ _ _ sinv_window). lia. }
  intros [window1 ring1]. cbv beta iota. apply triple_ex. intros a1 [Hi1 Hfull]. cbn [fst snd] in *.
  pose proof Hi1 as []. pose proof (earliest_deadline_refines _ window1 a1 sinv_window) as Hd.
  destruct (earliest_deadline window1) as [window2 o]. destruct Hd as [Ho Hr2].
  pose proof (sinv_same _ _ _ _ window2 _ _ Hi1 Hr2) as Hi2.
  destruct o as [dl|].
  2:{ apply triple_ret. intros w Hw.
      assert (unacked a1 = ∅) as Hempty.
      { apply set_eq. intros k. split; [|set_solver]. intros Hk.
        destruct (sinv_armed k Hk ltac:(apply not_elem_of_nil)) as [d Hkd]. by rewrite Ho in Hkd. }
      apply (flowing_done a1 ring1); [done| |done]. rewrite <- (ref_next _ _ _ sinv_window). apply Hfull.
      rewrite (can_send_spec _ _ _ sinv_window). apply bool_decide_eq_true.
      rewrite Hempty. unfold lowest. rewrite elements_empty. simpl. rewrite sinv_span. lia. }
  apply (triple_bind _ _ _ (fun _ => flowing [] a1 ring1)); [by apply triple_sys|]. intros now. cbv zeta.
  apply (triple_bind _ _ _ (fun armed w => armed = true /\ flowing [] a1 ring1 w)).
  { apply triple_sys. intros w Hw. destruct (timeout_set (Z.quot (Z.max 0 (dl - now)) 1000) w) as [q ->]. split; [done|].
    eapply flowing_apart; [exact Hw| |done]. destruct Hw as (M & ks & Hf & _). exact (flw_sound _ _ _ _ _ Hf). }
  intros armed. apply triple_prop. intros ->. simpl negb. cbv iota.
  eapply triple_bind; [apply (line_take_ack _ window2 ring1 a1 Hi2); lia|]. intros window3. apply triple_ex. intros a3 Hi3.
  apply (triple_bind _ _ _ (fun now w => now = clock w /\ flowing [] a3 ring1 w)); [by apply triple_sys|]. intros now'.
  pose proof (sinv_expired config F Hs _ window3 ring1 a3 now' Hi3 ltac:(lia)) as Hx.
  destruct (expire now' window3) as [window4 expired]. destruct Hx as (Hi4 & Hun & Hlen & Hdue).
  apply (triple_pre _ (flowing expired (window_expired now' a3) ring1)); [|intros w [? ?]; by apply flowing_expired].
  eapply triple_bind; [apply (line_retransmit expired _ window4 ring1 _ Hi4); [done|apply Hdue|lia]|].
  intros [window5 ring5]. cbv beta iota. apply triple_ex. intros a5 Hi5. cbn [fst snd] in *.
  apply (IH _ window5 ring5 a5 Hi5). lia.
Qed.

(** ** The whole of [send_file] *)

Abbreviation at_stage st := (stands (far_config c) config F peer st).

Lemma start_served :
  served (serialize (make_header kStart sid 0 0 (Z.of_nat (length F))) (remote_name config)) (reply_with kStartAck 0)
    (fun v u => at_stage Unknown v u \/ at_stage (Storing ∅) v u) (at_stage (Storing ∅)).
Proof.
  intros v u0 u Hview Hu Hst.
  assert (at_stage Unknown v u \/ at_stage (Storing ∅) v u) as Hst' by (destruct Hst; [left|right]; by eapply stands_view).
  pose proof Hs as []. destruct (wire_decodes (make_header kStart sid 0 0 (Z.of_nat (length F))) (remote_name config)) as [Hd _];
    [apply make_header_wf; unfold fits; [done|lia|done|lia]|done|done|].
  by eapply (answers_start_datagram (far_socket c) (far_config c) config F peer (near_address c) Hfar Hpeer Hb Hmax Hname _ _ v u Hu Hd).
Qed.

Lemma fin_served :
  served (serialize (make_header kFin sid total 0 (Z.of_nat (length F))) (sha256 F)) (reply_with kFinAck total)
    (fun v u => stored_all v u \/ at_stage Confirmed v u) (at_stage Confirmed).
Proof.
  intros v u0 u Hview Hu Hst.
  assert (stored_all v u \/ at_stage Confirmed v u) as Hst'.
  { destruct Hst as [(M & ? & Hst)|Hst]; [left; exists M; split; [done|]|right]; by eapply stands_view. }
  pose proof Hs as []. destruct (wire_decodes (make_header kFin sid total 0 (Z.of_nat (length F))) (sha256 F)) as [Hd _].
  - apply make_header_wf; unfold fits; [done|lia|done|lia].
  - done.
  - by rewrite length_sha256.
  - by eapply (answers_fin_datagram (far_socket c) (far_config c) config F peer (near_address c) Hfar Hpeer Hb _ _ v u Hu Hd).
Qed.

Lemma control_wire_short t k payload :
  fits 32 k -> Z.of_nat (length payload) <= kMaxPayloadSize ->
  (length (serialize (make_header t sid k 0 (Z.of_nat (length F))) payload) <= server_buffer)%nat.
Proof.
  intros Hk Hp. pose proof Hs as [].
  destruct (serialize_fields (make_header t sid k 0 (Z.of_nat (length F))) payload) as (_ & _ & _ & ->);
    [apply make_header_wf; unfold fits in *; [done|lia|done|lia]|done|]. unfold server_buffer. lia.
Qed.

Lemma poised_apart A queue n w w' : poised A queue n w -> sound w' -> apart w w' -> poised A queue n w'.
Proof.
  intros (_ & HA & Hq & Hl) Hw' Hap. unfold apart, far_end in Hap. injection Hap as Hu Hv Hq' Hf _.
  split; [done|]. by rewrite Hu, Hv, Hq', Hf.
Qed.

Lemma sound_near w w' : sound w -> healthy w' -> view w' = view w -> apart w w' -> sound w'.
Proof.
  intros (_ & Ho & Hu) Hn Hv Hap. unfold apart, far_end in Hap. injection Hap as Hu' _ _ _ _.
  split; [done|]. split; [change (opened (view w') (fd_ f) i F); by rewrite Hv|by rewrite Hu'].
Qed.

Lemma size_sound w : sound w -> let '(w', r) := size f w in sound w' /\ apart w w' /\ r = inl (Z.of_nat (length F)).
Proof.
  intros Hw. pose proof Hs as []. destruct Hw as (Hn & Ho & Hu).
  pose proof (size_ok f i F w Hn Ho Hfd snd_size) as Hok.
  assert (apart w (size f w).1) as Hap.
  { unfold size. destruct (negb (valid f)); [done|]. pose proof (on_near_apart (sys_fstat_size (fd_ f)) w) as Hap.
    cbn [sys_fstat_size link_posix]. by destruct (on_near _ w) as [w' []]. }
  destruct (size f w) as [w' r]. destruct Hok as (Hn' & Hv & ->). split; [|done]. by apply (sound_near w).
Qed.

Lemma hash_sound w :
  sound w -> let '(w', r) := hash_file f (Z.of_nat (length F)) w in sound w' /\ apart w w' /\ r = Some (sha256 F).
Proof.
  intros Hw. pose proof Hs as []. pose proof Hw as (Hn & Ho & Hu).
  pose proof (hash_file_spec config F f i Hs w Ho Hfd) as Hspec.
  pose proof (hash_file_related apart (fun fd n off w => on_near_apart (sys_pread fd n off) w) f (Z.of_nat (length F)) w) as Hap.
  unfold hash_file in *.
  pose proof (hash_back_ok (hash_fuel (Z.of_nat (length F))) f (Z.of_nat (length F)) 0 new_hasher i F w Hn Ho Hfd
    ltac:(lia) ltac:(lia) snd_size) as Hok.
  destruct (hash_back _ _ _ _ _ w) as [w' r]. destruct Hok as [Hn' [h ->]]. destruct Hspec as [(Hv & _) Hd].
  split; [by apply (sound_near w)|]. by rewrite Hd.
Qed.

Lemma flowing_start w : poised (at_stage (Storing ∅)) [] budget w -> forall ring, flowing [] (idle cap) ring w.
Proof.
  intros (Hw & Hst & Hq & Hl) ring. exists ∅, []. split; [|by intros ? ?%not_elem_of_nil].
  split; simpl; try done; try lia; try set_solver. apply NoDup_nil_2.
Qed.

Lemma line_send_opened fuel :
  Z.of_nat fuel * (3 * cap + 3) < 2 ^ 64 ->
  triple (poised (at_stage Unknown) [] budget) (send_opened (Q:=Q) sock destination config fuel f)
    (fun e w => e = Transfer.kNone /\ at_stage Confirmed (server w) (far w)) never always.
Proof.
  intros Hfuel. pose proof Hs as []. unfold send_opened, conclude. pose proof (losses_nonnegative []) as Hzero.
  apply (triple_bind _ _ _ (fun r w => r = inl (Z.of_nat (length F)) /\ poised (at_stage Unknown) [] budget w)).
  { apply triple_sys. intros w Hw. pose proof (size_sound w (proj1 Hw)) as Hsz. destruct (size f w) as [w' r].
    destruct Hsz as (? & ? & ->). split; [done|by eapply poised_apart]. }
  intros r. apply triple_prop. intros ->. rewrite (chunk_count_total config F Hs).
  apply (triple_bind _ _ _ (fun r w => r = Some (sha256 F) /\ poised (at_stage Unknown) [] budget w)).
  { apply triple_sys. intros w Hw. pose proof (hash_sound w (proj1 Hw)) as Hh. destruct (hash_file f _ w) as [w' r].
    destruct Hh as (? & ? & ->). split; [done|by eapply poised_apart]. }
  intros r. apply triple_prop. intros ->.
  apply (triple_bind _ _ _ (fun _ => poised (at_stage Unknown) [] budget)); [by apply triple_sys|]. intros started.
  eapply triple_bind.
  { apply (triple_pre _ (poised (fun v u => at_stage Unknown v u \/ at_stage (Storing ∅) v u) [] budget)).
    2:{ intros w (? & ? & ? & ?). split_and!; try done. by left. }
    apply (line_control fuel _ kStartAck 0 budget _ (at_stage (Storing ∅))); [done|done|lia| | |apply start_served].
    - by apply control_wire_short.
    - by right. }
  intros e. apply triple_prop. intros ->. rewrite bool_decide_false, bool_decide_true by done. simpl negb. cbv iota zeta.
  eapply triple_bind.
  { set (window := new_sender_window (window_size config)). set (ring := replicate _ _).
    apply (triple_pre _ (flowing [] (idle cap) ring)); [|intros w Hw; by apply flowing_start].
    apply (line_main_loop fuel 0 window); [apply (new_window_sinv config F Hs)|lia]. }
  intros []. apply counting. rewrite (wrap_small 32 total) by (unfold fits; lia).
  eapply triple_bind.
  { apply (triple_pre _ (poised (fun v u => stored_all v u \/ at_stage Confirmed v u) [] budget)).
    2:{ intros w (? & ? & ? & ?). split_and!; try done. by left. }
    apply (line_control fuel _ kFinAck total budget _ (at_stage Confirmed)); [unfold fits; lia|done|lia| | |apply fin_served].
    - apply control_wire_short; [unfold fits; lia|]. by rewrite length_sha256.
    - by right. }
  intros e. apply triple_prop. intros ->. rewrite bool_decide_true by done. simpl negb. cbv iota.
  apply (triple_bind _ _ _ (fun _ w => at_stage Confirmed (server w) (far w))); [apply triple_sys; by intros w (_ & ? & _)|].
  intros now. apply counting, triple_ret. by split.
Qed.
End Lossy.

(** ** Claims *)

Section Claims.
Context {c : Wiring} {W1 : Type} `{OSL1 : PosixLaws W1} `{HF1 : !HealthyFiles W1}.
Context {W2 : Type} `{AR2 : Arrivals W2} `{HN2 : !HealthyNetwork W2}.
Context {Q : Type} `{PQL : PriorityQueueLaws Entry entry_less Q}.
Implicit Types (w : Link c W1 W2).

Abbreviation capacity config := (if window_size config =? 0 then 1 else window_size config).

(** The sender's socket and destination, and the server, fit the line; the sender's
    window is no wider than the server's, and can be acknowledged, reply by reply,
    within a retransmission timeout. *)
Record suited (config : SenderConfig) (F : list byte) (sock : UdpSocket) (destination : Endpoint) : Prop := {
  sut_socket : socket_valid sock = true;
  sut_destination : to_sockaddr destination = Some (far_address c);
  sut_server : socket_valid (far_socket c) = true;
  sut_address : fits 16 (sin_port (near_address c)) /\ fits 32 (sin_addr (near_address c));
  sut_sendable : sendable config F;
  sut_bounded : Delivery.bounded F (Z.to_nat (chunk_size config)) (server_window_size (far_config c));
  sut_sessions : 0 < max_sessions (far_config c);
  sut_name : (sanitize_filename (remote_name config)).1 = Filename.kNone;
  sut_reliable : SpecFloat.SFleb (loss_probability config) dzero = true;
  sut_window : capacity config <= Z.max 1 (server_window_size (far_config c));
  sut_patient : capacity config * delay (c:=c) < rto_ticks config
}.

(** C4: losses do not stop a transfer.  Let a sender and a server, both in good
    health, be joined by a line that loses any datagrams it likes, requests or replies,
    fewer than the transmissions a chunk is allowed.  Then [send_file] returns, and
    what it returns is success, and the file is in the server's directory, under the
    sanitised name, byte for byte. *)
Theorem lossy_transfer_completes config F sock destination fuel p w st i :
  suited config F sock destination ->
  names (view (near w)) !! p = Some i -> data (view (near w)) !! i = Some F ->
  healthy (near w) -> healthy (far w) -> sessions (server w) = [] -> waiting w = [] ->
  losses (fates w) < max_retries config ->
  (turns_enough (W:=Link c W1 W2) config F <= fuel)%nat -> Z.of_nat fuel * (3 * capacity config + 3) < 2 ^ 64 ->
  let '(w', _, r) := send_file (Q:=Q) sock destination config fuel p w st in
  r = Some Transfer.kNone /\ exists out, arrived config F (server_directory (far_config c)) out (far w').
Proof.
  intros [] Hp Hd Hn Hu Hv Hq Hlost Hturns Hfuel. pose proof sut_sendable0 as [].
  pose proof (send_file_ends (Q:=Q) sock destination config F fuel p w st i snd_window snd_size Hp Hd Hturns Hfuel) as [e He].
  revert He. unfold send_file, open_read, open_with, valid. simpl. rewrite on_near_spec.
  pose proof (law_open p O_RDONLY (near w)) as Hl. pose proof (ok_open p O_RDONLY (near w) Hn ltac:(by eexists)) as Hok.
  destruct (sys_open p O_RDONLY (near w)) as [u r]. destruct Hok as [Hun [fd ->]].
  destruct Hl as (Hfd & _ & j & Hj & Hview). rewrite Hp in Hj. injection Hj as <-. simpl.
  rewrite (proj2 (Z.leb_le _ _)) by done. simpl.
  assert (1 <= capacity config) as Hcap by (destruct (window_size config =? 0) eqn:E; bool_to_prop; lia).
  pose proof (Z.le_max_l 1 (latency c)) as Hdelay. fold (delay (c:=c)) in Hdelay.
  pose proof (triple_run _ (set_near u w) (locals config st) _ _ _ _ _
    (line_send_opened (Q:=Q) config F sut_server0 sock destination sut_socket0 sut_destination0 {| fd_ := fd |} i Hfd sut_sendable0
       ltac:(nia) (endpoint_round_trip _ (proj1 sut_address0) (proj2 sut_address0)) sut_bounded0 sut_sessions0
       sut_name0 sut_window0 sut_patient0 (losses (fates w)) Hlost fuel Hfuel)) as Ht.
  assert (poised F {| fd_ := fd |} i (stands (far_config c) config F (from_sockaddr (near_address c)) Unknown) []
    (losses (fates w)) (set_near u w)) as Hready.
  { split; [|by split_and!]. split; [done|]. split; [|done]. simpl. rewrite Hview. split; [apply lookup_insert_eq|done]. }
  specialize (Ht Hready sut_reliable0). destruct (send_opened _ _ _ _ _ _ _) as [[w2 st2] [e'|e'|]]; [|destruct Ht|intros [=]].
  destruct Ht as [-> Hst]. intros _. split; [done|]. cbn [fst].
  assert (far (close {| fd_ := fd |} w2).1 = far w2) as -> by (unfold close; by destruct (valid _)).
  by eapply confirmed_arrived.
Qed.
End Claims.
