(* ===== verification/Simnet.v ===== *)
(** * A network

    One implementation of the interface of Net.v, on top of the disk of Disk.v:
    a script says what arrives, when a wait times out and when a signal breaks it;
    a wait that times out lasts as long as SO_RCVTIMEO says, every receive a
    microsecond at least.  The witnesses of
    SenderSpec.v and Receiver.v run a whole transfer on it, the receiver fed with
    what the sender sent. *)

From S2P Require Import Prelude Words Doubles Packet Wire Transfer PriorityQueue SenderWindow FileIO Disk Net Monad Filename ReceiverSession Receiver Sender SenderLoss SenderSpec EndToEnd SenderTerm.
Import Packet.Packet.
Open Scope Z_scope.

(** What the next receive meets. *)
Inductive Arrival := Sent_by (peer : sockaddr_in) (bytes : list byte) | Silence | Signal.

Record Sim := {
  sim_disk : Disk;
  sent : list (list byte * sockaddr_in);
  taken : list (list byte * sockaddr_in);
  script : list Arrival;
  clock : Z;
  patience : Z  (* SO_RCVTIMEO, in microseconds *)
}.

Definition on_disk {A} (g : Disk -> Disk * A) (s : Sim) : Sim * A :=
  let '(d, a) := g (sim_disk s) in
  ({| sim_disk := d; sent := sent s; taken := taken s; script := script s; clock := clock s;
      patience := patience s |}, a).

Definition sim_peer : sockaddr_in := {| sin_port := 0x901F; sin_addr := 0x7F000001 |}.
Abbreviation Datagram := (Sent_by sim_peer).

Definition sim_receive (size : nat) (s : Sim) : Sim * (list byte * sockaddr_in + Z) :=
  let after taken t := {| sim_disk := sim_disk s; sent := sent s; taken := taken;
                          script := tail (script s); clock := clock s + t; patience := patience s |} in
  match default Silence (head (script s)) with
  | Sent_by a bytes => (after (taken s ++ [(take size bytes, a)]) 1000, inl (take size bytes, a))
  | Silence => (after (taken s) (Z.max 1000 (patience s * 1000)), inr EAGAIN)
  | Signal => (after (taken s) 1000, inr EINTR)
  end.

#[export] Instance sim_posix : Posix Sim := {
  sys_open p mode := on_disk (sys_open p mode);
  sys_close fd s := (on_disk (fun d => (sys_close fd d, tt)) s).1;
  sys_pread fd n off := on_disk (sys_pread fd n off);
  sys_pwrite fd bs off := on_disk (sys_pwrite fd bs off);
  sys_fsync fd := on_disk (sys_fsync fd);
  sys_fstat_size fd := on_disk (sys_fstat_size fd);
  sys_rename p q := on_disk (sys_rename p q);
  sys_unlink p := on_disk (sys_unlink p);
  interruptions s := interruptions (sim_disk s)
}.

#[export] Instance sim_network : Network Sim := {
  sys_socket s := (s, inl 3);
  sys_bind _ _ s := (s, true);
  sys_set_rcvtimeo _ sec usec s :=
    ({| sim_disk := sim_disk s; sent := sent s; taken := taken s; script := script s; clock := clock s;
        patience := sec * 1000000 + usec |}, true);
  sys_getfl _ s := (s, 2);
  sys_setfl _ _ s := (s, true);
  sys_sendto _ bytes a s :=
    ({| sim_disk := sim_disk s; sent := sent s ++ [(bytes, a)]; taken := taken s; script := script s;
        clock := clock s; patience := patience s |}, inl (Z.of_nat (length bytes)));
  sys_recvfrom _ := sim_receive;
  sys_now s := (s, clock s)
}.

#[export] Instance sim_laws : PosixLaws Sim.
Proof.
  refine {| view s := view (sim_disk s) |}.
  - intros p mode s. pose proof (law_open p mode (sim_disk s)) as Hl. cbn [sys_open sim_posix]. unfold on_disk.
    destruct (sys_open p mode (sim_disk s)) as [d r]. exact Hl.
  - intros fd s. exact (law_close fd (sim_disk s)).
  - intros fd n off s. pose proof (law_pread fd n off (sim_disk s)) as Hl. cbn [sys_pread sim_posix]. unfold on_disk.
    destruct (sys_pread fd n off (sim_disk s)) as [d r]. exact Hl.
  - intros fd bs off s. pose proof (law_pwrite fd bs off (sim_disk s)) as Hl. cbn [sys_pwrite sim_posix]. unfold on_disk.
    destruct (sys_pwrite fd bs off (sim_disk s)) as [d r]. exact Hl.
  - intros fd s. exact (law_fsync fd (sim_disk s)).
  - intros fd s. pose proof (law_fstat fd (sim_disk s)) as Hl. cbn [sys_fstat_size sim_posix]. unfold on_disk.
    destruct (sys_fstat_size fd (sim_disk s)) as [d r]. exact Hl.
  - intros p q s. pose proof (law_rename p q (sim_disk s)) as Hl. cbn [sys_rename sim_posix]. unfold on_disk.
    destruct (sys_rename p q (sim_disk s)) as [d r]. exact Hl.
  - intros p s. pose proof (law_unlink p (sim_disk s)) as Hl. cbn [sys_unlink sim_posix]. unfold on_disk.
    destruct (sys_unlink p (sim_disk s)) as [d r]. exact Hl.
Defined.

Lemma on_disk_net {A} (g : Disk -> Disk * A) s :
  sent (on_disk g s).1 = sent s /\ taken (on_disk g s).1 = taken s.
Proof. unfold on_disk. by destruct (g (sim_disk s)). Qed.

#[export] Instance sim_network_laws : NetworkLaws Sim.
Proof.
  refine {| outbox := sent; inbox := taken |}; try done.
  all: intros; try apply on_disk_net.
  cbn [sys_recvfrom sim_network]. unfold sim_receive. by destruct (default _ _).
Defined.

Lemma on_disk_clock {A} (g : Disk -> Disk * A) s : clock (on_disk g s).1 = clock s.
Proof. unfold on_disk. by destruct (g (sim_disk s)). Qed.

#[export] Instance sim_clock_laws : ClockLaws Sim.
Proof.
  refine {| SenderTerm.clock := clock; tick := 1000 |}; intros.
  3:{ cbn [sys_recvfrom sim_network]. unfold sim_receive. destruct (default _ _); simpl; lia. }
  all: simpl; rewrite ?on_disk_clock; lia.
Defined.

(** ** A transfer *)

(** Five bytes in chunks of two through a window of two.  The first START is
    lost; chunk 1 is acknowledged before chunk 0, which times out and is sent
    again; junk, a signal and another session's FIN_ACK get in the way. *)
Definition demo_config : SenderConfig := {|
  chunk_size := 2; rto := 20; max_retries := 3; window_size := 2; loss_probability := dzero; seed := 0;
  config_session_id := 77; remote_name := str "copy" |}.

Definition demo_file : list byte := str "hello".

Definition reply_bytes (t : PacketType) (sid ack : Z) : list byte := serialize (make_header t sid 0 ack 0) [].

Definition demo_script : list Arrival := [
  Silence; Signal; Datagram (reply_bytes kStartAck 77 0);
  Datagram (reply_bytes kAck 77 1); Silence; Datagram (str "junk"); Datagram (reply_bytes kAck 77 0);
  Signal; Datagram (reply_bytes kAck 77 2);
  Datagram (reply_bytes kFinAck 78 3); Datagram (reply_bytes kFinAck 77 3)].

Definition demo_world : Sim := {|
  sim_disk := {| disk_view := {| names := {[str "in" := 7%nat]}; data := {[7%nat := demo_file]}; handles := ∅ |};
                 glitches := [Short 1; Interrupted; Short 0] |};
  sent := []; taken := []; script := demo_script; clock := 5000000; patience := 0 |}.

Definition demo_run : Sim * TransferStats * option TransferError :=
  send_file (Q:=sorted_queue entry_less) {| sock_fd := 3 |} {| address := str "127.0.0.1"; port := 8080 |}
    demo_config 20 (str "in") demo_world default_stats.

(** It succeeds after seven datagrams: two STARTs, four DATA and one FIN. *)
Example demo_succeeds :
  demo_run.2 = Some Transfer.kNone /\ length (sent demo_run.1.1) = 7%nat /\
  (packets_sent demo_run.1.2, retransmissions demo_run.1.2) = (7, 2).
Proof. split_and!; vm_compute; reflexivity. Qed.

Lemma demo_sendable : sendable demo_config demo_file.
Proof. split; (split; done) || done. Qed.

(** ** Witnesses of the claims of SenderSpec.v *)

Lemma demo_holds :
  names (view demo_world) !! str "in" = Some 7%nat /\ data (view demo_world) !! 7%nat = Some demo_file.
Proof. split; vm_compute; reflexivity. Qed.

Lemma sender_sends_only_honest_packets_witness :
  exists w st, demo_run = (w, st, Some Transfer.kNone) /\ view w = view demo_world /\
    Forall (fun d => transfer_wire demo_config demo_file d.1) (sent w).
Proof.
  pose proof (sender_sends_only_honest_packets (Q:=sorted_queue entry_less) {| sock_fd := 3 |}
    {| address := str "127.0.0.1"; port := 8080 |} demo_config demo_file 20 (str "in") demo_world default_stats 7
    demo_sendable (proj1 demo_holds) (proj2 demo_holds) ltac:(vm_compute; reflexivity)) as Hc.
  fold demo_run in Hc. pose proof demo_succeeds as [Hr _].
  destruct demo_run as [[w st] r]. simpl in Hr. subst r. destruct Hc as [(l & Ho & Hl) Hv].
  exists w, st. split; [reflexivity|]. split; [apply Hv; discriminate|].
  change (sent w) with (outbox w). rewrite Ho. change (outbox demo_world) with (@nil (list byte * sockaddr_in)).
  eapply Forall_impl; [exact Hl|]. intros d [Hd _]. exact Hd.
Defined.

Lemma success_means_acknowledged_witness :
  exists w st, demo_run = (w, st, Some Transfer.kNone) /\ completed demo_config demo_file demo_world w.
Proof.
  pose proof (success_means_acknowledged (Q:=sorted_queue entry_less) {| sock_fd := 3 |}
    {| address := str "127.0.0.1"; port := 8080 |} demo_config demo_file 20 (str "in") demo_world default_stats 7
    demo_sendable (proj1 demo_holds) (proj2 demo_holds) ltac:(vm_compute; reflexivity)) as Hc.
  fold demo_run in Hc. pose proof demo_succeeds as [Hr _].
  destruct demo_run as [[w st] r]. simpl in Hr. subst r.
  exists w, st. split; [reflexivity|]. exact (Hc eq_refl).
Defined.

(** The same file with half of the datagrams dropped, and every acknowledgement
    given: what is not dropped arrives. *)
Definition lossy_config : SenderConfig := {|
  chunk_size := 2; rto := 20; max_retries := 3; window_size := 2; loss_probability := ddiv (dint 1) (dint 2); seed := 7;
  config_session_id := 77; remote_name := str "copy" |}.

Definition lossy_world : Sim := {|
  sim_disk := sim_disk demo_world; sent := []; taken := [];
  script := [Silence; Datagram (reply_bytes kStartAck 77 0); Silence; Datagram (reply_bytes kAck 77 0);
    Datagram (reply_bytes kAck 77 1); Silence; Datagram (reply_bytes kAck 77 2); Datagram (reply_bytes kFinAck 77 3)];
  clock := 0; patience := 0 |}.

Abbreviation lossy_run :=
  (send_file (Q:=sorted_queue entry_less) {| sock_fd := 3 |} {| address := str "127.0.0.1"; port := 8080 |}
    lossy_config 20 (str "in") lossy_world default_stats).

Abbreviation losing_run :=
  (send_file (Q:=sorted_queue entry_less) {| sock_fd := 3 |} {| address := str "127.0.0.1"; port := 8080 |}
    (without_loss lossy_config) 20 (str "in") (losing lossy_config lossy_world) default_stats).

(** With this seed chunk 0 is lost twice, chunk 1 and FIN once. *)
Example lossy_run_losses :
  lossy_run.2 = Some Transfer.kNone /\
  map (fun x => let h := header (value (deserialize x.1)) in (packet_type h, sequence_number h)) (swallowed losing_run.1.1) =
    [(kData, 0); (kData, 0); (kData, 1); (kFin, 3)].
Proof. split; vm_compute; reflexivity. Qed.

Lemma loss_is_reproducible_witness :
  lossy_run.2 = Some Transfer.kNone /\ losing_run.2 = Some Transfer.kNone /\
  sent lossy_run.1.1 = sent (system losing_run.1.1) /\
  simulated_drops lossy_run.1.2 = Nat.iter 4 bump (simulated_drops losing_run.1.2).
Proof.
  pose proof lossy_run_losses as [Hr Hl].
  pose proof (loss_is_reproducible (Q:=sorted_queue entry_less) {| sock_fd := 3 |}
    {| address := str "127.0.0.1"; port := 8080 |} lossy_config {| sin_port := 0x901F; sin_addr := 0x7F000001 |}
    20 (str "in") lossy_world default_stats ltac:(vm_compute; reflexivity) ltac:(vm_compute; reflexivity)) as Hc.
  apply (f_equal length) in Hl. rewrite length_map in Hl.
  destruct lossy_run as [[w st] r], losing_run as [[d st'] r']. cbn [fst snd] in *. destruct Hc as (-> & -> & ->).
  split; [exact Hr|]. split; [exact Hr|]. split; [reflexivity|]. cbn [simulated_drops with_drops]. rewrite Hl. reflexivity.
Defined.

(** ** The receiving side *)

(** What the sender sent, a repeated chunk and START included, arriving at a
    receiver whose writes and reads come up short. *)
Definition receiving_world (arrivals : list Arrival) : Sim := {|
  sim_disk := {| disk_view := {| names := {[str "out/old" := 9%nat]}; data := {[9%nat := str "kept"]}; handles := ∅ |};
                 glitches := [Short 0; Interrupted; Whole; Short 0] |};
  sent := []; taken := []; script := arrivals; clock := 0; patience := 0 |}.

Definition receiver_run (arrivals : list Arrival) : Sim * TransferStats * path * option TransferError :=
  receive_file {| sock_fd := 4 |} 20 (str "out") default_receiver_config default_stats [] (receiving_world arrivals).

Definition demo_arrivals : list Arrival := Signal :: map (fun d => Datagram d.1) (sent demo_run.1.1).

Example demo_received :
  (receiver_run demo_arrivals).2 = Some Transfer.kNone /\ (receiver_run demo_arrivals).1.2 = str "out/copy" /\
  exists i, names (view (receiver_run demo_arrivals).1.1.1) !! str "out/copy" = Some i /\
            data (view (receiver_run demo_arrivals).1.1.1) !! i = Some demo_file.
Proof. split_and!; [vm_compute; reflexivity..|]. exists 10%nat. split; vm_compute; reflexivity. Qed.

(** What a call of [receive_file] that ended in [r] says, with the call kept
    as an equation. *)
Lemma receiver_run_ends arrivals w st out r :
  receiver_run arrivals = (w, st, out, r) ->
  receive_file {| sock_fd := 4 |} 20 (str "out") default_receiver_config default_stats [] (receiving_world arrivals)
    = (w, st, out, r).
Proof. unfold receiver_run. intros He. exact He. Qed.

Lemma demo_received_ends :
  exists w st, receiver_run demo_arrivals = (w, st, str "out/copy", Some Transfer.kNone).
Proof.
  pose proof demo_received as (Hr & Ho & _). destruct (receiver_run demo_arrivals) as [[[w st] out] r].
  simpl in Hr, Ho. subst. by exists w, st.
Qed.

Lemma received_file_is_verified_witness :
  exists w st, receiver_run demo_arrivals = (w, st, str "out/copy", Some Transfer.kNone) /\
  exists i c fin name, packet_type (header fin) = kFin /\
    names (view w) !! str "out/copy" = Some i /\ data (view w) !! i = Some c /\
    payload fin = Sha256.sha256 (take (Z.to_nat (byte_offset (header fin))) c) /\
    resolve (str "out/copy") = resolve (str "out") ++ [name].
Proof.
  destruct demo_received_ends as (w & st & He). exists w, st. split; [exact He|].
  apply receiver_run_ends in He.
  pose proof (received_file_is_verified {| sock_fd := 4 |} 20 (str "out") default_receiver_config default_stats []
    (receiving_world demo_arrivals)) as Hc.
  rewrite He in Hc. destruct (Hc eq_refl) as [(i & c & fin & name & _ & Ht & Hn & Hd & _ & Hp & Hres) _].
  exists i, c, fin, name. split; [exact Ht|]. split; [exact Hn|]. split; [exact Hd|]. split; [exact Hp|exact Hres].
Defined.

(** The sender falls silent after two chunks. *)
Definition cut_arrivals : list Arrival := take 4 demo_arrivals.

Lemma cut_received_ends :
  exists w st out, receiver_run cut_arrivals = (w, st, out, Some kPeerUnresponsive).
Proof.
  assert ((receiver_run cut_arrivals).2 = Some kPeerUnresponsive) as Hr by (vm_compute; reflexivity).
  destruct (receiver_run cut_arrivals) as [[[w st] out] r]. simpl in Hr. subst. by exists w, st, out.
Qed.

Lemma failed_receive_leaves_nothing_witness :
  exists w st out, receiver_run cut_arrivals = (w, st, out, Some kPeerUnresponsive) /\
    handles (view w) = ∅ /\ names (view w) !! str "out/copy" = None.
Proof.
  destruct cut_received_ends as (w & st & out & He). exists w, st, out. split; [exact He|].
  apply receiver_run_ends in He.
  pose proof (failed_receive_leaves_nothing {| sock_fd := 4 |} 20 (str "out") default_receiver_config default_stats []
    (receiving_world cut_arrivals)) as Hc.
  rewrite He in Hc. destruct (Hc kPeerUnresponsive eq_refl) as [Hh (temp & Ht & _ & Hn)]; [discriminate|].
  destruct Hn as [Hn|[Hn _]]; [|discriminate].
  split; [exact Hh|]. rewrite Hn.
  - reflexivity.
  - destruct Ht as [->|[sid ->]]; discriminate.
Defined.

(** ** Both ends *)

(** [carried], decided for datagrams that arrive intact or are no packets. *)
Definition carried_intact (sent received : list (list byte)) : bool :=
  forallb (fun r => existsb (fun s => bool_decide (s = r)) sent || negb (ok (deserialize r))) received.

Lemma carried_intact_spec sent received : carried_intact sent received = true -> carried sent received.
Proof.
  unfold carried_intact. rewrite forallb_forall. intros Hall. apply Forall_forall. intros r Hr.
  apply list_elem_of_In in Hr. specialize (Hall r Hr). apply orb_prop in Hall as [Hs|Hs].
  - left. apply existsb_exists in Hs as (s & Hin & Heq). apply bool_decide_eq_true in Heq as ->.
    exists r. split; [by apply list_elem_of_In|constructor].
  - right. by apply negb_true_iff.
Qed.

(** The sender hears what a receiver answers, with losses, noise and repetitions;
    the receiver hears the sender, with a damaged copy of every datagram. *)
Definition answer (t : PacketType) (n : Z) : Arrival := Datagram (serialize (make_header t 77 n n 0) []).

Definition joint_script : list Arrival := [
  Silence; answer kStartAck 0; answer kAck 1; Silence; Datagram (str "junk"); answer kAck 0; answer kAck 1;
  Signal; answer kAck 2; answer kFinAck 3].

Definition joint_world : Sim := {|
  sim_disk := sim_disk demo_world; sent := []; taken := []; script := joint_script; clock := 5000000; patience := 0 |}.

Definition joint_send : Sim * TransferStats * option TransferError :=
  send_file (Q:=sorted_queue entry_less) {| sock_fd := 3 |} {| address := str "127.0.0.1"; port := 8080 |}
    demo_config 20 (str "in") joint_world default_stats.

Definition damaged (bytes : list byte) : list byte := take 20 bytes ++ str "!" ++ drop 21 bytes.

Definition joint_arrivals : Sim :=
  receiving_world (flat_map (fun d => [Datagram (damaged d.1); Datagram d.1]) (sent joint_send.1.1)).

Abbreviation joint_receive :=
  (receive_file {| sock_fd := 4 |} 40 (str "out") default_receiver_config default_stats [] joint_arrivals).

Lemma joint_transferable :
  transferable demo_config demo_file default_receiver_config (str "in") joint_world.
Proof.
  split; [exact demo_sendable|by split|by vm_compute|]. exists 7%nat. split; vm_compute; reflexivity.
Qed.

Lemma joint_carried :
  carried (sent_since joint_world joint_send.1.1) (taken_since joint_arrivals joint_receive.1.1.1) /\
  carried (sent_since joint_arrivals joint_receive.1.1.1) (taken_since joint_world joint_send.1.1).
Proof. split; apply carried_intact_spec; vm_compute; reflexivity. Qed.

(** Both ends succeed, after seven datagrams each way, and half of the receiver's
    fourteen are damaged. *)
Example joint_succeeds :
  joint_send.2 = Some Transfer.kNone /\ joint_receive.2 = Some Transfer.kNone /\
  joint_receive.1.2 = str "out/copy" /\ length (taken joint_receive.1.1.1) = 14%nat.
Proof. split_and!; vm_compute; reflexivity. Qed.

(** The two calls, as equations. *)
Lemma eta3 {A B C} (x : A * B * C) c : x.2 = c -> x = (x.1.1, x.1.2, c).
Proof. intros <-. by destruct x as [[]]. Qed.

Lemma eta4 {A B C D} (x : A * B * C * D) c d : x.1.2 = c -> x.2 = d -> x = (x.1.1.1, x.1.1.2, c, d).
Proof. intros <- <-. by destruct x as [[[]]]. Qed.

Lemma joint_sends :
  send_file (Q:=sorted_queue entry_less) {| sock_fd := 3 |} {| address := str "127.0.0.1"; port := 8080 |}
    demo_config 20 (str "in") joint_world default_stats = (joint_send.1.1, joint_send.1.2, Some Transfer.kNone).
Proof. exact (eta3 joint_send _ (proj1 joint_succeeds)). Qed.

Lemma file_travels_intact_witness :
  exists u, joint_receive.1.1.1 = u /\ arrived demo_config demo_file (str "out") (str "out/copy") u.
Proof.
  pose proof (file_travels_intact (Q:=sorted_queue entry_less) {| sock_fd := 3 |}
    {| address := str "127.0.0.1"; port := 8080 |} demo_config demo_file 20 (str "in") joint_world default_stats
    {| sock_fd := 4 |} 40 (str "out") default_receiver_config default_stats [] joint_arrivals
    joint_transferable ltac:(vm_compute; reflexivity)) as Hc.
  pose proof joint_succeeds as (_ & Hr & Ho & _).
  rewrite joint_sends, (eta4 joint_receive _ _ Ho Hr) in Hc.
  exists joint_receive.1.1.1. split; [reflexivity|]. exact (Hc (proj1 joint_carried) eq_refl).
Defined.

Lemma success_means_delivered_witness :
  exists u out, joint_receive.1.1.1 = u /\ arrived demo_config demo_file (str "out") out u.
Proof.
  pose proof (success_means_delivered (Q:=sorted_queue entry_less) {| sock_fd := 3 |}
    {| address := str "127.0.0.1"; port := 8080 |} demo_config demo_file 20 (str "in") joint_world default_stats
    {| sock_fd := 4 |} 40 (str "out") default_receiver_config default_stats [] joint_arrivals
    joint_transferable ltac:(vm_compute; reflexivity)) as Hc.
  pose proof joint_succeeds as (_ & Hr & Ho & _).
  rewrite joint_sends, (eta4 joint_receive _ _ Ho Hr) in Hc.
  destruct (Hc (proj1 joint_carried) (proj2 joint_carried) eq_refl) as [out Hout].
  exists joint_receive.1.1.1, out. split; [reflexivity|exact Hout].
Defined.

(** ** The sender comes to an end *)

(** Nobody answers START, or somebody does and then nothing more arrives. *)
Definition quiet_world (answers : list Arrival) : Sim := {|
  sim_disk := sim_disk demo_world; sent := []; taken := []; script := answers; clock := 0; patience := 0 |}.

Lemma send_file_ends_witness :
  exists e e',
    (send_file (Q:=sorted_queue entry_less) {| sock_fd := 3 |} {| address := str "127.0.0.1"; port := 8080 |}
      demo_config (Z.to_nat 300000) (str "in") (quiet_world []) default_stats).2 = Some e /\
    (send_file (Q:=sorted_queue entry_less) {| sock_fd := 3 |} {| address := str "127.0.0.1"; port := 8080 |}
      demo_config (Z.to_nat 300000) (str "in") (quiet_world [answer kStartAck 0]) default_stats).2 = Some e'.
Proof.
  assert (forall answers, exists e,
    (send_file (Q:=sorted_queue entry_less) {| sock_fd := 3 |} {| address := str "127.0.0.1"; port := 8080 |}
      demo_config (Z.to_nat 300000) (str "in") (quiet_world answers) default_stats).2 = Some e) as Hends.
  { intros answers. apply (send_file_ends (Q:=sorted_queue entry_less) {| sock_fd := 3 |}
      {| address := str "127.0.0.1"; port := 8080 |} demo_config demo_file (Z.to_nat 300000) (str "in")
      (quiet_world answers) default_stats 7).
    - split; [discriminate|reflexivity].
    - reflexivity.
    - exact (proj1 demo_holds).
    - exact (proj2 demo_holds).
    - apply Nat.leb_le. vm_compute. reflexivity.
    - rewrite Z2Nat.id by discriminate. reflexivity. }
  destruct (Hends []) as [e He]. destruct (Hends [answer kStartAck 0]) as [e' He'].
  exists e, e'. split; [exact He|exact He'].
Defined.
