(* ===== verification/Simserver.v ===== *)
(** * A server run

    The network of Simnet.v with descriptors to wait on: the socket is ready while
    the script has datagrams, with a tick of the timer after each burst, and the
    signal arrives at the end.  A server with room for one session refuses a second
    one, completes the first and then opens the second; another, beside a file it must
    not touch, lets its own go; and a third serves two senders and a stranger at
    once. *)

From S2P Require Import Prelude Words Doubles Packet Wire Transfer Filename PriorityQueue SenderWindow FileIO Disk Net ReceiverSession Footprint Receiver Sender SenderSpec EndToEnd Server ServerSpec ServerRule ServerFiles ServerFds ServerDelivery ServerCrowd Simnet.
Import Packet.Packet.
Open Scope Z_scope.

Definition sim_socket : UdpSocket := {| sock_fd := 3 |}.
Definition sim_signal : Z := 5.
Definition sim_timer : Z := 6.

#[export] Instance sim_epoll : Epoll Sim := {
  sys_epoll_create s := (s, 4);
  sys_sigprocmask s := (s, true);
  sys_signalfd s := (s, sim_signal);
  sys_timerfd_create s := (s, sim_timer);
  sys_timerfd_settime _ _ _ s := (s, true);
  sys_epoll_add _ _ s := (s, true);
  sys_epoll_wait _ s := (s, inl (match script s with [] => [sim_signal] | _ => [sock_fd sim_socket; sim_timer] end));
  sys_read_event _ s := (s, false)
}.

Definition small_config : ServerConfig := {|
  server_port := 9000; server_directory := str "out"; session_idle_timeout := 30000;
  sweep_interval := 1000; session_linger := 20000; max_sessions := 1; server_window_size := 4 |}.

Definition second_start : list byte := serialize (make_header kStart 78 0 0 3) (str "other").

(** The packets of the first transfer with the second START among them, before and
    after it could be accepted, and FIN once more at the end. *)
Definition burst : list Arrival :=
  let d := demo_arrivals in
  take 3 d ++ [Datagram second_start; Silence] ++ drop 3 d ++ [Datagram second_start] ++ drop (length d - 1) d.

Definition server_loop (arrivals : list Arrival) : Sim * Server * option Z :=
  serve sim_socket small_config 4 sim_signal sim_timer 30 new_server (receiving_world arrivals).
Definition served : Server := (server_loop burst).1.2.

Example served_report :
  (server_loop burst).2 = Some 0 /\
  (completed served, failed served, expired served, refused served, abandoned served) = (1, 0, 0, 1, 1).
Proof. split; vm_compute; reflexivity. Qed.

Lemma small_max : 0 <= max_sessions small_config < 2 ^ 63.
Proof. split; [discriminate|reflexivity]. Qed.

Lemma served_reachable : reachable (W:=Sim) sim_socket small_config served.
Proof.
  unfold served, server_loop. apply serve_reachable. exists 0, 0. constructor.
Qed.

Lemma served_ok : table_ok small_config (sessions served).
Proof.
  destruct served_reachable as (n & m & Hr). exact (proj1 (reaches_ok _ _ _ _ _ small_max Hr)).
Qed.

(** ** Witnesses of the claims of ServerSpec.v *)

Lemma server_table_bounded_witness :
  length (sessions served) = 2%nat /\ table_ok small_config (sessions served).
Proof.
  split; [vm_compute; reflexivity|]. unfold served, server_loop.
  exact (server_table_bounded sim_socket small_config 4 sim_signal sim_timer 30 (receiving_world burst) small_max).
Defined.

(** One START into an empty server. *)
Definition first_start : list byte := serialize (make_header kStart 77 0 0 5) (str "copy").
Definition one_open : Server :=
  (on_datagram sim_socket small_config first_start default_endpoint new_server (receiving_world [])).2.

Lemma one_open_reaches : reaches (W:=Sim) sim_socket small_config one_open 1 0.
Proof.
  exact (reach_datagram sim_socket small_config new_server 0 0 first_start default_endpoint (receiving_world [])
    (reach_start _ _)).
Qed.

Lemma server_accounts_witness :
  u64 (completed one_open + failed one_open + expired one_open + abandoned one_open) = 1 /\ refused one_open = 0.
Proof.
  destruct (server_accounts (W:=Sim) sim_socket small_config one_open 1 0 small_max one_open_reaches) as [Hn Hm].
  split; [rewrite Hn; reflexivity|rewrite Hm; reflexivity].
Defined.

(** The key of the first transfer in the run. *)
Definition demo_endpoint : Endpoint := from_sockaddr sim_peer.
Definition fin_bytes : list byte := match last demo_arrivals with Some (Sent_by _ b) => b | _ => [] end.
Definition settled_session : Session :=
  default (make_session 0 []) (find (key_of fin_bytes demo_endpoint) (sessions served)).

Lemma settled_found : find (key_of fin_bytes demo_endpoint) (sessions served) = Some settled_session.
Proof. vm_compute. reflexivity. Qed.

Lemma datagrams_are_isolated_witness :
  (key_of fin_bytes demo_endpoint, settled_session) ∈
    sessions (on_datagram sim_socket small_config (str "junk") demo_endpoint served (receiving_world [])).2.
Proof.
  destruct (datagrams_are_isolated sim_socket small_config (str "junk") demo_endpoint served (receiving_world [])
    small_max served_ok) as [Hnone _].
  rewrite Hnone by (left; vm_compute; reflexivity). cbn [snd].
  destruct (find_split _ _ _ settled_found) as (l1 & l2 & Hl & _). rewrite Hl. apply elem_of_app. right. left.
Defined.

(** Forty seconds later both sessions are due: one has lingered, one was idle. *)
Definition later_world : Sim :=
  {| sim_disk := sim_disk (receiving_world []); sent := []; taken := []; script := []; clock := 40000000000; patience := 0 |}.

Definition first_session : Session :=
  default (make_session 0 []) (find (key_of first_start default_endpoint) (sessions one_open)).

Lemma sweep_retires_exactly_witness :
  find (key_of first_start default_endpoint) (sessions one_open) = Some first_session /\
  (key_of first_start default_endpoint, first_session) ∉ sessions (on_timer small_config one_open later_world).2.
Proof.
  split; [vm_compute; reflexivity|]. intros Hin.
  apply (sweep_retires_exactly (W:=Sim) sim_socket small_config one_open later_world 1 0 small_max one_open_reaches) in Hin as [_ Hs].
  vm_compute in Hs. exact (Hs eq_refl).
Defined.

Lemma retransmitted_fin_answered_witness :
  type (final_reply_ (receiver settled_session)) = kFinAck /\
  exists l1 l2, sessions served = l1 ++ (key_of fin_bytes demo_endpoint, settled_session) :: l2 /\
    (on_datagram sim_socket small_config fin_bytes demo_endpoint served (receiving_world [])).2 =
      set_sessions (l1 ++ (key_of fin_bytes demo_endpoint, refreshed 0 settled_session) :: l2) served.
Proof.
  destruct (retransmitted_fin_answered sim_socket small_config fin_bytes demo_endpoint served (receiving_world []) settled_session
    served_ok ltac:(vm_compute; reflexivity) settled_found ltac:(vm_compute; reflexivity) ltac:(vm_compute; reflexivity))
    as [Ht (l1 & l2 & Hl & Ho)].
  split; [vm_compute; reflexivity|]. exists l1, l2. split; [exact Hl|]. rewrite Ho. reflexivity.
Defined.

(** ** The witness of the claim of ServerFiles.v *)

#[export] Instance sim_setup_laws : SetupLaws Sim.
Proof. by split. Qed.

(** A file outside the output directory, and one inside it. *)
Definition shared_world : Sim := {|
  sim_disk := {| disk_view := {| names := <[str "passwd" := 8%nat]> {[str "out/old" := 9%nat]};
                                 data := <[8%nat := str "root"]> {[9%nat := str "kept"]}; handles := ∅ |};
                 glitches := [] |};
  sent := []; taken := []; script := burst; clock := 0; patience := 0 |}.

Example shared_run_ends : (fst <$> (run 30 small_config shared_world).2) = Some 0.
Proof. vm_compute. reflexivity. Qed.

Lemma join_out name : join_path (str "out") name = str "out/" ++ name.
Proof. reflexivity. Qed.

Lemma server_stays_in_directory_witness :
  names (view (run 30 small_config shared_world).1) !! str "passwd" = Some 8%nat /\
  data (view (run 30 small_config shared_world).1) !! 8%nat = Some (str "root").
Proof.
  destruct (server_stays_in_directory 30 small_config shared_world) as [Hn Hd]. split.
  - destruct (decide (names (view (run 30 small_config shared_world).1) !! str "passwd" = names (view shared_world) !! str "passwd"))
      as [He|Hne].
    + rewrite He. vm_compute. reflexivity.
    + destruct (Hn (str "passwd") Hne) as (name & _ & Hq & _). change (server_directory small_config) with (str "out") in Hq.
      rewrite join_out in Hq. discriminate Hq.
  - apply (Hd 8%nat (str "root")).
    + vm_compute. reflexivity.
    + intros name _ Hi. change (server_directory small_config) with (str "out") in Hi. rewrite join_out in Hi.
      change (names (view shared_world)) with (<[str "passwd" := 8%nat]> {[str "out/old" := 9%nat]} : gmap path nat) in Hi.
      apply lookup_insert_Some in Hi as [[Hp _]|[_ Hi]]; [discriminate Hp|].
      apply lookup_singleton_Some in Hi as [_ Hi]. discriminate Hi.
    + intros fd. vm_compute. discriminate.
Defined.

(** ** The witness of the claim of ServerFds.v *)

Lemma server_descriptors_bounded_witness :
  (fst <$> (run 30 small_config shared_world).2) = Some 0 /\
  forall fd, handles (view (run 30 small_config shared_world).1) !! fd = None.
Proof.
  split; [exact shared_run_ends|]. intros fd.
  pose proof (server_descriptors_bounded 30 small_config shared_world small_max) as Hc. pose proof shared_run_ends as He.
  destruct (run 30 small_config shared_world) as [w' [r|]]; [|discriminate He].
  destruct (handles (view w') !! fd) as [i|] eqn:Hi; [|exact Hi]. apply Hc in Hi. discriminate Hi.
Defined.

(** ** The witness of the claim of ServerCrowd.v *)

(** The server of a crowd: the sender of Simnet.v, whose datagrams each come with a
    damaged copy, a second sender with a file of its own, whose datagrams come twice,
    and a stranger. *)
Definition crowd_config : ServerConfig := {|
  server_port := 9000; server_directory := str "out"; session_idle_timeout := 30000;
  sweep_interval := 1000; session_linger := 20000; max_sessions := 8; server_window_size := 4 |}.

Definition second_peer : sockaddr_in := {| sin_port := 0x911F; sin_addr := 0x7F000001 |}.
Definition stranger : sockaddr_in := {| sin_port := 0x921F; sin_addr := 0x7F000001 |}.

Definition second_reply (t : PacketType) (n : Z) : Arrival := Datagram (serialize (make_header t 78 n n 0) []).

Definition second_world : Sim := {|
  sim_disk := {| disk_view := {| names := {[str "here" := 3%nat]}; data := {[3%nat := str "abc"]}; handles := ∅ |};
                 glitches := [] |};
  sent := []; taken := [];
  script := [second_reply kStartAck 0; second_reply kAck 1; second_reply kAck 0; second_reply kFinAck 2];
  clock := 0; patience := 0 |}.

Abbreviation at_server := {| address := str "127.0.0.1"; port := 8080 |}.

Definition first_client : Client Sim := {|
  cl_config := demo_config; cl_socket := {| sock_fd := 3 |}; cl_destination := at_server; cl_endpoint := demo_endpoint;
  cl_file := demo_file; cl_path := str "in"; cl_world := joint_world; cl_stats := default_stats; cl_fuel := 20 |}.

Definition second_client : Client Sim := {|
  cl_config := {| chunk_size := 2; rto := 20; max_retries := 3; window_size := 8; loss_probability := dzero; seed := 0;
                  config_session_id := 78; remote_name := str "dir/other" |};
  cl_socket := {| sock_fd := 3 |}; cl_destination := at_server; cl_endpoint := from_sockaddr second_peer;
  cl_file := str "abc"; cl_path := str "here"; cl_world := second_world; cl_stats := default_stats; cl_fuel := 20 |}.

Definition crowd : list (Client Sim) := [first_client; second_client].
Abbreviation crowd_sent := (cl_sent (Q:=sorted_queue entry_less)).
Abbreviation crowd_sends := (cl_run (Q:=sorted_queue entry_less)).

Definition crowd_arrivals : list Arrival :=
  Sent_by stranger (serialize (make_header kStart 79 0 0 3) (str "third")) ::
  flat_map (fun x => [Datagram (damaged x.1); Sent_by second_peer x.2; Datagram x.1])
    (zip (crowd_sent first_client) (crowd_sent second_client ++ crowd_sent second_client)).

Definition crowd_world : Sim := receiving_world crowd_arrivals.
Abbreviation crowd_run := (run 60 crowd_config crowd_world).

(** [crowded], decided for datagrams that arrive intact or are no packets. *)
Definition apart_from (p : Packet) (c : Client Sim) : bool :=
  negb (session_id (header p) =? cl_id c) &&
  match sanitize_filename (payload p) with
  | (Filename.kNone, n) => negb (bool_decide (n = cl_name c)) && negb (bool_decide (n = temp_name (cl_id c)))
  | _ => true
  end.

Definition crowded_intact (clients : list (Client Sim)) (received : list (list byte * sockaddr_in)) : bool :=
  let logs := map (fun c => (crowd_sent c, cl_endpoint c)) clients in
  forallb (fun r =>
    existsb (fun log => existsb (fun s => bool_decide (s = r.1)) log.1 && bool_decide (from_sockaddr r.2 = log.2)) logs ||
    negb (ok (deserialize r.1)) || forallb (apart_from (value (deserialize r.1))) clients) received.

Lemma apart_from_spec p c : apart_from p c = true -> apart (cl_config c) (cl_name c) p.
Proof.
  unfold apart_from. intros [Hid Hn]%andb_prop. bool_to_prop. split; [done|]. intros _ n Hsan. rewrite Hsan in Hn.
  apply andb_prop in Hn as [H1 H2]. by bool_to_prop.
Qed.

Lemma crowded_intact_spec clients received :
  crowded_intact clients received = true -> crowded (Q:=sorted_queue entry_less) clients received.
Proof.
  unfold crowded_intact. rewrite forallb_forall. intros Hall. apply Forall_forall. intros r Hr.
  apply list_elem_of_In in Hr. specialize (Hall r Hr). apply orb_prop in Hall as [Hs|Hs]; [apply orb_prop in Hs as [Hs|Hs]|].
  - left. apply existsb_exists in Hs as (log & Hlog & Hs). apply in_map_iff in Hlog as (c & <- & Hc).
    apply andb_prop in Hs as [Hs He].
    apply existsb_exists in Hs as (s & Hin & Heq). cbn [fst snd] in *. bool_to_prop. subst.
    exists c, r.1. split_and!; [by apply list_elem_of_In..|constructor|done].
  - right. left. by apply negb_true_iff.
  - right. right. intros c Hc. rewrite forallb_forall in Hs. by apply apart_from_spec, Hs, list_elem_of_In.
Qed.

Lemma crowd_proper : Forall (proper crowd_config crowd_world) crowd.
Proof.
  repeat constructor; try reflexivity; try discriminate; try (intros n; discriminate).
  - exists 7%nat. split; vm_compute; reflexivity.
  - exists 3%nat. split; vm_compute; reflexivity.
Qed.

Lemma crowd_distinct : NoDup (cl_id <$> crowd) /\ NoDup (cl_name <$> crowd).
Proof. split; (eapply bool_decide_unpack; vm_compute; exact I). Qed.

Lemma crowd_meets :
  crowded (Q:=sorted_queue entry_less) crowd (drop (length (inbox crowd_world)) (inbox crowd_run.1)) /\
  Forall (fun c => carried (sent_since crowd_world crowd_run.1) (cl_heard (Q:=sorted_queue entry_less) c)) crowd.
Proof.
  split; [apply crowded_intact_spec; vm_compute; reflexivity|].
  constructor; [|constructor; [|constructor]]; apply carried_intact_spec; vm_compute; reflexivity.
Qed.

(** Both transfers complete, and the stranger's is abandoned. *)
Example crowd_report :
  (crowd_sends first_client).2 = Some Transfer.kNone /\ (crowd_sends second_client).2 = Some Transfer.kNone /\
  match crowd_run.2 with
  | Some (code, v) => code = 0 /\ (completed v, failed v, expired v, refused v, abandoned v) = (2, 0, 0, 0, 1)
  | None => False
  end.
Proof. vm_compute. split_and!; reflexivity. Qed.

Lemma served_transfers_arrive_witness :
  arrived demo_config demo_file (str "out") (str "out/copy") crowd_run.1 /\
  arrived (cl_config second_client) (str "abc") (str "out") (str "out/other") crowd_run.1.
Proof.
  pose proof (served_transfers_arrive (Q:=sorted_queue entry_less) crowd_config crowd 60 crowd_world crowd_proper
    (proj1 crowd_distinct) (proj2 crowd_distinct) ltac:(intros fd i; discriminate) (proj1 crowd_meets) (proj2 crowd_meets)) as Hc.
  pose proof crowd_report as (Hr1 & Hr2 & _).
  apply Forall_cons in Hc as [H1 Hc]. apply Forall_cons in Hc as [H2 _].
  split; [exact (H1 Hr1)|exact (H2 Hr2)].
Defined.
