(* ===== verification/Simlink.v ===== *)
(** * A line run

    The line of Link.v between the disk of Disk.v and the system of Simnet.v.  The
    answer to START, the second chunk and the answer to the first FIN are lost, and
    one signal and one short read get in the way.  The witness of Lossy.v. *)

From S2P Require Import Prelude Words Doubles Packet Wire Transfer Filename PriorityQueue SenderWindow FileIO Disk Net Health Delivery ReceiverSession Server Sender SenderSpec SenderTerm EndToEnd Link Lossy Simnet Simserver.
Open Scope Z_scope.

#[export] Instance sim_healthy : HealthyFiles Sim.
Proof.
  refine {| healthy s := healthy (sim_disk s) |}; intros.
  - cbn [sys_open sim_posix]. unfold on_disk. pose proof (ok_open p mode (sim_disk w)) as Hl.
    destruct (sys_open p mode (sim_disk w)). by apply Hl.
  - by apply ok_close.
  - cbn [sys_fstat_size sim_posix]. unfold on_disk. pose proof (ok_fstat fd i c (sim_disk w)) as Hl.
    destruct (sys_fstat_size fd (sim_disk w)). by apply Hl.
  - cbn [sys_pread sim_posix]. unfold on_disk. pose proof (ok_pread fd n off i c (sim_disk w)) as Hl.
    destruct (sys_pread fd n off (sim_disk w)). by apply Hl.
  - cbn [sys_pwrite sim_posix]. unfold on_disk. pose proof (ok_pwrite fd bs off i c (sim_disk w)) as Hl.
    destruct (sys_pwrite fd bs off (sim_disk w)). by apply Hl.
  - cbn [sys_fsync sim_posix]. unfold on_disk. pose proof (ok_fsync fd i c (sim_disk w)) as Hl.
    destruct (sys_fsync fd (sim_disk w)). by apply Hl.
  - cbn [sys_rename sim_posix]. unfold on_disk. pose proof (ok_rename p q (sim_disk w)) as Hl.
    destruct (sys_rename p q (sim_disk w)). by apply Hl.
Defined.

#[export] Instance sim_healthy_network : HealthyNetwork Sim.
Proof. split; [done|]. intros fd bytes a w Hw. split; [done|]. exists (Z.of_nat (length bytes)). split; [done|lia]. Defined.

#[export] Instance sim_arrivals : Arrivals Sim.
Proof.
  refine {| arrive bytes a s :=
    {| sim_disk := sim_disk s; Simnet.sent := Simnet.sent s; Simnet.taken := Simnet.taken s;
       script := Sent_by a bytes :: script s; Simnet.clock := Simnet.clock s; Simnet.patience := Simnet.patience s |} |}.
  by intros bytes a fd n s.
Defined.

Definition line_config : SenderConfig := {|
  chunk_size := 2; rto := 20; max_retries := 4; window_size := 2; loss_probability := dzero; seed := 0;
  config_session_id := 77; remote_name := str "copy" |}.

Definition server_at : sockaddr_in := {| sin_port := 0x2823; sin_addr := 0x7F000001 |}.

Definition line : Wiring := {|
  far_socket := sim_socket; far_config := small_config; near_address := sim_peer; far_address := server_at;
  latency := 1000000 |}.

Definition line_start : Link line Disk Sim :=
  make_link {| disk_view := {| names := {[str "in" := 7%nat]}; data := {[7%nat := demo_file]}; handles := ∅ |};
               glitches := [Short 1; Interrupted; Short 0] |}
    (receiving_world []) new_server [] [false; true; false; false; false; false; true; false; false; false; false; false; true]
    5000000 0 [] [].

Definition line_run : Link line Disk Sim * TransferStats * option TransferError :=
  send_file (Q:=sorted_queue entry_less) {| sock_fd := 3 |} {| address := str "127.0.0.1"; port := 9000 |}
    line_config 400 (str "in") line_start default_stats.

(** Eight datagrams went out, three of them again, and what is published is the file. *)
Example line_report :
  line_run.2 = Some Transfer.kNone /\ (packets_sent line_run.1.2, retransmissions line_run.1.2) = (8, 3) /\
  Server.completed (server line_run.1.1) = 1 /\ fates line_run.1.1 = [].
Proof. split_and!; vm_compute; reflexivity. Qed.

Lemma line_suited : suited (c:=line) line_config demo_file {| sock_fd := 3 |} {| address := str "127.0.0.1"; port := 9000 |}.
Proof.
  split; try (vm_compute; reflexivity); try (vm_compute; discriminate).
  - by repeat split.
  - by repeat split.
  - split; [simpl; lia|by repeat split|by vm_compute|by vm_compute|by vm_compute].
Qed.

Lemma lossy_transfer_completes_witness :
  let '(w', _, r) := line_run in
  r = Some Transfer.kNone /\ exists out, arrived line_config demo_file (str "out") out (far w').
Proof.
  apply (lossy_transfer_completes (c:=line) (W1:=Disk) (W2:=Sim) (Q:=sorted_queue entry_less) line_config demo_file
    {| sock_fd := 3 |} {| address := str "127.0.0.1"; port := 9000 |} 400 (str "in") line_start default_stats 7%nat).
  - exact line_suited.
  - reflexivity.
  - reflexivity.
  - simpl. set_solver.
  - simpl. set_solver.
  - reflexivity.
  - reflexivity.
  - vm_compute. reflexivity.
  - vm_compute. lia.
  - vm_compute. reflexivity.
Defined.
