(* ===== verification/Simrelay.v ===== *)
(** * A run of the proxy

    One implementation of the interfaces of DelayProxy.v: a script says what each
    wait finds on the two sockets and how long it takes; the run stops when the script
    ends, and the generator is seeded as on the command line.  The witnesses of DelayProxySpec.v. *)

From Stdlib Require Import Floats.SpecFloat.
From S2P Require Import Prelude Words Doubles Mt19937 Text Transfer PriorityQueue FileIO Net DelayProxy EndToEnd DelayProxySpec.
Open Scope Z_scope.

(** What a wait finds: how long it takes, and a datagram on either socket. *)
Record Turn := { turn_ns : Z; turn_front : option (list byte); turn_back : option (list byte) }.

Record RelaySim := {
  rs_turns : list Turn;
  rs_now : Turn;
  rs_clock : Z;
  rs_came : list Traffic;
  rs_went : list Traffic
}.

Definition front_fd : Z := 3.
Definition back_fd : Z := 4.
Definition client_at : sockaddr_in := {| sin_port := 0x901F; sin_addr := 0x7F000001 |}.
Definition server_at : sockaddr_in := {| sin_port := 0x2823; sin_addr := 0x7F000001 |}.

Definition rs_receive (fd : Z) (s : RelaySim) : RelaySim * (list byte * sockaddr_in + Z) :=
  match (if fd =? front_fd then turn_front (rs_now s) else turn_back (rs_now s)) with
  | Some b =>
      let a := if fd =? front_fd then client_at else server_at in
      ({| rs_turns := rs_turns s; rs_now := rs_now s; rs_clock := rs_clock s;
          rs_came := rs_came s ++ [(fd, b, a)]; rs_went := rs_went s |}, inl (b, a))
  | None => (s, inr EAGAIN)
  end.

(** The relay uses no files. *)
#[export] Instance rs_posix : Posix RelaySim := {
  sys_open _ _ s := (s, inr EINVAL);
  sys_close _ s := s;
  sys_pread _ _ _ s := (s, inr EINVAL);
  sys_pwrite _ _ _ s := (s, inr EINVAL);
  sys_fsync _ s := (s, false);
  sys_fstat_size _ s := (s, inr EINVAL);
  sys_rename _ _ s := (s, false);
  sys_unlink _ s := (s, false);
  interruptions _ := 0%nat
}.

#[export] Instance rs_network : Network RelaySim := {
  sys_socket s := (s, inl front_fd);
  sys_bind _ _ s := (s, true);
  sys_set_rcvtimeo _ _ _ s := (s, true);
  sys_getfl _ s := (s, 2);
  sys_setfl _ _ s := (s, true);
  sys_sendto fd b a s :=
    ({| rs_turns := rs_turns s; rs_now := rs_now s; rs_clock := rs_clock s;
        rs_came := rs_came s; rs_went := rs_went s ++ [(fd, b, a)] |}, inl (Z.of_nat (length b)));
  sys_recvfrom fd _ := rs_receive fd;
  sys_now s := (s, rs_clock s)
}.

Definition idle_turn : Turn := {| turn_ns := 0; turn_front := None; turn_back := None |}.

#[export] Instance rs_relay : Relay RelaySim := {
  uniform_int high g := let '(g, v) := mt_next g in (g, v mod (high + 1));
  sys_ppoll sec nsec s :=
    let turn := default idle_turn (head (rs_turns s)) in
    ({| rs_turns := tail (rs_turns s); rs_now := turn;
        rs_clock := rs_clock s + Z.max 0 (turn_ns turn); rs_came := rs_came s; rs_went := rs_went s |},
     inl (bool_decide (is_Some (turn_front turn)), bool_decide (is_Some (turn_back turn))));
  sys_stopped s := (s, match rs_turns s with [] => true | _ => false end);
  sys_random_seed s := (s, 1)
}.

#[export] Instance rs_laws : RelayLaws RelaySim.
Proof.
  refine {| clock := rs_clock; came := rs_came; went := rs_went |}; intros; simpl; try (split_and!; (lia || done)).
  unfold rs_receive. by destruct (if fd =? front_fd then _ else _).
Defined.

(** A client and a server, 25 ms apart each way, half of what passes lost, some
    doubled, a tenth corrupted. *)
Definition relay_argv : list (list byte) :=
  map str ["9001"; "9000"; "25000"; "--loss=50%"; "--duplicate=0.5"; "--corrupt=1e-1"; "--seed=5"]%string.
Definition relay_settings : Settings := default default_settings (proxy_settings relay_argv).

Definition turn (ms : Z) (f b : option (list byte)) : Turn :=
  {| turn_ns := ms * 1000000; turn_front := f; turn_back := b |}.
Definition half : Double := ddiv (dint 1) (dint 2).

(** With this seed the first datagram is kept, corrupted and doubled, the other two
    of the client are lost, and the reply is doubled. *)
Definition relay_world : RelaySim := {|
  rs_turns := [turn 0 (Some (str "one")) None; turn 10 (Some (str "two")) None; turn 5 (Some (str "three")) (Some (str "reply"));
               turn 10 None None; turn 15 None None];
  rs_now := idle_turn;
  rs_clock := 1000; rs_came := []; rs_went := [] |}.

Abbreviation relayed_run :=
  (relay_run (Q:=sorted_queue pending_less) relay_settings front_fd back_fd server_at (mt_seed (seed relay_settings)) 9 relay_world).

Example relay_settings_accepted :
  proxy_settings relay_argv = Some relay_settings /\ loss (impairment relay_settings) = half.
Proof. split; vm_compute; reflexivity. Qed.

Example relayed_traffic :
  rs_came relayed_run.1.1 =
    [(front_fd, str "one", client_at); (front_fd, str "two", client_at);
     (front_fd, str "three", client_at); (back_fd, str "reply", server_at)] /\
  rs_went relayed_run.1.1 =
    [(back_fd, flip_bit 2 2 (str "one"), server_at); (back_fd, flip_bit 2 2 (str "one"), server_at);
     (front_fd, str "reply", client_at); (front_fd, str "reply", client_at)] /\
  relayed_run.2 = true.
Proof. split_and!; vm_compute; reflexivity. Qed.

(** ** Witnesses *)

Lemma sockets_differ : front_fd <> back_fd.
Proof. discriminate. Qed.

Lemma relayed_run_ends :
  exists w p, relayed_run = (w, p, true) /\ rs_came w = rs_came relayed_run.1.1 /\ rs_went w = rs_went relayed_run.1.1.
Proof.
  pose proof relayed_traffic as (_ & _ & Hs). destruct relayed_run as [[w p] stop]. simpl in Hs. subst stop. by exists w, p.
Qed.

(** The corrupted copy that reached the server is the client's first datagram with
    one bit of its third byte flipped, and the reply came from the server. *)
Lemma relay_carries_witness :
  exists w p, relayed_run = (w, p, true) /\
    (exists b0 a0, (front_fd, b0, a0) ∈ rs_came w /\ altered relay_settings true b0 (flip_bit 2 2 (str "one"))) /\
    (exists b0 a0, (back_fd, b0, a0) ∈ rs_came w /\ altered relay_settings false b0 (str "reply")).
Proof.
  pose proof (relay_carries (Q:=sorted_queue pending_less) relay_settings front_fd back_fd server_at sockets_differ
    (mt_seed (seed relay_settings)) 9 relay_world) as Hc.
  destruct relayed_run_ends as (w & p & He & _ & Hwent). rewrite He in Hc.
  exists w, p. split; [exact He|]. change (went_since relay_world w) with (rs_went w) in Hc.
  change (came_since relay_world w) with (rs_came w) in Hc. rewrite Hwent, (proj1 (proj2 relayed_traffic)) in Hc. split.
  - destruct (Hc back_fd (flip_bit 2 2 (str "one")) server_at) as [(_ & _ & Ho)|(Hf & _)]; [constructor|exact Ho|discriminate Hf].
  - destruct (Hc front_fd (str "reply") client_at) as [(Hf & _)|(_ & _ & Ho)]; [do 2 right; constructor|discriminate Hf|exact Ho].
Defined.

Lemma relay_in_order_witness :
  exists w p gone waiting os, relayed_run = (w, p, true) /\
    fates relay_settings front_fd (rs_came w) (gone ++ waiting) /\ rs_went w = omap id os /\
    Forall2 (sends front_fd back_fd server_at (rs_came w)) gone os.
Proof.
  pose proof (relay_in_order (Q:=sorted_queue pending_less) relay_settings front_fd back_fd server_at sockets_differ
    (mt_seed (seed relay_settings)) 9 relay_world ltac:(vm_compute; reflexivity) ltac:(vm_compute; discriminate)) as Hc.
  destruct relayed_run_ends as (w & p & He & Hcame & Hwent). rewrite He in Hc.
  destruct Hc as (gone & waiting & os & Hf & _ & Hs & Hw).
  - change (came_since relay_world w) with (rs_came w). rewrite Hcame. vm_compute. reflexivity.
  - replace (clock w) with (clock relayed_run.1.1) by (by rewrite He). vm_compute. reflexivity.
  - exists w, p, gone, waiting, os. split; [exact He|]. split; [exact Hf|]. split; [exact Hw|exact Hs].
Defined.

(** The client spoke first, so the account balances exactly both ways. *)
Lemma relay_accounts_witness :
  exists w p, relayed_run = (w, p, true) /\
    received (to_server_stats p) = 3 /\ forwarded (to_server_stats p) = 2 /\
    received (to_client_stats p) = 1 /\ forwarded (to_client_stats p) = 2 /\
    u64 (received (to_client_stats p) + duplicated (to_client_stats p)) =
      u64 (forwarded (to_client_stats p) + dropped (to_client_stats p) + count false (pq_elems (queue p))).
Proof.
  pose proof (relay_accounts (Q:=sorted_queue pending_less) relay_settings front_fd back_fd server_at sockets_differ
    (mt_seed (seed relay_settings)) 9 relay_world) as Hc.
  destruct relayed_run_ends as (w & p & He & Hcame & Hwent). rewrite He in Hc.
  exists w, p. split; [exact He|]. destruct Hc as (Hc & _ & homeless & Hh & Hb).
  pose proof (Hc true) as (Hr & Hf). pose proof (Hc false) as (Hr' & Hf'). cbn [stats_of] in Hr, Hf, Hr', Hf'.
  change (came_since relay_world w) with (rs_came w) in *. change (went_since relay_world w) with (rs_went w) in *.
  rewrite Hcame, (proj1 relayed_traffic) in Hh. assert (homeless = 0) as -> by (simpl in Hh; lia). rewrite Z.add_0_r in Hb.
  rewrite Hcame in Hr, Hr'. rewrite Hwent in Hf, Hf'.
  split; [rewrite Hr; vm_compute; reflexivity|]. split; [rewrite Hf; vm_compute; reflexivity|].
  split; [rewrite Hr'; vm_compute; reflexivity|]. split; [rewrite Hf'; vm_compute; reflexivity|exact Hb].
Defined.
